(* ===== verification/_CoqProject ===== *)
-Q . S2P
Prelude.v
GoStd.v
Config.v
Regex.v
Accounts.v
Assets.v
Bigamount.v
Policy.v
Sha256.v
Merkle.v
Json.v
Storage.v
Db.v
Prog.v
Logic.v
Postgres.v
Bodies.v
Interleaving.v
Schedule.v
Chart.v
BatchManager.v
Redis.v
Planner.v
Cores.v
Operations.v
IntentJson.v
Approval.v
Proto.v
Auth.v
RateLimit.v
Grpc.v
Queries.v
Transfer.v
Subscriptions.v
Sdk.v
Ledgerctl.v
Rpc.v
Gateway.v
Routes.v
StoreRules.v
Views.v
Confinement.v
Effects.v
ApprovalSteps.v
Ledger.v
Raced.v
Solvency.v
Requests.v
Intents.v
Progress.v
Idempotency.v
Batches.v
Expiry.v
Checkpoint.v
Approvals.v
ServiceLogic.v
Moves.v
Concurrent.v
TransferSteps.v
RpcSteps.v
Isolation.v
Worker.v
Service.v
Samples.v
Tenancy.v
Rest.v
Migrations.v
DevToken.v
Fx.v
Startup.v
Wired.v
Operability.v
Portability.v
Streams.v
Client.v
Guarantees.v
Governance.v
Attestation.v
Defects.v
Interleaved.v
