(* ===== verification/Prelude.v ===== *)
(** * A verification library for the fincore ledger

    The program is a double-entry ledger service in Go. A client (pkg/sdk, cmd/ledgerctl)
    sends a request to the gRPC server (cmd/server), whose interceptors authenticate the
    caller and count its requests, or an HTTP request to the gateway in front of it, which
    makes that request for the client; a handler (internal/api/grpc) turns the message into a
    call of the planner (internal/planner), which validates it, opens a PostgreSQL
    transaction, appends one event to the log of the ledger and writes the tables that
    follow from it, commits, and then fills a Redis cache and notifies the subscribers
    (internal/subscriptions). A batch manager groups the events into Merkle batches, and
    the jobs of cmd/worker close batches, roll up balances, expire holds and approvals.
    This library models that path from the validation of its strings to the rows of its
    tables, and proves what the requests guarantee.

    ** How the code is read

    - Pure functions are Coq functions. Go's [(T, error)] is [result T] (this file);
      [errors.Is] and [errors.As] are [errors_is] and [errors_as_pg]. A gRPC handler
      answers a [reply] (Proto.v): a message or a status.
    - Code that talks to PostgreSQL, Redis, the clock, randomness or the batch manager's
      shared state is a [prog] (Prog.v): a tree of events. [run] executes it against a
      [World] (committed database, open transaction, cache, batch manager, output) under
      an [Env] that decides the clock, the ULIDs, the iteration order of Go maps, whether
      a context ended, and at every round trip whether it fails, deadlocks or loses its
      reply. The theorems hold for every [Env] unless they say otherwise.
    - A SQL statement is a function on the tables (Db.v), with the constraints of
      migrations/*.sql as the errors the code reacts to. A transaction works on a view of
      the database; a statement that fails aborts it; a commit installs the view.
    - *big.Int is [Z]; timestamps are nanoseconds since the epoch, cut to microseconds
      where PostgreSQL stores them ([pg_ts]); strings are [String.string] of bytes; a JSON
      value is [json] (Json.v), a metadata map a [gmap] behind an option for Go's nil; the
      narrowing conversions of integers are written out ([int16_of], [uint64_of], ...).

    ** The files: the program

    - Prelude, GoStd, Regex: results, list lemmas, sums; the string, time and formatting
      functions of Go's standard library the code uses; matching of the two regular
      expressions by derivatives. Sha256: crypto/sha256.
    - Accounts, Assets, Bigamount: pkg/accounts, pkg/assets, pkg/bigamount.
    - Policy: internal/policy/evaluator.go. Merkle: internal/log/merkle. Chart:
      internal/ir/schema.go. Config: internal/config.
    - Json, Storage, Db: JSON and jsonb, the records of internal/storage/store.go, the
      tables and statements. Postgres: internal/storage/postgres/store_*.go, one
      definition per method, with the connection (pool or transaction) as a parameter.
    - Prog: programs and their interpreter. BatchManager: internal/log/batch/manager.go.
      Redis: internal/storage/redis and the publication of internal/subscriptions.
    - Planner, Cores, Operations: internal/planner. The helpers and the idempotency and
      retry machinery; the do*InTx cores; the Submit* functions, batches and expiry.
      IntentJson, Approval: the stored payload of an intent that waits for approval, and
      operations_approval.go. Checkpoint: internal/projection/volumes.
    - Proto, Auth, RateLimit: the messages of pkg/proto/ledger/v1 with the converters, and
      the two interceptors. Grpc, Queries, Transfer, Subscriptions: the handlers of
      internal/api/grpc/service.go (writing, reading, Export and Import, Subscribe with
      the subscription manager). Rpc: the server of cmd/server, every RPC behind its
      interceptors.
    - Gateway, Routes: pkg/proto/ledger/v1/api.pb.gw.go, the REST gateway. Gateway has a
      definition for each function that decodes a request, Routes the patterns, the two
      registrations of every route, the choice of a route, and the HTTP server of
      cmd/server with its probes and documentation pages.
    - Worker: cmd/worker. Sdk, Ledgerctl: pkg/sdk and cmd/ledgerctl. Migrations:
      MigrateUp and MigrateDown of internal/storage/postgres/postgres.go,
      the scripts as lists of statements on a catalog, and the commands that run them.
      DevToken: cmd/devtoken.
    - Fx, Startup: the container that builds the two binaries, as an interface; their
      constructors (configuration, logger, tracer, PostgreSQL, Redis, planner, batch
      manager, service, authenticator, servers) and modules, and what the mains start and
      stop, as the list of the actions on the world outside.

    ** The files: the proofs

    - Logic: [wp] for requests, [txwp] and [tx_ok] for the bodies of transactions, and the
      soundness of the latter; [tx_ok] also says which statements do not see the batches,
      the one table that the pool may change during a transaction. Bodies: the interface [TxLogic] of a logic of transaction
      bodies, whose instance here is [tx_ok]. StoreRules, Effects: the rule of every store
      method and the [effect] of every core on the tables, against that interface.
    - Interleaving: the second execution, in which the statements of any number of
      transactions interleave at READ COMMITTED: a statement sees what is committed when
      it runs, a locked row waits for its transaction, and a commit applies the changes of
      the transaction to what the others committed meanwhile. [rcs] is its logic, another
      instance of [TxLogic], so that the rules of the methods hold there too. Schedule:
      an executable scheduler, sound for the interleaving, and that [run], one program
      alone, is a case of it.
    - Ledger: the abstract specification, [step], a transition system of committed
      operations, with the invariant [ledger_inv]; ApprovalSteps: the life of an approval;
      Solvency: [solvent]. Raced: [raced_step], the weaker steps an interleaved transaction
      takes, and the invariant [raced_inv] that they keep.
    - Requests, Intents, Idempotency, Batches, Expiry, Approvals: the planner refines
      steps. ServiceLogic: the interface of a logic of whole requests, against which
      TransferSteps, RpcSteps, Worker and Service prove what the import, every RPC, the
      jobs and any sequence of them do; its instances are Moves and TransferSteps (one
      request after the other) and Concurrent (requests that interleave). Progress: what
      succeeds when nothing fails.
    - Views, Confinement, Isolation: what a request for one ledger can see and touch. Rest:
      what a request to the gateway is, as an RPC. Wired: what the mains start.
    - Samples: a concrete service for the witnesses. Guarantees, Governance, Tenancy,
      Operability, Portability, Streams, Client, Attestation, Defects: the theorems about
      requests and streams, and the theorems and runs that show defects. Interleaved: what
      interleaved requests keep, and runs that show what they do not.

    ** What is proved

    - Components: validation of addresses, patterns and assets against their grammar;
      amounts; policy evaluation against parsed rules; collision extraction for Merkle
      roots; validation of addresses against a chart as paths, for every map order; a
      closed batch verifies; the configuration that [New] accepts is valid (Config.v).
    - Refinement: whatever fails, an intent commits one operation or none (Requests.v,
      Intents.v); an operation is exactly the effect of its core (Effects.v); a key is
      used once, whatever is served between two uses, and a repeated intent is answered
      with its event (Idempotency.v); a batch is all or nothing, or counts its successes.
    - Invariants of everything that requests reach one after the other (Ledger.v, Solvency.v, Service.v): double entry,
      contiguous numbering, well-typed events, unique keys, bounded holds, at most one
      revert, dual control (also of what an approval executes, Governance.v), no overdraft
      (without forced reverts and conversions, which may overdraw by design), and totals
      that roll-ups keep.
    - Interleaving (Interleaved.v): RPCs, jobs and requests that run at the same time, in
      every order of their statements, keep the journal (double entry, contiguous
      numbering, unique keys, well-typed events) and dual control. Serving them one at a
      time is one of these orders ([serial_interleaves]). They do not keep the invariants
      that rest on rows read without a lock: there are schedules with which two posts
      spend one balance, a transaction is reverted twice, and an approval that is executed
      is recorded as expired. Imports take no part.
    - REST (Rest.v): a request to the gateway is one RPC, made with the values of its path
      and a token of its headers, or is answered without one; so the gateway keeps tenants
      apart as the server does; and no two routes accept the same request.
    - Operations: migrations that stopped anywhere, for any fault, are finished by the next
      run, but what [MigrateDown] drops no later [MigrateUp] creates again (Migrations.v);
      the server accepts the tokens that devtoken mints, for their ledgers (DevToken.v).
    - The binaries (Wired.v): the server starts when its parts can be built; it listens
      only after PostgreSQL and Redis answered, serves the server of Rpc.v with its
      interceptors in their order, and stops in an order in which nothing outlives what it
      uses; it never sets a tracer. The worker never starts.
    - The edge: tenants are isolated (Tenancy.v), a principal's requests of a second are
      bounded (Operability.v), a log survives export and import (Portability.v), a
      subscriber gets no event twice, a replay of 101 events loses the last one and a longer
      one waits for the end of its context (Streams.v), the SDK refuses the posts the server
      refuses (Sdk.v), and a post it reports was done exactly once (Client.v).
    - Liveness: a funded post of a healthy service succeeds (Operability.v).
    - Termination: the loops of the code are structural or bounded by their counters,
      except these, which take fuel and are [None] without it: the expiry sweep, for which
      [ExpireHolds_terminates] shows that one pass more than there are live holds is
      enough; the replay of a subscription, which waits on a full channel until the context
      of the caller ends ([patience] counts the looks at it): [Subscribe_terminates] shows
      that 1001 pages are enough, and a patience past the end of the context, and
      [Subscribe_window] that a window of more than 101 events waits for that end; Export
      and the listings of the SDK, whose number of pages depends on the ledger (one page of
      1000 is enough in [export_import]). The Merkle climb takes
      the number of leaves as fuel, and the search for the shortest decimal form of a
      float the number of its digits, which are always enough. The parser of durations takes
      the length of its text ([parse_components_fuel]).

    ** Parameters

    [regexp.Compile] for the patterns of a chart, the parsing of JSON text, and whether a
    publisher is configured (class [Deps] in Planner.v); the verification of a JSON web
    token ([Jwt] in Auth.v); the getters of viper ([Viper] in Config.v); the flags that
    cobra parsed ([Flags] in Ledgerctl.v); the client that protoc generates
    ([LedgerServiceClient] in Sdk.v); the offset of the local time zone; the hash in
    Merkle.v (SHA-256 is defined in Sha256.v); the runtime of grpc-gateway ([Runtime] in
    Gateway.v), the JSON web keys ([Jwx] in DevToken.v), the pool of pgx ([Pgxpool] in
    Migrations.v), the pings of the readiness probe, and for the start of the binaries the
    container ([Fx] in Fx.v), the clients of Redis and of key sets, the loggers and the
    exporters of traces ([Goredis], [JwkCache], [Zap], [Otel] in Startup.v). What is assumed of them is: the
    size of the digests in the binding theorem; [RuntimeLaws], what the runtime documents of
    matching a path, filling a field and mapping the headers Authorization and
    Grpc-Metadata-Authorization, for the theorems of Rest.v, with [sample_runtime] an instance; and [JwxLaws], that a token
    signed with a key verifies against that key, for DevToken.v, with [dev_laws] one;
    and [FxDocumented], what fx documents of one application (it refuses a type provided
    twice or missing, calls constructors once and in the order of their dependencies, and
    starts and stops hooks in the order they were appended and in reverse), for Wired.v,
    with [ordered_fx] a container for which it holds.

    ** What is not modelled

    The theorems outside Interleaved.v are about requests that run one after the other;
    in that file, Redis, the batch manager's memory and the answers of faults are
    arbitrary, imports take no part, and a transaction reads its own changes and the last
    committed state. The goroutines that close batches are outputs, not concurrent steps; the
    goroutine of a subscription is a sequence of steps, with other requests between them.
    Every text error keeps its format string only. Reads by the sweep take the database's
    clock from the environment like the process's, and a job's timeout is a fault of the
    environment. The catalog of the migrations has the names of schemas, tables,
    indexes and added columns, without types and constraints (those are in Db.v). Left
    out, being I/O or generated: the accessors and descriptors of the messages, what is
    written to the logs and spans (internal/observability is modelled as far as it builds
    the logger and the tracer), the standard gRPC health service, and printing by the
    commands. Connecting, listening, dialling and shutting down are actions of Startup.v
    without content. *)
From stdpp Require Export base tactics option list numbers strings gmap fin_maps sets sorting.
From Stdlib Require Export ZArith Lia Ascii String.

(** Generic notions shared by every component: Go's [(T, error)] results, the
    notations of the models, list and option lemmas, and the tactics. *)

Declare Scope go_scope.
Delimit Scope go_scope with go.
Open Scope Z_scope.

#[global] Arguments String.append : simpl nomatch.
Abbreviation length := Datatypes.length.

(** ** Error values

    Go errors are compared with [errors.Is] against the sentinels of
    internal/storage/errors.go, and with [errors.As] against a PostgreSQL error
    code; nothing in the code branches on an error's text. An error keeps its
    constant format text, the chain of wrapped errors, and its sentinel or code. *)
Inductive sentinel :=
| ErrNotFound
| ErrAlreadyExists
| ErrInsufficientFunds
| ErrInvalidIdempotencyInput
| ErrIdempotencyKeyConflict
| ErrLedgerSealed
| ErrTransactionReferenceConflict
| ErrAlreadyReverted
| ErrDeadlock
| ErrPolicyDenied
| ErrHoldExpired
| ErrHoldVoided
| ErrApprovalExpired.

(** Failures the PostgreSQL driver reports to the code. *)
Inductive pgcode :=
| PgUnique          (* 23505 unique_violation *)
| PgCheck           (* 23514 / 23503 / 23502 constraint violation *)
| PgDeadlock        (* 40P01 deadlock_detected *)
| PgInFailedTx      (* 25P02 in_failed_sql_transaction *)
| PgScalarDelete    (* 22023 cannot delete from scalar *)
| PgConn            (* connection failure *)
| PgTxClosed        (* pgx.ErrTxClosed *)
| PgCommitRollback. (* pgx.ErrTxCommitRollback *)

Inductive error :=
| ESent (s : sentinel)
| EMsg (m : string)
| EWrap (m : string) (e : error)
| EPg (c : pgcode)
| ENoRows
| ECtxDone.

#[export] Instance sentinel_eq_dec : EqDecision sentinel.
Proof. solve_decision. Defined.
#[export] Instance pgcode_eq_dec : EqDecision pgcode.
Proof. solve_decision. Defined.
#[export] Instance error_eq_dec : EqDecision error.
Proof. solve_decision. Defined.

(** [errors.Is(err, sentinel)]. *)
Fixpoint errors_is (e : error) (s : sentinel) : bool :=
  match e with
  | ESent s' => bool_decide (s' = s)
  | EWrap _ e' => errors_is e' s
  | _ => false
  end.

(** [errors.As(err, &pgErr)] and its code. *)
Fixpoint errors_as_pg (e : error) : option pgcode :=
  match e with
  | EPg c => Some c
  | EWrap _ e' => errors_as_pg e'
  | _ => None
  end.

Fixpoint errors_is_no_rows (e : error) : bool :=
  match e with
  | ENoRows => true
  | EWrap _ e' => errors_is_no_rows e'
  | _ => false
  end.

(** Go's [(T, error)]: a value or a non-nil error. *)
Inductive result (A : Type) :=
| Ok (a : A)
| Err (e : error).
Arguments Ok {A} a.
Arguments Err {A} e.

Definition is_ok {A} (r : result A) : bool :=
  match r with Ok _ => true | Err _ => false end.

Definition rbind {A B} (r : result A) (f : A -> result B) : result B :=
  match r with Ok a => f a | Err e => Err e end.

Definition rmap_err {A} (f : error -> error) (r : result A) : result A :=
  match r with Ok a => Ok a | Err e => Err (f e) end.

(** [if err := f(x); err != nil { return err }] for a pure check returning [error]. *)
Definition check (o : option error) : result unit :=
  match o with None => Ok tt | Some e => Err e end.

Notation "'let?' x ':=' r 'in' k" := (rbind r (fun x => k))
  (at level 10, x pattern, r at level 200, k at level 200,
   format "'[v' 'let?'  x  ':='  r  'in' '/' k ']'") : go_scope.
Open Scope go_scope.

(** ** Sums of integers over a list *)
Fixpoint sum_by {A} (f : A -> Z) (l : list A) : Z :=
  match l with
  | [] => 0
  | x :: l' => f x + sum_by f l'
  end.

Create HintDb ledger.
Create Rewrite HintDb ledger.

Lemma sum_by_app {A} (f : A -> Z) l1 l2 : sum_by f (l1 ++ l2) = sum_by f l1 + sum_by f l2.
Proof. induction l1; simpl; lia. Qed.

Lemma sum_by_ext {A} (f g : A -> Z) l :
  (forall x, x ∈ l -> f x = g x) -> sum_by f l = sum_by g l.
Proof.
  induction l as [|x l IH]; simpl; intros H; [done|].
  rewrite H by set_solver. rewrite IH; [done|]. intros; apply H; set_solver.
Qed.

Lemma sum_by_zero {A} (f : A -> Z) l : (forall x, x ∈ l -> f x = 0) -> sum_by f l = 0.
Proof.
  induction l as [|x l IH]; simpl; intros H; [done|].
  rewrite H by set_solver. rewrite IH; [done|]. intros; apply H; set_solver.
Qed.

Lemma sum_by_add {A} (f g : A -> Z) l : sum_by (fun x => f x + g x) l = sum_by f l + sum_by g l.
Proof. induction l; simpl; lia. Qed.

Lemma sum_by_perm {A} (f : A -> Z) l1 l2 : l1 ≡ₚ l2 -> sum_by f l1 = sum_by f l2.
Proof. induction 1; simpl; lia. Qed.

Lemma sum_by_map {A B} (f : B -> Z) (g : A -> B) l : sum_by f (map g l) = sum_by (fun x => f (g x)) l.
Proof. induction l; simpl; lia. Qed.

Lemma sum_by_flat_map {A B} (f : B -> Z) (g : A -> list B) l :
  sum_by f (flat_map g l) = sum_by (fun x => sum_by f (g x)) l.
Proof. induction l; simpl; [done|]. rewrite sum_by_app. lia. Qed.

Lemma sum_by_nonneg {A} (f : A -> Z) l : (forall x, x ∈ l -> 0 <= f x) -> 0 <= sum_by f l.
Proof.
  induction l as [|x l IH]; simpl; intros H; [lia|].
  assert (0 <= f x) by (apply H; set_solver).
  assert (0 <= sum_by f l) by (apply IH; intros; apply H; set_solver). lia.
Qed.

#[export] Instance sum_by_proper {A} (f : A -> Z) : Proper ((≡ₚ) ==> eq) (sum_by f).
Proof. intros l1 l2. apply sum_by_perm. Qed.

#[export] Hint Rewrite @sum_by_app @sum_by_map @sum_by_flat_map : ledger.

(** ** Tactics *)

(** Split the results of a Go call in a hypothesis. *)
Ltac inv_result :=
  repeat match goal with
    | H : Ok _ = Ok _ |- _ => injection H as H
    | H : Err _ = Err _ |- _ => injection H as H
    | H : Ok _ = Err _ |- _ => discriminate H
    | H : Err _ = Ok _ |- _ => discriminate H
    end; simplify_eq.

(** Case analysis on the innermost scrutinee of a goal or hypothesis. *)
Ltac break_match_in H :=
  match type of H with
  | context [match ?x with _ => _ end] =>
      lazymatch x with
      | context [match _ with _ => _ end] => fail
      | _ => let E := fresh "E" in destruct x eqn:E; simpl in H
      end
  end.
Ltac break_match_goal :=
  match goal with
  | |- context [match ?x with _ => _ end] =>
      lazymatch x with
      | context [match _ with _ => _ end] => fail
      | _ => let E := fresh "E" in destruct x eqn:E; simpl
      end
  end.

Lemma rbind_Ok {A B} (r : result A) (f : A -> result B) b :
  rbind r f = Ok b <-> exists a, r = Ok a /\ f a = Ok b.
Proof. destruct r; simpl; naive_solver. Qed.

Lemma check_Ok o u : check o = Ok u <-> o = None.
Proof. destruct o, u; simpl; naive_solver. Qed.

#[export] Hint Rewrite @rbind_Ok check_Ok : ledger.

(** Boolean tests as propositions. *)
Ltac bool_to_prop :=
  repeat match goal with
    | H : andb _ _ = true |- _ => apply andb_prop in H as [? ?]
    | H : (_ =? _)%Z = true |- _ => apply Z.eqb_eq in H
    | H : (_ =? _)%Z = false |- _ => apply Z.eqb_neq in H
    | H : (_ <? _)%Z = true |- _ => apply Z.ltb_lt in H
    | H : (_ <? _)%Z = false |- _ => apply Z.ltb_ge in H
    | H : (_ <=? _)%Z = true |- _ => apply Z.leb_le in H
    | H : (_ <=? _)%Z = false |- _ => apply Z.leb_gt in H
    | H : bool_decide _ = true |- _ => apply bool_decide_eq_true in H
    | H : bool_decide _ = false |- _ => apply bool_decide_eq_false in H
    | H : negb _ = true |- _ => apply negb_true_iff in H
    | H : negb _ = false |- _ => apply negb_false_iff in H
    | H : orb _ _ = false |- _ => apply orb_false_iff in H as [? ?]
    end.
