(* ===== verification/GoStd.v ===== *)
(** * The fragments of Go's standard library the service uses

    strings.Split, TrimSpace, Fields, HasPrefix, HasSuffix, Index, LastIndex;
    big.Int's decimal conversions; binary.BigEndian; time's RFC3339Nano layout.
    A Go string or byte slice is a [string] of bytes. White space is ASCII white
    space (the Unicode spaces outside ASCII are not recognised). *)
From S2P Require Import Prelude.
From Stdlib Require Import DecimalString DecimalZ DecimalFacts.

(** ** strings *)

(** [strings.Split(s, sep)] for a one-byte separator: never empty. *)
Fixpoint split_by (p : ascii -> bool) (s : string) : list string :=
  match s with
  | EmptyString => [EmptyString]
  | String a s' =>
      if p a then EmptyString :: split_by p s'
      else match split_by p s' with
           | h :: t => String a h :: t
           | [] => [String a EmptyString]
           end
  end.
Definition split_on (c : ascii) : string -> list string := split_by (Ascii.eqb c).

Fixpoint join_with (c : ascii) (l : list string) : string :=
  match l with
  | [] => EmptyString
  | [x] => x
  | x :: l' => x +:+ String c (join_with c l')
  end.

Definition is_space (a : ascii) : bool :=
  let n := nat_of_ascii a in
  ((9 <=? n)%nat && (n <=? 13)%nat) || (n =? 32)%nat.

Definition is_nonempty (s : string) : bool :=
  match s with EmptyString => false | _ => true end.

(** [strings.Fields]: the maximal runs of non-space bytes. *)
Definition fields (s : string) : list string := List.filter is_nonempty (split_by is_space s).

Fixpoint trim_left (s : string) : string :=
  match s with
  | String a s' => if is_space a then trim_left s' else s
  | EmptyString => EmptyString
  end.
Fixpoint trim_right (s : string) : string :=
  match s with
  | EmptyString => EmptyString
  | String a s' =>
      match trim_right s' with
      | EmptyString => if is_space a then EmptyString else String a EmptyString
      | t => String a t
      end
  end.
(** [strings.TrimSpace]. *)
Definition trim_space (s : string) : string := trim_right (trim_left s).

Definition has_prefix (s p : string) : bool := String.prefix p s.
Fixpoint has_suffix (s p : string) : bool :=
  String.eqb s p ||
  match s with EmptyString => false | String _ s' => has_suffix s' p end.

(** The text before the first [c] and after it ([strings.Index] as used). *)
Fixpoint cut_first (c : ascii) (s : string) : option (string * string) :=
  match s with
  | EmptyString => None
  | String a s' =>
      if Ascii.eqb a c then Some (EmptyString, s')
      else match cut_first c s' with
           | Some (u, v) => Some (String a u, v)
           | None => None
           end
  end.
(** The text before the last [c] and after it ([strings.LastIndex] as used). *)
Fixpoint cut_last (c : ascii) (s : string) : option (string * string) :=
  match s with
  | EmptyString => None
  | String a s' =>
      match cut_last c s' with
      | Some (u, v) => Some (String a u, v)
      | None => if Ascii.eqb a c then Some (EmptyString, s') else None
      end
  end.

Fixpoint string_forall (p : ascii -> bool) (s : string) : bool :=
  match s with
  | EmptyString => true
  | String a s' => p a && string_forall p s'
  end.

(** Lexicographic byte order, the order of [sort.Strings] and of [<] on strings. *)
Definition string_le (s t : string) : Prop := String.leb s t = true.
#[export] Instance string_le_dec s t : Decision (string_le s t).
Proof. unfold string_le. apply _. Defined.
Definition string_lt (s t : string) : bool := String.ltb s t.
Definition sort_strings (l : list string) : list string := merge_sort string_le l.

Lemma string_lt_irrefl s : string_lt s s = false.
Proof.
  unfold string_lt, String.ltb. pose proof (compare_antisym s s) as Ha.
  destruct (String.compare s s); [done|discriminate|done].
Qed.
Lemma ascii_compare_nat a b : Ascii.compare a b = Nat.compare (nat_of_ascii a) (nat_of_ascii b).
Proof. unfold Ascii.compare, nat_of_ascii. by rewrite N2Nat.inj_compare. Qed.
Lemma string_lt_trans s t u : string_lt s t = true -> string_lt t u = true -> string_lt s u = true.
Proof.
  unfold string_lt, String.ltb. revert t u. induction s as [|a s IH]; intros [|b t] [|c u]; cbn [String.compare]; try done.
  rewrite !ascii_compare_nat. destruct (Nat.compare_spec (nat_of_ascii a) (nat_of_ascii b)) as [Hab|Hab|Hab]; [..|done];
    destruct (Nat.compare_spec (nat_of_ascii b) (nat_of_ascii c)) as [Hbc|Hbc|Hbc]; try done; intros H1 H2;
    destruct (Nat.compare_spec (nat_of_ascii a) (nat_of_ascii c)) as [Hac|Hac|Hac]; try done; try lia.
  by apply (IH t).
Qed.

(** ** Character classes of the regular expressions *)
Definition ascii_between (lo hi : nat) (a : ascii) : bool :=
  let n := nat_of_ascii a in (lo <=? n)%nat && (n <=? hi)%nat.
Definition is_upper : ascii -> bool := ascii_between 65 90.
Definition is_lower : ascii -> bool := ascii_between 97 122.
Definition is_digit : ascii -> bool := ascii_between 48 57.

(** ** math/big, strconv *)

(** [big.Int.String] and [strconv.Itoa]. *)
Definition dec_of_Z (z : Z) : string := NilZero.string_of_int (Z.to_int z).

(** [big.Int.SetString(s, 10)]: an optional sign, then at least one digit. *)
Definition Z_of_dec (s : string) : option Z :=
  match s with
  | String a s' =>
      if Ascii.eqb a "+" then option_map (fun d => Z.of_uint d) (NilZero.uint_of_string s')
      else option_map Z.of_int (NilZero.int_of_string s)
  | EmptyString => None
  end.

(** ** encoding/binary: big-endian, values reduced to their width *)
Definition byte_of_Z (z : Z) : ascii := ascii_of_N (Z.to_N (z mod 256)).
Definition Z_of_byte (a : ascii) : Z := Z.of_N (N_of_ascii a).
Definition be_uint16 (z : Z) : string :=
  String (byte_of_Z (Z.shiftr z 8)) (String (byte_of_Z z) EmptyString).
Definition be_uint32 (z : Z) : string :=
  String (byte_of_Z (Z.shiftr z 24)) (String (byte_of_Z (Z.shiftr z 16)) (be_uint16 z)).

Definition bytes_of_string (s : string) : list Z := map Z_of_byte (list_ascii_of_string s).
Definition string_of_bytes (l : list Z) : string := string_of_list_ascii (map byte_of_Z l).

(** ** time: an instant is its Unix time in nanoseconds, always UTC *)
Definition Second : Z := 1000000000.
Definition Millisecond : Z := 1000000.
Definition Minute : Z := 60 * Second.
Definition Hour : Z := 60 * Minute.

Fixpoint zeros (n : nat) : string :=
  match n with O => EmptyString | S n' => String "0" (zeros n') end.
Definition pad (w : nat) (z : Z) : string :=
  let s := dec_of_Z z in zeros (w - String.length s) +:+ s.

(** Proleptic Gregorian date of a day number (day 0 is 1970-01-01). *)
Definition civil_of_days (days : Z) : Z * Z * Z :=
  let z := days + 719468 in
  let era := z / 146097 in
  let doe := z mod 146097 in
  let yoe := (doe - doe / 1460 + doe / 36524 - doe / 146096) / 365 in
  let doy := doe - (365 * yoe + yoe / 4 - yoe / 100) in
  let mp := (5 * doy + 2) / 153 in
  let d := doy - (153 * mp + 2) / 5 + 1 in
  let m := if mp <? 10 then mp + 3 else mp - 9 in
  (yoe + era * 400 + (if m <=? 2 then 1 else 0), m, d).

(** Drop the trailing zeros of a nine-digit fraction. *)
Fixpoint strip_zeros (s : string) : string :=
  match s with
  | EmptyString => EmptyString
  | String a s' =>
      match strip_zeros s' with
      | EmptyString => if Ascii.eqb a "0" then EmptyString else String a EmptyString
      | t => String a t
      end
  end.

(** The date and the time of day, [2006-01-02<sep>15:04:05.999999999]. *)
Definition date_time (sep : string) (t : Z) : string :=
  let secs := t / Second in
  let ns := t mod Second in
  let days := secs / 86400 in
  let sod := secs mod 86400 in
  let '(y, m, d) := civil_of_days days in
  let frac := strip_zeros (pad 9 ns) in
  pad 4 y +:+ "-" +:+ pad 2 m +:+ "-" +:+ pad 2 d +:+ sep +:+
  pad 2 (sod / 3600) +:+ ":" +:+ pad 2 ((sod / 60) mod 60) +:+ ":" +:+ pad 2 (sod mod 60) +:+
  (match frac with EmptyString => EmptyString | _ => "." +:+ frac end).

(** [t.Format(time.RFC3339Nano)] in a zone [off] seconds east of UTC. *)
Definition zone_suffix (off : Z) : string :=
  if off =? 0 then "Z"
  else (if off <? 0 then "-" else "+") +:+
       pad 2 (Z.abs off / 3600) +:+ ":" +:+ pad 2 ((Z.abs off / 60) mod 60).
Definition rfc3339nano_at (off t : Z) : string :=
  date_time "T" (t + off * Second) +:+ zone_suffix off.

(** [t.UTC().Format(time.RFC3339Nano)]. *)
Definition rfc3339nano (t : Z) : string := rfc3339nano_at 0 t.

(** ** Lemmas *)

Lemma string_app_nil_r (s : string) : s +:+ EmptyString = s.
Proof. induction s as [|a s IH]; simpl; [done|]. by rewrite IH. Qed.

Lemma string_forall_chars p s :
  string_forall p s = true <-> Forall (fun a => p a = true) (list_ascii_of_string s).
Proof.
  induction s as [|a s IH]; simpl; [by split|].
  by rewrite andb_true_iff, Forall_cons, IH.
Qed.

Lemma list_ascii_inj s t : list_ascii_of_string s = list_ascii_of_string t -> s = t.
Proof.
  intros H. by rewrite <- (string_of_list_ascii_of_string s), H, string_of_list_ascii_of_string.
Qed.

Lemma list_ascii_surj l : exists s, l = list_ascii_of_string s.
Proof. exists (string_of_list_ascii l). by rewrite list_ascii_of_string_of_list_ascii. Qed.

Lemma length_chars s : length (list_ascii_of_string s) = String.length s.
Proof. induction s; simpl; congruence. Qed.

Lemma chars_app s t :
  list_ascii_of_string (s +:+ t) = list_ascii_of_string s ++ list_ascii_of_string t.
Proof. induction s; simpl; congruence. Qed.

Lemma string_forall_app p s t : string_forall p (s +:+ t) = string_forall p s && string_forall p t.
Proof. induction s as [|a s IH]; simpl; [done|]. by rewrite IH, andb_assoc. Qed.

Lemma string_forall_impl (p q : ascii -> bool) s :
  (forall a, p a = true -> q a = true) -> string_forall p s = true -> string_forall q s = true.
Proof.
  intros Hpq. induction s as [|a s IH]; simpl; [done|]. intros [Ha Hs]%andb_prop.
  by rewrite Hpq, IH.
Qed.

Lemma class_not (p : ascii -> bool) c a :
  p c = false -> p a = true -> negb (Ascii.eqb a c) = true.
Proof.
  intros Hc Ha. destruct (Ascii.eqb a c) eqn:E; [|done]. apply Ascii.eqb_eq in E as ->. congruence.
Qed.

Lemma cut_none_first c s : string_forall (fun a => negb (Ascii.eqb a c)) s = true -> cut_first c s = None.
Proof.
  induction s as [|a s IH]; simpl; [done|]. intros [Ha Hs]%andb_prop.
  apply negb_true_iff in Ha. by rewrite Ha, IH.
Qed.

Lemma cut_none_last c s : string_forall (fun a => negb (Ascii.eqb a c)) s = true -> cut_last c s = None.
Proof.
  induction s as [|a s IH]; simpl; [done|]. intros [Ha Hs]%andb_prop.
  apply negb_true_iff in Ha. by rewrite IH, Ha.
Qed.

Lemma cut_first_app c s t :
  string_forall (fun a => negb (Ascii.eqb a c)) s = true -> cut_first c (s +:+ String c t) = Some (s, t).
Proof.
  induction s as [|a s IH]; simpl; [by rewrite Ascii.eqb_refl|]. intros [Ha Hs]%andb_prop.
  apply negb_true_iff in Ha. by rewrite Ha, IH.
Qed.

Lemma cut_last_app c s t :
  string_forall (fun a => negb (Ascii.eqb a c)) t = true -> cut_last c (s +:+ String c t) = Some (s, t).
Proof.
  intros Ht. induction s as [|a s IH]; simpl; [|by rewrite IH].
  by rewrite cut_none_last, Ascii.eqb_refl.
Qed.


Lemma string_app_assoc (s t u : string) : (s +:+ t) +:+ u = s +:+ (t +:+ u).
Proof. induction s as [|a s IH]; simpl; [done|]. by rewrite IH. Qed.

Lemma split_by_not_nil p s : split_by p s <> [].
Proof. destruct s as [|a s]; simpl; [done|]. destruct (p a), (split_by p s); done. Qed.

Lemma join_split c s : join_with c (split_on c s) = s.
Proof.
  unfold split_on. induction s as [|a s IH]; simpl; [done|].
  pose proof (split_by_not_nil (Ascii.eqb c) s) as Hne.
  destruct (Ascii.eqb c a) eqn:E.
  - apply Ascii.eqb_eq in E as ->. destruct (split_by _ s) eqn:E'; [done|].
    by rewrite <- IH.
  - destruct (split_by (Ascii.eqb c) s) as [|h t]; [done|].
    rewrite <- IH. by destruct t.
Qed.

Lemma split_by_app p s t :
  string_forall (fun a => negb (p a)) s = true ->
  split_by p (s +:+ t) =
    match split_by p t with h :: r => (s +:+ h) :: r | [] => [] end.
Proof.
  induction s as [|a s IH]; simpl; intros H; [by destruct (split_by p t)|].
  apply andb_prop in H as [Ha Hs]. apply negb_true_iff in Ha. rewrite Ha, IH by done.
  pose proof (split_by_not_nil p t). by destruct (split_by p t).
Qed.

Lemma split_by_forall p s :
  Forall (fun x => string_forall (fun a => negb (p a)) x = true) (split_by p s).
Proof.
  induction s as [|a s IH]; simpl; [by constructor|].
  destruct (p a) eqn:E; [by constructor|].
  inversion IH as [|h t Hh Ht Heq]; [by exfalso; eapply split_by_not_nil|].
  constructor; [|done]. simpl. by rewrite E.
Qed.

(** A list of separator-free strings is recovered from its join. *)
Lemma split_join c l :
  l <> [] ->
  Forall (fun x => string_forall (fun a => negb (Ascii.eqb c a)) x = true) l ->
  split_on c (join_with c l) = l.
Proof.
  intros Hne H. unfold split_on. induction H as [|x l Hx Hl IH]; [done|].
  destruct l as [|y l].
  - simpl. rewrite <- (string_app_nil_r x) at 1.
    rewrite split_by_app by done. simpl. by rewrite string_app_nil_r.
  - change (join_with c (x :: y :: l)) with (x +:+ String c (join_with c (y :: l))).
    rewrite split_by_app by done. simpl. rewrite Ascii.eqb_refl.
    rewrite string_app_nil_r. f_equal. by apply IH.
Qed.

Lemma to_int_not_nil z : Z.to_int z <> Decimal.Pos Decimal.Nil /\ Z.to_int z <> Decimal.Neg Decimal.Nil.
Proof.
  destruct z as [|p|p]; simpl; (split; [|done]) || split; try done;
    intros [=Hn]; by apply DecimalPos.Unsigned.to_uint_nonnil in Hn.
Qed.

Lemma Z_of_dec_of_Z z : Z_of_dec (dec_of_Z z) = Some z.
Proof.
  pose proof (to_int_not_nil z) as [Hp Hn].
  pose proof (NilZero.isi (Z.to_int z) Hp Hn) as Hisi.
  unfold Z_of_dec, dec_of_Z.
  destruct (NilZero.string_of_int (Z.to_int z)) as [|a s] eqn:E; [done|].
  destruct (Ascii.eqb a "+") eqn:Ea.
  - apply Ascii.eqb_eq in Ea as ->. exfalso. simpl in Hisi.
    by destruct (NilEmpty.uint_of_string s).
  - rewrite Hisi. simpl. by rewrite DecimalZ.of_to.
Qed.
