(* ===== verification/Regex.v ===== *)
(** * Anchored regular expressions (Go's regexp, for [^...$] patterns)

    The patterns of pkg/accounts and pkg/assets use classes, concatenation,
    alternation and bounded or unbounded repetition. [re_match] decides a match by
    Brzozowski derivatives; [lang] is the declarative semantics it is proved
    equivalent to. *)
From S2P Require Import Prelude GoStd.

Inductive re :=
| RNone
| REps
| RClass (p : ascii -> bool)
| RSeq (r1 r2 : re)
| RAlt (r1 r2 : re)
| RStar (r : re).

Definition RChar (c : ascii) : re := RClass (Ascii.eqb c).
Definition RPlus (r : re) : re := RSeq r (RStar r).
Definition ROpt (r : re) : re := RAlt REps r.
(** [r{0,n}] *)
Fixpoint RUpTo (n : nat) (r : re) : re :=
  match n with O => REps | S n' => ROpt (RSeq r (RUpTo n' r)) end.
(** [r{1,n}] for [1 <= n] *)
Definition RBetween1 (n : nat) (r : re) : re := RSeq r (RUpTo (n - 1) r).

Fixpoint nullable (r : re) : bool :=
  match r with
  | RNone | RClass _ => false
  | REps | RStar _ => true
  | RSeq r1 r2 => nullable r1 && nullable r2
  | RAlt r1 r2 => nullable r1 || nullable r2
  end.

Fixpoint deriv (a : ascii) (r : re) : re :=
  match r with
  | RNone | REps => RNone
  | RClass p => if p a then REps else RNone
  | RSeq r1 r2 =>
      if nullable r1 then RAlt (RSeq (deriv a r1) r2) (deriv a r2) else RSeq (deriv a r1) r2
  | RAlt r1 r2 => RAlt (deriv a r1) (deriv a r2)
  | RStar r1 => RSeq (deriv a r1) (RStar r1)
  end.

Fixpoint re_match_list (r : re) (l : list ascii) : bool :=
  match l with
  | [] => nullable r
  | a :: l' => re_match_list (deriv a r) l'
  end.
Definition re_match (r : re) (s : string) : bool := re_match_list r (list_ascii_of_string s).

Inductive lang : re -> list ascii -> Prop :=
| lang_eps : lang REps []
| lang_class p a : p a = true -> lang (RClass p) [a]
| lang_seq r1 r2 l1 l2 : lang r1 l1 -> lang r2 l2 -> lang (RSeq r1 r2) (l1 ++ l2)
| lang_alt_l r1 r2 l : lang r1 l -> lang (RAlt r1 r2) l
| lang_alt_r r1 r2 l : lang r2 l -> lang (RAlt r1 r2) l
| lang_star_nil r : lang (RStar r) []
| lang_star_app r l1 l2 : lang r l1 -> lang (RStar r) l2 -> lang (RStar r) (l1 ++ l2).
#[export] Hint Constructors lang : ledger.

Lemma lang_class_inv p l : lang (RClass p) l <-> exists a, l = [a] /\ p a = true.
Proof. split; [inversion 1; eauto|intros (a & -> & ?); auto with ledger]. Qed.

Lemma lang_seq_inv r1 r2 l :
  lang (RSeq r1 r2) l <-> exists l1 l2, l = l1 ++ l2 /\ lang r1 l1 /\ lang r2 l2.
Proof. split; [inversion 1; eauto|intros (? & ? & -> & ? & ?); auto with ledger]. Qed.

Lemma lang_alt_inv r1 r2 l : lang (RAlt r1 r2) l <-> lang r1 l \/ lang r2 l.
Proof. split; [inversion 1; eauto|intros []; auto with ledger]. Qed.

Lemma lang_eps_inv l : lang REps l <-> l = [].
Proof. split; [by inversion 1|intros ->; auto with ledger]. Qed.

Lemma lang_star_cons r a l :
  lang (RStar r) (a :: l) -> exists l1 l2, l = l1 ++ l2 /\ lang r (a :: l1) /\ lang (RStar r) l2.
Proof.
  intros H. remember (RStar r) as q eqn:Eq. remember (a :: l) as w eqn:Ew.
  revert a l Ew. induction H as [| | | | | |r' l1 l2 H1 IH1 H2 IH2]; intros x w Ew; simplify_eq.
  destruct l1 as [|b l1]; simpl in Ew; [by apply IH2|]. simplify_eq. eauto.
Qed.

Lemma nullable_lang r : nullable r = true <-> lang r [].
Proof.
  induction r as [| |p|r1 IH1 r2 IH2|r1 IH1 r2 IH2|r IH]; simpl.
  - split; [done|inversion 1].
  - split; auto with ledger.
  - split; [done|inversion 1].
  - rewrite andb_true_iff, IH1, IH2. split.
    + intros [H1 H2]. by apply (lang_seq _ _ [] []).
    + intros (l1 & l2 & Happ & H1 & H2)%lang_seq_inv.
      symmetry in Happ. apply app_nil in Happ as [-> ->]. done.
  - rewrite orb_true_iff, IH1, IH2. split; [intros []; auto with ledger|inversion 1; auto].
  - split; auto with ledger.
Qed.

Lemma deriv_lang a r l : lang (deriv a r) l <-> lang r (a :: l).
Proof.
  revert l. induction r as [| |p|r1 IH1 r2 IH2|r1 IH1 r2 IH2|r IH]; simpl; intros l.
  - split; inversion 1.
  - split; inversion 1.
  - rewrite lang_class_inv. destruct (p a) eqn:E.
    + rewrite lang_eps_inv. split; [intros ->; eauto|]. by intros (b & [=-> ->] & _).
    + split; [inversion 1|]. intros (b & [=-> ->] & ?). congruence.
  - assert (Hseq : lang (RSeq (deriv a r1) r2) l <->
       exists l1 l2, l = l1 ++ l2 /\ lang r1 (a :: l1) /\ lang r2 l2).
    { split.
      - inversion 1; simplify_eq. setoid_rewrite <- IH1. eauto.
      - intros (l1 & l2 & -> & H1 & H2). constructor; [by apply IH1|done]. }
    assert (Hr : lang (RSeq r1 r2) (a :: l) <->
       (exists l1 l2, l = l1 ++ l2 /\ lang r1 (a :: l1) /\ lang r2 l2) \/
       (lang r1 [] /\ lang r2 (a :: l))).
    { split.
      - intros (l1 & l2 & Happ & H1 & H2)%lang_seq_inv.
        destruct l1 as [|b l1]; simplify_eq/=; [by right|left; eauto].
      - intros [(l1 & l2 & -> & H1 & H2)|[H1 H2]].
        + by apply (lang_seq _ _ (a :: l1) l2).
        + by apply (lang_seq _ _ [] (a :: l)). }
    rewrite Hr, <- Hseq, <- nullable_lang.
    destruct (nullable r1).
    + rewrite lang_alt_inv, IH2. tauto.
    + intuition discriminate.
  - by rewrite !lang_alt_inv, IH1, IH2.
  - split.
    + intros (l1 & l2 & -> & H1 & H2)%lang_seq_inv.
      by apply (lang_star_app r (a :: l1)); [apply IH|].
    + intros H. apply lang_star_cons in H as (l1 & l2 & -> & H1 & H2).
      constructor; [by apply IH|done].
Qed.

(** The matcher decides the language. *)
Lemma re_match_list_lang r l : re_match_list r l = true <-> lang r l.
Proof.
  revert r. induction l as [|a l IH]; intros r; simpl; [apply nullable_lang|].
  by rewrite IH, deriv_lang.
Qed.

Lemma lang_star_class p l : lang (RStar (RClass p)) l <-> Forall (fun a => p a = true) l.
Proof.
  split.
  - induction l as [|a l IH]; [by constructor|]. intros H.
    apply lang_star_cons in H as (l1 & l2 & -> & H1 & H2).
    apply lang_class_inv in H1 as (b & Hb & Hp). simplify_eq. auto.
  - induction 1 as [|a l Ha Hl IH]; [constructor|].
    apply (lang_star_app _ [a]); auto with ledger.
Qed.

Lemma lang_plus_class p l :
  lang (RPlus (RClass p)) l <-> l <> [] /\ Forall (fun a => p a = true) l.
Proof.
  unfold RPlus. rewrite lang_seq_inv. setoid_rewrite lang_class_inv.
  setoid_rewrite lang_star_class. split.
  - intros (l1 & l2 & -> & (a & -> & Ha) & H2). split; [done|by constructor].
  - intros [Hne H]. destruct H as [|a l Ha Hl]; [done|]. exists [a], l. eauto.
Qed.

Lemma lang_upto_class n p l :
  lang (RUpTo n (RClass p)) l <-> (length l <= n)%nat /\ Forall (fun a => p a = true) l.
Proof.
  revert l. induction n as [|n IH]; intros l; simpl; unfold ROpt.
  - rewrite lang_eps_inv. split; [intros ->; simpl; auto|].
    intros [Hl _]. destruct l; simpl in *; [done|lia].
  - rewrite lang_alt_inv, lang_eps_inv, lang_seq_inv.
    setoid_rewrite lang_class_inv. setoid_rewrite IH. split.
    + intros [->|(l1 & l2 & -> & (a & -> & Ha) & Hl & H2)]; simpl; [split; [lia|done]|].
      split; [lia|by constructor].
    + intros [Hl H]. destruct H as [|a l Ha H]; [by left|right].
      simpl in Hl. exists [a], l. split; [done|]. split; [eauto|]. split; [lia|done].
Qed.
