(* ===== verification/Accounts.v ===== *)
(** * pkg/accounts: account addresses

    Validation by the anchored pattern [addressRe], issuer accounts, segments,
    and segment-wise pattern matching. *)
From S2P Require Import Prelude GoStd Regex.

(** [SegmentRegex] is [[a-zA-Z0-9_-]+]. *)
Definition segment_char (a : ascii) : bool :=
  is_lower a || is_upper a || is_digit a || Ascii.eqb a "_" || Ascii.eqb a "-".
Definition segmentRe : re := RPlus (RClass segment_char).
Definition addressRe : re := RSeq segmentRe (RStar (RSeq (RChar ":") segmentRe)).

Definition MaxAddressLength : nat := 1024.
Definition World : string := "_world".

Definition Validate (address : string) : option error :=
  if String.eqb address "" then Some (EMsg "account address cannot be empty")
  else if (MaxAddressLength <? String.length address)%nat then
    Some (EMsg "account address exceeds maximum length of %d characters")
  else if negb (re_match addressRe address) then
    Some (EMsg "invalid account address %q: must match %s")
  else None.

Fixpoint IsIssuer (address : string) (issuerAccounts : list string) : bool :=
  match issuerAccounts with
  | [] => false
  | issuer :: rest => if String.eqb address issuer then true else IsIssuer address rest
  end.

Definition Segments (address : string) : list string := split_on ":" address.

Definition Root (address : string) : string :=
  match Segments address with [] => "" | r :: _ => r end.

Definition ReservedRoots : gset string := {["_"]}.
Definition IsReserved (address : string) : bool := bool_decide (Root address ∈ ReservedRoots).

Fixpoint match_parts (patParts addrParts : list string) : bool :=
  match patParts, addrParts with
  | pat :: ps, seg :: ss =>
      if String.eqb pat "*" then match_parts ps ss
      else if negb (String.eqb pat seg) then false
      else match_parts ps ss
  | _, _ => true
  end.
Definition MatchPattern (address pattern : string) : bool :=
  let addrParts := Segments address in
  let patParts := Segments pattern in
  if negb (length addrParts =? length patParts)%nat then false
  else match_parts patParts addrParts.

(** ** Lemmas *)

Definition segment_ok (s : string) : Prop := s <> "" /\ string_forall segment_char s = true.

Lemma lang_segment s : lang segmentRe (list_ascii_of_string s) <-> segment_ok s.
Proof.
  unfold segmentRe, segment_ok. rewrite lang_plus_class, string_forall_chars.
  destruct s; simpl; intuition discriminate.
Qed.

(** The characters of a join, as the pattern concatenates them. *)
Lemma chars_join c x l :
  list_ascii_of_string (join_with c (x :: l)) =
    list_ascii_of_string x ++ flat_map (fun y => c :: list_ascii_of_string y) l.
Proof.
  revert x. induction l as [|y l IH]; intros x; simpl; [by rewrite app_nil_r|].
  rewrite <- IH. clear IH. induction x as [|a x IHx]; simpl; [done|]. by rewrite IHx.
Qed.

Lemma lang_tail l :
  lang (RStar (RSeq (RChar ":") segmentRe)) l <->
  exists segs, Forall segment_ok segs /\ l = flat_map (fun y => ":"%char :: list_ascii_of_string y) segs.
Proof.
  split.
  - remember (length l) as n eqn:Hn. revert l Hn.
    induction n as [n IH] using lt_wf_ind. intros [|a l] -> H; [by exists []|].
    apply lang_star_cons in H as (l1 & l2 & -> & H1 & H2).
    apply lang_seq_inv in H1 as (la & lb & Happ & Ha & Hb).
    apply lang_class_inv in Ha as (b & -> & Hcb). apply Ascii.eqb_eq in Hcb as <-.
    simplify_eq/=. destruct (list_ascii_surj lb) as [s ->].
    destruct (IH (length l2) ltac:(rewrite length_app; lia) l2 eq_refl H2) as (segs & Hok & ->).
    exists (s :: segs). split; [|done]. constructor; [by apply lang_segment|done].
  - intros (segs & Hok & ->). induction Hok as [|s segs Hs Hok IH]; simpl; [constructor|].
    apply (lang_star_app _ (":"%char :: _)); [|done].
    apply (lang_seq _ _ [":"%char]); [by constructor|by apply lang_segment].
Qed.

Lemma segment_no_colon s : segment_ok s -> string_forall (fun a => negb (Ascii.eqb ":" a)) s = true.
Proof.
  intros [_ H]. revert H. induction s as [|a s IH]; [done|]. cbn [string_forall].
  intros [Ha Hs]%andb_prop. apply andb_true_intro. split; [|by apply IH].
  destruct (Ascii.eqb ":" a) eqn:E; [|done]. by apply Ascii.eqb_eq in E as <-.
Qed.

Lemma addressRe_segments s :
  re_match addressRe s = true <-> Forall segment_ok (Segments s).
Proof.
  unfold re_match, addressRe. rewrite re_match_list_lang, lang_seq_inv. split.
  - intros (l1 & l2 & Hl & H1 & H2). destruct (list_ascii_surj l1) as [x ->].
    apply lang_segment in H1. apply lang_tail in H2 as (segs & Hok & ->).
    rewrite <- chars_join in Hl. apply list_ascii_inj in Hl as ->.
    assert (Hall : Forall segment_ok (x :: segs)) by (by constructor).
    unfold Segments. rewrite split_join; [done|done|].
    eapply Forall_impl; [exact Hall|]. apply segment_no_colon.
  - intros H. pose proof (join_split ":" s) as Hj. unfold Segments in H.
    destruct (split_on ":" s) as [|x segs] eqn:E; [by apply split_by_not_nil in E|].
    rewrite <- Hj, chars_join. inversion H; simplify_eq.
    do 2 eexists. split; [done|]. split; [by apply lang_segment|].
    apply lang_tail. by exists segs.
Qed.

(** Validation accepts exactly the addresses of 1 to 1024 bytes all of whose
    colon-separated segments are non-empty words over the segment alphabet. *)
Theorem Validate_spec address :
  Validate address = None <->
  (String.length address <= MaxAddressLength)%nat /\ Forall segment_ok (Segments address).
Proof.
  unfold Validate. rewrite <- addressRe_segments.
  destruct (String.eqb_spec address "") as [->|Hne]; [by split; [|intros [_ ?]]|].
  destruct (Nat.ltb_spec MaxAddressLength (String.length address)).
  - split; [done|]. intros [? _]. lia.
  - destruct (re_match addressRe address); simpl; naive_solver.
Qed.

Lemma match_parts_spec ps ss :
  length ss = length ps ->
  match_parts ps ss = true <-> Forall2 (fun seg pat => pat = "*" \/ pat = seg) ss ps.
Proof.
  revert ss. induction ps as [|p ps IH]; intros [|s ss]; simpl; intros Hl; try done.
  injection Hl as Hl. rewrite Forall2_cons, <- IH by done.
  destruct (String.eqb_spec p "*"); [naive_solver|].
  destruct (String.eqb_spec p s); simpl; naive_solver.
Qed.

(** A pattern matches an address exactly when they have the same segments up to
    the wildcard segment. *)
Theorem MatchPattern_spec address pattern :
  MatchPattern address pattern = true <->
  Forall2 (fun seg pat => pat = "*" \/ pat = seg) (Segments address) (Segments pattern).
Proof.
  unfold MatchPattern.
  destruct (Nat.eqb_spec (length (Segments address)) (length (Segments pattern))) as [E|E]; simpl.
  - by apply match_parts_spec.
  - split; [done|]. intros H%Forall2_length. done.
Qed.

Lemma IsIssuer_elem address issuers : IsIssuer address issuers = true <-> address ∈ issuers.
Proof.
  induction issuers as [|i l IH]; simpl; [set_solver|].
  destruct (String.eqb_spec address i); set_solver.
Qed.
