(* ===== verification/Assets.v ===== *)
(** * pkg/assets: asset identifiers [TICKER[_SUFFIX][/PRECISION]] *)
From S2P Require Import Prelude GoStd Regex.
From Stdlib Require Import DecimalString.

(** [^[A-Z][A-Z0-9]{0,16}(_[A-Z]{1,16})?(\/\d{1,6})?$] *)
Definition is_upper_digit (a : ascii) : bool := is_upper a || is_digit a.
Definition assetRe : re :=
  RSeq (RClass is_upper)
    (RSeq (RUpTo 16 (RClass is_upper_digit))
      (RSeq (ROpt (RSeq (RChar "_") (RBetween1 16 (RClass is_upper))))
        (ROpt (RSeq (RChar "/") (RBetween1 6 (RClass is_digit)))))).

Record Asset := MkAsset {
  Raw : string;
  Ticker : string;
  Suffix : string;
  Precision : Z;
}.

Definition Validate (asset : string) : option error :=
  if String.eqb asset "" then Some (EMsg "asset cannot be empty")
  else if negb (re_match assetRe asset) then Some (EMsg "invalid asset %q: must match %s")
  else None.

(** Extract the suffix if present. *)
Definition split_suffix (raw : string) (precision : Z) (remaining : string) : Asset :=
  match cut_first "_" remaining with
  | Some (ticker, suffix) => MkAsset raw ticker suffix precision
  | None => MkAsset raw remaining "" precision
  end.

Definition Parse (raw : string) : result Asset :=
  match Validate raw with
  | Some err => Err err
  | None =>
      let? (precision, remaining) :=
        match cut_last "/" raw with
        | Some (rest, precStr) =>
            match Z_of_dec precStr with
            | Some prec => Ok (prec, rest)
            | None => Err (EMsg "invalid precision in asset %q: %w")
            end
        | None => Ok (-1, raw)
        end in
      Ok (split_suffix raw precision remaining)
  end.

(** ** Specification: printing an asset from its parts *)

(** [ds] is empty when the identifier has no precision. *)
Definition render (ticker suffix ds : string) : string :=
  ticker +:+ (if String.eqb suffix "" then "" else String "_" suffix) +:+
  (if String.eqb ds "" then "" else String "/" ds).

Definition ticker_ok (t : string) : Prop :=
  exists a t', t = String a t' /\ is_upper a = true /\
    (String.length t' <= 16)%nat /\ string_forall is_upper_digit t' = true.
Definition suffix_ok (s : string) : Prop :=
  (String.length s <= 16)%nat /\ string_forall is_upper s = true.
Definition precision_ok (ds : string) : Prop :=
  (String.length ds <= 6)%nat /\ string_forall is_digit ds = true.

(** ** Lemmas *)

Lemma lang_between1_class n p l :
  (1 <= n)%nat ->
  lang (RBetween1 n (RClass p)) l <->
    (1 <= length l <= n)%nat /\ Forall (fun a => p a = true) l.
Proof.
  intros Hn. unfold RBetween1. rewrite lang_seq_inv. setoid_rewrite lang_class_inv.
  setoid_rewrite lang_upto_class. split.
  - intros (l1 & l2 & -> & (a & -> & Ha) & Hl & H2). simpl. split; [lia|by constructor].
  - intros [Hl H]. destruct H as [|a l Ha H]; simpl in *; [lia|].
    exists [a], l. split; [done|]. split; [eauto|]. split; [lia|done].
Qed.

(** A string of at most [n] digits denotes an integer below [10^n]. *)
Lemma of_uint_acc_bound d acc :
  Z.pos (Pos.of_uint_acc d acc) < (Z.pos acc + 1) * 10 ^ Z.of_nat (Decimal.nb_digits d).
Proof.
  revert acc. induction d; intros acc; cbn [Pos.of_uint_acc Decimal.nb_digits]; [lia|..];
    rewrite Nat2Z.inj_succ, Z.pow_succ_r by lia;
    (eapply Z.lt_le_trans; [apply IHd|]);
    match goal with |- _ * 10 ^ ?n <= _ => pose proof (Z.pow_pos_nonneg 10 n ltac:(lia) ltac:(lia)) end; nia.
Qed.

Lemma of_uint_bound d : 0 <= Z.of_uint d < 10 ^ Z.of_nat (Decimal.nb_digits d).
Proof.
  unfold Z.of_uint. split; [lia|].
  induction d; cbn [Pos.of_uint Decimal.nb_digits]; [lia|..];
    rewrite Nat2Z.inj_succ, Z.pow_succ_r by lia;
    [lia|..]; simpl Z.of_N; (eapply Z.lt_le_trans; [apply of_uint_acc_bound|]); lia.
Qed.

Lemma uint_of_digits s :
  string_forall is_digit s = true ->
  exists d, NilEmpty.uint_of_string s = Some d /\ Decimal.nb_digits d = String.length s.
Proof.
  induction s as [|a s IH]; simpl; [by exists Decimal.Nil|].
  intros [Ha Hs]%andb_prop. destruct (IH Hs) as (d & -> & Hd). clear IH Hs.
  destruct a as [[] [] [] [] [] [] [] []]; try (by vm_compute in Ha);
    eexists; (split; [reflexivity|simpl; by rewrite Hd]).
Qed.

Lemma Z_of_dec_digits s :
  s <> "" -> string_forall is_digit s = true ->
  exists p, Z_of_dec s = Some p /\ 0 <= p < 10 ^ Z.of_nat (String.length s).
Proof.
  intros Hne Hs. destruct (uint_of_digits s Hs) as (d & Hd & Hn).
  exists (Z.of_uint d). rewrite <- Hn. split; [|apply of_uint_bound].
  destruct s as [|a s]; [done|]. unfold Z_of_dec.
  apply andb_prop in Hs as [Ha _].
  pose proof (class_not is_digit "+" a eq_refl Ha) as Hp. apply negb_true_iff in Hp as ->.
  unfold NilZero.int_of_string.
  pose proof (class_not is_digit "-" a eq_refl Ha) as Hm. apply negb_true_iff in Hm as ->.
  simpl NilZero.uint_of_string. simpl in Hd. by rewrite Hd.
Qed.

Lemma lang_opt_tail c n p l :
  (1 <= n)%nat ->
  lang (ROpt (RSeq (RChar c) (RBetween1 n (RClass p)))) l <->
  exists s, (String.length s <= n)%nat /\ string_forall p s = true /\
    l = list_ascii_of_string (if String.eqb s "" then "" else String c s).
Proof.
  intros Hn. unfold ROpt. rewrite lang_alt_inv, lang_eps_inv, lang_seq_inv.
  setoid_rewrite lang_class_inv. setoid_rewrite lang_between1_class; [|done]. split.
  - intros [->|(l1 & l2 & -> & (a & -> & Ha) & Hl & H2)].
    + exists "". split; [simpl; lia|done].
    + apply Ascii.eqb_eq in Ha as <-. destruct (list_ascii_surj l2) as [s ->].
      rewrite length_chars in Hl. exists s. rewrite string_forall_chars.
      destruct s; simpl in *; [lia|]. split; [lia|done].
  - intros (s & Hs & Hp & ->). destruct (String.eqb_spec s "") as [->|Hne]; [by left|right].
    exists [c], (list_ascii_of_string s). split; [done|]. split; [eexists; split; [done|apply Ascii.eqb_refl]|].
    rewrite length_chars, <- string_forall_chars. split; [|done].
    destruct s; simpl in *; [done|lia].
Qed.

Lemma assetRe_spec raw :
  re_match assetRe raw = true <->
  exists t s ds, ticker_ok t /\ suffix_ok s /\ precision_ok ds /\ raw = render t s ds.
Proof.
  unfold re_match, assetRe. rewrite re_match_list_lang, lang_seq_inv.
  setoid_rewrite lang_class_inv. setoid_rewrite lang_seq_inv. setoid_rewrite lang_upto_class.
  setoid_rewrite lang_seq_inv. setoid_rewrite lang_opt_tail; [|lia..].
  unfold ticker_ok, suffix_ok, precision_ok, render. split.
  - intros (l1 & l2 & Hraw & (a & -> & Ha) & l3 & l4 & -> & (H3l & H3) & l5 & l6 & -> &
      (s & Hs & Hsp & ->) & (ds & Hds & Hdp & ->)).
    destruct (list_ascii_surj l3) as [t ->]. rewrite length_chars in H3l.
    rewrite <- string_forall_chars in H3.
    exists (String a t), s, ds. split; [by exists a, t|]. split; [done|]. split; [done|].
    apply list_ascii_inj. rewrite Hraw. simpl. by rewrite !chars_app.
  - intros (t & s & ds & (a & t' & -> & Ha & Hl & Ht) & (Hs & Hsp) & (Hds & Hdp) & ->).
    simpl. rewrite !chars_app.
    exists [a]. eexists. split; [reflexivity|]. split; [eauto|].
    exists (list_ascii_of_string t'). eexists. split; [reflexivity|].
    rewrite length_chars, <- string_forall_chars. split; [done|].
    do 2 eexists. split; [reflexivity|]. eauto 10.
Qed.

Lemma ticker_no c t :
  is_upper_digit c = false -> ticker_ok t -> string_forall (fun a => negb (Ascii.eqb a c)) t = true.
Proof.
  intros Hc (a & t' & -> & Ha & _ & Ht'). simpl. apply andb_true_intro. split.
  - apply (class_not is_upper_digit); [done|]. unfold is_upper_digit. by rewrite Ha.
  - eapply string_forall_impl; [|exact Ht']. intros b. by apply class_not.
Qed.

Lemma split_suffix_render raw p t s :
  ticker_ok t ->
  split_suffix raw p (t +:+ (if String.eqb s "" then "" else String "_" s)) = MkAsset raw t s p.
Proof.
  intros Ht. pose proof (ticker_no "_" t eq_refl Ht) as Hn. unfold split_suffix.
  destruct (String.eqb_spec s "") as [->|Hne].
  - by rewrite string_app_nil_r, cut_none_first.
  - by rewrite cut_first_app.
Qed.

Lemma Validate_render t s ds :
  ticker_ok t -> suffix_ok s -> precision_ok ds -> Validate (render t s ds) = None.
Proof.
  intros Ht Hs Hds. unfold Validate. destruct (String.eqb_spec (render t s ds) "") as [E|_].
  - exfalso. destruct Ht as (a & t' & -> & _). done.
  - by rewrite (proj2 (assetRe_spec _)) by eauto 10.
Qed.

Lemma no_slash t s :
  ticker_ok t -> suffix_ok s ->
  string_forall (fun a => negb (Ascii.eqb a "/"))
    (t +:+ (if String.eqb s "" then "" else String "_" s)) = true.
Proof.
  intros Ht [_ Hs]. rewrite string_forall_app, (ticker_no "/") by done.
  destruct (String.eqb s ""); [done|]. simpl.
  eapply string_forall_impl; [|exact Hs]. intros b. by apply class_not.
Qed.

(** Parsing recovers the parts an identifier was printed from, and the precision
    is -1 when absent and otherwise its decimal value, below 10^6: [strconv.Atoi]
    never fails on a validated identifier. *)
Lemma Parse_render t s ds :
  ticker_ok t -> suffix_ok s -> precision_ok ds ->
  exists p, Parse (render t s ds) = Ok (MkAsset (render t s ds) t s p) /\
    (ds = "" /\ p = -1 \/ ds <> "" /\ Z_of_dec ds = Some p /\ 0 <= p < 1000000).
Proof.
  intros Ht Hs Hds. unfold Parse. rewrite Validate_render by done.
  assert (Hr : render t s ds =
    (t +:+ (if String.eqb s "" then "" else String "_" s)) +:+ (if String.eqb ds "" then "" else String "/" ds))
    by (unfold render; by rewrite string_app_assoc).
  destruct Hds as [Hl Hd]. destruct (String.eqb_spec ds "") as [->|Hne].
  - assert (Hc : cut_last "/" (render t s "") = None).
    { rewrite Hr. simpl. rewrite string_app_nil_r. apply cut_none_last. by apply no_slash. }
    rewrite Hc. exists (-1). split; [|by left]. simpl.
    rewrite Hr. simpl. rewrite string_app_nil_r. by rewrite split_suffix_render.
  - assert (Hc : cut_last "/" (render t s ds) =
      Some (t +:+ (if String.eqb s "" then "" else String "_" s), ds)).
    { rewrite Hr. apply cut_last_app.
      eapply string_forall_impl; [|exact Hd]. intros b. by apply class_not. }
    destruct (Z_of_dec_digits ds Hne Hd) as (p & Hp & Hb). rewrite Hc, Hp. simpl.
    exists p. rewrite split_suffix_render by done. split; [done|]. right.
    assert (10 ^ Z.of_nat (String.length ds) <= 10 ^ 6) by (apply Z.pow_le_mono_r; lia).
    split; [done|]. split; [done|lia].
Qed.

(** Every identifier that validates parses, into the parts it is printed from. *)
Theorem Parse_spec raw :
  (exists a, Parse raw = Ok a) <->
  exists t s ds p, ticker_ok t /\ suffix_ok s /\ precision_ok ds /\ raw = render t s ds /\
    Parse raw = Ok (MkAsset raw t s p) /\
    (ds = "" /\ p = -1 \/ ds <> "" /\ Z_of_dec ds = Some p /\ 0 <= p < 1000000).
Proof.
  split; [|naive_solver]. intros [a Ha].
  assert (HV : Validate raw = None) by (unfold Parse in Ha; by destruct (Validate raw)).
  unfold Validate in HV. destruct (String.eqb raw ""); [done|].
  destruct (re_match assetRe raw) eqn:E; [|done].
  apply assetRe_spec in E as (t & s & ds & Ht & Hs & Hds & ->).
  destruct (Parse_render t s ds Ht Hs Hds) as (p & Hp). naive_solver.
Qed.
