(* ===== verification/Bigamount.v ===== *)
(** * pkg/bigamount: arbitrary-precision amounts

    An [Amount] wraps a possibly nil pointer to a big integer; every method
    treats nil as zero. *)
From S2P Require Import Prelude GoStd.

Record Amount := MkAmount { value : option Z }.

Definition New (v : Z) : Amount := MkAmount (Some v).
Definition FromBigInt (v : option Z) : Amount :=
  match v with None => MkAmount (Some 0) | Some z => MkAmount (Some z) end.
Definition FromString (s : string) : result Amount :=
  match Z_of_dec s with
  | None => Err (EMsg "invalid amount string %q")
  | Some v => Ok (MkAmount (Some v))
  end.
Definition BigInt (a : Amount) : Z :=
  match value a with None => 0 | Some v => v end.
Definition to_string (a : Amount) : string :=
  match value a with None => "0" | Some v => dec_of_Z v end.
Definition IsZero (a : Amount) : bool :=
  match value a with None => true | Some v => Z.sgn v =? 0 end.
Definition IsNegative (a : Amount) : bool :=
  match value a with None => false | Some v => Z.sgn v <? 0 end.
Definition IsPositive (a : Amount) : bool :=
  match value a with None => false | Some v => Z.sgn v >? 0 end.
Definition Cmp (a other : Amount) : Z :=
  match BigInt a ?= BigInt other with Lt => -1 | Eq => 0 | Gt => 1 end.
Definition Add (a b : Amount) : Amount := MkAmount (Some (BigInt a + BigInt b)).
Definition Sub (a b : Amount) : Amount := MkAmount (Some (BigInt a - BigInt b)).
Definition Neg (a : Amount) : Amount := MkAmount (Some (- BigInt a)).
Definition Copy (a : Amount) : Amount := FromBigInt (Some (BigInt a)).

(** Two amounts are equal when no method but a nil test tells them apart. *)
#[export] Instance amount_equiv : Equiv Amount := fun a b => BigInt a = BigInt b.
#[export] Instance amount_equivalence : Equivalence (≡@{Amount}).
Proof. split; unfold equiv, amount_equiv; red; intros; congruence. Qed.
#[export] Instance Add_proper : Proper ((≡) ==> (≡) ==> (≡)) Add.
Proof. intros a a' Ha b b' Hb. change (BigInt a + BigInt b = BigInt a' + BigInt b'). by rewrite Ha, Hb. Qed.
#[export] Instance Sub_proper : Proper ((≡) ==> (≡) ==> (≡)) Sub.
Proof. intros a a' Ha b b' Hb. change (BigInt a - BigInt b = BigInt a' - BigInt b'). by rewrite Ha, Hb. Qed.
#[export] Instance Neg_proper : Proper ((≡) ==> (≡)) Neg.
Proof. intros a a' Ha. change (- BigInt a = - BigInt a'). by rewrite Ha. Qed.
#[export] Instance IsPositive_proper : Proper ((≡) ==> eq) IsPositive.
Proof.
  intros [[a|]] [[b|]]; unfold equiv, amount_equiv, BigInt, IsPositive; simpl; intros; subst; done.
Qed.

(** The decimal text of an amount parses back to it, whatever its sign or size,
    and the tests of its sign agree with the integer. *)
Theorem amount_roundtrip a :
  (exists b, FromString (to_string a) = Ok b /\ b ≡ a) /\
  (IsPositive a = true <-> 0 < BigInt a) /\
  (IsNegative a = true <-> BigInt a < 0) /\
  (IsZero a = true <-> BigInt a = 0).
Proof.
  unfold FromString, to_string, IsPositive, IsNegative, IsZero, BigInt.
  destruct a as [[v|]]; simpl.
  - rewrite Z_of_dec_of_Z. split; [by eexists|].
    rewrite Z.gtb_lt, Z.ltb_lt, Z.eqb_eq. split; [lia|]. split; lia.
  - split; [by eexists|]. lia.
Qed.
