(* ===== verification/Policy.v ===== *)
(** * internal/policy: the line-based deny-list evaluator *)
From S2P Require Import Prelude GoStd.

Record Result := MkResult { Denied : bool; Reason : string }.
Definition allowed : Result := MkResult false "".

Definition newline : ascii := ascii_of_nat 10.

(** [matchPattern]: exact, [*], or a prefix ending in [:*]. *)
Definition matchPattern (pattern value : string) : bool :=
  if String.eqb pattern "*" then true
  else if has_suffix pattern ":*" then
    has_prefix value (String.substring 0 (String.length pattern - 1) pattern)
  else String.eqb pattern value.

Fixpoint find_account (accountPattern : string) (touched : list string) : option string :=
  match touched with
  | [] => None
  | acct :: rest =>
      if matchPattern accountPattern acct then Some acct else find_account accountPattern rest
  end.

(** The body of the rule loop: [Some] is a [return], [None] a [continue]. *)
Definition eval_line (raw principal operation : string) (touched : list string) : option Result :=
  let line := trim_space raw in
  if String.eqb line "" || has_prefix line "#" then None
  else if String.eqb line "deny all" then Some (MkResult true "blanket deny policy")
  else
    let parts := fields line in
    if (length parts <? 2)%nat || negb (String.eqb (nth 0 parts "") "deny") then None
    else
      let principalPattern := nth 1 parts "" in
      let operationPattern := if (3 <=? length parts)%nat then nth 2 parts "" else "*" in
      let accountPattern := if (4 <=? length parts)%nat then nth 3 parts "" else "*" in
      if negb (matchPattern principalPattern principal) then None
      else if negb (matchPattern operationPattern operation) then None
      else if String.eqb accountPattern "*" then
        Some (MkResult true ("denied by rule: " +:+ line))
      else
        match find_account accountPattern touched with
        | Some acct =>
            Some (MkResult true ("denied by rule: " +:+ line +:+ " (account " +:+ acct +:+ ")"))
        | None => None
        end.

Fixpoint eval_lines (lines : list string) (principal operation : string) (touched : list string) : Result :=
  match lines with
  | [] => allowed
  | l :: rest =>
      match eval_line l principal operation touched with
      | Some r => r
      | None => eval_lines rest principal operation touched
      end
  end.

Definition Evaluate (policyText principal operation : string) (touched : list string) : Result :=
  if String.eqb policyText "" then allowed
  else eval_lines (split_on newline policyText) principal operation touched.

Definition validate_line (raw : string) : option error :=
  let line := trim_space raw in
  if String.eqb line "" || has_prefix line "#" || String.eqb line "deny all" then None
  else
    let parts := fields line in
    if (length parts <? 2)%nat || negb (String.eqb (nth 0 parts "") "deny") then
      Some (EMsg "line %d: unrecognized rule %q")
    else if (4 <? length parts)%nat then Some (EMsg "line %d: too many fields in rule %q")
    else None.

Fixpoint validate_lines (lines : list string) : option error :=
  match lines with
  | [] => None
  | l :: rest => match validate_line l with Some e => Some e | None => validate_lines rest end
  end.

Definition ValidatePolicy (policyText : string) : option error :=
  validate_lines (split_on newline policyText).

(** The interface the planner uses ([policy.Evaluator]). *)
Class Evaluator := MkEvaluator {
  evaluate : string -> string -> string -> list string -> Result;
  validate_policy : string -> option error;
}.
#[export] Instance SimpleEvaluator : Evaluator := {|
  evaluate := Evaluate;
  validate_policy := ValidatePolicy;
|}.

(** ** Specification: a policy is a list of deny rules *)

Inductive rule :=
| DenyAll
| Deny (principal operation account : string).

(** The rules of a policy text; [None] when a line is not a rule. *)
Definition parse_line (raw : string) : option (list rule) :=
  let line := trim_space raw in
  if String.eqb line "" || has_prefix line "#" then Some []
  else if String.eqb line "deny all" then Some [DenyAll]
  else match fields line with
       | [d; p] => if String.eqb d "deny" then Some [Deny p "*" "*"] else None
       | [d; p; o] => if String.eqb d "deny" then Some [Deny p o "*"] else None
       | [d; p; o; a] => if String.eqb d "deny" then Some [Deny p o a] else None
       | _ => None
       end.

Fixpoint parse_lines (lines : list string) : option (list rule) :=
  match lines with
  | [] => Some []
  | l :: rest =>
      match parse_line l, parse_lines rest with
      | Some r, Some rs => Some (r ++ rs)
      | _, _ => None
      end
  end.
Definition parse_policy (text : string) : option (list rule) := parse_lines (split_on newline text).


(** ** Theorems *)


Lemma parse_line_validate l : validate_line l = None <-> is_Some (parse_line l).
Proof.
  unfold validate_line, parse_line. set (line := trim_space l).
  destruct (String.eqb line "" || has_prefix line "#"); simpl; [by split|].
  destruct (String.eqb line "deny all"); [by split|].
  destruct (fields line) as [|d [|p [|o [|a [|x r]]]]]; simpl; try (by split; [|intros []]);
    destruct (String.eqb d "deny"); simpl; split; try done; by intros [].
Qed.

Lemma parse_lines_validate ls : validate_lines ls = None <-> is_Some (parse_lines ls).
Proof.
  induction ls as [|l ls IH]; simpl; [by split|].
  pose proof (parse_line_validate l) as Hl.
  destruct (validate_line l), (parse_line l), (validate_lines ls), (parse_lines ls);
    unfold is_Some in *; naive_solver.
Qed.

(** [ValidatePolicy] accepts exactly the texts that read as a list of rules. *)
Theorem ValidatePolicy_parses text :
  ValidatePolicy text = None <-> exists rs, parse_policy text = Some rs.
Proof. apply parse_lines_validate. Qed.






