(* ===== verification/Sha256.v ===== *)
(** * crypto/sha256 (FIPS 180-4), executable

    32-bit words are integers reduced modulo 2^32 after every addition, rotation
    and shift. [sha256] maps a byte string to its 32-byte digest. *)
From S2P Require Import Prelude GoStd.

Definition w32 (z : Z) : Z := Z.land z 4294967295.
Definition add32 (a b : Z) : Z := w32 (a + b).
Definition rotr (n x : Z) : Z := w32 (Z.lor (Z.shiftr x n) (Z.shiftl x (32 - n))).
Definition bsig0 (x : Z) : Z := Z.lxor (rotr 2 x) (Z.lxor (rotr 13 x) (rotr 22 x)).
Definition bsig1 (x : Z) : Z := Z.lxor (rotr 6 x) (Z.lxor (rotr 11 x) (rotr 25 x)).
Definition ssig0 (x : Z) : Z := Z.lxor (rotr 7 x) (Z.lxor (rotr 18 x) (Z.shiftr x 3)).
Definition ssig1 (x : Z) : Z := Z.lxor (rotr 17 x) (Z.lxor (rotr 19 x) (Z.shiftr x 10)).
Definition ch (x y z : Z) : Z := Z.lxor (Z.land x y) (Z.land (w32 (Z.lnot x)) z).
Definition maj (x y z : Z) : Z := Z.lxor (Z.land x y) (Z.lxor (Z.land x z) (Z.land y z)).

(** The constants are the first 32 bits of the fractional parts of roots of the first
    primes: cube roots for the rounds, square roots for the initial digest. *)
Definition is_prime (p : Z) : bool :=
  forallb (fun d => negb (p mod Z.of_nat d =? 0)) (seq 2 (Z.to_nat p - 2)).
Definition first_primes (n : nat) : list Z := take n (filter (fun p => is_prime p = true) (map Z.of_nat (seq 2 320))).

(** The cube root of z, rounded down, by its bits from bit n - 1 down. *)
Fixpoint cube_root (n : nat) (root z : Z) : Z :=
  match n with
  | O => root
  | S b =>
      let larger := root + 2 ^ Z.of_nat b in
      cube_root b (if larger ^ 3 <=? z then larger else root) z
  end.

Definition round_constants : list Z :=
  Eval vm_compute in map (fun p => w32 (cube_root 36 0 (p * 2 ^ 96))) (first_primes 64).
Definition root_constants : list Z :=
  Eval vm_compute in map (fun p => w32 (Z.sqrt (p * 2 ^ 64))) (first_primes 8).

Record digest := MkDigest { da : Z; db : Z; dc : Z; dd : Z; de : Z; df : Z; dg : Z; dh : Z }.

Definition initial_digest : digest :=
  Eval vm_compute in
  let h i := nth i root_constants 0 in MkDigest (h 0%nat) (h 1%nat) (h 2%nat) (h 3%nat) (h 4%nat) (h 5%nat) (h 6%nat) (h 7%nat).

(** The schedule, newest word first. *)
Fixpoint extend (n : nat) (w : list Z) : list Z :=
  match n with
  | O => w
  | S n' =>
      let x := add32 (add32 (ssig1 (nth 1 w 0)) (nth 6 w 0)) (add32 (ssig0 (nth 14 w 0)) (nth 15 w 0)) in
      extend n' (x :: w)
  end.
Definition schedule (block : list Z) : list Z := rev (extend 48 (rev block)).

Definition round (s : digest) (kw : Z * Z) : digest :=
  let '(k, w) := kw in
  let t1 := add32 (dh s) (add32 (bsig1 (de s)) (add32 (ch (de s) (df s) (dg s)) (add32 k w))) in
  let t2 := add32 (bsig0 (da s)) (maj (da s) (db s) (dc s)) in
  MkDigest (add32 t1 t2) (da s) (db s) (dc s) (add32 (dd s) t1) (de s) (df s) (dg s).

Definition compress (s : digest) (block : list Z) : digest :=
  let r := fold_left round (zip round_constants (schedule block)) s in
  MkDigest (add32 (da s) (da r)) (add32 (db s) (db r)) (add32 (dc s) (dc r)) (add32 (dd s) (dd r))
           (add32 (de s) (de r)) (add32 (df s) (df r)) (add32 (dg s) (dg r)) (add32 (dh s) (dh r)).

Definition padding (len : nat) : list Z :=
  let z := (Z.to_nat ((55 - Z.of_nat len) mod 64)) in
  let bits := 8 * Z.of_nat len in
  128 :: repeat 0 z ++ map (fun i => Z.land (Z.shiftr bits (8 * i)) 255) [7; 6; 5; 4; 3; 2; 1; 0].

Fixpoint words (l : list Z) : list Z :=
  match l with
  | a :: b :: c :: d :: l' =>
      Z.lor (Z.shiftl a 24) (Z.lor (Z.shiftl b 16) (Z.lor (Z.shiftl c 8) d)) :: words l'
  | _ => []
  end.

Fixpoint blocks (fuel : nat) (l : list Z) : list (list Z) :=
  match fuel, l with
  | S f, _ :: _ => take 16 l :: blocks f (drop 16 l)
  | _, _ => []
  end.

Definition sha256 (msg : string) : string :=
  let bytes := bytes_of_string msg in
  let ws := words (bytes ++ padding (length bytes)) in
  let r := fold_left compress (blocks (length ws) ws) initial_digest in
  be_uint32 (da r) +:+ be_uint32 (db r) +:+ be_uint32 (dc r) +:+ be_uint32 (dd r) +:+
  be_uint32 (de r) +:+ be_uint32 (df r) +:+ be_uint32 (dg r) +:+ be_uint32 (dh r).

Lemma sha256_length msg : String.length (sha256 msg) = 32%nat.
Proof. reflexivity. Qed.

(** The digest of the three-byte message of the standard's first example. *)
Example sha256_abc :
  bytes_of_string (sha256 "abc") =
  [0xba;0x78;0x16;0xbf;0x8f;0x01;0xcf;0xea;0x41;0x41;0x40;0xde;0x5d;0xae;0x22;0x23;
   0xb0;0x03;0x61;0xa3;0x96;0x17;0x7a;0x9c;0xb4;0x10;0xff;0x61;0xf2;0x00;0x15;0xad].
Proof. vm_compute. reflexivity. Qed.

(** The empty message. *)
Example sha256_empty :
  bytes_of_string (sha256 "") =
  [0xe3;0xb0;0xc4;0x42;0x98;0xfc;0x1c;0x14;0x9a;0xfb;0xf4;0xc8;0x99;0x6f;0xb9;0x24;
   0x27;0xae;0x41;0xe4;0x64;0x9b;0x93;0x4c;0xa4;0x95;0x99;0x1b;0x78;0x52;0xb8;0x55].
Proof. vm_compute. reflexivity. Qed.

#[global] Opaque sha256.
