(* ===== verification/Merkle.v ===== *)
(** * internal/log/merkle: Merkle roots of the event log

    The tree is parametric in the hash, which the batch manager instantiates with
    [sha256]; what the proofs use of it is that digests have one length. *)
From S2P Require Import Prelude GoStd Sha256.

Definition leafPrefix : string := String (ascii_of_nat 0) "".
Definition internalPrefix : string := String (ascii_of_nat 1) "".

(** [writeField]: a 32-bit big-endian length, then the data. *)
Definition writeField (data : string) : string :=
  be_uint32 (Z.of_nat (String.length data)) +:+ data.

Definition leafInput (eventID systemTime eventType payload : string) : string :=
  leafPrefix +:+ writeField eventID +:+ writeField systemTime +:+ writeField eventType +:+
  writeField payload.

Section Tree.
Context (hash : string -> string).

Definition LeafHash (eventID systemTime eventType payload : string) : string :=
  hash (leafInput eventID systemTime eventType payload).

Definition internalInput (lhs rhs : string) : string := internalPrefix +:+ lhs +:+ rhs.
Definition internalHash (lhs rhs : string) : string := hash (internalInput lhs rhs).

(** One pass of the inner loop: hash the pairs, doubling an odd last node. *)
Fixpoint next_level (level : list string) : list string :=
  match level with
  | lhs :: rhs :: rest => internalHash lhs rhs :: next_level rest
  | [lhs] => [internalHash lhs lhs]
  | [] => []
  end.

(** [for len(level) > 1]: [length level] iterations are enough. *)
Fixpoint climb (fuel : nat) (level : list string) : option string :=
  match level with
  | [] => None
  | [root] => Some root
  | _ => match fuel with O => None | S f => climb f (next_level level) end
  end.

Definition ComputeRoot (leaves : list string) : option string := climb (length leaves) leaves.

Definition Verify (leaves : list string) (expectedRoot : option string) : bool :=
  match ComputeRoot leaves, expectedRoot with
  | Some computed, Some expected => String.eqb computed expected
  | _, _ => false
  end.

(** The hash inputs of two levels that differ but agree after hashing. *)
Fixpoint level_collision (l1 l2 : list string) : option (string * string) :=
  match l1, l2 with
  | a1 :: b1 :: r1, a2 :: b2 :: r2 =>
      if String.eqb a1 a2 && String.eqb b1 b2 then level_collision r1 r2
      else Some (internalInput a1 b1, internalInput a2 b2)
  | [a1], [a2] => Some (internalInput a1 a1, internalInput a2 a2)
  | _, _ => None
  end.

Fixpoint climb_collision (fuel : nat) (l1 l2 : list string) : option (string * string) :=
  match fuel with
  | O => None
  | S f =>
      if bool_decide (next_level l1 = next_level l2) then level_collision l1 l2
      else climb_collision f (next_level l1) (next_level l2)
  end.

(** Two hash inputs read off two leaf lists of the same root. *)
Definition collision (l1 l2 : list string) : option (string * string) :=
  climb_collision (length l1) l1 l2.
End Tree.

(** ** Theorems *)

Section TreeFacts.
Context (hash : string -> string) (size : nat).
Context (hash_size : forall x, String.length (hash x) = size).

Definition well_sized (l : list string) : Prop := Forall (fun x => String.length x = size) l.

Lemma list_pair_ind (P : list string -> Prop) :
  P [] -> (forall a, P [a]) -> (forall a b l, P l -> P (a :: b :: l)) -> forall l, P l.
Proof.
  intros H0 H1 H2. fix IH 1. intros [|a [|b l]]; [done..|]. apply H2, IH.
Qed.

Lemma next_level_sized l : well_sized (next_level hash l).
Proof.
  induction l as [| |a b l IH] using list_pair_ind; simpl; repeat constructor; try apply hash_size; done.
Qed.

Lemma next_level_length l : length (next_level hash l) = ((length l + 1) / 2)%nat.
Proof.
  induction l as [| |a b l IH] using list_pair_ind; [done..|]. cbn [next_level length].
  rewrite IH. replace (S (S (length l)) + 1)%nat with (length l + 1 + 1 * 2)%nat by lia.
  rewrite Nat.div_add by lia. lia.
Qed.

Lemma next_level_shorter l : (1 < length l)%nat -> (0 < length (next_level hash l) < length l)%nat.
Proof.
  intros Hl. rewrite next_level_length. split.
  - apply Nat.div_str_pos. lia.
  - apply Nat.Div0.div_lt_upper_bound; lia.
Qed.

Lemma next_level_shorter2 a b l :
  (0 < length (next_level hash (a :: b :: l)) < S (S (length l)))%nat.
Proof. apply (next_level_shorter (a :: b :: l)). simpl. lia. Qed.

(** The climb terminates: any fuel of at least the level's length gives the
    same root, and a non-empty level has one. *)
Lemma climb_fuel f1 f2 l :
  (length l <= f1)%nat -> (length l <= f2)%nat -> climb hash f1 l = climb hash f2 l.
Proof.
  revert f2 l. induction f1 as [|f1 IH]; intros f2 [|a [|b l]] H1 H2;
    try (by destruct f2); simpl in H1; [lia|].
  destruct f2 as [|f2]; simpl in H2; [lia|].
  change (climb hash f1 (next_level hash (a :: b :: l)) = climb hash f2 (next_level hash (a :: b :: l))).
  pose proof (next_level_shorter2 a b l). apply IH; lia.
Qed.

Lemma climb_total f l : (length l <= f)%nat -> l <> [] -> is_Some (climb hash f l).
Proof.
  revert l. induction f as [|f IH]; intros [|a [|b l]] H1 Hne; try done; simpl in H1; [lia|].
  change (is_Some (climb hash f (next_level hash (a :: b :: l)))).
  pose proof (next_level_shorter2 a b l) as Hlt.
  apply IH; [lia|]. intros E. rewrite E in Hlt. simpl in Hlt. lia.
Qed.

Lemma ComputeRoot_step l :
  (1 < length l)%nat -> ComputeRoot hash l = ComputeRoot hash (next_level hash l).
Proof.
  intros Hl. unfold ComputeRoot.
  destruct l as [|a [|b l]]; simpl in Hl; try lia. pose proof (next_level_shorter2 a b l).
  change (climb hash (length (b :: l)) (next_level hash (a :: b :: l)) =
    climb hash (length (next_level hash (a :: b :: l))) (next_level hash (a :: b :: l))).
  apply climb_fuel; cbn [length]; lia.
Qed.

Lemma app_sized_inj (a1 a2 b1 b2 : string) :
  String.length a1 = String.length a2 -> a1 +:+ b1 = a2 +:+ b2 -> a1 = a2 /\ b1 = b2.
Proof.
  revert a2. induction a1 as [|c a1 IH]; intros [|d a2]; simpl; intros Hl H; try done.
  injection Hl as Hl. injection H as -> H. by destruct (IH a2 Hl H) as [-> ->].
Qed.

Lemma internalInput_inj a1 b1 a2 b2 :
  String.length a1 = String.length a2 ->
  internalInput a1 b1 = internalInput a2 b2 -> a1 = a2 /\ b1 = b2.
Proof. unfold internalInput, internalPrefix. simpl. intros Hl [=H]. by apply app_sized_inj. Qed.

Lemma level_collision_spec l1 l2 :
  length l1 = length l2 -> well_sized l1 -> well_sized l2 ->
  next_level hash l1 = next_level hash l2 -> l1 <> l2 ->
  exists x y, level_collision l1 l2 = Some (x, y) /\ x <> y /\ hash x = hash y.
Proof.
  revert l2. induction l1 as [|a1|a1 b1 l1 IH] using list_pair_ind;
    intros [|a2 [|b2 l2]]; simpl; intros Hl H1 H2 Hn Hne; try done.
  - injection Hn as Hn. inversion H1; inversion H2; simplify_eq.
    do 2 eexists. split; [done|]. split; [|done].
    intros E. apply internalInput_inj in E as [-> _]; [done|congruence].
  - injection Hl as Hl. injection Hn as Hh Hn.
    inversion H1 as [|? ? Ha1 H1']; inversion H1'; inversion H2 as [|? ? Ha2 H2']; inversion H2'; simplify_eq.
    destruct (String.eqb_spec a1 a2) as [->|Ha]; [destruct (String.eqb_spec b1 b2) as [->|Hb]|]; simpl.
    + apply IH; try done. congruence.
    + do 2 eexists. split; [done|]. split; [|done].
      intros E. apply internalInput_inj in E as [_ ->]; [done|congruence].
    + do 2 eexists. split; [done|]. split; [|done].
      intros E. apply internalInput_inj in E as [-> _]; [done|congruence].
Qed.

Lemma climb_collision_spec f l1 l2 r :
  length l1 = length l2 -> well_sized l1 -> well_sized l2 ->
  climb hash f l1 = Some r -> climb hash f l2 = Some r -> l1 <> l2 ->
  exists x y, climb_collision hash f l1 l2 = Some (x, y) /\ x <> y /\ hash x = hash y.
Proof.
  revert l1 l2. induction f as [|f IH]; intros l1 l2 Hl H1 H2 Hc1 Hc2 Hne.
  { destruct l1 as [|? []], l2 as [|? []]; simpl in *; try done; congruence. }
  destruct l1 as [|a1 [|b1 l1]], l2 as [|a2 [|b2 l2]]; try (simpl in *; congruence).
  change (climb hash f (next_level hash (a1 :: b1 :: l1)) = Some r) in Hc1.
  change (climb hash f (next_level hash (a2 :: b2 :: l2)) = Some r) in Hc2.
  cbn [climb_collision]. case_bool_decide as Hn.
  - by apply level_collision_spec.
  - apply IH; try done; [|apply next_level_sized..]. rewrite !next_level_length. congruence.
Qed.
End TreeFacts.

(** C33: Two leaf lists of the same length with the same root are equal, or two
    different hash inputs with the same digest are computed from them: for as many
    events as the batch recorded, changing, swapping or replacing a leaf without
    changing the root exhibits a collision of the hash. *)
Theorem root_binding (hash : string -> string) (size : nat) l1 l2 :
  (forall x, String.length (hash x) = size) ->
  length l1 = length l2 ->
  Forall (fun x => String.length x = size) l1 ->
  Forall (fun x => String.length x = size) l2 ->
  l1 <> l2 -> l1 <> [] ->
  ComputeRoot hash l1 = ComputeRoot hash l2 ->
  exists x y, collision hash l1 l2 = Some (x, y) /\ x <> y /\ hash x = hash y.
Proof.
  intros Hsize Hl H1 H2 Hne Hnil Hr. unfold ComputeRoot in Hr.
  destruct (climb_total hash (length l1) l1) as [r Hr1]; [done..|].
  apply (climb_collision_spec hash size Hsize _ _ _ r); try done. congruence.
Qed.

(** The doubling of an odd last node makes roots of different lengths coincide:
    repeating the last of an odd number (at least three) of leaves keeps the root. *)
Theorem root_duplicate_last (hash : string -> string) l x :
  l <> [] -> Nat.Even (length l) ->
  ComputeRoot hash (l ++ [x; x]) = ComputeRoot hash (l ++ [x]).
Proof.
  intros Hne Hev. destruct l as [|y l]; [done|].
  rewrite (ComputeRoot_step hash (_ ++ [x; x])) by (simpl; rewrite length_app; simpl; lia).
  rewrite (ComputeRoot_step hash (_ ++ [x])) by (simpl; rewrite length_app; simpl; lia).
  f_equal. revert Hev. generalize (y :: l). clear. intros l.
  induction l as [|a|a b l IH] using list_pair_ind; simpl; intros Hev; [done| |].
  - destruct Hev as [k Hk]. lia.
  - f_equal. apply IH. destruct Hev as [k Hk]. exists (k - 1)%nat. simpl in Hk. lia.
Qed.

(** A constant hash collides at once. *)
Lemma root_binding_witness :
  ComputeRoot (fun _ => "h") ["a"; "b"] = ComputeRoot (fun _ => "h") ["b"; "a"] /\
  exists x y, collision (fun _ => "h") ["a"; "b"] ["b"; "a"] = Some (x, y) /\ x <> y /\ "h" = "h".
Proof.
  split; [vm_compute; reflexivity|].
  apply (root_binding (fun _ => "h") 1 ["a"; "b"] ["b"; "a"]).
  - intros x. reflexivity.
  - reflexivity.
  - repeat constructor.
  - repeat constructor.
  - discriminate.
  - discriminate.
  - vm_compute. reflexivity.
Defined.

Lemma root_duplicate_last_witness :
  ["a"; "b"] <> [] /\ Nat.Even (length ["a"; "b"]) /\
  ComputeRoot (fun x => x) (["a"; "b"] ++ ["c"; "c"]) = ComputeRoot (fun x => x) (["a"; "b"] ++ ["c"]).
Proof.
  split; [discriminate|]. split; [exists 1%nat; reflexivity|].
  apply (root_duplicate_last (fun x => x) ["a"; "b"] "c"); [discriminate|exists 1%nat; reflexivity].
Defined.
