(* ===== verification/Json.v ===== *)
(** * encoding/json and jsonb: the values stored in metadata and payload columns

    [json] holds the dynamic values ([any]) the code marshals: metadata values come
    from the API as strings, 64-bit integers, booleans, instants or null, and come back
    from a jsonb column as what [json.Unmarshal] makes of them (a number becomes a
    float64). Objects are association lists in the order they are written. Strings
    are valid UTF-8, as protobuf guarantees. *)
From S2P Require Import Prelude GoStd.

#[local] Unset Elimination Schemes.
Inductive json :=
| JNull
| JBool (b : bool)
| JInt (z : Z)         (* an int64 *)
| JFloat (z : Z)       (* a float64 holding an integer *)
| JTime (t : Z)        (* a time.Time, in UTC *)
| JStr (s : string)
| JArr (l : list json)
| JObj (l : list (string * json)).
#[local] Set Elimination Schemes.

(** A Go [map[string]any]; [None] is the nil map. *)
Definition gomap : Type := option (gmap string json).

Definition quote : ascii := ascii_of_nat 34.
Definition backslash : ascii := ascii_of_nat 92.

(** ** json.Marshal *)

Definition hex_digit (n : N) : ascii :=
  if (n <? 10)%N then ascii_of_N (48 + n) else ascii_of_N (87 + n).

Definition escape_u00 (a : ascii) : string :=
  String backslash ("u00" +:+
    String (hex_digit (N_of_ascii a / 16)) (String (hex_digit (N_of_ascii a mod 16)) EmptyString)).

Definition escape_char (a : ascii) : string :=
  if Ascii.eqb a quote || Ascii.eqb a backslash then String backslash (String a EmptyString)
  else if Ascii.eqb a (ascii_of_nat 8) then String backslash "b"
  else if Ascii.eqb a (ascii_of_nat 12) then String backslash "f"
  else if Ascii.eqb a (ascii_of_nat 10) then String backslash "n"
  else if Ascii.eqb a (ascii_of_nat 13) then String backslash "r"
  else if Ascii.eqb a (ascii_of_nat 9) then String backslash "t"
  else if (N_of_ascii a <? 32)%N || Ascii.eqb a "<" || Ascii.eqb a ">" || Ascii.eqb a "&" then escape_u00 a
  else String a EmptyString.

(** U+2028 and U+2029 (bytes E2 80 A8 and E2 80 A9) are escaped too. *)
Fixpoint escape_json (s : string) : string :=
  match s with
  | EmptyString => EmptyString
  | String a ((String b (String c s')) as t) =>
      if Ascii.eqb a (ascii_of_nat 226) && Ascii.eqb b (ascii_of_nat 128) &&
         (Ascii.eqb c (ascii_of_nat 168) || Ascii.eqb c (ascii_of_nat 169))
      then String backslash ("u202" +:+
             String (if Ascii.eqb c (ascii_of_nat 168) then "8" else "9")%char (escape_json s'))
      else escape_char a +:+ escape_json t
  | String a t => escape_char a +:+ escape_json t
  end.

Definition quoted (s : string) : string := String quote (escape_json s +:+ String quote EmptyString).

(** The float64 nearest to an integer (53 significant bits, ties to even). *)
Definition round53 (z : Z) : Z :=
  let a := Z.abs z in
  let k := Z.max 0 (Z.log2 a + 1 - 53) in
  let q := Z.shiftr a k in
  let r := a - Z.shiftl q k in
  let half := Z.shiftl 1 k / 2 in
  let q' := if (k =? 0) || (r <? half) then q
            else if half <? r then q + 1
            else if Z.even q then q else q + 1 in
  Z.sgn z * Z.shiftl q' k.

(** The shortest decimal that reads back as the same float64, as an integer. *)
Fixpoint shortest_from (fuel : nat) (unit_ a : Z) : Z :=
  match fuel with
  | O => a
  | S f =>
      let lo := a / unit_ * unit_ in
      let hi := lo + unit_ in
      let lo_ok := round53 lo =? round53 a in
      let hi_ok := round53 hi =? round53 a in
      if lo_ok && (negb hi_ok || (a - lo <=? hi - a)) then lo
      else if hi_ok then hi
      else shortest_from f (unit_ / 10) a
  end.
Definition float_digits (z : Z) : Z :=
  let a := Z.abs z in
  let n := Z.of_nat (String.length (dec_of_Z a)) in
  Z.sgn z * shortest_from (Z.to_nat n) (10 ^ (n - 1)) a.

(** Scientific notation of an integer, [d.ddde+XX]. *)
Definition scientific (z : Z) : string :=
  let ds := dec_of_Z (Z.abs z) in
  let e := Z.of_nat (String.length ds) - 1 in
  (if z <? 0 then "-" else EmptyString) +:+
  match strip_zeros ds with
  | EmptyString => "0"
  | String d EmptyString => String d EmptyString
  | String d rest => String d ("." +:+ rest)
  end +:+ "e+" +:+ pad 2 e.

Definition sep_by (sep : string) (l : list string) : string :=
  match l with
  | [] => EmptyString
  | x :: r => x +:+ fold_right (fun y acc => sep +:+ y +:+ acc) EmptyString r
  end.

Fixpoint marshal (j : json) : string :=
  match j with
  | JNull => "null"
  | JBool b => if b then "true" else "false"
  | JInt z => dec_of_Z z
  | JFloat z => if Z.abs z <? 10 ^ 21 then dec_of_Z (float_digits z) else scientific (float_digits z)
  | JTime t => quoted (rfc3339nano t)
  | JStr s => quoted s
  | JArr l => "[" +:+ sep_by "," (map marshal l) +:+ "]"
  | JObj l => "{" +:+ sep_by "," (map (fun '(k, v) => quoted k +:+ ":" +:+ marshal v) l) +:+ "}"
  end.

(** The keys of a Go map are written in increasing order. *)
Definition sort_fields (l : list (string * json)) : list (string * json) :=
  merge_sort (fun x y => string_le (fst x) (fst y)) l.
Definition json_of_map (m : gmap string json) : json := JObj (sort_fields (map_to_list m)).
Definition json_of_gomap (m : gomap) : json :=
  match m with None => JNull | Some m => json_of_map m end.
Definition json_of_strings (l : list (string * string)) : json :=
  JObj (sort_fields (map (fun '(k, v) => (k, JStr v)) l)).

(** ** fmt.Sprint *)
Fixpoint Sprint (j : json) : string :=
  match j with
  | JNull => "<nil>"
  | JBool b => if b then "true" else "false"
  | JInt z => dec_of_Z z
  | JFloat z =>
      if Z.abs z <? 10 ^ 6 then dec_of_Z z else scientific (float_digits z)
  | JTime t => date_time " " t +:+ " +0000 UTC"
  | JStr s => s
  | JArr l => "[" +:+ sep_by " " (map Sprint l) +:+ "]"
  | JObj l => "map[" +:+ sep_by " " (map (fun '(k, v) => k +:+ ":" +:+ Sprint v) l) +:+ "]"
  end.

(** ** jsonb columns *)

(** The value a jsonb column keeps of a marshalled value: numbers and strings. *)
Fixpoint to_column (j : json) : json :=
  match j with
  | JFloat z => JInt (float_digits z)
  | JTime t => JStr (rfc3339nano t)
  | JArr l => JArr (map to_column l)
  | JObj l => JObj (map (fun '(k, v) => (k, to_column v)) l)
  | j => j
  end.

(** What [json.Unmarshal] into [any] reads from a column: numbers are float64. *)
Fixpoint of_column (j : json) : json :=
  match j with
  | JInt z => JFloat (round53 z)
  | JArr l => JArr (map of_column l)
  | JObj l => JObj (map (fun '(k, v) => (k, of_column v)) l)
  | j => j
  end.

(** [json.Unmarshal] of a column into a [map[string]any] that is nil. *)
Definition unmarshal_map (j : json) : option gomap :=
  match j with
  | JNull => Some None
  | JObj l => Some (Some (list_to_map (map (fun '(k, v) => (k, of_column v)) l)))
  | _ => None
  end.

Definition assoc_remove (k : string) (l : list (string * json)) : list (string * json) :=
  List.filter (fun x => negb (String.eqb (fst x) k)) l.

Definition as_array (j : json) : list json :=
  match j with JArr l => l | j => [j] end.

(** jsonb [a || b]: objects are merged, anything else is concatenated as arrays. *)
Definition jsonb_concat (a b : json) : json :=
  match a, b with
  | JObj la, JObj lb =>
      JObj (List.filter (fun x => negb (existsb (fun y => String.eqb (fst y) (fst x)) lb)) la ++ lb)
  | _, _ => JArr (as_array a ++ as_array b)
  end.

(** jsonb [a - key]: a scalar is an error. *)
Definition is_scalar (a : json) : bool :=
  match a with JObj _ | JArr _ => false | _ => true end.
Definition jsonb_delete (a : json) (k : string) : json :=
  match a with
  | JObj l => JObj (assoc_remove k l)
  | JArr l => JArr (List.filter
      (fun j => match j with JStr s => negb (String.eqb s k) | _ => true end) l)
  | a => a
  end.

(** Readings of the encoders on values the metadata of a transaction can hold. *)
Example marshal_escapes :
  marshal (JObj [("k", JStr "a<b"); ("n", JInt (-7)); ("z", JNull)]) =
  "{" +:+ quoted "k" +:+ ":" +:+ String quote ("a" +:+ String backslash "u003cb") +:+
  String quote ("," +:+ quoted "n" +:+ ":-7," +:+ quoted "z" +:+ ":null}").
Proof. reflexivity. Qed.

Example float_reencoding :
  marshal (of_column (JInt 9223372036854775807)) = "9223372036854776000" /\
  Sprint (JFloat 1234567) = "1.234567e+06" /\ Sprint (JFloat 100000) = "100000".
Proof. repeat split; vm_compute; reflexivity. Qed.
