(* ===== verification/Storage.v ===== *)
(** * internal/storage: records, parameters and event codes

    The Go structs of store.go, with a prefix per struct on the field names. A
    [*time.Time] is an [option], a [[]byte] that may be nil is an [option string], an
    instant is its Unix time in nanoseconds. The tables reuse the records, with the
    metadata column as [json]. *)
From S2P Require Import Prelude GoStd Json.

(** ** events.go *)
Definition EventTypeTransactionPosted : Z := 1.
Definition EventTypeHoldCreated : Z := 2.
Definition EventTypeHoldConfirmed : Z := 3.
Definition EventTypeHoldVoided : Z := 4.
Definition EventTypeHoldExpired : Z := 5.
Definition EventTypeConversionCreated : Z := 6.
Definition EventTypeTransactionReverted : Z := 7.
Definition EventTypeTransactionAmended : Z := 8.
Definition EventTypeMetadataSet : Z := 9.
Definition EventTypeMetadataDeleted : Z := 10.
Definition EventTypeSchemaInserted : Z := 11.
Definition EventTypePolicyDenied : Z := 12.
Definition EventTypeApprovalRecorded : Z := 13.

Definition IsValidEventType (t : Z) : bool :=
  (EventTypeTransactionPosted <=? t) && (t <=? EventTypeApprovalRecorded).

Definition TargetTypeTransaction : Z := 1.
Definition RelationshipTypeReverts : Z := 0.
Definition RelationshipTypeAmends : Z := 1.

(** ** store.go *)
Record CreateLedgerParams := {
  cl_ID : string;
  cl_BucketID : string;
  cl_Metadata : option (gmap string string)
}.

Record ListParams := { lp_PageSize : Z; lp_PageToken : string }.

Record LedgerRecord := {
  lr_ID : string;
  lr_BucketID : string;
  lr_State : string;
  lr_Features : gmap string string;
  lr_Metadata : option (gmap string string);
  lr_CreatedAt : Z;
  lr_SealedAt : option Z;
  lr_IssuerAccounts : list string
}.

Record LogEventRecord := {
  ev_EventID : string;
  ev_LedgerID : string;
  ev_LedgerSeq : Z;
  ev_SystemTime : Z;
  ev_ValidTime : Z;
  ev_Type : Z;
  ev_Payload : option string;
  ev_IdempotencyKey : string;
  ev_IdempotencyHash : option string;
  ev_BatchID : string;
  ev_SchemaVersion : Z
}.

Record BatchRecord := {
  ba_BatchID : string;
  ba_LedgerID : string;
  ba_OpenedAt : Z;
  ba_ClosedAt : option Z;
  ba_EventCount : Z;
  ba_MerkleRoot : option string;
  ba_PrevBatchID : string;
  ba_AttestationURI : string
}.

Record IdempotencyKeyRecord := {
  ik_LedgerID : string;
  ik_IdempotencyKey : string;
  ik_IdempotencyHash : option string;
  ik_EventID : string;
  ik_CreatedAt : Z
}.

Record AccountRecord_ (M : Type) := {
  ac_LedgerID : string;
  ac_Address : string;
  ac_FirstUsage : Z;
  ac_UpdatedAt : Z;
  ac_Metadata : M
}.
Arguments ac_LedgerID {M} a.
Arguments ac_Address {M} a.
Arguments ac_FirstUsage {M} a.
Arguments ac_UpdatedAt {M} a.
Arguments ac_Metadata {M} a.
Definition AccountRecord : Type := AccountRecord_ gomap.

Record PostingRecord := {
  po_Source : string;
  po_Destination : string;
  po_Amount : string;
  po_Asset : string
}.

Record TransactionRecord_ (M : Type) := {
  tx_LedgerID : string;
  tx_TransactionID : string;
  tx_EventID : string;
  tx_ValidTime : Z;
  tx_SystemTime : Z;
  tx_Reference : string;
  tx_Postings : list PostingRecord;
  tx_Metadata : M
}.
Arguments tx_LedgerID {M} t.
Arguments tx_TransactionID {M} t.
Arguments tx_EventID {M} t.
Arguments tx_ValidTime {M} t.
Arguments tx_SystemTime {M} t.
Arguments tx_Reference {M} t.
Arguments tx_Postings {M} t.
Arguments tx_Metadata {M} t.
Definition TransactionRecord : Type := TransactionRecord_ gomap.

Record VolumeDeltaRecord := {
  vd_LedgerID : string;
  vd_Account : string;
  vd_Asset : string;
  vd_Shard : Z;
  vd_EventID : string;
  vd_ValidTime : Z;
  vd_SystemTime : Z;
  vd_InputDelta : Z;
  vd_OutputDelta : Z
}.

Record BalanceResult := { br_Input : Z; br_Output : Z }.

(** [Document any]: the bytes the planner passes in, or the value read back. *)
Inductive document := DocBytes (b : option string) | DocAny (j : json).

Record SchemaRecord := {
  sc_LedgerID : string;
  sc_Version : string;
  sc_Document : document;
  sc_InsertedAt : Z;
  sc_EventID : string
}.

Record MetadataHistoryRecord_ (M : Type) := {
  mh_LedgerID : string;
  mh_TargetType : Z;
  mh_TargetID : string;
  mh_Revision : Z;
  mh_Metadata : M;
  mh_EventID : string;
  mh_SystemTime : Z
}.
Arguments mh_LedgerID {M} m.
Arguments mh_TargetType {M} m.
Arguments mh_TargetID {M} m.
Arguments mh_Revision {M} m.
Arguments mh_Metadata {M} m.
Arguments mh_EventID {M} m.
Arguments mh_SystemTime {M} m.
Definition MetadataHistoryRecord : Type := MetadataHistoryRecord_ gomap.

Record HoldRecord := {
  ho_LedgerID : string;
  ho_HoldID : string;
  ho_Source : string;
  ho_DestinationHint : string;
  ho_Asset : string;
  ho_AuthorizedAmount : Z;
  ho_CapturedAmount : Z;
  ho_Voided : bool;
  ho_Expired : bool;
  ho_ExpiresAt : Z;
  ho_AuthorizedEventID : string;
  ho_ValidTime : Z;
  ho_SystemTime : Z
}.

Record RelationshipRecord := {
  rel_LedgerID : string;
  rel_ParentTxID : string;
  rel_ChildTxID : string;
  rel_RelationshipType : Z;
  rel_EventID : string;
  rel_SystemTime : Z
}.

Record PolicyRecord := {
  pol_LedgerID : string;
  pol_Version : string;
  pol_CedarPolicy : string;
  pol_InsertedAt : Z;
  pol_EventID : string;
  pol_Active : bool
}.

Record ApprovalEntry := {
  ae_Principal : string;
  ae_Signature : string;
  ae_SignedAt : Z
}.

(** [A] is the type of the received approvals: [[]ApprovalEntry] in Go, where [None]
    is the nil slice, and a list of optional entries in the jsonb column. *)
Record PendingApprovalRecord_ (A : Type) := {
  pa_LedgerID : string;
  pa_IntentID : string;
  pa_IntentPayload : option string;
  pa_IntentHash : option string;
  pa_RequiredApprovers : option (list string);
  pa_ReceivedApprovals : A;
  pa_ExpiresAt : Z;
  pa_State : string;
  pa_SubmittedAt : Z;
  pa_SubmittedBy : string;
  pa_ExecutingAt : option Z
}.
Arguments pa_LedgerID {A} p.
Arguments pa_IntentID {A} p.
Arguments pa_IntentPayload {A} p.
Arguments pa_IntentHash {A} p.
Arguments pa_RequiredApprovers {A} p.
Arguments pa_ReceivedApprovals {A} p.
Arguments pa_ExpiresAt {A} p.
Arguments pa_State {A} p.
Arguments pa_SubmittedAt {A} p.
Arguments pa_SubmittedBy {A} p.
Arguments pa_ExecutingAt {A} p.
Definition PendingApprovalRecord : Type := PendingApprovalRecord_ (option (list ApprovalEntry)).

(** [json.Marshal] of the postings of a transaction (fields in struct order). *)
Definition json_of_posting (p : PostingRecord) : json :=
  JObj [("source", JStr (po_Source p)); ("destination", JStr (po_Destination p));
        ("amount", JStr (po_Amount p)); ("asset", JStr (po_Asset p))].
Definition json_of_postings (l : list PostingRecord) : json := JArr (map json_of_posting l).
