(* ===== verification/Db.v ===== *)
(** * The PostgreSQL database: the tables of migrations/ and the SQL statements of
    internal/storage/postgres

    A table is the list of its rows in insertion order. A statement is a function of
    [now()] and the database: a PostgreSQL error, which leaves the database as it is,
    or the reply and the new database. Primary keys, unique constraints, foreign keys,
    CHECK and NOT NULL constraints are those of the migrations. A nullable text column
    is the empty string when NULL (the code writes it with NULLIF or nullIfEmpty and
    reads it with COALESCE). Text is compared byte-wise, and a timestamptz column keeps
    microseconds. *)
From S2P Require Import Prelude GoStd Json Storage.

Definition account_row : Type := AccountRecord_ json.
Definition tx_row : Type := TransactionRecord_ json.
Definition metadata_row : Type := MetadataHistoryRecord_ json.

(** The [received_approvals] column: JSON null, or an array of entries and nulls. *)
Definition approvals_col : Type := option (list (option ApprovalEntry)).
Definition approval_row : Type := PendingApprovalRecord_ approvals_col.

Record schema_row := {
  sr_LedgerID : string; sr_Version : string; sr_Document : json;
  sr_InsertedAt : Z; sr_EventID : string
}.

Record checkpoint_row := {
  cp_LedgerID : string; cp_Account : string; cp_Asset : string; cp_Shard : Z;
  cp_ValidTimeUpper : Z; cp_SystemTimeUpper : Z; cp_TotalInput : Z; cp_TotalOutput : Z;
  cp_LastEventID : string
}.

Record DB := mkDB {
  buckets : list string;
  ledgers : list LedgerRecord;
  log_events : list LogEventRecord;
  log_batches : list BatchRecord;
  idempotency_keys : list IdempotencyKeyRecord;
  accounts : list account_row;
  transactions : list tx_row;
  volumes_delta : list VolumeDeltaRecord;
  volumes_checkpoint : list checkpoint_row;
  schemas : list schema_row;
  metadata_history : list metadata_row;
  holds : list HoldRecord;
  relationships : list RelationshipRecord;
  policies : list PolicyRecord;
  pending_approvals : list approval_row
}.

Definition empty_db : DB := mkDB ["_default"] [] [] [] [] [] [] [] [] [] [] [] [] [] [].

Definition set_buckets t (d : DB) : DB :=
  mkDB t (d.(ledgers)) (d.(log_events)) (d.(log_batches)) (d.(idempotency_keys)) (d.(accounts))
    (d.(transactions)) (d.(volumes_delta)) (d.(volumes_checkpoint)) (d.(schemas)) (d.(metadata_history))
    (d.(holds)) (d.(relationships)) (d.(policies)) (d.(pending_approvals)).
Definition set_ledgers t (d : DB) : DB :=
  mkDB (d.(buckets)) t (d.(log_events)) (d.(log_batches)) (d.(idempotency_keys)) (d.(accounts))
    (d.(transactions)) (d.(volumes_delta)) (d.(volumes_checkpoint)) (d.(schemas)) (d.(metadata_history))
    (d.(holds)) (d.(relationships)) (d.(policies)) (d.(pending_approvals)).
Definition set_log_events t (d : DB) : DB :=
  mkDB (d.(buckets)) (d.(ledgers)) t (d.(log_batches)) (d.(idempotency_keys)) (d.(accounts))
    (d.(transactions)) (d.(volumes_delta)) (d.(volumes_checkpoint)) (d.(schemas)) (d.(metadata_history))
    (d.(holds)) (d.(relationships)) (d.(policies)) (d.(pending_approvals)).
Definition set_log_batches t (d : DB) : DB :=
  mkDB (d.(buckets)) (d.(ledgers)) (d.(log_events)) t (d.(idempotency_keys)) (d.(accounts))
    (d.(transactions)) (d.(volumes_delta)) (d.(volumes_checkpoint)) (d.(schemas)) (d.(metadata_history))
    (d.(holds)) (d.(relationships)) (d.(policies)) (d.(pending_approvals)).
Definition set_idempotency_keys t (d : DB) : DB :=
  mkDB (d.(buckets)) (d.(ledgers)) (d.(log_events)) (d.(log_batches)) t (d.(accounts)) (d.(transactions))
    (d.(volumes_delta)) (d.(volumes_checkpoint)) (d.(schemas)) (d.(metadata_history)) (d.(holds))
    (d.(relationships)) (d.(policies)) (d.(pending_approvals)).
Definition set_accounts t (d : DB) : DB :=
  mkDB (d.(buckets)) (d.(ledgers)) (d.(log_events)) (d.(log_batches)) (d.(idempotency_keys)) t
    (d.(transactions)) (d.(volumes_delta)) (d.(volumes_checkpoint)) (d.(schemas)) (d.(metadata_history))
    (d.(holds)) (d.(relationships)) (d.(policies)) (d.(pending_approvals)).
Definition set_transactions t (d : DB) : DB :=
  mkDB (d.(buckets)) (d.(ledgers)) (d.(log_events)) (d.(log_batches)) (d.(idempotency_keys)) (d.(accounts))
    t (d.(volumes_delta)) (d.(volumes_checkpoint)) (d.(schemas)) (d.(metadata_history)) (d.(holds))
    (d.(relationships)) (d.(policies)) (d.(pending_approvals)).
Definition set_volumes_delta t (d : DB) : DB :=
  mkDB (d.(buckets)) (d.(ledgers)) (d.(log_events)) (d.(log_batches)) (d.(idempotency_keys)) (d.(accounts))
    (d.(transactions)) t (d.(volumes_checkpoint)) (d.(schemas)) (d.(metadata_history)) (d.(holds))
    (d.(relationships)) (d.(policies)) (d.(pending_approvals)).
Definition set_volumes_checkpoint t (d : DB) : DB :=
  mkDB (d.(buckets)) (d.(ledgers)) (d.(log_events)) (d.(log_batches)) (d.(idempotency_keys)) (d.(accounts))
    (d.(transactions)) (d.(volumes_delta)) t (d.(schemas)) (d.(metadata_history)) (d.(holds))
    (d.(relationships)) (d.(policies)) (d.(pending_approvals)).
Definition set_schemas t (d : DB) : DB :=
  mkDB (d.(buckets)) (d.(ledgers)) (d.(log_events)) (d.(log_batches)) (d.(idempotency_keys)) (d.(accounts))
    (d.(transactions)) (d.(volumes_delta)) (d.(volumes_checkpoint)) t (d.(metadata_history)) (d.(holds))
    (d.(relationships)) (d.(policies)) (d.(pending_approvals)).
Definition set_metadata_history t (d : DB) : DB :=
  mkDB (d.(buckets)) (d.(ledgers)) (d.(log_events)) (d.(log_batches)) (d.(idempotency_keys)) (d.(accounts))
    (d.(transactions)) (d.(volumes_delta)) (d.(volumes_checkpoint)) (d.(schemas)) t (d.(holds))
    (d.(relationships)) (d.(policies)) (d.(pending_approvals)).
Definition set_holds t (d : DB) : DB :=
  mkDB (d.(buckets)) (d.(ledgers)) (d.(log_events)) (d.(log_batches)) (d.(idempotency_keys)) (d.(accounts))
    (d.(transactions)) (d.(volumes_delta)) (d.(volumes_checkpoint)) (d.(schemas)) (d.(metadata_history))
    t (d.(relationships)) (d.(policies)) (d.(pending_approvals)).
Definition set_relationships t (d : DB) : DB :=
  mkDB (d.(buckets)) (d.(ledgers)) (d.(log_events)) (d.(log_batches)) (d.(idempotency_keys)) (d.(accounts))
    (d.(transactions)) (d.(volumes_delta)) (d.(volumes_checkpoint)) (d.(schemas)) (d.(metadata_history))
    (d.(holds)) t (d.(policies)) (d.(pending_approvals)).
Definition set_policies t (d : DB) : DB :=
  mkDB (d.(buckets)) (d.(ledgers)) (d.(log_events)) (d.(log_batches)) (d.(idempotency_keys)) (d.(accounts))
    (d.(transactions)) (d.(volumes_delta)) (d.(volumes_checkpoint)) (d.(schemas)) (d.(metadata_history))
    (d.(holds)) (d.(relationships)) t (d.(pending_approvals)).
Definition set_pending_approvals t (d : DB) : DB :=
  mkDB (d.(buckets)) (d.(ledgers)) (d.(log_events)) (d.(log_batches)) (d.(idempotency_keys)) (d.(accounts))
    (d.(transactions)) (d.(volumes_delta)) (d.(volumes_checkpoint)) (d.(schemas)) (d.(metadata_history))
    (d.(holds)) (d.(relationships)) (d.(policies)) t.

(** ** Rows and columns *)

(** A statement: [now()], then the database. *)
Definition stmt (A : Type) : Type := Z -> DB -> pgcode + (A * DB).

Definition pg_ts (t : Z) : Z := t / 1000 * 1000.

(** INSERT: a row that conflicts with one of the table on a key is refused. *)
Definition insert_row {R} (conflicts : R -> R -> bool) (r : R) (t : list R) : pgcode + list R :=
  if existsb (conflicts r) t then inl PgUnique else inr (t ++ [r]).

(** UPDATE ... WHERE: the number of rows affected, and the table. *)
Definition update_rows {R} (p : R -> bool) (f : R -> R) (t : list R) : Z * list R :=
  (Z.of_nat (length (List.filter p t)), map (fun r => if p r then f r else r) t).

Definition key_le {R} (key : R -> Z) (x y : R) : Prop := key x <= key y.
Definition text_le {R} (key : R -> string) (x y : R) : Prop := string_le (key x) (key y).
#[export] Instance key_le_dec {R} (key : R -> Z) : RelDecision (key_le key).
Proof. intros x y. apply Z.le_dec. Defined.
#[export] Instance text_le_dec {R} (key : R -> string) : RelDecision (text_le key).
Proof. intros x y. unfold text_le. apply _. Defined.

Definition order_by {R} (key : R -> Z) (t : list R) : list R := merge_sort (key_le key) t.
Definition order_by_text {R} (key : R -> string) (t : list R) : list R := merge_sort (text_le key) t.

Definition limit {R} (n : Z) (t : list R) : list R := take (Z.to_nat n) t.

(** [($2 = '' OR key > $2)]. *)
Definition after_token (token key : string) : bool :=
  String.eqb token EmptyString || string_lt token key.

Definition with_table {R} (r : pgcode + list R) (set : list R -> DB) : pgcode + (unit * DB) :=
  match r with inl c => inl c | inr t => inr (tt, set t) end.

(** ** _system.ledgers and _system.buckets *)

Definition sql_ensure_bucket (b : string) : stmt unit := fun _ d =>
  inr (tt, if existsb (String.eqb b) (buckets d) then d else set_buckets (buckets d ++ [b]) d).

Definition sql_insert_ledger (id bucket : string) (meta : option (gmap string string)) : stmt LedgerRecord :=
  fun now d =>
    let r := {| lr_ID := id; lr_BucketID := bucket; lr_State := "in-use"; lr_Features := ∅;
                lr_Metadata := meta; lr_CreatedAt := pg_ts now; lr_SealedAt := None;
                lr_IssuerAccounts := ["_world"] |} in
    if existsb (fun x => String.eqb id (lr_ID x)) (ledgers d) then inl PgUnique
    else if negb (existsb (String.eqb bucket) (buckets d)) then inl PgCheck
    else inr (r, set_ledgers (ledgers d ++ [r]) d).

Definition find_ledger (id : string) (d : DB) : option LedgerRecord :=
  List.find (fun x => String.eqb id (lr_ID x)) (ledgers d).

Definition sql_select_ledger (id : string) : stmt (option LedgerRecord) := fun _ d =>
  inr (find_ledger id d, d).

Definition sql_list_ledgers (token : string) (n : Z) : stmt (list LedgerRecord) := fun _ d =>
  inr (limit n (order_by_text lr_ID (List.filter (fun x => after_token token (lr_ID x)) (ledgers d))), d).

Definition seal (now : Z) (x : LedgerRecord) : LedgerRecord :=
  {| lr_ID := lr_ID x; lr_BucketID := lr_BucketID x; lr_State := "sealed"; lr_Features := lr_Features x;
     lr_Metadata := lr_Metadata x; lr_CreatedAt := lr_CreatedAt x; lr_SealedAt := Some (pg_ts now);
     lr_IssuerAccounts := lr_IssuerAccounts x |}.

Definition sql_seal_ledger (id : string) : stmt (option LedgerRecord) := fun now d =>
  let p x := String.eqb id (lr_ID x) && String.eqb (lr_State x) "in-use" in
  inr (option_map (seal now) (List.find p (ledgers d)),
       set_ledgers (snd (update_rows p (seal now) (ledgers d))) d).

(** [SELECT 1 ... FOR UPDATE]: the row lock has no effect on the data. *)
Definition sql_lock_ledger (id : string) : stmt unit := fun _ d => inr (tt, d).

(** ** log_events *)

Definition max_seq (l : list LogEventRecord) : option Z :=
  fold_right (fun r m => Some (match m with None => ev_LedgerSeq r | Some m => Z.max (ev_LedgerSeq r) m end)) None l.
Definition ledger_log (ledger : string) (d : DB) : list LogEventRecord :=
  List.filter (fun r => String.eqb ledger (ev_LedgerID r)) (log_events d).

(** [COALESCE(MAX(ledger_seq), 0) + 1]. *)
Definition sql_next_seq (ledger : string) : stmt Z := fun _ d =>
  inr (default 0 (max_seq (ledger_log ledger d)) + 1, d).

Definition log_conflict (r x : LogEventRecord) : bool :=
  String.eqb (ev_EventID r) (ev_EventID x) ||
  (String.eqb (ev_LedgerID r) (ev_LedgerID x) &&
   ((ev_LedgerSeq r =? ev_LedgerSeq x) ||
    (negb (String.eqb (ev_IdempotencyKey r) EmptyString) &&
     String.eqb (ev_IdempotencyKey r) (ev_IdempotencyKey x)))).

Definition log_row (r : LogEventRecord) : LogEventRecord :=
  {| ev_EventID := ev_EventID r; ev_LedgerID := ev_LedgerID r; ev_LedgerSeq := ev_LedgerSeq r;
     ev_SystemTime := pg_ts (ev_SystemTime r); ev_ValidTime := pg_ts (ev_ValidTime r);
     ev_Type := ev_Type r; ev_Payload := ev_Payload r; ev_IdempotencyKey := ev_IdempotencyKey r;
     ev_IdempotencyHash := ev_IdempotencyHash r; ev_BatchID := ev_BatchID r;
     ev_SchemaVersion := ev_SchemaVersion r |}.

Definition sql_insert_log_event (r : LogEventRecord) : stmt unit := fun _ d =>
  match ev_Payload r with
  | None => inl PgCheck
  | Some _ => with_table (insert_row log_conflict (log_row r) (log_events d)) (fun t => set_log_events t d)
  end.

Definition sql_select_log_event (ledger event : string) : stmt (option LogEventRecord) := fun _ d =>
  inr (List.find (fun r => String.eqb ledger (ev_LedgerID r) && String.eqb event (ev_EventID r)) (log_events d), d).

Definition sql_log_by_key (ledger key : string) : stmt (list LogEventRecord) := fun _ d =>
  inr (order_by ev_LedgerSeq (List.filter (fun r => String.eqb key (ev_IdempotencyKey r)) (ledger_log ledger d)), d).

Definition sql_list_log (ledger token : string) (n : Z) : stmt (list LogEventRecord) := fun _ d =>
  inr (limit n (order_by ev_LedgerSeq (List.filter (fun r => after_token token (ev_EventID r)) (ledger_log ledger d))), d).

Definition sql_batch_events (batch : string) : stmt (list LogEventRecord) := fun _ d =>
  inr (order_by ev_LedgerSeq (List.filter (fun r => String.eqb batch (ev_BatchID r)) (log_events d)), d).

(** ** log_batches *)

Definition batch_row (b : BatchRecord) : BatchRecord :=
  {| ba_BatchID := ba_BatchID b; ba_LedgerID := ba_LedgerID b; ba_OpenedAt := pg_ts (ba_OpenedAt b);
     ba_ClosedAt := None; ba_EventCount := ba_EventCount b; ba_MerkleRoot := None;
     ba_PrevBatchID := ba_PrevBatchID b; ba_AttestationURI := EmptyString |}.

Definition sql_insert_batch (b : BatchRecord) : stmt unit := fun _ d =>
  if existsb (fun x => String.eqb (ba_BatchID b) (ba_BatchID x)) (log_batches d) then inl PgUnique
  else if negb (String.eqb (ba_PrevBatchID b) EmptyString) &&
          negb (String.eqb (ba_PrevBatchID b) (ba_BatchID b)) &&
          negb (existsb (fun x => String.eqb (ba_PrevBatchID b) (ba_BatchID x)) (log_batches d)) then inl PgCheck
  else inr (tt, set_log_batches (log_batches d ++ [batch_row b]) d).

Definition close_row (now : Z) (root : option string) (count : Z) (b : BatchRecord) : BatchRecord :=
  {| ba_BatchID := ba_BatchID b; ba_LedgerID := ba_LedgerID b; ba_OpenedAt := ba_OpenedAt b;
     ba_ClosedAt := Some (pg_ts now); ba_EventCount := count; ba_MerkleRoot := root;
     ba_PrevBatchID := ba_PrevBatchID b; ba_AttestationURI := ba_AttestationURI b |}.

Definition sql_close_batch (batch : string) (root : option string) (count : Z) : stmt unit := fun now d =>
  inr (tt, set_log_batches (snd (update_rows (fun b => String.eqb batch (ba_BatchID b))
                                             (close_row now root count) (log_batches d))) d).

Definition sql_select_batch (batch : string) : stmt (option BatchRecord) := fun _ d =>
  inr (List.find (fun b => String.eqb batch (ba_BatchID b)) (log_batches d), d).

Definition sql_open_batches (older : Z) : stmt (list BatchRecord) := fun now d =>
  inr (limit 100 (order_by ba_OpenedAt (List.filter (fun b =>
         match ba_ClosedAt b with None => ba_OpenedAt b <? pg_ts now - pg_ts older | Some _ => false end) (log_batches d))), d).

(** ** idempotency_keys *)

Definition ik_conflict (r x : IdempotencyKeyRecord) : bool :=
  String.eqb (ik_LedgerID r) (ik_LedgerID x) && String.eqb (ik_IdempotencyKey r) (ik_IdempotencyKey x).

Definition ik_row (now : Z) (r : IdempotencyKeyRecord) : IdempotencyKeyRecord :=
  {| ik_LedgerID := ik_LedgerID r; ik_IdempotencyKey := ik_IdempotencyKey r;
     ik_IdempotencyHash := ik_IdempotencyHash r; ik_EventID := ik_EventID r; ik_CreatedAt := pg_ts now |}.

Definition find_ik (ledger key : string) (d : DB) : option IdempotencyKeyRecord :=
  List.find (fun r => String.eqb ledger (ik_LedgerID r) && String.eqb key (ik_IdempotencyKey r)) (idempotency_keys d).

Definition sql_select_ik (ledger key : string) : stmt (option IdempotencyKeyRecord) := fun _ d =>
  inr (find_ik ledger key d, d).

Definition sql_insert_ik (r : IdempotencyKeyRecord) : stmt unit := fun now d =>
  match ik_IdempotencyHash r with
  | None => inl PgCheck
  | Some _ => with_table (insert_row ik_conflict (ik_row now r) (idempotency_keys d)) (fun t => set_idempotency_keys t d)
  end.

(** ** accounts *)

Definition account_is (ledger address : string) (r : account_row) : bool :=
  String.eqb ledger (ac_LedgerID r) && String.eqb address (ac_Address r).

Definition find_account (ledger address : string) (d : DB) : option account_row :=
  List.find (account_is ledger address) (accounts d).

(** ON CONFLICT DO UPDATE SET updated_at = $4, metadata = metadata || $5. *)
Definition merge_account (a x : account_row) : account_row :=
  {| ac_LedgerID := ac_LedgerID x; ac_Address := ac_Address x; ac_FirstUsage := ac_FirstUsage x;
     ac_UpdatedAt := ac_UpdatedAt a; ac_Metadata := jsonb_concat (ac_Metadata x) (ac_Metadata a) |}.

Definition sql_upsert_account (a : account_row) : stmt unit := fun _ d =>
  let p := account_is (ac_LedgerID a) (ac_Address a) in
  inr (tt, set_accounts (if existsb p (accounts d)
                         then snd (update_rows p (merge_account a) (accounts d))
                         else accounts d ++ [a]) d).

Definition sql_select_account (ledger address : string) : stmt (option account_row) := fun _ d =>
  inr (find_account ledger address d, d).

Definition sql_list_accounts (ledger token : string) (n : Z) : stmt (list account_row) := fun _ d =>
  inr (limit n (order_by_text ac_Address (List.filter (fun r =>
        String.eqb ledger (ac_LedgerID r) && after_token token (ac_Address r)) (accounts d))), d).

(** ** transactions *)

Definition tx_is (ledger id : string) (r : tx_row) : bool :=
  String.eqb ledger (tx_LedgerID r) && String.eqb id (tx_TransactionID r).

Definition find_tx (ledger id : string) (d : DB) : option tx_row :=
  List.find (tx_is ledger id) (transactions d).

Definition tx_conflict (r x : tx_row) : bool :=
  String.eqb (tx_LedgerID r) (tx_LedgerID x) &&
  (String.eqb (tx_TransactionID r) (tx_TransactionID x) ||
   (negb (String.eqb (tx_Reference r) EmptyString) && String.eqb (tx_Reference r) (tx_Reference x))).

Definition sql_insert_tx (r : tx_row) : stmt unit := fun _ d =>
  with_table (insert_row tx_conflict r (transactions d)) (fun t => set_transactions t d).

Definition sql_select_tx (ledger id : string) : stmt (option tx_row) := fun _ d =>
  inr (find_tx ledger id d, d).

(** ORDER BY system_time, transaction_id; the query reads it backwards. *)
Definition tx_le (x y : tx_row) : Prop :=
  if tx_SystemTime x =? tx_SystemTime y then string_le (tx_TransactionID x) (tx_TransactionID y)
  else tx_SystemTime x <= tx_SystemTime y.
#[export] Instance tx_le_dec : RelDecision tx_le.
Proof. intros x y. unfold tx_le. destruct (_ =? _); [apply _|apply Z.le_dec]. Defined.

Definition sql_list_txs (ledger token : string) (n : Z) : stmt (list tx_row) := fun _ d =>
  inr (limit n (reverse (merge_sort tx_le (List.filter (fun r => String.eqb ledger (tx_LedgerID r) &&
           (String.eqb token EmptyString || string_lt (tx_TransactionID r) token)) (transactions d)))), d).

Definition with_tx_metadata (m : json) (r : tx_row) : tx_row :=
  {| tx_LedgerID := tx_LedgerID r; tx_TransactionID := tx_TransactionID r; tx_EventID := tx_EventID r;
     tx_ValidTime := tx_ValidTime r; tx_SystemTime := tx_SystemTime r; tx_Reference := tx_Reference r;
     tx_Postings := tx_Postings r; tx_Metadata := m |}.

Definition sql_update_tx_metadata (ledger id : string) (m : json) : stmt Z := fun _ d =>
  let '(n, t) := update_rows (tx_is ledger id)
                   (fun r => with_tx_metadata (jsonb_concat (tx_Metadata r) m) r) (transactions d) in
  inr (n, set_transactions t d).

Definition sql_delete_tx_key (ledger id key : string) : stmt Z := fun _ d =>
  if existsb (fun r => tx_is ledger id r && is_scalar (tx_Metadata r)) (transactions d)
  then inl PgScalarDelete
  else
    let '(n, t) := update_rows (tx_is ledger id)
                     (fun r => with_tx_metadata (jsonb_delete (tx_Metadata r) key) r) (transactions d) in
    inr (n, set_transactions t d).

(** ** volumes_delta *)

Definition delta_conflict (r x : VolumeDeltaRecord) : bool :=
  String.eqb (vd_LedgerID r) (vd_LedgerID x) && String.eqb (vd_Account r) (vd_Account x) &&
  String.eqb (vd_Asset r) (vd_Asset x) && (vd_Shard r =? vd_Shard x) &&
  String.eqb (vd_EventID r) (vd_EventID x).

Definition delta_row (r : VolumeDeltaRecord) : VolumeDeltaRecord :=
  {| vd_LedgerID := vd_LedgerID r; vd_Account := vd_Account r; vd_Asset := vd_Asset r;
     vd_Shard := vd_Shard r; vd_EventID := vd_EventID r; vd_ValidTime := pg_ts (vd_ValidTime r);
     vd_SystemTime := pg_ts (vd_SystemTime r); vd_InputDelta := vd_InputDelta r;
     vd_OutputDelta := vd_OutputDelta r |}.

Definition sql_insert_delta (r : VolumeDeltaRecord) : stmt unit := fun _ d =>
  with_table (insert_row delta_conflict (delta_row r) (volumes_delta d)) (fun t => set_volumes_delta t d).

Definition upto (bound : option Z) (t : Z) : bool :=
  match bound with None => true | Some b => t <=? pg_ts b end.

Definition bucket_is (ledger account asset : string) (r : VolumeDeltaRecord) : bool :=
  String.eqb ledger (vd_LedgerID r) && String.eqb account (vd_Account r) && String.eqb asset (vd_Asset r).

Definition sql_sum_bucket (ledger account asset : string) (asOfValid asOfSystem : option Z) : stmt (Z * Z) :=
  fun _ d =>
    let rows := List.filter (fun r => bucket_is ledger account asset r &&
                  upto asOfValid (vd_ValidTime r) && upto asOfSystem (vd_SystemTime r)) (volumes_delta d) in
    inr ((sum_by vd_InputDelta rows, sum_by vd_OutputDelta rows), d).

(** The first occurrences of a list, in order. *)
Fixpoint distinct (l : list string) : list string :=
  match l with
  | [] => []
  | x :: l' => x :: List.filter (fun y => negb (String.eqb x y)) (distinct l')
  end.

(** [GROUP BY asset]; [p] is the condition on the account. *)
Definition sql_sum_by_asset (ledger : string) (p : string -> bool) (asOfValid asOfSystem : option Z)
  : stmt (list (string * Z * Z)) := fun _ d =>
  let rows := List.filter (fun r => String.eqb ledger (vd_LedgerID r) && p (vd_Account r) &&
                upto asOfValid (vd_ValidTime r) && upto asOfSystem (vd_SystemTime r)) (volumes_delta d) in
  inr (map (fun a => let rs := List.filter (fun r => String.eqb a (vd_Asset r)) rows in
                     (a, sum_by vd_InputDelta rs, sum_by vd_OutputDelta rs))
           (distinct (map vd_Asset rows)), d).

(** ** schemas and metadata_history *)

Definition sql_insert_schema (ledger version : string) (doc : json) (event : string) : stmt unit := fun now d =>
  with_table (insert_row (fun r x => String.eqb (sr_LedgerID r) (sr_LedgerID x) && String.eqb (sr_Version r) (sr_Version x))
    {| sr_LedgerID := ledger; sr_Version := version; sr_Document := doc; sr_InsertedAt := pg_ts now; sr_EventID := event |}
    (schemas d)) (fun t => set_schemas t d).

Definition sql_select_schema (ledger version : string) : stmt (option schema_row) := fun _ d =>
  inr (List.find (fun r => String.eqb ledger (sr_LedgerID r) && String.eqb version (sr_Version r)) (schemas d), d).

Definition sql_insert_metadata_history (r : metadata_row) : stmt unit := fun _ d =>
  with_table (insert_row (fun r x : metadata_row =>
      String.eqb (mh_LedgerID r) (mh_LedgerID x) && (mh_TargetType r =? mh_TargetType x) &&
      String.eqb (mh_TargetID r) (mh_TargetID x) && (mh_Revision r =? mh_Revision x)) r (metadata_history d))
    (fun t => set_metadata_history t d).

(** ** holds *)

Definition hold_is (ledger id : string) (h : HoldRecord) : bool :=
  String.eqb ledger (ho_LedgerID h) && String.eqb id (ho_HoldID h).
Definition hold_live (h : HoldRecord) : bool := negb (ho_Voided h) && negb (ho_Expired h).

Definition hold_row (h : HoldRecord) : HoldRecord :=
  {| ho_LedgerID := ho_LedgerID h; ho_HoldID := ho_HoldID h; ho_Source := ho_Source h;
     ho_DestinationHint := ho_DestinationHint h; ho_Asset := ho_Asset h;
     ho_AuthorizedAmount := ho_AuthorizedAmount h; ho_CapturedAmount := ho_CapturedAmount h;
     ho_Voided := ho_Voided h; ho_Expired := ho_Expired h; ho_ExpiresAt := pg_ts (ho_ExpiresAt h);
     ho_AuthorizedEventID := ho_AuthorizedEventID h; ho_ValidTime := pg_ts (ho_ValidTime h);
     ho_SystemTime := pg_ts (ho_SystemTime h) |}.

Definition sql_insert_hold (h : HoldRecord) : stmt unit := fun _ d =>
  with_table (insert_row (fun r x => hold_is (ho_LedgerID r) (ho_HoldID r) x) (hold_row h) (holds d))
    (fun t => set_holds t d).

Definition find_hold (ledger id : string) (d : DB) : option HoldRecord := List.find (hold_is ledger id) (holds d).

Definition sql_select_hold (ledger id : string) : stmt (option HoldRecord) := fun _ d =>
  inr (find_hold ledger id d, d).

Definition sql_list_holds (ledger token account : string) (n : Z) : stmt (list HoldRecord) := fun _ d =>
  inr (limit n (order_by_text ho_HoldID (List.filter (fun h =>
    String.eqb ledger (ho_LedgerID h) && after_token token (ho_HoldID h) &&
    (String.eqb account EmptyString || String.eqb account (ho_Source h))) (holds d))), d).

Definition with_hold (captured : Z) (voided expired : bool) (h : HoldRecord) : HoldRecord :=
  {| ho_LedgerID := ho_LedgerID h; ho_HoldID := ho_HoldID h; ho_Source := ho_Source h;
     ho_DestinationHint := ho_DestinationHint h; ho_Asset := ho_Asset h;
     ho_AuthorizedAmount := ho_AuthorizedAmount h; ho_CapturedAmount := captured;
     ho_Voided := voided; ho_Expired := expired; ho_ExpiresAt := ho_ExpiresAt h;
     ho_AuthorizedEventID := ho_AuthorizedEventID h; ho_ValidTime := ho_ValidTime h;
     ho_SystemTime := ho_SystemTime h |}.

Definition capture_hold (delta : Z) (h : HoldRecord) : HoldRecord :=
  with_hold (ho_CapturedAmount h + delta) (ho_Voided h) (ho_Expired h) h.
Definition void_hold (h : HoldRecord) : HoldRecord := with_hold (ho_CapturedAmount h) true (ho_Expired h) h.
Definition expire_hold (h : HoldRecord) : HoldRecord := with_hold (ho_CapturedAmount h) (ho_Voided h) true h.

(** [UPDATE holds SET ... WHERE ledger_id = $1 AND hold_id = $2 AND NOT voided AND NOT expired]. *)
Definition sql_update_live_hold (ledger id : string) (f : HoldRecord -> HoldRecord) : stmt Z := fun _ d =>
  let '(n, t) := update_rows (fun h => hold_is ledger id h && hold_live h) f (holds d) in
  inr (n, set_holds t d).

Definition hold_due (now : Z) (h : HoldRecord) : bool :=
  (ho_ExpiresAt h <? pg_ts now) && hold_live h && (ho_CapturedAmount h <? ho_AuthorizedAmount h).

Definition sql_expired_holds : stmt (list HoldRecord) := fun now d =>
  inr (limit 1000 (order_by ho_ExpiresAt (List.filter (hold_due now) (holds d))), d).

Definition hold_on (ledger account asset : string) (h : HoldRecord) : bool :=
  String.eqb ledger (ho_LedgerID h) && String.eqb account (ho_Source h) && String.eqb asset (ho_Asset h).

Definition sql_sum_holds (ledger account asset : string) : stmt Z := fun _ d =>
  inr (sum_by (fun h => ho_AuthorizedAmount h - ho_CapturedAmount h)
         (List.filter (fun h => hold_on ledger account asset h && hold_live h) (holds d)), d).

(** ** transaction_relationships *)

Definition rel_conflict (r x : RelationshipRecord) : bool :=
  String.eqb (rel_LedgerID r) (rel_LedgerID x) && String.eqb (rel_ParentTxID r) (rel_ParentTxID x) &&
  String.eqb (rel_ChildTxID r) (rel_ChildTxID x) && (rel_RelationshipType r =? rel_RelationshipType x).

Definition rel_row (r : RelationshipRecord) : RelationshipRecord :=
  {| rel_LedgerID := rel_LedgerID r; rel_ParentTxID := rel_ParentTxID r; rel_ChildTxID := rel_ChildTxID r;
     rel_RelationshipType := rel_RelationshipType r; rel_EventID := rel_EventID r;
     rel_SystemTime := pg_ts (rel_SystemTime r) |}.

Definition sql_insert_relationship (r : RelationshipRecord) : stmt unit := fun _ d =>
  with_table (insert_row rel_conflict (rel_row r) (relationships d)) (fun t => set_relationships t d).

Definition touches (ledger id : string) (r : RelationshipRecord) : bool :=
  String.eqb ledger (rel_LedgerID r) && (String.eqb id (rel_ParentTxID r) || String.eqb id (rel_ChildTxID r)).

Definition sql_relationships (ledger id : string) : stmt (list RelationshipRecord) := fun _ d =>
  inr (order_by rel_SystemTime (List.filter (touches ledger id) (relationships d)), d).

(** The recursive query: level [k+1] joins the rows of level [k]; UNION ALL keeps
    duplicates, which DISTINCT then removes (the primary key identifies a row). *)
Definition linked (c r : RelationshipRecord) : bool :=
  String.eqb (rel_LedgerID r) (rel_LedgerID c) &&
  (String.eqb (rel_ParentTxID r) (rel_ChildTxID c) || String.eqb (rel_ChildTxID r) (rel_ParentTxID c)).

Fixpoint chain (rels : list RelationshipRecord) (level : list RelationshipRecord) (more : nat) : list RelationshipRecord :=
  match more with
  | O => level
  | S k => level ++ chain rels (List.filter (fun r => existsb (fun c => linked c r) level) rels) k
  end.

Definition sql_relationship_chain (ledger id : string) (depth : Z) : stmt (list RelationshipRecord) := fun _ d =>
  let reached := chain (relationships d) (List.filter (touches ledger id) (relationships d)) (Z.to_nat (depth - 1)) in
  inr (order_by rel_SystemTime
         (List.filter (fun r => existsb (rel_conflict r) reached) (relationships d)), d).

(** ** policies *)

Definition deactivate (ledger : string) (p : PolicyRecord) : PolicyRecord :=
  if String.eqb ledger (pol_LedgerID p) then
    {| pol_LedgerID := pol_LedgerID p; pol_Version := pol_Version p; pol_CedarPolicy := pol_CedarPolicy p;
       pol_InsertedAt := pol_InsertedAt p; pol_EventID := pol_EventID p; pol_Active := false |}
  else p.

Definition sql_deactivate_policies (ledger : string) : stmt unit := fun _ d =>
  inr (tt, set_policies (map (deactivate ledger) (policies d)) d).

Definition sql_insert_policy (p : PolicyRecord) : stmt unit := fun now d =>
  with_table (insert_row (fun r x => String.eqb (pol_LedgerID r) (pol_LedgerID x) && String.eqb (pol_Version r) (pol_Version x))
    {| pol_LedgerID := pol_LedgerID p; pol_Version := pol_Version p; pol_CedarPolicy := pol_CedarPolicy p;
       pol_InsertedAt := pg_ts now; pol_EventID := pol_EventID p; pol_Active := true |} (policies d))
    (fun t => set_policies t d).

Definition sql_active_policy (ledger : string) : stmt (option PolicyRecord) := fun _ d =>
  inr (head (reverse (order_by pol_InsertedAt (List.filter (fun p =>
         String.eqb ledger (pol_LedgerID p) && pol_Active p) (policies d)))), d).

(** ** pending_approvals *)

Definition approval_states : list string :=
  ["pending"; "approved"; "executing"; "executed"; "rejected"; "expired"; "withdrawn"].
Definition valid_state (s : string) : bool := existsb (String.eqb s) approval_states.

Definition approval_is (ledger id : string) (a : approval_row) : bool :=
  String.eqb ledger (pa_LedgerID a) && String.eqb id (pa_IntentID a).

Definition with_approval (recv : approvals_col) (state : string) (executing : option Z) (a : approval_row) : approval_row :=
  {| pa_LedgerID := pa_LedgerID a; pa_IntentID := pa_IntentID a; pa_IntentPayload := pa_IntentPayload a;
     pa_IntentHash := pa_IntentHash a; pa_RequiredApprovers := pa_RequiredApprovers a;
     pa_ReceivedApprovals := recv; pa_ExpiresAt := pa_ExpiresAt a; pa_State := state;
     pa_SubmittedAt := pa_SubmittedAt a; pa_SubmittedBy := pa_SubmittedBy a; pa_ExecutingAt := executing |}.

Definition approval_row_of (now : Z) (a : approval_row) : approval_row :=
  {| pa_LedgerID := pa_LedgerID a; pa_IntentID := pa_IntentID a; pa_IntentPayload := pa_IntentPayload a;
     pa_IntentHash := pa_IntentHash a; pa_RequiredApprovers := pa_RequiredApprovers a;
     pa_ReceivedApprovals := pa_ReceivedApprovals a; pa_ExpiresAt := pg_ts (pa_ExpiresAt a);
     pa_State := pa_State a; pa_SubmittedAt := pg_ts now; pa_SubmittedBy := pa_SubmittedBy a;
     pa_ExecutingAt := None |}.

Definition sql_insert_approval (a : approval_row) : stmt unit := fun now d =>
  match pa_IntentPayload a, pa_IntentHash a, pa_RequiredApprovers a with
  | Some _, Some _, Some _ =>
      if valid_state (pa_State a) then
        with_table (insert_row (fun r x : approval_row => approval_is (pa_LedgerID r) (pa_IntentID r) x)
                      (approval_row_of now a) (pending_approvals d)) (fun t => set_pending_approvals t d)
      else inl PgCheck
  | _, _, _ => inl PgCheck
  end.

Definition find_approval (l id : string) (d : DB) : option approval_row :=
  List.find (approval_is l id) (pending_approvals d).

Definition sql_select_approval (ledger id : string) : stmt (option approval_row) := fun _ d =>
  inr (List.find (approval_is ledger id) (pending_approvals d), d).

(** [received_approvals || jsonb_build_array($3)]: JSON null becomes an element. *)
Definition push_approval (e : ApprovalEntry) (c : approvals_col) : approvals_col :=
  Some (match c with None => [None] | Some l => l end ++ [Some e]).

Definition sql_update_approval (p : approval_row -> bool) (f : Z -> approval_row -> approval_row) : stmt Z := fun now d =>
  let '(n, t) := update_rows p (f now) (pending_approvals d) in
  if forallb (fun a => valid_state (pa_State a)) t then inr (n, set_pending_approvals t d) else inl PgCheck.

Definition sql_list_approvals (p : Z -> approval_row -> bool) (n : Z) : stmt (list approval_row) := fun now d =>
  inr (limit n (List.filter (p now) (pending_approvals d)), d).

Definition sql_page_approvals (ledger token : string) (n : Z) : stmt (list approval_row) := fun _ d =>
  inr (limit n (order_by_text pa_IntentID (List.filter (fun a : approval_row =>
    String.eqb ledger (pa_LedgerID a) && String.eqb (pa_State a) "pending" && after_token token (pa_IntentID a))
    (pending_approvals d))), d).
