(* ===== verification/Prog.v ===== *)
(** * Effectful programs: the monad of the service code and its interpreter

    Code that talks to PostgreSQL, Redis, the clock or the batch manager's shared state
    is a [prog]: a tree of the events it performs, each with the continuation of its
    reply. [run] executes one request against a [World], under an environment [Env]
    that decides what the code cannot: the clock, the ULIDs, which statement fails and
    how, evictions of the cache, cancellation, and the iteration order of Go maps. A
    theorem about every environment holds whatever fails. *)
From S2P Require Import Prelude GoStd Json Storage Db.

(** The pool, or the connection of the open transaction. *)
Inductive conn := Pool | Tx.

(** The rows a transaction locks with [SELECT ... FOR UPDATE]. *)
Inductive row_key :=
| LedgerRow (ledger : string)
| HoldRow (ledger hold : string)
| ApprovalRow (ledger intent : string).
#[export] Instance row_key_eq_dec : EqDecision row_key.
Proof. solve_decision. Defined.

(** How a round trip fails: not executed, refused with a deadlock, or executed with
    its reply lost. *)
Inductive fault := FDown | FDeadlock | FLost.

(** The in-memory state of the batch manager, guarded by its mutex. *)
Record openBatchState := { ob_batchID : string; ob_openedAt : Z; ob_eventCount : Z }.
Record mgr := { openBatch : gmap string openBatchState; pendingClose : gmap string bool }.

(** What the process emits: messages on a Redis channel, goroutines it starts. *)
Inductive output :=
| Published (channel message : string)
| SpawnedClose (ledger batch : string).

Inductive ev : Type -> Type :=
| Now : ev Z
| MakeUlid : ev string
| RandN (n : Z) : ev Z
| Sql {A} (c : conn) (s : stmt A) : ev (result A)
| Begin : ev (result unit)
| Commit : ev (result unit)
| Rollback : ev (result unit)
| HGetAll (key : string) : ev (result (gmap string string))
| HSet (key : string) (fields : gmap string string) : ev (result unit)
| PublishMsg (channel message : string) : ev (result unit)
| Locked {A} (f : mgr -> A * mgr) : ev A    (* a critical section of [m.mu] *)
| LockLedger (ledger : string) : ev unit
| UnlockLedger (ledger : string) : ev unit
| SpawnClose (ledger batch : string) : ev unit
| SleepOrDone (d : Z) : ev bool             (* false when the context ended first *)
| Range {A} (l : list A) : ev (list A)      (* the order a Go map is iterated in *)
| Incr (key : string) : ev (result Z)       (* a Redis counter *)
| ExpireKey (key : string) (ttl : Z) : ev (result unit)
| SqlLock {A} (k : row_key) (s : stmt A) : ev (result A).   (* on the open transaction, with the row locked *)

Inductive prog (A : Type) : Type :=
| Ret (a : A)
| Vis {X : Type} (e : ev X) (k : X -> prog A).
Arguments Ret {A} a.
Arguments Vis {A X} e k.

Fixpoint pbind {A B} (m : prog A) (f : A -> prog B) : prog B :=
  match m with
  | Ret a => f a
  | Vis e k => Vis e (fun x => pbind (k x) f)
  end.

Definition trigger {X} (e : ev X) : prog X := Vis e Ret.

(** Code returning [(T, error)]. *)
Definition M (A : Type) : Type := prog (result A).
Definition ok {A} (a : A) : M A := Ret (Ok a).
Definition fail {A} (e : error) : M A := Ret (Err e).
Definition lift {A} (r : result A) : M A := Ret r.
Definition mbind {A B} (m : M A) (f : A -> M B) : M B :=
  pbind m (fun r => match r with Ok a => f a | Err e => fail e end).

(** [let*] returns the error of its program at once; [let+] hands over its reply. *)
Notation "'let*' x ':=' m 'in' k" := (mbind m (fun x => k))
  (at level 10, x pattern, m at level 200, k at level 200,
   format "'[v' 'let*'  x  ':='  m  'in' '/' k ']'") : go_scope.
Notation "'let+' x ':=' m 'in' k" := (pbind m (fun x => k))
  (at level 10, x pattern, m at level 200, k at level 200,
   format "'[v' 'let+'  x  ':='  m  'in' '/' k ']'") : go_scope.

(** [if err := m; err != nil { return fmt.Errorf("...: %w", err) }]. *)
Definition wrap {A} (msg : string) (m : M A) : M A :=
  pbind m (fun r => Ret (rmap_err (EWrap msg) r)).

Definition when (b : bool) (m : M unit) : M unit := if b then m else ok tt.

(** [for _, x := range l { if err := f(x); err != nil { return err } }]. *)
Fixpoint for_each {A} (f : A -> M unit) (l : list A) : M unit :=
  match l with
  | [] => ok tt
  | x :: l' => let* _ := f x in for_each f l'
  end.

(** ** The world *)

Inductive txstate :=
| TxNone
| TxOpen (start : Z) (d : DB)   (* the view of the transaction *)
| TxAborted.

Record World := mkW {
  w_db : DB;                               (* the committed database *)
  w_tx : txstate;
  w_redis : gmap string (gmap string string);
  w_mgr : mgr;
  w_out : list output;
  w_counters : gmap string Z;              (* the counters in Redis *)
  w_tick : nat
}.

Record Env := {
  e_now : nat -> Z;
  e_ulid : nat -> string;
  e_rand : nat -> Z;
  e_fault : nat -> option fault;
  e_evicted : nat -> bool;
  e_done : nat -> bool;
  e_order : nat -> list nat
}.

Definition with_db d w := mkW d (w_tx w) (w_redis w) (w_mgr w) (w_out w) (w_counters w) (w_tick w).
Definition with_tx t w := mkW (w_db w) t (w_redis w) (w_mgr w) (w_out w) (w_counters w) (w_tick w).
Definition with_redis r w := mkW (w_db w) (w_tx w) r (w_mgr w) (w_out w) (w_counters w) (w_tick w).
Definition with_mgr m w := mkW (w_db w) (w_tx w) (w_redis w) m (w_out w) (w_counters w) (w_tick w).
Definition emit o w := mkW (w_db w) (w_tx w) (w_redis w) (w_mgr w) (w_out w ++ [o]) (w_counters w) (w_tick w).
Definition with_counters c w := mkW (w_db w) (w_tx w) (w_redis w) (w_mgr w) (w_out w) c (w_tick w).
Definition tick w := mkW (w_db w) (w_tx w) (w_redis w) (w_mgr w) (w_out w) (w_counters w) (S (w_tick w)).

Definition fault_code (f : fault) : pgcode := match f with FDeadlock => PgDeadlock | _ => PgConn end.

(** A statement on the pool commits at once, and the open transaction (at READ
    COMMITTED) sees it. *)
Definition see {A} (s : stmt A) (now : Z) (t : txstate) : txstate :=
  match t with
  | TxOpen t0 d => match s now d with inl _ => t | inr (_, d') => TxOpen t0 d' end
  | t => t
  end.

Definition sql_pool {A} (s : stmt A) (now : Z) (f : option fault) (w : World) : result A * World :=
  match f with
  | Some FDown | Some FDeadlock => (Err (EPg (match f with Some c => fault_code c | None => PgConn end)), w)
  | _ =>
      match s now (w_db w) with
      | inl c => (Err (EPg c), w)
      | inr (a, d') =>
          (match f with None => Ok a | Some _ => Err (EPg PgConn) end,
           with_db d' (with_tx (see s now (w_tx w)) w))
      end
  end.

(** An error inside a transaction aborts it. *)
Definition sql_tx {A} (s : stmt A) (f : option fault) (w : World) : result A * World :=
  match w_tx w with
  | TxNone => (Err (EPg PgTxClosed), w)
  | TxAborted => (Err (EPg PgInFailedTx), w)
  | TxOpen t0 d =>
      match f with
      | Some c => (Err (EPg (fault_code c)), with_tx TxAborted w)
      | None =>
          match s t0 d with
          | inl c => (Err (EPg c), with_tx TxAborted w)
          | inr (a, d') => (Ok a, with_tx (TxOpen t0 d') w)
          end
      end
  end.

Definition commit (f : option fault) (w : World) : result unit * World :=
  match w_tx w with
  | TxNone => (Err (EPg PgTxClosed), w)
  | TxAborted => (Err (EPg PgCommitRollback), with_tx TxNone w)
  | TxOpen _ d =>
      match f with
      | None => (Ok tt, with_db d (with_tx TxNone w))
      | Some FLost => (Err (EPg PgConn), with_db d (with_tx TxNone w))
      | Some c => (Err (EPg (fault_code c)), with_tx TxNone w)
      end
  end.

(** The elements of [l] in the order [ix] picks them. *)
Fixpoint reorder {A} (ix : list nat) (l : list A) : list A :=
  match ix with
  | [] => l
  | i :: ix' =>
      match l !! (i mod length l)%nat with
      | None => l
      | Some x => x :: reorder ix' (delete (i mod length l)%nat l)
      end
  end.

Definition redis_reply {A} (f : option fault) (a : A) : result A :=
  match f with None => Ok a | Some _ => Err (EMsg "redis") end.

Definition step {X} (E : Env) (e : ev X) (w : World) : X * World :=
  let n := w_tick w in
  let now := e_now E n in
  let f := e_fault E n in
  match e in ev X return X * World with
  | Now => (now, w)
  | MakeUlid => (e_ulid E n, w)
  | RandN m => (e_rand E n mod m, w)
  | Sql Pool s => sql_pool s now f w
  | Sql Tx s => sql_tx s f w
  | Begin => match f with
             | None => (Ok tt, with_tx (TxOpen now (w_db w)) w)
             | Some c => (Err (EPg (fault_code c)), w)
             end
  | Commit => commit f w
  | Rollback => (Ok tt, with_tx TxNone w)
  | HGetAll key =>
      let w' := if e_evicted E n then with_redis (delete key (w_redis w)) w else w in
      (redis_reply f (default ∅ (w_redis w' !! key)), w')
  | HSet key fields =>
      (redis_reply f tt,
       match f with
       | Some FDown | Some FDeadlock => w
       | _ => with_redis (<[key := fields ∪ default ∅ (w_redis w !! key)]> (w_redis w)) w
       end)
  | PublishMsg c m =>
      (redis_reply f tt, match f with Some FDown | Some FDeadlock => w | _ => emit (Published c m) w end)
  | Locked g => let '(a, m') := g (w_mgr w) in (a, with_mgr m' w)
  | LockLedger _ => (tt, w)
  | UnlockLedger _ => (tt, w)
  | SpawnClose l b => (tt, emit (SpawnedClose l b) w)
  | SleepOrDone _ => (negb (e_done E n), w)
  | Range l => (reorder (e_order E n) l, w)
  | Incr key =>
      let c := if e_evicted E n then 0 else default 0 (w_counters w !! key) in
      (redis_reply f (c + 1),
       match f with
       | Some FDown | Some FDeadlock => w
       | _ => with_counters (<[key := c + 1]> (w_counters w)) w
       end)
  | ExpireKey _ _ => (redis_reply f tt, w)    (* the expiry is an eviction of the environment *)
  | SqlLock _ s => sql_tx s f w               (* one request at a time: the lock is free *)
  end.

Fixpoint run {A} (E : Env) (m : prog A) (w : World) : A * World :=
  match m with
  | Ret a => (a, w)
  | Vis e k => let '(x, w') := step E e w in run E (k x) (tick w')
  end.

(** ** Calls of the code *)

Definition time_Now : prog Z := trigger Now.
Definition ulid_Make : prog string := trigger MakeUlid.
Definition exec {A} (q : conn) (s : stmt A) : M A := trigger (Sql q s).

(** A [SELECT ... FOR UPDATE] on the open transaction. *)
Definition lock_rows {A} (k : row_key) (s : stmt A) : M A := trigger (SqlLock k s).

(** [QueryRow(...).Scan(...)]: no row is [pgx.ErrNoRows]. *)
Definition query_row {A} (q : conn) (s : stmt (option A)) : M A :=
  let* r := exec q s in
  match r with Some a => ok a | None => fail ENoRows end.

(** The query of Store, or the one of TxStore, which also locks the row. *)
Definition query_locked {A} (q : conn) (k : row_key) (s : stmt (option A)) : M A :=
  let* r := match q with Pool => exec Pool s | Tx => lock_rows k s end in
  match r with Some a => ok a | None => fail ENoRows end.

(** [tx, err := Begin(); ...; defer tx.Rollback(); body]. *)
Definition with_rollback {A} (body : M A) : M A :=
  let+ r := body in
  let+ _ := trigger Rollback in
  Ret r.
