(* ===== verification/Logic.v ===== *)
(** * Reasoning about programs: a weakest precondition for requests, and one for the
    body of a transaction

    [wp] is the outcome of [run]. [txwp] follows the body of a transaction on the view
    of the transaction and drops the executions that abort it, which can only be rolled
    back; [tx_ok] is the syntactic discipline that makes this sound (a body neither
    begins nor ends a transaction, its statements on the pool read, or touch the table
    of the batches only, and its own statements do not look at that table). *)
From S2P Require Import Prelude GoStd Json Storage Db Prog.

Lemma reorder_perm {A} ix (l : list A) : reorder ix l ≡ₚ l.
Proof.
  revert l. induction ix as [|i ix IH]; intros l; simpl; [done|].
  destruct (l !! _) as [x|] eqn:E; [|done].
  rewrite IH. symmetry. by apply delete_Permutation.
Qed.

(** ** Requests *)

Definition wp {A} (E : Env) (m : prog A) (w : World) (Q : A -> World -> Prop) : Prop :=
  let '(a, w') := run E m w in Q a w'.

Lemma run_bind {A B} E (m : prog A) (f : A -> prog B) w :
  run E (pbind m f) w = let '(a, w') := run E m w in run E (f a) w'.
Proof.
  revert w. induction m as [a|X e k IH]; intros w; simpl; [done|].
  destruct (step E e w) as [x w']. apply IH.
Qed.

Lemma wp_bind {A B} E (m : prog A) (f : A -> prog B) w Q :
  wp E m w (fun a w' => wp E (f a) w' Q) -> wp E (pbind m f) w Q.
Proof. unfold wp. rewrite run_bind. by destruct (run E m w). Qed.

Lemma wp_ret {A} E (a : A) w (Q : A -> World -> Prop) : Q a w -> wp E (Ret a) w Q.
Proof. done. Qed.

Lemma wp_mono {A} E (m : prog A) w (P Q : A -> World -> Prop) :
  wp E m w P -> (forall a w', P a w' -> Q a w') -> wp E m w Q.
Proof. unfold wp. destruct (run E m w). auto. Qed.

Lemma wp_run {A} E (m : prog A) w (Q : A -> World -> Prop) :
  wp E m w Q -> forall a w', run E m w = (a, w') -> Q a w'.
Proof. unfold wp. intros H a w1 Hr. by rewrite Hr in H. Qed.

Lemma wp_mbind {A B} E (m : M A) (f : A -> M B) w Q :
  wp E m w (fun r w' => match r with Ok a => wp E (f a) w' Q | Err e => Q (Err e) w' end) ->
  wp E (mbind m f) w Q.
Proof.
  intros H. apply wp_bind. eapply wp_mono; [apply H|].
  by intros [a|e] w'.
Qed.

Lemma wp_trigger {X} E (e : ev X) w (Q : X -> World -> Prop) :
  (let '(x, w') := step E e w in Q x (tick w')) -> wp E (trigger e) w Q.
Proof. unfold wp, trigger. simpl. by destruct (step E e w). Qed.

Lemma wp_wrap {A} E msg (m : M A) w Q :
  wp E m w (fun r w' => Q (rmap_err (EWrap msg) r) w') -> wp E (wrap msg m) w Q.
Proof. intros H. apply wp_bind. eapply wp_mono; [exact H|]. done. Qed.

(** ** Databases that differ in the batches only *)

Definition same_but_batches (d d' : DB) : Prop := d' = set_log_batches (log_batches d') d.

Lemma set_batches_same b d : same_but_batches d (set_log_batches b d).
Proof. done. Qed.

#[export] Instance same_but_batches_equiv : Equivalence same_but_batches.
Proof.
  unfold same_but_batches. split.
  - by intros [].
  - intros [] [] H. unfold set_log_batches in *. simpl in *. injection H; intros; subst; reflexivity.
  - intros d1 d2 d3 H1 H2. rewrite H2, H1. reflexivity.
Qed.

(** Nothing observable happened: the committed database is the same but for the
    batches, the cache is the same, no message was published. *)
Definition messages (o : list output) : list (string * string) :=
  omap (fun x => match x with Published c m => Some (c, m) | _ => None end) o.

Definition quiet (w w' : World) : Prop :=
  same_but_batches (w_db w) (w_db w') /\ w_redis w' = w_redis w /\
  messages (w_out w') = messages (w_out w).

#[export] Instance quiet_preorder : PreOrder quiet.
Proof.
  split.
  - intros w. repeat split; reflexivity.
  - intros w1 w2 w3 (H1 & H2 & H3) (H4 & H5 & H6). split; [by etransitivity|].
    split; congruence.
Qed.

(** ** The body of a transaction *)

(** A statement that changes nothing: a SELECT. *)
Definition read_stmt {A} (s : stmt A) : Prop := forall now d a d', s now d = inr (a, d') -> d' = d.
Lemma read_stmt_select {A} (f : Z -> DB -> A) : read_stmt (fun now d => inr (f now d, d)).
Proof. intros now d a d'. congruence. Qed.

(** A statement that changes at most the batches. *)
Definition batch_stmt {A} (s : stmt A) : Prop :=
  forall now d a d', s now d = inr (a, d') -> same_but_batches d d'.

(** Its effect is the one it has on any database with the same batches. *)
Definition batch_local {A} (s : stmt A) : Prop := forall now d1 d2, log_batches d1 = log_batches d2 ->
  s now d2 = match s now d1 with inl c => inl c | inr (a, d') => inr (a, set_log_batches (log_batches d') d2) end.
Lemma batch_local_stmt {A} (s : stmt A) : batch_local s -> batch_stmt s.
Proof. intros Hs now d a d' E. specialize (Hs now d d eq_refl). rewrite E in Hs. by injection Hs. Qed.
Lemma read_batch_stmt {A} (s : stmt A) : read_stmt s -> batch_stmt s.
Proof. intros Hs now d a d' ->%Hs. by destruct d. Qed.

(** What the pool may run during a transaction. *)
Definition pool_stmt {A} (s : stmt A) : Prop := read_stmt s \/ batch_local s.
Lemma pool_batch_stmt {A} (s : stmt A) : pool_stmt s -> batch_stmt s.
Proof. intros [Hs|Hs]; [by apply read_batch_stmt|by apply batch_local_stmt]. Qed.

(** A statement that does not look at the batches, and does not change them. *)
Definition detached {A} (s : stmt A) : Prop := forall now b d,
  s now (set_log_batches b d) = match s now d with inl c => inl c | inr (a, d') => inr (a, set_log_batches b d') end.
Lemma detached_keeps {A} (s : stmt A) now d a d' : detached s -> s now d = inr (a, d') -> log_batches d' = log_batches d.
Proof.
  intros Hs E. specialize (Hs now (log_batches d) d). rewrite E in Hs.
  replace (set_log_batches (log_batches d) d) with d in Hs by (by destruct d). rewrite E in Hs. injection Hs as ->. done.
Qed.

Definition ev_ok {X} (e : ev X) : Prop :=
  match e with
  | Sql Pool s => pool_stmt s
  | Sql Tx s => detached s
  | SqlLock _ s => read_stmt s /\ detached s
  | Begin | Commit | Rollback | HGetAll _ | HSet _ _ | PublishMsg _ _ | Incr _ | ExpireKey _ _ => False
  | _ => True
  end.

Fixpoint tx_ok {A} (m : prog A) : Prop :=
  match m with Ret _ => True | Vis e k => ev_ok e /\ forall x, tx_ok (k x) end.

(** What an event of the body makes of the view [d]; an execution that aborts is dropped. *)
Definition ev_tx {X} (t0 : Z) (e : ev X) (d : DB) (Q : X -> DB -> Prop) : Prop :=
  match e in ev X return (X -> DB -> Prop) -> Prop with
  | Sql Tx s | SqlLock _ s => fun Q => forall a d', s t0 d = inr (a, d') -> Q (Ok a) d'
  | Sql Pool s => fun Q => forall r b, Q r (set_log_batches b d)
  | Range l => fun Q => forall l', l' ≡ₚ l -> Q l' d
  | _ => fun Q => forall x, Q x d
  end Q.

Fixpoint txwp (t0 : Z) {A} (m : prog A) (d : DB) (Q : A -> DB -> Prop) : Prop :=
  match m with
  | Ret a => Q a d
  | Vis e k => ev_tx t0 e d (fun x d' => txwp t0 (k x) d' Q)
  end.

(** The outcome of a body: still open on a view satisfying [Q], or aborted. *)
Definition tx_outcome {A} (t0 : Z) (Q : A -> DB -> Prop) (w : World) (a : A) (w' : World) : Prop :=
  quiet w w' /\
  match w_tx w' with TxNone => False | TxAborted => True | TxOpen t d => t = t0 /\ Q a d end.

Lemma ev_tx_mono {X} t0 (e : ev X) d (P Q : X -> DB -> Prop) :
  ev_tx t0 e d P -> (forall x d', P x d' -> Q x d') -> ev_tx t0 e d Q.
Proof. destruct e as [| | |? [] s| | | | | | | | | | | | | | |? rk s]; simpl; eauto. Qed.

Lemma txwp_mono {A} t0 (m : prog A) d (P Q : A -> DB -> Prop) :
  txwp t0 m d P -> (forall a d', P a d' -> Q a d') -> txwp t0 m d Q.
Proof.
  intros H HPQ. revert d H. induction m as [a|X e k IH]; intros d H; simpl in *; [auto|].
  eapply ev_tx_mono; [exact H|]. intros x d'. apply IH.
Qed.

Lemma txwp_pbind {A B} t0 (m : prog A) (f : A -> prog B) d Q :
  txwp t0 m d (fun a d' => txwp t0 (f a) d' Q) -> txwp t0 (pbind m f) d Q.
Proof.
  revert d. induction m as [a|X e k IH]; intros d H; simpl in *; [done|].
  eapply ev_tx_mono; [exact H|]. intros x d'. apply IH.
Qed.

Lemma txwp_mbind {A B} t0 (m : M A) (f : A -> M B) d Q :
  txwp t0 m d (fun r d' => match r with Ok a => txwp t0 (f a) d' Q | Err e => Q (Err e) d' end) ->
  txwp t0 (mbind m f) d Q.
Proof. intros H. apply txwp_pbind. eapply txwp_mono; [exact H|]. by intros []. Qed.

Lemma tx_ok_pbind {A B} (m : prog A) (f : A -> prog B) :
  tx_ok m -> (forall a, tx_ok (f a)) -> tx_ok (pbind m f).
Proof.
  intros Hm Hf. induction m as [a|X e k IH]; simpl in *; [apply Hf|].
  destruct Hm as [He Hk]. split; [done|]. intros x. apply IH, Hk.
Qed.

Lemma tx_ok_mbind {A B} (m : M A) (f : A -> M B) :
  tx_ok m -> (forall a, tx_ok (f a)) -> tx_ok (mbind m f).
Proof. intros Hm Hf. apply tx_ok_pbind; [done|]. by intros []. Qed.

Lemma tx_ok_ret {A} (a : A) : tx_ok (Ret a).
Proof. done. Qed.
Lemma tx_ok_ok {A} (a : A) : tx_ok (ok a).
Proof. done. Qed.
Lemma tx_ok_fail {A} e : tx_ok (@fail A e).
Proof. done. Qed.
Lemma tx_ok_lift {A} (r : result A) : tx_ok (lift r).
Proof. done. Qed.
Lemma tx_ok_trigger {X} (e : ev X) : ev_ok e -> tx_ok (trigger e).
Proof. by split. Qed.
Lemma tx_ok_exec {A} (s : stmt A) : detached s -> tx_ok (exec Tx s).
Proof. by split. Qed.
Lemma tx_ok_lock {A} k (s : stmt A) : read_stmt s -> detached s -> tx_ok (lock_rows k s).
Proof. by split. Qed.
Lemma tx_ok_exec_pool {A} (s : stmt A) : pool_stmt s -> tx_ok (exec Pool s).
Proof. by split. Qed.
Lemma tx_ok_now : tx_ok time_Now.
Proof. by split. Qed.
Lemma tx_ok_ulid : tx_ok ulid_Make.
Proof. by split. Qed.

Lemma tx_ok_wrap {A} msg (m : M A) : tx_ok m -> tx_ok (wrap msg m).
Proof. intros. by apply tx_ok_pbind. Qed.

Lemma tx_ok_for_each {A} (f : A -> M unit) l : (forall x, tx_ok (f x)) -> tx_ok (for_each f l).
Proof. intros Hf. induction l; simpl; [done|]. by apply tx_ok_mbind. Qed.

Lemma tx_ok_query_row {A} (s : stmt (option A)) : detached s -> tx_ok (query_row Tx s).
Proof. intros Hs. apply tx_ok_mbind; [by apply tx_ok_exec|]. by intros []. Qed.

Lemma tx_ok_query_locked {A} k (s : stmt (option A)) : read_stmt s -> detached s -> tx_ok (query_locked Tx k s).
Proof. intros Hr Hs. apply tx_ok_mbind; [by apply tx_ok_lock|]. by intros []. Qed.

(** *** The statements of the tables *)

Create HintDb detached.
(** A SELECT, and an INSERT of a row. *)
#[export] Hint Extern 1 (detached _) => intros ? ? ?; reflexivity : detached.
#[export] Hint Extern 1 (read_stmt _) => intros ? ? ? ?; cbv; congruence : detached.
Ltac head_of t := lazymatch t with ?f _ => head_of f | _ => t end.
Ltac detached :=
  intros ? ? []; match goal with |- ?s = _ => let h := head_of s in unfold h end; unfold with_table; simpl;
  repeat case_match; by simplify_eq.

Lemma detached_log_event r : detached (sql_insert_log_event r).
Proof. detached. Qed.
Lemma detached_ik r : detached (sql_insert_ik r).
Proof. detached. Qed.
Lemma detached_account a : detached (sql_upsert_account a).
Proof. detached. Qed.
Lemma detached_tx r : detached (sql_insert_tx r).
Proof. detached. Qed.
Lemma detached_tx_metadata l id m : detached (sql_update_tx_metadata l id m).
Proof. detached. Qed.
Lemma detached_tx_key l id k : detached (sql_delete_tx_key l id k).
Proof. detached. Qed.
Lemma detached_delta r : detached (sql_insert_delta r).
Proof. detached. Qed.
Lemma detached_schema l v doc e : detached (sql_insert_schema l v doc e).
Proof. detached. Qed.
Lemma detached_history r : detached (sql_insert_metadata_history r).
Proof. detached. Qed.
Lemma detached_hold h : detached (sql_insert_hold h).
Proof. detached. Qed.
Lemma detached_live_hold l id f : detached (sql_update_live_hold l id f).
Proof. detached. Qed.
Lemma detached_relationship r : detached (sql_insert_relationship r).
Proof. detached. Qed.
Lemma detached_deactivate l : detached (sql_deactivate_policies l).
Proof. detached. Qed.
Lemma detached_policy p : detached (sql_insert_policy p).
Proof. detached. Qed.
Lemma detached_new_approval a : detached (sql_insert_approval a).
Proof. detached. Qed.
Lemma detached_approval p f : detached (sql_update_approval p f).
Proof. detached. Qed.
#[export] Hint Resolve detached_log_event detached_ik detached_account detached_tx detached_tx_metadata detached_tx_key detached_delta detached_schema
  detached_history detached_hold detached_live_hold detached_relationship detached_deactivate detached_policy detached_new_approval detached_approval : detached.

(** Closing a tx_ok goal along the syntax of the body. *)
Ltac tx_ok_step :=
  match goal with
  | |- tx_ok (mbind _ _) => apply tx_ok_mbind; [|intros ?]
  | |- tx_ok (pbind _ _) => apply tx_ok_pbind; [|intros ?]
  | |- tx_ok (Ret _) => apply tx_ok_ret
  | |- tx_ok (ok _) => apply tx_ok_ok
  | |- tx_ok (fail _) => apply tx_ok_fail
  | |- tx_ok (lift _) => apply tx_ok_lift
  | |- tx_ok (wrap _ _) => apply tx_ok_wrap
  | |- tx_ok (exec Tx _) => apply tx_ok_exec; auto with detached
  | |- tx_ok (query_row Tx _) => apply tx_ok_query_row; auto with detached
  | |- tx_ok (lock_rows _ _) => apply tx_ok_lock; auto with detached
  | |- tx_ok (query_locked Tx _ _) => apply tx_ok_query_locked; auto with detached
  | |- tx_ok (trigger _) => apply tx_ok_trigger; exact I
  | |- tx_ok (for_each _ _) => apply tx_ok_for_each; intros ?
  | |- tx_ok time_Now => apply tx_ok_now
  | |- tx_ok ulid_Make => apply tx_ok_ulid
  | |- tx_ok (match ?x with _ => _ end) => destruct x
  | |- tx_ok (let '_ := ?x in _) => destruct x
  end.
Ltac tx_ok := repeat (tx_ok_step || (progress eauto with tx_ok)).
Create HintDb tx_ok.

(** A statement of the open transaction leaves it open on the new view, or aborted. *)
Lemma sql_tx_sound {A} (s : stmt A) f w t0 d (Q : result A -> DB -> Prop) :
  w_tx w = TxOpen t0 d -> (forall a d', s t0 d = inr (a, d') -> Q (Ok a) d') ->
  let '(x, w') := sql_tx s f w in tx_outcome t0 Q w x (tick w').
Proof.
  intros Hw H. unfold sql_tx, tx_outcome. rewrite Hw. destruct f; simpl; [done|].
  destruct (s t0 d) as [c|[a d']] eqn:Es; simpl; [done|]. split; [done|]. split; [done|]. eauto.
Qed.

(** Soundness of one event. *)
Lemma step_tx {X} E (e : ev X) w t0 d Q :
  ev_ok e -> w_tx w = TxOpen t0 d -> ev_tx t0 e d Q ->
  let '(x, w') := step E e w in tx_outcome t0 Q w x (tick w').
Proof.
  intros He Hw H. destruct e as [| | |? [] s| | | | | | | | | | | | | | |? rk s];
    try exact (sql_tx_sound s _ _ _ _ _ Hw H); unfold tx_outcome; simpl in *; try done.
  all: try (rewrite Hw; by split; [|auto]).
  - (* pool *)
    unfold sql_pool. destruct (e_fault E (w_tick w)) as [[]|] eqn:F;
      try (rewrite Hw; split; [done|split; [done|]]; specialize (H (Err (EPg (fault_code FDown))) (log_batches d));
           by destruct d).
    all: try (rewrite Hw; split; [done|split; [done|]]; simpl;
         match goal with |- ?P ?r _ => specialize (H r (log_batches d)) end; by destruct d).
    all: destruct (s _ (w_db w)) as [c|[a d']] eqn:Es; simpl.
    all: try (rewrite Hw; split; [done|split; [done|]];
         match goal with |- ?P ?r _ => specialize (H r (log_batches d)) end; by destruct d).
    all: apply pool_batch_stmt in He.
    all: rewrite Hw; simpl; split; [split; [apply He in Es; exact Es|done]|].
    all: destruct (s _ d) as [c|[a2 d2]] eqn:Es2; (split; [done|]).
    all: try (match goal with |- ?P ?r _ => specialize (H r (log_batches d)) end; by destruct d).
    all: apply He in Es2; rewrite Es2; apply H.
  - (* locked *)
    destruct (f (w_mgr w)) as [a m']. simpl. rewrite Hw. split; [done|]. split; [done|]. auto.
  - (* spawn *)
    rewrite Hw. split; [|auto]. repeat split; simpl; try reflexivity.
    unfold messages. rewrite omap_app. simpl. by rewrite app_nil_r.
  - (* range *)
    rewrite Hw. split; [done|]. split; [done|]. apply H, reorder_perm.
Qed.

Lemma step_aborted {X} E (e : ev X) w :
  ev_ok e -> w_tx w = TxAborted ->
  let '(x, w') := step E e w in quiet w (tick w') /\ w_tx (tick w') = TxAborted.
Proof.
  intros He Hw. destruct e as [| | |? [] s| | | | | | | | | | | | | | |? rk s]; simpl in *; try done.
  - unfold sql_pool. destruct (e_fault E (w_tick w)) as [[]|]; simpl; try done.
    all: destruct (s _ (w_db w)) as [c|[a d']] eqn:Es; simpl; try done.
    all: rewrite Hw; simpl; split; [|done]; split; [apply (pool_batch_stmt _ He) in Es; exact Es|done].
  - unfold sql_tx. by rewrite Hw.
  - by destruct (f (w_mgr w)).
  - split; [|done]. repeat split; simpl; try reflexivity.
    unfold messages. rewrite omap_app. simpl. by rewrite app_nil_r.
  - unfold sql_tx. by rewrite Hw.
Qed.

Lemma run_aborted {A} E (m : prog A) w :
  tx_ok m -> w_tx w = TxAborted -> wp E m w (fun _ w' => quiet w w' /\ w_tx w' = TxAborted).
Proof.
  unfold wp. revert w. induction m as [a|X e k IH]; intros w; simpl; [by split|].
  intros [He Hk] Hw. pose proof (step_aborted E e w He Hw) as H.
  destruct (step E e w) as [x w1]. destruct H as [Hq1 Hw1].
  specialize (IH x _ (Hk x) Hw1). destruct (run E (k x) (tick w1)) as [a w2].
  destruct IH. split; [by etransitivity|done].
Qed.

(** Soundness of [txwp]. *)
Lemma txwp_sound {A} E (m : prog A) w t0 d Q :
  tx_ok m -> w_tx w = TxOpen t0 d -> txwp t0 m d Q -> wp E m w (tx_outcome t0 Q w).
Proof.
  unfold wp. revert w d. induction m as [a|X e k IH]; intros w d; simpl.
  - intros _ Hw H. split; [done|]. by rewrite Hw.
  - intros [He Hk] Hw H.
    pose proof (step_tx E e w t0 d _ He Hw H) as Hs. destruct (step E e w) as [x w1].
    destruct Hs as [Hq Hs]. destruct (w_tx (tick w1)) as [|t d1|] eqn:Ht; [done| |].
    + destruct Hs as [-> Hs]. specialize (IH x _ d1 (Hk x) Ht Hs).
      destruct (run E (k x) (tick w1)) as [a w2]. destruct IH as [Hq2 H2].
      split; [by etransitivity|done].
    + pose proof (run_aborted E (k x) _ (Hk x) Ht) as Ha. unfold wp in Ha.
      destruct (run E (k x) (tick w1)) as [a w2]. destruct Ha as [Hq2 H2].
      split; [by etransitivity|]. by rewrite H2.
Qed.
