(* ===== verification/Postgres.v ===== *)
(** * internal/storage/postgres: the store methods

    Each method of [queries] takes the connection [q] it runs on (the pool for Store,
    the open transaction for TxStore), performs its statement and maps PostgreSQL errors
    to the sentinels of the storage package. *)
From S2P Require Import Prelude GoStd Json Storage Db Prog Logic.

(** ** store.go *)

Definition maxPageSize : Z := 1000.

Definition parseBigInt (s field : string) : result Z :=
  match Z_of_dec s with Some v => Ok v | None => Err (EWrap field (EMsg "invalid value")) end.

Definition isNoRows (e : error) : bool := errors_is_no_rows e.
Definition isUniqueViolation (e : error) : bool := bool_decide (errors_as_pg e = Some PgUnique).
Definition isDeadlock (e : error) : bool := bool_decide (errors_as_pg e = Some PgDeadlock).

(** [if err != nil { return f(err) }] on the reply of a statement. *)
Definition on_err {A} (m : M A) (f : error -> error) : M A :=
  let+ r := m in Ret (rmap_err f r).

Definition BeginTx : M unit := on_err (trigger Begin) (EWrap "beginning transaction").
Definition TxCommit : M unit := trigger Commit.
Definition TxRollback : prog (result unit) := trigger Rollback.

Definition NextLedgerSeq (ledgerID : string) : M Z :=
  let* _ := on_err (lock_rows (LedgerRow ledgerID) (sql_lock_ledger ledgerID))
              (fun e => if isDeadlock e then ESent ErrDeadlock else EWrap "locking ledger for seq" e) in
  exec Tx (sql_next_seq ledgerID).

(** The page size of a listing, and the token of the next page. *)
Definition page_size (n : Z) : Z :=
  let n := if n <=? 0 then 100 else n in if maxPageSize <? n then maxPageSize else n.

Definition page {R} (key : R -> string) (limit : Z) (rows : list R) : list R * string :=
  if limit <? Z.of_nat (length rows)
  then (take (Z.to_nat limit) rows,
        match rows !! Z.to_nat limit with Some r => key r | None => EmptyString end)
  else (rows, EmptyString).

(** [for rows.Next() { ... Scan ... }]: the first row that does not scan is an error. *)
Fixpoint scan_rows {R A} (f : R -> result A) (rows : list R) : result (list A) :=
  match rows with
  | [] => Ok []
  | r :: rows' => let? a := f r in let? l := scan_rows f rows' in Ok (a :: l)
  end.

(** ** store_ledgers.go *)

Definition CreateLedger (q : conn) (params : CreateLedgerParams) : M LedgerRecord :=
  let bucketID := if String.eqb (cl_BucketID params) EmptyString then "_default" else cl_BucketID params in
  let* _ := wrap "ensuring bucket" (exec q (sql_ensure_bucket bucketID)) in
  on_err (exec q (sql_insert_ledger (cl_ID params) bucketID (cl_Metadata params)))
    (fun e => if isUniqueViolation e then EWrap "ledger" (ESent ErrAlreadyExists)
              else EWrap "inserting ledger" e).

Definition GetLedger (q : conn) (id : string) : M LedgerRecord :=
  on_err (query_row q (sql_select_ledger id))
    (fun e => if isNoRows e then EWrap "ledger" (ESent ErrNotFound) else EWrap "getting ledger" e).

Definition ListLedgers (q : conn) (params : ListParams) : M (list LedgerRecord * string) :=
  let limit := page_size (lp_PageSize params) in
  let* rows := wrap "listing ledgers" (exec q (sql_list_ledgers (lp_PageToken params) (limit + 1))) in
  ok (page lr_ID limit rows).

Definition SealLedger (q : conn) (id : string) : M LedgerRecord :=
  on_err (query_row q (sql_seal_ledger id))
    (fun e => if isNoRows e then EWrap "ledger (may be sealed or not exist)" (ESent ErrNotFound)
              else EWrap "sealing ledger" e).

(** ** store_log.go *)

Definition AppendLogEvent (q : conn) (event : LogEventRecord) : M unit :=
  on_err (exec q (sql_insert_log_event event))
    (fun e => if isUniqueViolation e then ESent ErrIdempotencyKeyConflict
              else if isDeadlock e then ESent ErrDeadlock
              else EWrap "appending log event" e).

Definition GetLogEvent (q : conn) (ledgerID eventID : string) : M LogEventRecord :=
  on_err (query_row q (sql_select_log_event ledgerID eventID))
    (fun e => if isNoRows e then EWrap "log event" (ESent ErrNotFound) else EWrap "getting log event" e).

Definition ListLogEventsByIdempotencyKey (q : conn) (ledgerID idempotencyKey : string) : M (list LogEventRecord) :=
  if String.eqb idempotencyKey EmptyString then ok []
  else wrap "listing log events by idempotency key" (exec q (sql_log_by_key ledgerID idempotencyKey)).

Definition ListLogEvents (q : conn) (ledgerID : string) (params : ListParams) : M (list LogEventRecord * string) :=
  let limit := page_size (lp_PageSize params) in
  let* rows := wrap "listing log events" (exec q (sql_list_log ledgerID (lp_PageToken params) (limit + 1))) in
  ok (page ev_EventID limit rows).

(** ** store_batches.go *)

Definition CreateBatch (q : conn) (batch : BatchRecord) : M unit :=
  wrap "creating batch" (exec q (sql_insert_batch batch)).

Definition CloseBatch (q : conn) (batchID : string) (merkleRoot : option string) (eventCount : Z) : M unit :=
  wrap "closing batch" (exec q (sql_close_batch batchID merkleRoot eventCount)).

Definition GetBatch (q : conn) (batchID : string) : M BatchRecord :=
  on_err (query_row q (sql_select_batch batchID))
    (fun e => if isNoRows e then EWrap "batch" (ESent ErrNotFound) else EWrap "getting batch" e).

Definition ListOpenBatches (q : conn) (olderThan : Z) : M (list BatchRecord) :=
  wrap "listing open batches" (exec q (sql_open_batches olderThan)).

Definition ListBatchEvents (q : conn) (batchID : string) : M (list LogEventRecord) :=
  wrap "listing batch events" (exec q (sql_batch_events batchID)).

(** ** store_idempotency.go *)

Definition GetIdempotencyKey (q : conn) (ledgerID key : string) : M (option IdempotencyKeyRecord) :=
  let+ r := query_row q (sql_select_ik ledgerID key) in
  match r with
  | Ok rec => ok (Some rec)
  | Err e => if isNoRows e then ok None else fail e
  end.

Definition InsertIdempotencyKey (q : conn) (record : IdempotencyKeyRecord) : M unit :=
  on_err (exec q (sql_insert_ik record))
    (fun e => if isUniqueViolation e then ESent ErrIdempotencyKeyConflict else e).

(** ** store_accounts.go *)

Definition account_of_row (r : account_row) : result AccountRecord :=
  match unmarshal_map (ac_Metadata r) with
  | Some m => Ok {| ac_LedgerID := ac_LedgerID r; ac_Address := ac_Address r;
                    ac_FirstUsage := ac_FirstUsage r; ac_UpdatedAt := ac_UpdatedAt r; ac_Metadata := m |}
  | None => Err (EWrap "unmarshaling metadata" (EMsg "json"))
  end.

Definition row_of_account (a : AccountRecord) : account_row :=
  {| ac_LedgerID := ac_LedgerID a; ac_Address := ac_Address a; ac_FirstUsage := pg_ts (ac_FirstUsage a);
     ac_UpdatedAt := pg_ts (ac_UpdatedAt a); ac_Metadata := to_column (json_of_gomap (ac_Metadata a)) |}.

Definition UpsertAccount (q : conn) (account : AccountRecord) : M unit :=
  wrap "upserting account" (exec q (sql_upsert_account (row_of_account account))).

Definition GetAccount (q : conn) (ledgerID address : string) : M AccountRecord :=
  let* row := on_err (query_row q (sql_select_account ledgerID address))
                (fun e => if isNoRows e then EWrap "account" (ESent ErrNotFound) else e) in
  lift (account_of_row row).

Definition ListAccounts (q : conn) (ledgerID : string) (params : ListParams) : M (list AccountRecord * string) :=
  let limit := page_size (lp_PageSize params) in
  let* rows := exec q (sql_list_accounts ledgerID (lp_PageToken params) (limit + 1)) in
  let* result := lift (scan_rows account_of_row rows) in
  ok (page ac_Address limit result).

(** ** store_transactions.go *)

Definition tx_of_row (r : tx_row) : result TransactionRecord :=
  match unmarshal_map (tx_Metadata r) with
  | Some m => Ok {| tx_LedgerID := tx_LedgerID r; tx_TransactionID := tx_TransactionID r;
                    tx_EventID := tx_EventID r; tx_ValidTime := tx_ValidTime r;
                    tx_SystemTime := tx_SystemTime r; tx_Reference := tx_Reference r;
                    tx_Postings := tx_Postings r; tx_Metadata := m |}
  | None => Err (EWrap "unmarshaling metadata" (EMsg "json"))
  end.

Definition row_of_tx (t : TransactionRecord) : tx_row :=
  {| tx_LedgerID := tx_LedgerID t; tx_TransactionID := tx_TransactionID t; tx_EventID := tx_EventID t;
     tx_ValidTime := pg_ts (tx_ValidTime t); tx_SystemTime := pg_ts (tx_SystemTime t);
     tx_Reference := tx_Reference t; tx_Postings := tx_Postings t;
     tx_Metadata := to_column (json_of_gomap (tx_Metadata t)) |}.

Definition InsertTransaction (q : conn) (tx : TransactionRecord) : M unit :=
  on_err (exec q (sql_insert_tx (row_of_tx tx)))
    (fun e => if isUniqueViolation e then ESent ErrTransactionReferenceConflict else e).

Definition GetTransaction (q : conn) (ledgerID txID : string) : M TransactionRecord :=
  let* row := on_err (query_row q (sql_select_tx ledgerID txID))
                (fun e => if isNoRows e then EWrap "transaction" (ESent ErrNotFound) else e) in
  lift (tx_of_row row).

Definition ListTransactions (q : conn) (ledgerID : string) (params : ListParams) : M (list TransactionRecord * string) :=
  let limit := page_size (lp_PageSize params) in
  let* rows := exec q (sql_list_txs ledgerID (lp_PageToken params) (limit + 1)) in
  let* result := lift (scan_rows tx_of_row rows) in
  ok (page tx_TransactionID limit result).

(** [if result.RowsAffected() == 0 { return ErrNotFound }]. *)
Definition affected (what : string) (n : Z) : M unit :=
  if n =? 0 then fail (EWrap what (ESent ErrNotFound)) else ok tt.

Definition UpdateTransactionMetadata (q : conn) (ledgerID txID : string) (metadata : gomap) : M unit :=
  let* n := exec q (sql_update_tx_metadata ledgerID txID (to_column (json_of_gomap metadata))) in
  affected "transaction" n.

Definition DeleteTransactionMetadataKey (q : conn) (ledgerID txID key : string) : M unit :=
  let* n := exec q (sql_delete_tx_key ledgerID txID key) in
  affected "transaction" n.

(** ** store_volumes.go *)

Definition InsertVolumeDelta (q : conn) (delta : VolumeDeltaRecord) : M unit := exec q (sql_insert_delta delta).

Definition GetBalance (q : conn) (ledgerID account asset : string) (asOfValid asOfSystem : option Z) : M BalanceResult :=
  let* (i, o) := wrap "getting balance" (exec q (sql_sum_bucket ledgerID account asset asOfValid asOfSystem)) in
  let* input := lift (parseBigInt (dec_of_Z i) "input_delta") in
  let* output := lift (parseBigInt (dec_of_Z o) "output_delta") in
  ok {| br_Input := input; br_Output := output |}.

(** [strings.ReplaceAll] of one character. *)
Fixpoint ReplaceAll (c : ascii) (r s : string) : string :=
  match s with
  | EmptyString => EmptyString
  | String a s' => if Ascii.eqb a c then r +:+ ReplaceAll c r s' else String a (ReplaceAll c r s')
  end.

(** The LIKE pattern of a glob pattern. *)
Definition escape_with (c : ascii) : string := String backslash (String c EmptyString).
Definition likePattern (addressPattern : string) : string :=
  let p := ReplaceAll backslash (escape_with backslash) addressPattern in
  let p := ReplaceAll "%" (escape_with "%") p in
  let p := ReplaceAll "_" (escape_with "_") p in
  ReplaceAll "*" "%" p.

(** SQL [s LIKE p ESCAPE '\']. *)
Fixpoint like (p s : string) {struct p} : bool :=
  match p with
  | EmptyString => match s with EmptyString => true | _ => false end
  | String a p1 =>
      if Ascii.eqb a "%" then
        (fix any (s : string) : bool :=
           like p1 s || match s with EmptyString => false | String _ s' => any s' end) s
      else if Ascii.eqb a backslash then
        match p1, s with
        | String b p2, String c s' => Ascii.eqb b c && like p2 s'
        | _, _ => false
        end
      else
        match s with
        | EmptyString => false
        | String c s' => (Ascii.eqb a "_" || Ascii.eqb a c) && like p1 s'
        end
  end.

Definition GetAggregatedBalances (q : conn) (ledgerID addressPattern : string) (asOfValid asOfSystem : option Z)
  : M (gmap string Z) :=
  let p account := if String.eqb addressPattern EmptyString then true else like (likePattern addressPattern) account in
  let* rows := wrap "getting aggregated balances" (exec q (sql_sum_by_asset ledgerID p asOfValid asOfSystem)) in
  let* sums := lift (scan_rows (fun row : string * Z * Z => match row with (asset, i, o) =>
                  let? input := parseBigInt (dec_of_Z i) "input_delta" in
                  let? output := parseBigInt (dec_of_Z o) "output_delta" in
                  Ok (asset, input - output) end) rows) in
  ok (list_to_map sums).

(** ** store_metadata.go *)

Definition InsertMetadataHistory (q : conn) (record : MetadataHistoryRecord) : M unit :=
  wrap "inserting metadata history" (exec q (sql_insert_metadata_history
    {| mh_LedgerID := mh_LedgerID record; mh_TargetType := mh_TargetType record;
       mh_TargetID := mh_TargetID record; mh_Revision := mh_Revision record;
       mh_Metadata := to_column (json_of_gomap (mh_Metadata record));
       mh_EventID := mh_EventID record; mh_SystemTime := pg_ts (mh_SystemTime record) |})).

(** [json.Marshal] of the document: a byte slice is written as a base64 string. *)
Definition base64_digit (n : Z) : ascii :=
  ascii_of_N (Z.to_N (if n <? 26 then 65 + n else if n <? 52 then 71 + n
                      else if n <? 62 then n - 4 else if n =? 62 then 43 else 47)).

Fixpoint base64 (l : list Z) : string :=
  match l with
  | [] => EmptyString
  | [a] => String (base64_digit (a / 4)) (String (base64_digit (a mod 4 * 16)) "==")
  | [a; b] => String (base64_digit (a / 4)) (String (base64_digit (a mod 4 * 16 + b / 16))
                (String (base64_digit (b mod 16 * 4)) "="))
  | a :: b :: c :: l' =>
      String (base64_digit (a / 4)) (String (base64_digit (a mod 4 * 16 + b / 16))
        (String (base64_digit (b mod 16 * 4 + c / 64)) (String (base64_digit (c mod 64)) (base64 l'))))
  end.

Definition json_of_document (doc : document) : json :=
  match doc with
  | DocBytes None => JNull
  | DocBytes (Some b) => JStr (base64 (bytes_of_string b))
  | DocAny j => j
  end.

Definition InsertSchema (q : conn) (schema : SchemaRecord) : M unit :=
  wrap "inserting schema" (exec q (sql_insert_schema (sc_LedgerID schema) (sc_Version schema)
    (to_column (json_of_document (sc_Document schema))) (sc_EventID schema))).

Definition GetSchema (q : conn) (ledgerID version : string) : M SchemaRecord :=
  let* r := on_err (query_row q (sql_select_schema ledgerID version))
              (fun e => if isNoRows e then EWrap "schema" (ESent ErrNotFound) else e) in
  ok {| sc_LedgerID := sr_LedgerID r; sc_Version := sr_Version r;
        sc_Document := DocAny (of_column (sr_Document r)); sc_InsertedAt := sr_InsertedAt r;
        sc_EventID := sr_EventID r |}.

(** ** store_holds.go *)

Definition InsertHold (q : conn) (hold : HoldRecord) : M unit := exec q (sql_insert_hold hold).

Definition hold_of_row (h : HoldRecord) : result HoldRecord :=
  let? authorized := parseBigInt (dec_of_Z (ho_AuthorizedAmount h)) "authorized_amount" in
  let? captured := parseBigInt (dec_of_Z (ho_CapturedAmount h)) "captured_amount" in
  Ok {| ho_LedgerID := ho_LedgerID h; ho_HoldID := ho_HoldID h; ho_Source := ho_Source h;
        ho_DestinationHint := ho_DestinationHint h; ho_Asset := ho_Asset h;
        ho_AuthorizedAmount := authorized; ho_CapturedAmount := captured;
        ho_Voided := ho_Voided h; ho_Expired := ho_Expired h; ho_ExpiresAt := ho_ExpiresAt h;
        ho_AuthorizedEventID := ho_AuthorizedEventID h; ho_ValidTime := ho_ValidTime h;
        ho_SystemTime := ho_SystemTime h |}.

(** On a transaction the query also takes the row lock ([FOR UPDATE]). *)
Definition GetHold (q : conn) (ledgerID holdID : string) : M HoldRecord :=
  let* row := on_err (query_locked q (HoldRow ledgerID holdID) (sql_select_hold ledgerID holdID))
                (fun e => if isNoRows e then EWrap "hold" (ESent ErrNotFound) else e) in
  lift (hold_of_row row).

Definition ListHolds (q : conn) (ledgerID : string) (params : ListParams) (account : string) : M (list HoldRecord * string) :=
  let limit := page_size (lp_PageSize params) in
  let* rows := exec q (sql_list_holds ledgerID (lp_PageToken params) account (limit + 1)) in
  let* result := lift (scan_rows hold_of_row rows) in
  ok (page ho_HoldID limit result).

Definition UpdateHoldCaptured (q : conn) (ledgerID holdID : string) (capturedDelta : Z) : M unit :=
  let* n := exec q (sql_update_live_hold ledgerID holdID (capture_hold capturedDelta)) in
  affected "hold not updatable (voided or expired)" n.

Definition VoidHold (q : conn) (ledgerID holdID : string) : M unit :=
  let* n := exec q (sql_update_live_hold ledgerID holdID void_hold) in
  affected "hold not found, already voided, or expired" n.

Definition ExpireHold (q : conn) (ledgerID holdID : string) : M unit :=
  let* n := exec q (sql_update_live_hold ledgerID holdID expire_hold) in
  affected "hold not found or already voided/expired" n.

Definition ListExpiredHolds (q : conn) : M (list HoldRecord) :=
  let* rows := exec q sql_expired_holds in
  lift (scan_rows hold_of_row rows).

Definition GetActiveHoldsTotal (q : conn) (ledgerID account asset : string) : M Z :=
  let* total := exec q (sql_sum_holds ledgerID account asset) in
  lift (parseBigInt (dec_of_Z total) "active_holds_total").

Definition InsertRelationship (q : conn) (rel : RelationshipRecord) : M unit := exec q (sql_insert_relationship rel).

Definition GetRelationships (q : conn) (ledgerID txID : string) (depth : Z) : M (list RelationshipRecord) :=
  let depth := if depth <=? 0 then 1 else depth in
  let depth := if 100 <? depth then 100 else depth in
  if depth =? 1 then exec q (sql_relationships ledgerID txID)
  else exec q (sql_relationship_chain ledgerID txID depth).

(** ** store_governance.go *)

Definition insertPolicy (db : conn) (policy : PolicyRecord) : M unit :=
  let* _ := wrap "deactivating policies" (exec db (sql_deactivate_policies (pol_LedgerID policy))) in
  wrap "inserting policy" (exec db (sql_insert_policy policy)).

(** On Store the two statements run in a transaction of their own. *)
Definition Store_InsertPolicy (policy : PolicyRecord) : M unit :=
  let* _ := wrap "beginning policy tx" (trigger Begin) in
  with_rollback (let* _ := insertPolicy Tx policy in trigger Commit).

Definition TxStore_InsertPolicy (policy : PolicyRecord) : M unit := insertPolicy Tx policy.

Definition GetActivePolicy (q : conn) (ledgerID : string) : M (option PolicyRecord) :=
  let+ r := query_row q (sql_active_policy ledgerID) in
  match r with
  | Ok rec => ok (Some rec)
  | Err e => if isNoRows e then ok None else fail e
  end.

Definition zero_approval : ApprovalEntry := {| ae_Principal := ""; ae_Signature := ""; ae_SignedAt := 0 |}.

(** [json.Unmarshal] of the column: a null element is a zero entry. *)
Definition approvals_of_col (c : approvals_col) : option (list ApprovalEntry) :=
  option_map (map (default zero_approval)) c.
Definition col_of_approvals (a : option (list ApprovalEntry)) : approvals_col := option_map (map Some) a.

Definition map_approvals {A B} (f : A -> B) (a : PendingApprovalRecord_ A) : PendingApprovalRecord_ B :=
  {| pa_LedgerID := pa_LedgerID a; pa_IntentID := pa_IntentID a; pa_IntentPayload := pa_IntentPayload a;
     pa_IntentHash := pa_IntentHash a; pa_RequiredApprovers := pa_RequiredApprovers a;
     pa_ReceivedApprovals := f (pa_ReceivedApprovals a); pa_ExpiresAt := pa_ExpiresAt a;
     pa_State := pa_State a; pa_SubmittedAt := pa_SubmittedAt a; pa_SubmittedBy := pa_SubmittedBy a;
     pa_ExecutingAt := pa_ExecutingAt a |}.
Definition approval_of_row : approval_row -> PendingApprovalRecord := map_approvals approvals_of_col.

Definition InsertPendingApproval (q : conn) (a : PendingApprovalRecord) : M unit :=
  exec q (sql_insert_approval (map_approvals col_of_approvals a)).

(** On a transaction the query also takes the row lock ([FOR UPDATE]). *)
Definition GetPendingApproval (q : conn) (ledgerID intentID : string) : M PendingApprovalRecord :=
  let* row := on_err (query_locked q (ApprovalRow ledgerID intentID) (sql_select_approval ledgerID intentID))
                (fun e => if isNoRows e then EWrap "pending approval" (ESent ErrNotFound) else e) in
  ok (approval_of_row row).

Definition set_state (state : string) (executing : Z -> approval_row -> option Z) (now : Z) (a : approval_row) : approval_row :=
  with_approval (pa_ReceivedApprovals a) state (executing now a) a.
Definition keep_executing (now : Z) (a : approval_row) : option Z := pa_ExecutingAt a.

Definition AddApproval (q : conn) (ledgerID intentID principal signature : string) : M unit :=
  let+ now := time_Now in
  let entry := {| ae_Principal := principal; ae_Signature := signature; ae_SignedAt := now |} in
  let* n := exec q (sql_update_approval
              (fun a => approval_is ledgerID intentID a && String.eqb (pa_State a) "pending")
              (fun _ a => with_approval (push_approval entry (pa_ReceivedApprovals a)) (pa_State a) (pa_ExecutingAt a) a)) in
  affected "approval is no longer pending" n.

Definition UpdateApprovalState (q : conn) (ledgerID intentID state : string) : M unit :=
  let* _ := exec q (sql_update_approval (approval_is ledgerID intentID) (set_state state keep_executing)) in ok tt.

Definition MarkApprovalExecuting (q : conn) (ledgerID intentID : string) : M unit :=
  let* _ := exec q (sql_update_approval (approval_is ledgerID intentID)
              (set_state "executing" (fun now _ => Some (pg_ts now)))) in ok tt.

Definition UpdateApprovalStateIf (q : conn) (ledgerID intentID fromState toState : string) : M bool :=
  let* n := exec q (sql_update_approval
              (fun a => approval_is ledgerID intentID a && String.eqb (pa_State a) fromState)
              (set_state toState keep_executing)) in
  ok (0 <? n).

Definition ListStuckApprovals (q : conn) (stuckThreshold : Z) : M (list PendingApprovalRecord) :=
  let* rows := exec q (sql_list_approvals (fun now a => String.eqb (pa_State a) "executing" &&
                 (default (pa_SubmittedAt a) (pa_ExecutingAt a) <? pg_ts now - pg_ts stuckThreshold)) 1000) in
  ok (map approval_of_row rows).

Definition ListPendingApprovals (q : conn) (ledgerID : string) (params : ListParams) : M (list PendingApprovalRecord * string) :=
  let pageSize := if (lp_PageSize params <=? 0) || (maxPageSize <? lp_PageSize params) then 100 else lp_PageSize params in
  let* rows := exec q (sql_page_approvals ledgerID (lp_PageToken params) (pageSize + 1)) in
  ok (page pa_IntentID pageSize (map approval_of_row rows)).

Definition ListExpiredApprovals (q : conn) : M (list PendingApprovalRecord) :=
  let* rows := exec q (sql_list_approvals (fun now a => String.eqb (pa_State a) "pending" &&
                 (pa_ExpiresAt a <? pg_ts now)) 1000) in
  ok (map approval_of_row rows).
