(* ===== verification/Bodies.v ===== *)
(** * The logics of transaction bodies

    The rules a reasoning about the body of a transaction may use, as an interface: a
    [TxLogic] gives each program a weakest precondition on the database the body is
    applied to. A SELECT answers from a database that was [seen], a [SELECT ... FOR UPDATE]
    from one with the same row, and a write is made on the database itself, or changed
    nothing of one that was seen. [txwp] is the
    logic of a body that runs alone and sees the database it changes; the logic of bodies
    that interleave is in Interleaving.v. What the store methods and the cores do is proved
    once, against the interface. *)
From S2P Require Import Prelude GoStd Json Storage Db Prog Logic Postgres.

(** ** The rows a lock protects *)

Definition same_row (k : row_key) (d d' : DB) : Prop :=
  match k with
  | LedgerRow l => find_ledger l d = find_ledger l d'
  | HoldRow l id => find_hold l id d = find_hold l id d'
  | ApprovalRow l id => find_approval l id d = find_approval l id d'
  end.
#[export] Instance same_row_equiv k : Equivalence (same_row k).
Proof. destruct k; split; unfold same_row; repeat intro; congruence. Qed.

(** What the lock of a row is taken for: the row, and for a ledger its log as well. *)
Definition agree (k : row_key) (d d' : DB) : Prop :=
  same_row k d d' /\ match k with LedgerRow l => ledger_log l d = ledger_log l d' | _ => True end.
#[export] Instance agree_equiv k : Equivalence (agree k).
Proof. destruct k; split; unfold agree, same_row; repeat intro; intuition congruence. Qed.

(** The next number of a ledger's log. *)
Definition next_seq (ledger : string) (d : DB) : Z := default 0 (max_seq (ledger_log ledger d)) + 1.

(** A write that leaves the log alone, and makes of equal rows equal rows. *)
Record gentle {A} (s : stmt A) : Prop := {
  gentle_log : forall now d a d', s now d = inr (a, d') -> log_events d' = log_events d;
  gentle_row : forall k now d1 d2 a d1' d2',
    same_row k d1 d2 -> s now d1 = inr (a, d1') -> s now d2 = inr (a, d2') -> same_row k d1' d2'
}.

Lemma gentle_read {A} (s : stmt A) : read_stmt s -> gentle s.
Proof.
  intros Hs. split; [by intros now d a d' ->%Hs|].
  by intros k now d1 d2 a d1' d2' Hr ->%Hs ->%Hs.
Qed.

(** A write to a table that no lock protects. *)
Definition lockless (d d' : DB) : Prop :=
  log_events d' = log_events d /\ ledgers d' = ledgers d /\ holds d' = holds d /\ pending_approvals d' = pending_approvals d.
Lemma gentle_lockless {A} (s : stmt A) : (forall now d a d', s now d = inr (a, d') -> lockless d d') -> gentle s.
Proof.
  intros Hs. split; [by intros now d a d' (H & _)%Hs|].
  intros k now d1 d2 a d1' d2' Hr (_ & L1 & L2 & L3)%Hs (_ & R1 & R2 & R3)%Hs.
  destruct k; unfold same_row, find_ledger, find_hold, find_approval in *; congruence.
Qed.

Lemma insert_row_inv {R} (c : R -> R -> bool) r t t' :
  insert_row c r t = inr t' -> existsb (c r) t = false /\ t' = t ++ [r].
Proof. unfold insert_row. destruct (existsb _ _); naive_solver. Qed.
Lemma with_table_inv {R} (r : pgcode + list R) set u (d' : DB) :
  with_table r set = inr (u, d') -> exists t, r = inr t /\ d' = set t.
Proof. unfold with_table. destruct r; naive_solver. Qed.

Lemma find_app {R} (p : R -> bool) l1 l2 :
  List.find p (l1 ++ l2) = match List.find p l1 with Some x => Some x | None => List.find p l2 end.
Proof. induction l1 as [|x l1 IH]; simpl; [done|]. by destruct (p x). Qed.
Lemma find_map {R} (p : R -> bool) (g : R -> R) t :
  (forall r, p (g r) = p r) -> List.find p (map g t) = option_map g (List.find p t).
Proof. intros Hg. induction t as [|x t IH]; simpl; [done|]. rewrite Hg. by destruct (p x). Qed.

Lemma gentle_insert_hold h : gentle (sql_insert_hold h).
Proof.
  assert (Hi : forall now d a d', sql_insert_hold h now d = inr (a, d') -> d' = set_holds (holds d ++ [hold_row h]) d).
  { intros now d a d' (t & Ht & ->)%with_table_inv. by apply insert_row_inv in Ht as [_ ->]. }
  split; [by intros now d a d' ->%Hi|].
  intros k now d1 d2 a d1' d2' Hr ->%Hi ->%Hi. destruct k; try done. simpl in *.
  unfold find_hold in *. simpl. by rewrite !find_app, Hr.
Qed.

Lemma gentle_update_hold l id f :
  (forall l' id' h, hold_is l' id' (f h) = hold_is l' id' h) -> gentle (sql_update_live_hold l id f).
Proof.
  intros Hf. split; [by intros now d a d' [= _ <-]|].
  intros k now d1 d2 a d1' d2' Hr [= _ <-] [= _ <-]. destruct k as [|l' id'|]; try done. simpl in *.
  unfold find_hold in *. simpl. rewrite !find_map; [by rewrite Hr|intros r; by destruct (_ && _); rewrite ?Hf..].
Qed.

Create HintDb gentle.
#[export] Hint Resolve gentle_insert_hold : gentle.
#[export] Hint Extern 1 (gentle (sql_update_live_hold _ _ _)) => by apply gentle_update_hold : gentle.

(** Closing [gentle] for the statements on tables that no lock protects. *)
Ltac lockless :=
  apply gentle_lockless; intros ? ? ? ? Hs;
  first [apply with_table_inv in Hs as (? & _ & ->)|injection Hs as _ <-]; by repeat split.

Lemma gentle_insert_ik r : gentle (sql_insert_ik r).
Proof.
  apply gentle_lockless. intros now d a d'. unfold sql_insert_ik. destruct (ik_IdempotencyHash r); [|done].
  intros (t & _ & ->)%with_table_inv. by repeat split.
Qed.
Lemma gentle_upsert a : gentle (sql_upsert_account a).
Proof. lockless. Qed.
Lemma gentle_insert_tx r : gentle (sql_insert_tx r).
Proof. lockless. Qed.
Lemma gentle_update_metadata l id m : gentle (sql_update_tx_metadata l id m).
Proof. lockless. Qed.
Lemma gentle_delete_key l id k : gentle (sql_delete_tx_key l id k).
Proof.
  apply gentle_lockless. intros now d a d'. unfold sql_delete_tx_key. destruct (existsb _ _); [done|].
  intros [= _ <-]. by repeat split.
Qed.
Lemma gentle_insert_delta r : gentle (sql_insert_delta r).
Proof. lockless. Qed.
Lemma gentle_insert_schema l v doc e : gentle (sql_insert_schema l v doc e).
Proof. lockless. Qed.
Lemma gentle_insert_history r : gentle (sql_insert_metadata_history r).
Proof. lockless. Qed.
Lemma gentle_insert_rel r : gentle (sql_insert_relationship r).
Proof. lockless. Qed.
#[export] Hint Resolve gentle_insert_ik gentle_upsert gentle_insert_tx gentle_update_metadata gentle_delete_key
  gentle_insert_delta gentle_insert_schema gentle_insert_history gentle_insert_rel : gentle.

(** ** The interface *)

(** The events of the process itself, and the replies they can have. *)
Definition local_ev {X} (e : ev X) : Prop :=
  match e with
  | Now | MakeUlid | RandN _ | Locked _ | LockLedger _ | UnlockLedger _ | SpawnClose _ _ | SleepOrDone _ | Range _ => True
  | _ => False
  end.
Definition local_reply {X} (e : ev X) : X -> Prop :=
  match e in ev X return X -> Prop with Range l => fun l' => l' ≡ₚ l | _ => fun _ => True end.

Class TxLogic (t0 : Z) (W : forall A, prog A -> DB -> (A -> DB -> Prop) -> Prop) (seen : DB -> DB -> Prop) : Prop := {
  tl_seen d : seen d d;
  tl_ret {A} (a : A) d (Q : A -> DB -> Prop) : Q a d -> W A (Ret a) d Q;
  tl_mono {A} (m : prog A) d (P Q : A -> DB -> Prop) : W A m d P -> (forall a d', P a d' -> Q a d') -> W A m d Q;
  tl_bind {A B} (m : prog A) (f : A -> prog B) d (Q : B -> DB -> Prop) :
    W A m d (fun a d' => W B (f a) d' Q) -> W B (pbind m f) d Q;
  tl_local {X} (e : ev X) d (Q : X -> DB -> Prop) :
    local_ev e -> (forall x, local_reply e x -> Q x d) -> W X (trigger e) d Q;
  tl_pool {A} (s : stmt A) d (Q : result A -> DB -> Prop) :
    batch_stmt s -> (forall r b, Q r (set_log_batches b d)) -> W (result A) (exec Pool s) d Q;
  tl_lock {A} k (s : stmt A) d (Q : result A -> DB -> Prop) :
    read_stmt s -> (forall dr a, same_row k dr d -> s t0 dr = inr (a, dr) -> Q (Ok a) d) ->
    W (result A) (lock_rows k s) d Q;
  tl_write {A} (s : stmt A) d (Q : result A -> DB -> Prop) :
    gentle s -> (forall dr a, seen dr d -> s t0 dr = inr (a, dr) -> Q (Ok a) d) ->
    (forall a d', s t0 d = inr (a, d') -> Q (Ok a) d') -> W (result A) (exec Tx s) d Q;
  (** The next event of a ledger, numbered under the ledger's lock. *)
  tl_append {A} l msg (ev : Z -> LogEventRecord) (f : Z -> result unit -> M A) d (Q : result A -> DB -> Prop) :
    (forall seq, ev_LedgerID (ev seq) = l) ->
    (ev_Payload (ev (next_seq l d)) <> None -> existsb (log_conflict (log_row (ev (next_seq l d)))) (log_events d) = false ->
       W (result A) (f (next_seq l d) (Ok tt)) (set_log_events (log_events d ++ [log_row (ev (next_seq l d))]) d) Q) ->
    W (result A) (let* seq := wrap msg (NextLedgerSeq l) in let+ r := AppendLogEvent Tx (ev seq) in f seq r) d Q
}.

(** A body that runs alone reads the database it changes. *)
#[export] Instance txwp_logic t0 : TxLogic t0 (@txwp t0) eq.
Proof.
  split; intros.
  - done.
  - done.
  - by eapply txwp_mono.
  - by apply txwp_pbind.
  - destruct e; try done; simpl; auto.
  - simpl. auto.
  - simpl. intros a d' Hs. pose proof (H _ _ _ _ Hs) as ->. by eapply H0.
  - simpl. auto.
  - apply txwp_mbind, txwp_pbind, txwp_mbind, txwp_pbind. intros u d0 [= _ <-]. simpl. intros seq d1 [= <- <-]. simpl.
    intros [] d' Hs. unfold sql_insert_log_event in Hs. fold (next_seq l d) in *. rename H0 into HQ.
    destruct (ev_Payload (ev (next_seq l d))) eqn:Hp; [|done].
    apply with_table_inv in Hs as (t & Ht & ->). apply insert_row_inv in Ht as [Hc ->]. by apply HQ.
Qed.

#[global] Arguments txwp : simpl never.
#[global] Arguments pbind : simpl never.
#[global] Arguments mbind : simpl never.

(** ** Rules of every logic *)

(** What a SELECT may find. *)
Definition saw (seen : DB -> DB -> Prop) (d : DB) (P : DB -> Prop) : Prop := exists dr, seen dr d /\ P dr.

Section Rules.
Context {t0 : Z} {W : forall A, prog A -> DB -> (A -> DB -> Prop) -> Prop} {seen : DB -> DB -> Prop} `{!TxLogic t0 W seen}.
Arguments W {A}.
Implicit Types d : DB.

Lemma tl_mbind {A B} (m : M A) (f : A -> M B) d (Q : result B -> DB -> Prop) :
  W m d (fun r d' => match r with Ok a => W (f a) d' Q | Err e => Q (Err e) d' end) -> W (mbind m f) d Q.
Proof. intros H. apply tl_bind. eapply tl_mono; [exact H|]. intros [a|e] d' HQ; [done|]. by apply tl_ret. Qed.
Lemma tl_ok {A} (a : A) d (Q : result A -> DB -> Prop) : Q (Ok a) d -> W (ok a) d Q.
Proof. apply tl_ret. Qed.
Lemma tl_fail {A} e d (Q : result A -> DB -> Prop) : Q (Err e) d -> W (fail e) d Q.
Proof. apply tl_ret. Qed.
Lemma tl_lift {A} (r : result A) d (Q : result A -> DB -> Prop) : Q r d -> W (lift r) d Q.
Proof. apply tl_ret. Qed.

Lemma tl_read {A} (s : stmt A) d (Q : result A -> DB -> Prop) :
  read_stmt s -> (forall a, saw seen d (fun dr => s t0 dr = inr (a, dr)) -> Q (Ok a) d) -> W (exec Tx s) d Q.
Proof.
  intros Hs HQ. apply tl_write; [by apply gentle_read|intros dr a Hr Ha; apply HQ; by exists dr|].
  intros a d' Ha. pose proof (Hs _ _ _ _ Ha) as ->. apply HQ. exists d. split; [apply tl_seen|done].
Qed.
Lemma tl_select {A} (f : Z -> DB -> A) d (Q : result A -> DB -> Prop) :
  (forall a, saw seen d (fun dr => f t0 dr = a) -> Q (Ok a) d) -> W (exec Tx (fun now d => inr (f now d, d))) d Q.
Proof.
  intros HQ. apply tl_read; [apply read_stmt_select|]. intros a (dr & Hr & [= Ha]). apply HQ. by exists dr.
Qed.

Lemma tl_on_err {A} (m : M A) f d (Q : result A -> DB -> Prop) :
  W m d (fun r d' => Q (rmap_err f r) d') -> W (on_err m f) d Q.
Proof. intros H. apply tl_bind. eapply tl_mono; [exact H|]. intros r d' HQ. by apply tl_ret. Qed.
Lemma tl_wrap {A} msg (m : M A) d (Q : result A -> DB -> Prop) :
  W m d (fun r d' => Q (rmap_err (EWrap msg) r) d') -> W (wrap msg m) d Q.
Proof. apply tl_on_err. Qed.
Lemma tl_row {A} (f : Z -> DB -> option A) d (Q : result A -> DB -> Prop) :
  (forall a, saw seen d (fun dr => f t0 dr = Some a) -> Q (Ok a) d) -> Q (Err ENoRows) d ->
  W (query_row Tx (fun now d => inr (f now d, d))) d Q.
Proof.
  intros HQ HN. apply tl_mbind, tl_select. intros [a|] Ha; [apply tl_ok; by apply HQ|by apply tl_fail].
Qed.
Lemma tl_locked_row {A} k (f : Z -> DB -> option A) d (Q : result A -> DB -> Prop) :
  (forall dr a, same_row k dr d -> f t0 dr = Some a -> Q (Ok a) d) ->
  (forall dr, same_row k dr d -> f t0 dr = None -> Q (Err ENoRows) d) ->
  W (query_locked Tx k (fun now d => inr (f now d, d))) d Q.
Proof.
  intros HQ HN. apply tl_mbind, tl_lock; [apply read_stmt_select|]. intros dr [a|] Hr [= Ha];
    [apply tl_ok; by eapply HQ|apply tl_fail; by eapply HN].
Qed.

Lemma tl_when b (m : M unit) d (Q : result unit -> DB -> Prop) :
  (b = true -> W m d Q) -> (b = false -> Q (Ok tt) d) -> W (when b m) d Q.
Proof. intros H1 H2. destruct b; simpl; [auto|apply tl_ok; auto]. Qed.
Lemma tl_ulid d (Q : string -> DB -> Prop) : (forall x, Q x d) -> W ulid_Make d Q.
Proof. intros HQ. apply tl_local; [done|]. auto. Qed.
Lemma tl_now d (Q : Z -> DB -> Prop) : (forall x, Q x d) -> W time_Now d Q.
Proof. intros HQ. apply tl_local; [done|]. auto. Qed.
Lemma tl_range {A} (l : list A) d (Q : list A -> DB -> Prop) :
  (forall l', l' ≡ₚ l -> Q l' d) -> W (trigger (Range l)) d Q.
Proof. intros HQ. by apply tl_local. Qed.

(** A body that only reads through the pool. *)
Lemma tl_pool_row {A} (f : Z -> DB -> option A) d (Q : result A -> DB -> Prop) :
  (forall r b, Q r (set_log_batches b d)) -> W (query_row Pool (fun now d => inr (f now d, d))) d Q.
Proof.
  intros H. apply tl_mbind, tl_pool; [intros now d0 a d' [= _ <-]; reflexivity|].
  intros r b. destruct r as [[a|]|e]; [apply tl_ok|apply tl_fail|]; apply H.
Qed.
End Rules.
