(* ===== verification/Interleaving.v ===== *)
(** * Requests that interleave, at READ COMMITTED

    Many requests run at once, each on its own connection. A statement of a transaction sees
    the rows committed so far and the writes of its own transaction; a commit makes these
    writes on the database of that moment. What PostgreSQL guarantees of the statements that
    wait for a lock is the side condition of the step they take: a row lock is free when it is
    taken, no other transaction's commit changes a row while it is locked, and a write finds
    at the commit what it found when it was made (its row is locked since), or had changed
    nothing. Everything else another transaction commits in between is seen, or missed, as
    it comes.

    [run_interleaved] reduces this to one commit at a time: if every program conforms, the
    committed database makes the steps its programs promise, whatever the schedule. *)
From S2P Require Import Prelude GoStd Json Storage Db Prog Logic Postgres Bodies.

(** ** Transactions and connections *)

(** A write, with the reply it had. *)
Record write := Write { wr_type : Type; wr_stmt : stmt wr_type; wr_reply : wr_type }.

(** The writes made again, with the same replies. *)
Fixpoint replay (t0 : Z) (ws : list write) (d d' : DB) : Prop :=
  match ws with
  | [] => d' = d
  | w :: ws' => exists d1, wr_stmt w t0 d = inr (wr_reply w, d1) /\ replay t0 ws' d1 d'
  end.

Record txn := { x_start : Z; x_locks : list row_key; x_writes : list write }.
Definition begun (now : Z) : txn := {| x_start := now; x_locks := []; x_writes := [] |}.
Definition add_write {A} (s : stmt A) (a : A) (x : txn) : txn :=
  {| x_start := x_start x; x_locks := x_locks x; x_writes := x_writes x ++ [Write A s a] |}.
Definition add_lock (k : row_key) (x : txn) : txn :=
  {| x_start := x_start x; x_locks := k :: x_locks x; x_writes := x_writes x |}.

(** What the transaction sees of the committed database. *)
Definition view_of (x : txn) (c v : DB) : Prop := replay (x_start x) (x_writes x) c v.

Inductive conn_state := Closed | Open (x : txn) | Failed.
Definition locks_of (t : conn_state) : list row_key := match t with Open x => x_locks x | _ => [] end.

(** ** Steps *)

(** [held k]: another transaction holds the lock of row [k]. *)
Section Steps.
Context (held : row_key -> Prop).

Definition spares (c c' : DB) : Prop := forall k, held k -> same_row k c c'.

Inductive pool_step {A} (s : stmt A) (c : DB) : result A -> DB -> Prop :=
| pool_done now a c' : s now c = inr (a, c') -> spares c c' -> pool_step s c (Ok a) c'
| pool_lost now a c' code : s now c = inr (a, c') -> spares c c' -> pool_step s c (Err (EPg code)) c'
| pool_failed code : pool_step s c (Err (EPg code)) c.

Inductive tx_step {A} (s : stmt A) (c : DB) : conn_state -> result A -> conn_state -> Prop :=
| tx_read x v a : view_of x c v -> s (x_start x) v = inr (a, v) -> tx_step s c (Open x) (Ok a) (Open x)
| tx_write x v a v' : view_of x c v -> s (x_start x) v = inr (a, v') -> tx_step s c (Open x) (Ok a) (Open (add_write s a x))
| tx_failed x code : tx_step s c (Open x) (Err (EPg code)) Failed
| tx_not_open t code : (forall x, t <> Open x) -> tx_step s c t (Err (EPg code)) t.

Inductive lock_step {A} (k : row_key) (s : stmt A) (c : DB) : conn_state -> result A -> conn_state -> Prop :=
| lock_taken x v a : ~ held k -> view_of x c v -> s (x_start x) v = inr (a, v) ->
    lock_step k s c (Open x) (Ok a) (Open (add_lock k x))
| lock_failed x code : lock_step k s c (Open x) (Err (EPg code)) Failed
| lock_not_open t code : (forall x, t <> Open x) -> lock_step k s c t (Err (EPg code)) t.

Inductive commit_step (c : DB) : conn_state -> result unit -> DB -> Prop :=
| commit_done x c' : view_of x c c' -> spares c c' -> commit_step c (Open x) (Ok tt) c'
| commit_unheard x c' code : view_of x c c' -> spares c c' -> commit_step c (Open x) (Err (EPg code)) c'
| commit_failed t code : commit_step c t (Err (EPg code)) c.

Inductive begin_step : conn_state -> result unit -> conn_state -> Prop :=
| begin_done t now : begin_step t (Ok tt) (Open (begun now))
| begin_failed t code : begin_step t (Err (EPg code)) t.

(** The replies an event may have, with what it makes of the database and the connection. *)
Definition react {X} (e : ev X) (c : DB) (t : conn_state) : X -> DB -> conn_state -> Prop :=
  match e in ev X return X -> DB -> conn_state -> Prop with
  | Sql Pool s => fun r c' t' => pool_step s c r c' /\ t' = t
  | Sql Tx s => fun r c' t' => c' = c /\ tx_step s c t r t'
  | SqlLock k s => fun r c' t' => c' = c /\ lock_step k s c t r t'
  | Begin => fun r c' t' => c' = c /\ begin_step t r t'
  | Commit => fun r c' t' => commit_step c t r c' /\ t' = Closed
  | Rollback => fun r c' t' => r = Ok tt /\ c' = c /\ t' = Closed
  | Range l => fun l' c' t' => l' ≡ₚ l /\ c' = c /\ t' = t
  | _ => fun _ c' t' => c' = c /\ t' = t
  end.
End Steps.

(** ** Systems *)

Record proc (A : Type) := Proc { p_prog : prog A; p_conn : conn_state }.
Arguments Proc {A} p_prog p_conn.
Arguments p_prog {A} p.
Arguments p_conn {A} p.

(** The committed database and the requests under way. *)
Definition system (A : Type) : Type := DB * list (proc A).

Definition held {A} (i : nat) (ps : list (proc A)) (k : row_key) : Prop :=
  exists j p, j <> i /\ ps !! j = Some p /\ k ∈ locks_of (p_conn p).

Inductive sys_step {A} : system A -> system A -> Prop :=
| sys_event i ps c {X} (e : ev X) k t x c' t' :
    ps !! i = Some (Proc (Vis e k) t) -> react (held i ps) e c t x c' t' ->
    sys_step (c, ps) (c', <[i := Proc (k x) t']> ps).

Definition fresh {A} (m : prog A) : proc A := Proc m Closed.

(** ** The logic of a body that interleaves

    The database [d] of the body is the one its writes are replayed on at the commit. The
    database a statement saw agrees with it on the rows locked by then. *)

Definition agree_on (K : list row_key) (d d' : DB) : Prop := forall k, k ∈ K -> agree k d d'.
#[export] Instance agree_on_equiv K : Equivalence (agree_on K).
Proof.
  split; unfold agree_on.
  - by intros d k _.
  - intros d1 d2 H1 k Hk. symmetry. auto.
  - intros d1 d2 d3 H1 H2 k Hk. etransitivity; eauto.
Qed.

(** Made on databases that agree on a row, the statement leaves databases that agree on it. *)
Definition congruent {A} (s : stmt A) : Prop := forall k now d1 d2 a d1' d2',
  agree k d1 d2 -> s now d1 = inr (a, d1') -> s now d2 = inr (a, d2') -> agree k d1' d2'.
(** It appends to the logs of the locked ledgers only. *)
Definition within {A} (K : list row_key) (s : stmt A) : Prop := forall l now d a d',
  LedgerRow l ∉ K -> s now d = inr (a, d') -> ledger_log l d' = ledger_log l d.

Definition ev_rc {X} (t0 : Z) (e : ev X) (K : list row_key) (d : DB) : (X -> list row_key -> DB -> Prop) -> Prop :=
  match e in ev X return (X -> list row_key -> DB -> Prop) -> Prop with
  | Sql Tx s => fun Q => congruent s /\ within K s /\
      (forall dr a, agree_on K dr d -> s t0 dr = inr (a, dr) -> Q (Ok a) K d) /\
      (forall a d', s t0 d = inr (a, d') -> Q (Ok a) K d')
  | SqlLock k s => fun Q => forall dr a, agree_on (k :: K) dr d -> s t0 dr = inr (a, dr) -> Q (Ok a) (k :: K) d
  | Sql Pool s => fun Q => forall r, Q r K d
  | Range l => fun Q => forall l', l' ≡ₚ l -> Q l' K d
  | _ => fun Q => forall x, Q x K d
  end.

Fixpoint rcwp (t0 : Z) {A} (m : prog A) (K : list row_key) (d : DB) (Q : A -> list row_key -> DB -> Prop) : Prop :=
  match m with
  | Ret a => Q a K d
  | Vis e k => ev_rc t0 e K d (fun x K' d' => rcwp t0 (k x) K' d' Q)
  end.

Lemma ev_rc_mono {X} t0 (e : ev X) K d (P Q : X -> list row_key -> DB -> Prop) :
  ev_rc t0 e K d P -> (forall x K' d', P x K' d' -> Q x K' d') -> ev_rc t0 e K d Q.
Proof.
  destruct e as [| | |? [] s| | | | | | | | | | | | | | |? rk s]; simpl; eauto.
  intros (H1 & H2 & H3 & H4) HPQ. split_and!; eauto.
Qed.
Lemma rcwp_mono {A} t0 (m : prog A) K d (P Q : A -> list row_key -> DB -> Prop) :
  rcwp t0 m K d P -> (forall a K' d', P a K' d' -> Q a K' d') -> rcwp t0 m K d Q.
Proof.
  intros H HPQ. revert K d H. induction m as [a|X e k IH]; intros K d H; simpl in *; [auto|].
  eapply ev_rc_mono; [exact H|]. intros x K' d'. apply IH.
Qed.
Lemma rcwp_pbind {A B} t0 (m : prog A) (f : A -> prog B) K d Q :
  rcwp t0 m K d (fun a K' d' => rcwp t0 (f a) K' d' Q) -> rcwp t0 (pbind m f) K d Q.
Proof.
  revert K d. induction m as [a|X e k IH]; intros K d H; [done|]. change (pbind (Vis e k) f) with (Vis e (fun x => pbind (k x) f)).
  simpl in *. eapply ev_rc_mono; [exact H|]. intros x K' d'. apply IH.
Qed.

Lemma rcwp_mbind {A B} t0 (m : M A) (f : A -> M B) K d Q :
  rcwp t0 m K d (fun r K' d' => match r with Ok a => rcwp t0 (f a) K' d' Q | Err e => Q (Err e) K' d' end) ->
  rcwp t0 (mbind m f) K d Q.
Proof. intros H. apply rcwp_pbind. eapply rcwp_mono; [exact H|]. by intros []. Qed.
Lemma rcwp_on_err {A} t0 (m : M A) f K d Q :
  rcwp t0 m K d (fun r K' d' => Q (rmap_err f r) K' d') -> rcwp t0 (on_err m f) K d Q.
Proof. intros H. apply rcwp_pbind. eapply rcwp_mono; [exact H|]. done. Qed.

#[global] Arguments rcwp : simpl never.

(** ** It is a logic of transaction bodies *)

Lemma gentle_congruent {A} (s : stmt A) : gentle s -> congruent s.
Proof.
  intros [Hl Hr] k now d1 d2 a d1' d2' [H1 H2] E1 E2. split; [by eapply Hr|].
  destruct k; try done. unfold ledger_log in *. by rewrite (Hl _ _ _ _ E1), (Hl _ _ _ _ E2).
Qed.
Lemma gentle_within {A} K (s : stmt A) : gentle s -> within K s.
Proof. intros [Hl _] l now d a d' _ Hs. unfold ledger_log. by rewrite (Hl _ _ _ _ Hs). Qed.

Lemma insert_log_inv r now d a d' :
  sql_insert_log_event r now d = inr (a, d') ->
  ev_Payload r <> None /\ existsb (log_conflict (log_row r)) (log_events d) = false /\
  d' = set_log_events (log_events d ++ [log_row r]) d.
Proof.
  unfold sql_insert_log_event. destruct (ev_Payload r) eqn:Hp; [|done]. intros (t & Ht & ->)%with_table_inv.
  by apply insert_row_inv in Ht as [Hc ->].
Qed.

Lemma ledger_log_insert l r d :
  ledger_log l (set_log_events (log_events d ++ [log_row r]) d) =
  ledger_log l d ++ (if String.eqb l (ev_LedgerID r) then [log_row r] else []).
Proof. unfold ledger_log. simpl. rewrite List.filter_app. simpl. by destruct (String.eqb _ _). Qed.

Lemma insert_log_congruent r : congruent (sql_insert_log_event r).
Proof.
  intros k now d1 d2 a d1' d2' [H1 H2] (_ & _ & ->)%insert_log_inv (_ & _ & ->)%insert_log_inv.
  destruct k; (split; [done|]); try done. by rewrite !ledger_log_insert, H2.
Qed.
Lemma insert_log_within r K : LedgerRow (ev_LedgerID r) ∈ K -> within K (sql_insert_log_event r).
Proof.
  intros Hr l now d a d' Hl (_ & _ & ->)%insert_log_inv. rewrite ledger_log_insert.
  destruct (String.eqb_spec l (ev_LedgerID r)) as [->|_]; [done|]. by rewrite app_nil_r.
Qed.

(** Whatever is locked before it. *)
Definition rcs (t0 : Z) {A : Type} (m : prog A) (d : DB) (Q : A -> DB -> Prop) : Prop :=
  forall K, rcwp t0 m K d (fun a _ d' => Q a d').

#[export] Instance rc_logic t0 : TxLogic t0 (@rcs t0) (fun _ _ => True).
Proof.
  unfold rcs. split; intros; simpl in *.
  - done.
  - done.
  - eapply rcwp_mono; [apply H|]. auto.
  - apply rcwp_pbind. eapply rcwp_mono; [apply H|]. auto.
  - destruct e; try done; repeat intro; by apply H0.
  - intros r. specialize (H0 r (log_batches d)). by destruct d.
  - intros dr a Hr Ha. apply (H0 dr a); [apply Hr; by left|done].
  - split_and!; [by apply gentle_congruent|by apply gentle_within| |done]. intros dr a _ Ha. by eapply H0.
  - rename H0 into HQ. apply rcwp_mbind, (rcwp_on_err _ (NextLedgerSeq l)), rcwp_mbind, rcwp_on_err. intros dr [] _ _. cbn [rmap_err].
    set (K1 := LedgerRow l :: K). assert (Hin : LedgerRow l ∈ K1) by by left.
    assert (Hseq : forall dr a, agree_on K1 dr d -> sql_next_seq l t0 dr = inr (a, dr) -> a = next_seq l d).
    { intros d1 a Hd1 [= <-]. unfold next_seq. by rewrite (proj2 (Hd1 _ Hin)). }
    assert (Hgo : rcwp t0 (let+ r := AppendLogEvent Tx (ev (next_seq l d)) in f (next_seq l d) r) K1 d (fun a _ d' => Q a d')).
    { apply rcwp_pbind, rcwp_on_err. set (r := ev (next_seq l d)) in *. split_and!.
      - apply insert_log_congruent.
      - apply insert_log_within. unfold r. by rewrite H.
      - intros d1 a _ (_ & _ & E)%insert_log_inv. apply (f_equal (length ∘ log_events)) in E. simpl in E.
        rewrite length_app in E. simpl in E. lia.
      - intros [] d' (Hp & Hc & ->)%insert_log_inv. by apply HQ. }
    split_and!; [apply gentle_congruent, gentle_read|apply gentle_within, gentle_read| |]; try apply (read_stmt_select (fun _ d => _)).
    + intros d1 a Hd1 Ha. by rewrite (Hseq _ _ Hd1 Ha).
    + intros a d' [= <- <-]. exact Hgo.
Qed.

(** ** Programs *)

(** Where a program is: with no transaction, or in one that is [Inside], on the database [d]
    its writes make of the committed [c]. Once more the same program is followed [Untracked],
    through any replies: what is left of a transaction that was aborted. *)
Inductive stage := Outside | Inside (t0 : Z) (K : list row_key) (c d : DB) | Untracked.

Section Conform.
(** The steps the committed database may make; the batches may always change. *)
Context (G : DB -> DB -> Prop) (G_batches : forall d d', same_but_batches d d' -> G d d').

(** A statement on the pool makes such a step, or none, and appends to no log. *)
Definition publishes {A} (s : stmt A) : Prop := forall now c a c', s now c = inr (a, c') ->
  c' = c \/ (G c c' /\ log_events c' = log_events c).

Definition in_tx {X} (e : ev X) (st : stage) (Q : X -> stage -> Prop) : Prop :=
  match st with
  | Outside => forall r, Q r st
  | Inside t0 K c d => ev_ok e /\ ev_rc t0 e K d (fun r K' d' => Q r (Inside t0 K' c d'))
  | Untracked => ev_ok e /\ forall r, Q r st
  end.

Definition ev_conforms {X} (st : stage) (e : ev X) : (X -> stage -> Prop) -> Prop :=
  match e in ev X return (X -> stage -> Prop) -> Prop with
  | Sql Pool s => fun Q => match st with Outside => publishes s | _ => pool_stmt s end /\ forall r, Q r st
  | Sql Tx s => in_tx (Sql Tx s) st
  | SqlLock k s => in_tx (SqlLock k s) st
  | Begin => fun Q => st = Outside /\ (forall t0 c, Q (Ok tt) (Inside t0 [] c c)) /\ Q (Ok tt) Untracked /\
                      forall code, Q (Err (EPg code)) Outside
  | Commit => fun Q => match st with Inside _ _ c d => G c d | _ => True end /\ forall r, Q r Outside
  | Rollback => fun Q => Q (Ok tt) Outside
  | Range l => fun Q => forall l', l' ≡ₚ l -> Q l' st
  | _ => fun Q => forall x, Q x st
  end.

Fixpoint conforms {A} (st : stage) (m : prog A) (Q : A -> stage -> Prop) : Prop :=
  match m with
  | Ret a => Q a st
  | Vis e k => ev_conforms st e (fun x st' => conforms st' (k x) Q)
  end.

(** *** Soundness *)

(** The writes a transaction has made. *)
Record body_ok (K : list row_key) (w : write) : Prop := {
  bo_congruent : congruent (wr_stmt w);
  bo_within : within K (wr_stmt w)
}.

Definition anywhere {A} (_ : A) (_ : stage) : Prop := True.

(** What a process may still do, whatever the others commit before it does. *)
Definition proc_ok {A} (c : DB) (p : proc A) : Prop :=
  match p_conn p with
  | Closed => conforms Outside (p_prog p) anywhere
  | Failed => conforms Untracked (p_prog p) anywhere
  | Open x =>
      conforms Untracked (p_prog p) anywhere /\ Forall (body_ok (x_locks x)) (x_writes x) /\
      forall c' d', agree_on (x_locks x) c c' -> view_of x c' d' ->
        conforms (Inside (x_start x) (x_locks x) c' d') (p_prog p) anywhere
  end.

Lemma replay_app t0 ws1 ws2 d d' :
  replay t0 (ws1 ++ ws2) d d' <-> exists d1, replay t0 ws1 d d1 /\ replay t0 ws2 d1 d'.
Proof.
  revert d. induction ws1 as [|w ws1 IH]; intros d; simpl; [naive_solver|].
  setoid_rewrite IH. naive_solver.
Qed.

Lemma replay_agree t0 ws K k d1 d2 d1' d2' :
  Forall (body_ok K) ws -> agree k d1 d2 -> replay t0 ws d1 d1' -> replay t0 ws d2 d2' -> agree k d1' d2'.
Proof.
  intros Hw. revert d1 d2. induction Hw as [|w ws Hb _ IH]; intros d1 d2 Ha; simpl; [by intros -> ->|].
  intros (e1 & E1 & R1) (e2 & E2 & R2). eapply IH; [|exact R1|exact R2]. by eapply (bo_congruent _ _ Hb).
Qed.
Lemma view_agree x K c1 c2 v1 v2 :
  Forall (body_ok (x_locks x)) (x_writes x) -> agree_on K c1 c2 -> view_of x c1 v1 -> view_of x c2 v2 -> agree_on K v1 v2.
Proof. intros Hw Ha R1 R2 k Hk. eapply replay_agree; eauto. Qed.

Lemma replay_within t0 ws K l d d' :
  Forall (body_ok K) ws -> LedgerRow l ∉ K -> replay t0 ws d d' -> ledger_log l d' = ledger_log l d.
Proof.
  intros Hw Hl. revert d. induction Hw as [|w ws Hb _ IH]; intros d; simpl; [by intros ->|].
  intros (d1 & E1 & R1). rewrite (IH _ R1). by eapply (bo_within _ _ Hb).
Qed.

Lemma body_ok_weaken k K w : body_ok K w -> body_ok (k :: K) w.
Proof. intros [H1 H2]. split; [done|]. intros l now d a d' Hl. apply H2. set_solver. Qed.

Lemma agree_on_le K K' d d' : K' ⊆ K -> agree_on K d d' -> agree_on K' d d'.
Proof. intros Hs Ha k Hk. by apply Ha, Hs. Qed.

(** Another's step leaves a process as it was. *)
Lemma proc_ok_moved {A} c c' (p : proc A) :
  agree_on (locks_of (p_conn p)) c c' -> proc_ok c p -> proc_ok c' p.
Proof.
  unfold proc_ok. destruct (p_conn p) as [|x|]; simpl; try done. intros Ha (Hu & Hw & Hp). split_and!; [done|done|].
  intros c2 d2 Ha2. apply Hp. by etransitivity.
Qed.

Lemma batch_agree k d d' : same_but_batches d d' -> agree k d d'.
Proof. intros ->. by destruct k. Qed.

(** What a step of a process means for the database and for the others. *)
Record good_step (held : row_key -> Prop) (c c' : DB) (t t' : conn_state) : Prop := {
  gs_step : c' = c \/ G c c';
  gs_locks : forall k, k ∈ locks_of t' -> k ∈ locks_of t \/ ~ held k;
  gs_others : forall k, held k -> k ∉ locks_of t -> agree k c c'
}.
Lemma good_same (held : row_key -> Prop) c t t' : (forall k, k ∈ locks_of t' -> k ∈ locks_of t) -> good_step held c c t t'.
Proof. intros Hk. split; [by left|auto|done]. Qed.

Section Proc.
Context {A : Type} (held : row_key -> Prop).

Lemma pool_ok {B} (s : stmt B) (f : result B -> prog A) c t r c' :
  proc_ok c (Proc (Vis (Sql Pool s) f) t) -> pool_step held s c r c' ->
  proc_ok c' (Proc (f r) t) /\ good_step held c c' t t.
Proof.
  intros Hp Hs.
  assert (Hc : c' = c \/ exists now a, s now c = inr (a, c') /\ spares held c c') by (destruct Hs; eauto).
  assert (Hb : batch_stmt s -> good_step held c c' t t /\ forall K, agree_on K c c').
  { intros Hbs. destruct Hc as [->|(now & a & E & _)]; [split; [by apply good_same|done]|].
    apply Hbs in E. split; [split; [right; by apply G_batches|auto|intros key _ _; by apply batch_agree]|].
    intros K key _. by apply batch_agree. }
  unfold proc_ok in *. destruct t as [|x|]; simpl in *.
  - destruct Hp as [Hpub Hf]. split; [apply Hf|]. destruct Hc as [->|(now & a & E & Hsp)]; [by apply good_same|].
    destruct (Hpub _ _ _ _ E) as [->|[Hg Hl]]; [by apply good_same|]. split; [by right|auto|].
    intros key Hk _. split; [by apply Hsp|]. destruct key; try done. unfold ledger_log. by rewrite Hl.
  - destruct Hp as ((Hbs%pool_batch_stmt & Hu) & Hw & Hf). destruct (Hb Hbs) as [Hg Ha]. split; [|done]. split_and!; [done|done|].
    intros c2 d2 Ha2 Hv. apply (Hf c2 d2); [|done]. etransitivity; [apply Ha|exact Ha2].
  - destruct Hp as [Hbs%pool_batch_stmt Hu]. split; [apply Hu|]. by apply Hb.
Qed.

Lemma tx_ok_step {B} (s : stmt B) (f : result B -> prog A) c t r t' :
  proc_ok c (Proc (Vis (Sql Tx s) f) t) -> tx_step s c t r t' ->
  proc_ok c (Proc (f r) t') /\ good_step held c c t t'.
Proof.
  intros Hp Hs. destruct Hs as [x v a Hv E|x v a v' Hv E|x code|t code Ht]; unfold proc_ok in *; simpl in *.
  - destruct Hp as (Hu & Hw & Hf). split; [|by apply good_same]. split_and!; [apply Hu|done|].
    intros c2 d2 Ha2 Hv2. destruct (Hf c2 d2 Ha2 Hv2) as (_ & _ & _ & Hr & _). apply (Hr v a); [|done].
    by eapply view_agree.
  - destruct Hp as (Hu & Hw & Hf). split; [|by apply good_same]. split_and!; [apply Hu| |].
    + apply Forall_app. split; [done|]. destruct (Hf c v) as (_ & Hcg & Hwi & _); [done|done|]. constructor; [by split|constructor].
    + intros c2 d2 Ha2 Hv2. unfold view_of in Hv2. simpl in Hv2. apply replay_app in Hv2 as (d1 & Hv1 & (d1' & E1 & ->)).
      destruct (Hf c2 d1 Ha2 Hv1) as (_ & _ & _ & _ & Hwr). by apply Hwr.
  - destruct Hp as (Hu & Hw & Hf). split; [apply Hu|]. apply good_same. simpl. set_solver.
  - destruct t as [|x|]; [|by destruct (Ht x)|]; (split; [apply Hp|by apply good_same]).
Qed.

Lemma lock_ok {B} k (s : stmt B) (f : result B -> prog A) c t r t' :
  proc_ok c (Proc (Vis (SqlLock k s) f) t) -> lock_step held k s c t r t' ->
  proc_ok c (Proc (f r) t') /\ good_step held c c t t'.
Proof.
  intros Hp Hs. destruct Hs as [x v a Hk Hv E|x code|t code Ht]; unfold proc_ok in *; simpl in *.
  - destruct Hp as (Hu & Hw & Hf). split; [split_and!; [apply Hu| |]|].
    + eapply Forall_impl; [exact Hw|]. intros w. apply body_ok_weaken.
    + intros c2 d2 Ha2 Hv2. apply (Hf c2 d2) with v; [|done| |done].
      * eapply agree_on_le; [|exact Ha2]. set_solver.
      * eapply (view_agree x); [done|exact Ha2|done|done].
    + split; [by left| |done]. intros key Hkey. simpl in Hkey. apply elem_of_cons in Hkey as [->|Hkey]; auto.
  - destruct Hp as (Hu & Hw & Hf). split; [apply Hu|]. apply good_same. simpl. set_solver.
  - destruct t as [|x|]; [|by destruct (Ht x)|]; (split; [apply Hp|by apply good_same]).
Qed.

Lemma commit_ok (f : result unit -> prog A) c t r c' :
  proc_ok c (Proc (Vis Commit f) t) -> commit_step held c t r c' ->
  proc_ok c' (Proc (f r) Closed) /\ good_step held c c' t Closed.
Proof.
  intros Hp Hs.
  assert (Hdone : forall x, t = Open x -> view_of x c c' -> spares held c c' -> good_step held c c' t Closed).
  { intros x -> Hv Hsp. unfold proc_ok in Hp. simpl in Hp. destruct Hp as (_ & Hw & Hf).
    destruct (Hf c c') as [Hg _]; [done|done|]. split; [by right|simpl; set_solver|].
    intros key Hk Hn. split; [by apply Hsp|]. destruct key as [l| |]; try done. symmetry. by eapply replay_within. }
  assert (Hf : forall r, conforms Outside (f r) anywhere).
  { unfold proc_ok in Hp. destruct t as [|x|]; simpl in Hp; apply Hp. }
  destruct Hs as [x c' Hv Hsp|x c' code Hv Hsp|t code]; (split; [apply Hf|]); eauto.
  apply good_same. simpl. set_solver.
Qed.

Lemma begin_ok (f : result unit -> prog A) c t r t' :
  proc_ok c (Proc (Vis Begin f) t) -> begin_step t r t' ->
  proc_ok c (Proc (f r) t') /\ good_step held c c t t'.
Proof.
  intros Hp Hs. unfold proc_ok in *.
  assert (Ho : t = Closed /\ conforms Outside (Vis Begin f) anywhere).
  { destruct t as [|x|]; simpl in *; [done|by destruct Hp as ((? & _) & _)|by destruct Hp]. }
  destruct Ho as [-> (_ & Hi & Hu & He)]. inversion Hs; subst; simpl.
  - split; [|apply good_same; simpl; set_solver]. split_and!; [done|constructor|].
    intros c2 d2 _ Hv. unfold view_of in Hv. simpl in Hv. subst. apply Hi.
  - split; [apply He|by apply good_same].
Qed.

(** One event: the process keeps its promises, and its step is good. *)
Lemma react_ok X (e : ev X) (f : X -> prog A) c t x c' t' :
  proc_ok c (Proc (Vis e f) t) -> react held e c t x c' t' ->
  proc_ok c' (Proc (f x) t') /\ good_step held c c' t t'.
Proof.
  intros Hp Hr.
  assert (Hlocal : c' = c -> t' = t -> (forall st Q, ev_conforms st e Q -> Q x st) ->
    proc_ok c' (Proc (f x) t') /\ good_step held c c' t t').
  { intros -> -> Hx. split; [|by apply good_same]. unfold proc_ok in *. destruct t as [|y|]; simpl in *.
    - by apply Hx in Hp.
    - destruct Hp as (Hu & Hw & Hf). split_and!; [by apply Hx in Hu|done|]. intros c2 d2 H2 H3. specialize (Hf c2 d2 H2 H3).
      by apply Hx in Hf.
    - by apply Hx in Hp. }
  destruct e as [| | |? [] s| | | | | | | | | | | | | | |? rk s]; simpl in Hr;
    try (destruct Hr as [-> ->]; apply Hlocal; [done|done|intros st Q HQ; apply HQ]).
  - destruct Hr as [Hs ->]. by eapply pool_ok.
  - destruct Hr as [-> Hs]. by eapply tx_ok_step.
  - destruct Hr as [-> Hs]. by eapply begin_ok.
  - destruct Hr as [Hs ->]. by eapply commit_ok.
  - destruct Hr as (-> & -> & ->). split; [|apply good_same; simpl; set_solver].
    unfold proc_ok in *. destruct t as [|y|]; simpl in *; try apply Hp.
  - destruct Hr as (Hl & -> & ->). apply Hlocal; [done|done|intros st Q HQ; by apply HQ].
  - destruct Hr as [-> Hs]. by eapply lock_ok.
Qed.
End Proc.

(** *** Whole systems *)

(** Every process keeps its promises, and no row is locked twice. *)
Record sys_ok {A} (S : system A) : Prop := {
  so_procs : forall i p, S.2 !! i = Some p -> proc_ok S.1 p;
  so_apart : forall i j p q k, S.2 !! i = Some p -> S.2 !! j = Some q ->
    k ∈ locks_of (p_conn p) -> k ∈ locks_of (p_conn q) -> i = j
}.

Lemma sys_step_ok {A} (S S' : system A) : sys_ok S -> sys_step S S' -> sys_ok S' /\ (S'.1 = S.1 \/ G S.1 S'.1).
Proof.
  intros [Hp Ha] Hs. destruct Hs as [i ps c X e k t x c' t' Hi Hr]. simpl in *.
  destruct (react_ok (held i ps) X e k c t x c' t' (Hp _ _ Hi) Hr) as [Hnew [Hg Hl Ho]]. split; [|exact Hg].
  assert (Hheld : forall j p key, j <> i -> ps !! j = Some p -> key ∈ locks_of (p_conn p) -> held i ps key).
  { intros j p key Hj Hl1 Hk. by exists j, p. }
  assert (Hnot : forall j p key, j <> i -> ps !! j = Some p -> key ∈ locks_of (p_conn p) -> key ∉ locks_of t').
  { intros j p key Hj Hl1 Hk Hk'. destruct (Hl key Hk') as [Hk2|Hk2]; [|by eapply Hk2, Hheld].
    apply Hj. symmetry. by eapply (Ha i j _ _ key Hi Hl1). }
  split; simpl.
  - intros j p Hj. destruct (decide (j = i)) as [->|Hne].
    + rewrite list_lookup_insert_eq in Hj by (by eapply lookup_lt_Some). by injection Hj as <-.
    + rewrite list_lookup_insert_ne in Hj by done. apply (proc_ok_moved c); [|by eapply Hp].
      intros key Hk. apply Ho; [by eapply Hheld|]. intros Hk2. apply Hne. by eapply (Ha j i _ _ key Hj Hi).
  - intros j1 j2 p q key H1 H2 K1 K2.
    destruct (decide (j1 = i)) as [->|N1], (decide (j2 = i)) as [->|N2]; [done| | |].
    + rewrite list_lookup_insert_eq in H1 by (by eapply lookup_lt_Some). injection H1 as <-.
      rewrite list_lookup_insert_ne in H2 by done. exfalso. by eapply (Hnot j2).
    + rewrite list_lookup_insert_eq in H2 by (by eapply lookup_lt_Some). injection H2 as <-.
      rewrite list_lookup_insert_ne in H1 by done. exfalso. by eapply (Hnot j1).
    + rewrite list_lookup_insert_ne in H1, H2 by done. by eapply Ha.
Qed.

Lemma fresh_ok {A} c (ms : list (prog A)) :
  Forall (fun m => conforms Outside m anywhere) ms -> sys_ok (c, map fresh ms).
Proof.
  intros Hm. rewrite Forall_forall in Hm.
  assert (Hf : forall i p, map fresh ms !! i = Some p -> exists m, m ∈ ms /\ p = fresh m).
  { intros i p Hi. apply list_elem_of_lookup_2, list_elem_of_In, in_map_iff in Hi as (m & <- & Hm'). exists m.
    split; [by apply list_elem_of_In|done]. }
  split; simpl.
  - intros i p (m & Hin & ->)%Hf. by apply Hm.
  - intros i j p q k (m & _ & ->)%Hf _ Hk. by apply not_elem_of_nil in Hk.
Qed.

(** Whatever the schedule, the committed database makes the promised steps only. *)
Lemma run_interleaved {A} (S S' : system A) : sys_ok S -> rtc sys_step S S' -> sys_ok S' /\ rtc G S.1 S'.1.
Proof.
  intros Hok Hs. induction Hs as [S|S1 S2 S3 H12 _ IH]; [by split|].
  destruct (sys_step_ok S1 S2 Hok H12) as [Hok2 Hg]. destruct (IH Hok2) as [Hok3 Hr]. split; [done|].
  destruct Hg as [<-|Hg]; [done|]. by eapply rtc_l.
Qed.

(** *** Rules of conformance *)

Lemma ev_conforms_mono {X} st (e : ev X) (P Q : X -> stage -> Prop) :
  ev_conforms st e P -> (forall x st', P x st' -> Q x st') -> ev_conforms st e Q.
Proof.
  intros H HPQ. destruct e as [| | |? [] s| | | | | | | | | | | | | | |? rk s]; simpl in *; try naive_solver;
    unfold in_tx in *; destruct st; try (by eauto); destruct H as [He H]; (split; [exact He|]); eauto; eapply ev_rc_mono; eauto.
Qed.
Lemma conforms_mono {A} st (m : prog A) (P Q : A -> stage -> Prop) :
  conforms st m P -> (forall a st', P a st' -> Q a st') -> conforms st m Q.
Proof.
  intros H HPQ. revert st H. induction m as [a|X e k IH]; intros st H; simpl in *; [auto|].
  eapply ev_conforms_mono; [exact H|]. intros x st'. apply IH.
Qed.
Lemma conforms_pbind {A B} st (m : prog A) (f : A -> prog B) Q :
  conforms st m (fun a st' => conforms st' (f a) Q) -> conforms st (pbind m f) Q.
Proof.
  revert st. induction m as [a|X e k IH]; intros st H; [done|]. change (pbind (Vis e k) f) with (Vis e (fun x => pbind (k x) f)).
  simpl in *. eapply ev_conforms_mono; [exact H|]. intros x st'. apply IH.
Qed.
Lemma conforms_mbind {A B} st (m : M A) (f : A -> M B) Q :
  conforms st m (fun r st' => match r with Ok a => conforms st' (f a) Q | Err e => Q (Err e) st' end) ->
  conforms st (mbind m f) Q.
Proof. intros H. apply conforms_pbind. eapply conforms_mono; [exact H|]. by intros []. Qed.
Lemma conforms_pbind_inv {A B} st (m : prog A) (f : A -> prog B) Q :
  conforms st (pbind m f) Q -> conforms st m (fun a st' => conforms st' (f a) Q).
Proof.
  revert st. induction m as [a|X e k IH]; intros st H; [done|]. change (pbind (Vis e k) f) with (Vis e (fun x => pbind (k x) f)) in H.
  simpl in *. eapply ev_conforms_mono; [exact H|]. intros x st'. apply IH.
Qed.
(** The part of a body that ends at a commit, as one work. *)
Lemma conforms_assoc {A B C} st (m : M A) (f : A -> M B) (g : B -> M C) Q :
  conforms st (mbind (mbind m f) g) Q -> conforms st (mbind m (fun a => mbind (f a) g)) Q.
Proof.
  intros H. apply conforms_pbind_inv, conforms_pbind_inv in H. apply conforms_pbind. eapply conforms_mono; [exact H|].
  intros [a|e] st' H'; [by apply conforms_pbind|exact H'].
Qed.
Lemma conforms_wrap {A} st msg (m : M A) Q :
  conforms st m (fun r st' => Q (rmap_err (EWrap msg) r) st') -> conforms st (wrap msg m) Q.
Proof. intros H. apply conforms_pbind. eapply conforms_mono; [exact H|]. done. Qed.

(** The body of a transaction, by the logic of bodies that interleave. *)
Lemma conforms_body {A} t0 (m : prog A) K c d Q :
  tx_ok m -> rcwp t0 m K d (fun a K' d' => Q a (Inside t0 K' c d')) -> conforms (Inside t0 K c d) m Q.
Proof.
  revert K d. induction m as [a|X e k IH]; intros K d Hm Hw; [done|]. destruct Hm as [He Hk].
  destruct e as [| | |? [] s| | | | | | | | | | | | | | |? rk s]; try done; simpl in *; try (intros x; by apply IH).
  - split; [done|]. intros r. by apply IH.
  - destruct Hw as (H1 & H2 & H3 & H4). split_and!; try done; intros; apply IH; eauto.
  - intros l' Hl. apply IH; eauto.
  - split; [done|]. intros dr a Ha E. apply IH; eauto.
Qed.
Lemma conforms_untracked {A} (m : prog A) Q : tx_ok m -> (forall a, Q a Untracked) -> conforms Untracked m Q.
Proof.
  intros Hm HQ. induction m as [a|X e k IH]; [apply HQ|]. destruct Hm as [He Hk].
  destruct e as [| | |? [] s| | | | | | | | | | | | | | |? rk s]; try done; simpl in *; try (intros x; by apply IH);
    try (split; [done|]; intros r; by apply IH).
  intros l' _. by apply IH.
Qed.
Lemma batch_publishes {A} (s : stmt A) : batch_stmt s -> publishes s.
Proof. intros Hs now c a c' E. apply Hs in E. right. split; [by apply G_batches|]. by rewrite E. Qed.
Lemma read_publishes {A} (s : stmt A) : read_stmt s -> publishes s.
Proof. intros Hs now c a c' E. left. by eapply Hs. Qed.
(** The discipline of a body, outside of any transaction. *)
Lemma conforms_closed {A} (m : prog A) Q : tx_ok m -> (forall a, Q a Outside) -> conforms Outside m Q.
Proof.
  intros Hm HQ. induction m as [a|X e k IH]; [apply HQ|]. destruct Hm as [He Hk].
  destruct e as [| | |? [] s| | | | | | | | | | | | | | |? rk s]; try done; simpl in *; try (intros x; by apply IH).
  - split; [by apply batch_publishes, pool_batch_stmt|]. intros r. by apply IH.
  - intros l' _. by apply IH.
Qed.

(** [tx := Begin; defer Rollback; body]: the body inside the transaction, or astray. *)
Lemma conforms_tx {A} msg (body : M A) Q :
  (forall t0 c, conforms (Inside t0 [] c c) body (fun r _ => Q r Outside)) ->
  conforms Untracked body (fun r _ => Q r Outside) -> (forall e, Q (Err e) Outside) ->
  conforms Outside (let* _ := wrap msg BeginTx in with_rollback body) Q.
Proof.
  intros Hi Hu HE. apply conforms_mbind, conforms_wrap. unfold BeginTx, on_err. apply conforms_pbind.
  assert (Hend : forall st r, Q r Outside -> conforms st (let+ _ := trigger Rollback in Ret r) Q) by done.
  split_and!; [done| | |intros code; apply HE].
  - intros t0 c. simpl. unfold with_rollback. apply conforms_pbind. eapply conforms_mono; [apply Hi|]. intros r st. apply Hend.
  - simpl. unfold with_rollback. apply conforms_pbind. eapply conforms_mono; [apply Hu|]. intros r st. apply Hend.
Qed.
End Conform.
#[global] Arguments conforms : simpl never.
