(* ===== verification/Schedule.v ===== *)
(** * Schedules that can be run, and programs that run alone

    [play] runs some programs along a schedule, a list of the process that moves next and
    of whether it only looks: its statement then has to change nothing, and is not made
    again at the commit. A schedule that plays is one of the runs of Interleaving.v. It
    covers those where a process changes the database, or locks a row, while no other
    process holds a lock or has written.

    [run] executes a program alone, one request at a time, and is a case of the
    interleaving too: what a program makes of the database when it runs alone, with any
    failures, it makes of it in a system in which no other process holds a lock. The
    discipline of the bodies ([ev_ok]) is what this rests on: their statements do not see
    the batches, which the pool may change while the transaction is open. *)
From S2P Require Import Prelude GoStd Json Storage Db Prog Logic Postgres Bodies Interleaving.

(** A process, with what its transaction sees. *)
Record slot (A : Type) := Slot { s_prog : prog A; s_conn : conn_state; s_view : DB }.
Arguments Slot {A} s_prog s_conn s_view.
Arguments s_prog {A} s.
Arguments s_conn {A} s.
Arguments s_view {A} s.

Definition acted (X : Type) : Type := Prop * X * DB * conn_state * DB * World.

(** An event of a process: what has to hold, the reply, the committed database, the
    connection with its view, and the memory of the process. *)
Definition act {X} (E : Env) (looks : bool) (e : ev X) (c : DB) (t : conn_state) (v : DB) (w : World) : option (acted X) :=
  let now := e_now E (w_tick w) in
  match e in ev X return option (acted X) with
  | Sql Pool s =>
      match s now c with
      | inl code => Some (True, Err (EPg code), c, t, v, w)
      | inr (a, c') =>
          if looks then Some (c' = c, Ok a, c, t, v, w)
          else match t with
          | Open x => if bool_decide (length (x_writes x) = 0%nat) then Some (True, Ok a, c', t, c', w) else None
          | _ => Some (True, Ok a, c', t, v, w)
          end
      end
  | Sql Tx s =>
      match t with
      | Open x =>
          match s (x_start x) v with
          | inl code => Some (True, Err (EPg code), c, Failed, v, w)
          | inr (a, v') => if looks then Some (v' = v, Ok a, c, t, v, w) else Some (True, Ok a, c, Open (add_write s a x), v', w)
          end
      | _ => None
      end
  | SqlLock k s =>
      match t with
      | Open x =>
          if looks then None else
          match s (x_start x) v with
          | inl code => Some (True, Err (EPg code), c, Failed, v, w)
          | inr (a, v') => Some (v' = v, Ok a, c, Open (add_lock k x), v, w)
          end
      | _ => None
      end
  | Begin => Some (True, Ok tt, c, Open (begun now), c, w)
  | Commit => match t with Open x => if looks then None else Some (True, Ok tt, v, Closed, v, w) | _ => None end
  | Rollback => Some (True, Ok tt, c, Closed, v, w)
  | Range l => Some (True, l, c, t, v, w)
  | e => let '(x, w') := Prog.step E e w in Some (True, x, c, t, v, w')
  end.

Record table (A : Type) := Table { t_db : DB; t_mem : World; t_slots : list (slot A) }.
Arguments Table {A} t_db t_mem t_slots.
Arguments t_db {A} t.
Arguments t_mem {A} t.
Arguments t_slots {A} t.

Definition erase {A} (T : table A) : system A := (t_db T, map (fun p => Proc (s_prog p) (s_conn p)) (t_slots T)).
Definition seated {A} (d : DB) (w : World) (ms : list (prog A)) : table A := Table d w (map (fun m => Slot m Closed d) ms).

(** The others hold no lock and have written nothing: they see what is committed next. *)
Definition at_ease {A} (p : slot A) : bool :=
  match s_conn p with
  | Open x => bool_decide (length (x_locks x) = 0%nat) && bool_decide (length (x_writes x) = 0%nat)
  | _ => true
  end.
Definition refresh {A} (c : DB) (p : slot A) : slot A := Slot (s_prog p) (s_conn p) c.

(** One move; a program that has ended stays. *)
Definition move {A} (E : Env) (m : nat * bool) (T : table A) : option (Prop * table A) :=
  match t_slots T !! fst m with
  | None => None
  | Some p =>
      match s_prog p with
      | Ret _ => Some (True, T)
      | Vis e k =>
          if snd m || forallb at_ease (delete (fst m) (t_slots T)) then
            match act E (snd m) e (t_db T) (s_conn p) (s_view p) (t_mem T) with
            | None => None
            | Some (P, x, c, t, v, w) =>
                Some (P, Table c (tick w)
                           (<[fst m := Slot (k x) t v]> (if snd m then t_slots T else map (refresh c) (t_slots T))))
            end
          else None
      end
  end.

Fixpoint play {A} (E : Env) (sched : list (nat * bool)) (T : table A) : option (Prop * table A) :=
  match sched with
  | [] => Some (True, T)
  | m :: sched' =>
      match move E m T with
      | None => None
      | Some (P, T') => match play E sched' T' with None => None | Some (P', T'') => Some (P /\ P', T'') end
      end
  end.

(** ** What plays is a run *)

Definition sees {A} (c : DB) (p : slot A) : Prop :=
  match s_conn p with Open x => view_of x c (s_view p) | _ => True end.
Definition clear_sighted {A} (T : table A) : Prop := Forall (sees (t_db T)) (t_slots T).

Lemma length_nil {A} (l : list A) : length l = 0%nat -> l = [].
Proof. by destruct l. Qed.

Lemma act_reacts {X} (held : row_key -> Prop) E looks (e : ev X) c t v w P x c' t' v' w' :
  (looks = false -> forall k, ~ held k) -> act E looks e c t v w = Some (P, x, c', t', v', w') -> P ->
  match t with Open y => view_of y c v | _ => True end ->
  react held e c t x c' t' /\ match t' with Open y => view_of y c' v' | _ => True end /\ (looks = true -> c' = c).
Proof.
  intros Hh Ha HP Hv. assert (Hsp : looks = false -> forall c1 c2, spares held c1 c2) by (intros Hl c1 c2 k Hk; by apply (Hh Hl) in Hk).
  destruct e as [| | |? [] s| | | | | | | | | | | | | | |? rk s]; cbn [act] in Ha; cbn [react].
  all: try (destruct (Prog.step E _ w) as [y w2]; injection Ha as <- <- <- <- <- <-; by split_and!).
  all: try (injection Ha as <- <- <- <- <- <-; by split_and!).
  - destruct (s _ c) as [code|[a c2]] eqn:Es.
    { injection Ha as <- <- <- <- <- <-. split_and!; [apply pool_failed|done|exact Hv|done]. }
    destruct looks.
    { injection Ha as HP1 <- <- <- <- <-. subst P. subst c2. split_and!; [eapply pool_done; [done|by intros k _]|done|exact Hv|done]. }
    specialize (Hsp eq_refl).
    destruct t as [|y|]; try (injection Ha as <- <- <- <- <- <-; split_and!; [by eapply pool_done|done..]).
    case_bool_decide as Hw; [|done]. injection Ha as <- <- <- <- <- <-. split_and!; [by eapply pool_done|done| |done].
    unfold view_of. by rewrite (length_nil _ Hw).
  - destruct t as [|y|]; try done. destruct (s _ v) as [code|[a v2]] eqn:Es.
    { injection Ha as <- <- <- <- <- <-. split_and!; [done|apply tx_failed|done..]. }
    destruct looks; injection Ha as HP1 <- <- <- <- <-.
    + subst P. subst v2. split_and!; [done|by eapply tx_read|exact Hv|done].
    + split_and!; [done|by eapply tx_write| |done]. unfold view_of, add_write. simpl. apply replay_app. exists v.
      split; [done|]. simpl. eauto.
  - injection Ha as <- <- <- <- <- <-. split_and!; [done|apply begin_done|done..].
  - destruct t as [|y|]; try done. destruct looks; [done|]. injection Ha as <- <- <- <- <- <-.
    split_and!; [eapply commit_done; [done|by apply Hsp]|done..].
  - destruct t as [|y|]; try done. destruct looks; [done|]. destruct (s _ v) as [code|[a v2]] eqn:Es.
    { injection Ha as <- <- <- <- <- <-. split_and!; [done|apply lock_failed|done..]. }
    injection Ha as HP1 <- <- <- <- <-. subst P. subst v2. split_and!; [done|eapply lock_taken; eauto|exact Hv|done].
Qed.

Lemma in_delete {R} i (ps : list R) j p : j <> i -> ps !! j = Some p -> p ∈ delete i ps.
Proof.
  intros Hj Hp. apply list_elem_of_lookup. destruct (decide (j < i)%nat).
  - exists j. by rewrite list_lookup_delete_lt.
  - exists (pred j). rewrite list_lookup_delete_ge by lia. by replace (S (pred j)) with j by lia.
Qed.
Lemma ease_locks {A} i (ps : list (slot A)) k : forallb at_ease (delete i ps) = true ->
  ~ held i (map (fun p => Proc (s_prog p) (s_conn p)) ps) k.
Proof.
  intros Ha (j & q & Hj & Hq & Hk). rewrite list_lookup_fmap in Hq. apply fmap_Some in Hq as (p & Hp & ->). simpl in Hk.
  rewrite forallb_forall in Ha. pose proof (Ha p (proj1 (list_elem_of_In _ _) (in_delete i ps j p Hj Hp))) as He.
  unfold at_ease in He. destruct (s_conn p) as [|x|]; simpl in Hk; try by apply not_elem_of_nil in Hk.
  apply andb_prop in He as [He%bool_decide_eq_true _]. rewrite (length_nil _ He) in Hk. by apply not_elem_of_nil in Hk.
Qed.
Lemma ease_sees {A} c c' (p : slot A) : at_ease p = true -> sees c p -> sees c' (refresh c' p).
Proof.
  unfold sees, refresh, at_ease. simpl. destruct (s_conn p) as [|y|]; try done. intros [_ He%bool_decide_eq_true]%andb_prop _.
  unfold view_of. by rewrite (length_nil _ He).
Qed.

Lemma move_steps {A} E m (T T' : table A) P : move E m T = Some (P, T') -> P -> clear_sighted T ->
  rtc sys_step (erase T) (erase T') /\ clear_sighted T'.
Proof.
  destruct m as [i looks], T as [c w ps]. unfold move. cbn [fst snd t_slots t_db t_mem]. intros Hm HP Hc.
  destruct (ps !! i) as [p|] eqn:Hi; [|done]. destruct (s_prog p) as [a|X e k] eqn:Ep; [by injection Hm as <- <-|].
  destruct (looks || forallb at_ease (delete i ps)) eqn:Ha; [|done].
  destruct (act E looks e c (s_conn p) (s_view p) w) as [[[[[[P0 x] c'] t'] v'] w']|] eqn:Eact; [|done]. injection Hm as <- <-.
  unfold clear_sighted in *. cbn [t_db t_slots] in *. rewrite Forall_forall in Hc.
  assert (Hease : looks = false -> forallb at_ease (delete i ps) = true) by (by intros ->).
  destruct (act_reacts (held i (map (fun p => Proc (s_prog p) (s_conn p)) ps)) _ _ _ _ _ _ _ _ _ _ _ _ _
    (fun Hl k => ease_locks i ps k (Hease Hl)) Eact HP (Hc p (list_elem_of_lookup_2 _ _ _ Hi))) as (Hr & Hv & Hsame).
  assert (Hlt : (i < length ps)%nat) by (by eapply lookup_lt_Some).
  assert (Hps : map (fun p => Proc (s_prog p) (s_conn p)) (if looks then ps else map (refresh c') ps) =
    map (fun p => Proc (s_prog p) (s_conn p)) ps) by (destruct looks; [done|by rewrite map_map]).
  split.
  - apply rtc_once. unfold erase. cbn [t_db t_slots]. rewrite list_fmap_insert.
    change (fmap (M := list)) with (@map (slot A) (proc A)). rewrite Hps. cbn [s_prog s_conn].
    eapply sys_event; [|exact Hr]. rewrite list_lookup_fmap, Hi. simpl. by rewrite Ep.
  - apply Forall_forall. intros q Hq. apply list_elem_of_lookup in Hq as [j Hj]. destruct (decide (j = i)) as [->|Hne].
    + rewrite list_lookup_insert_eq in Hj by (destruct looks; by rewrite ?length_map). by injection Hj as <-.
    + rewrite list_lookup_insert_ne in Hj by done. destruct looks.
      { rewrite (Hsame eq_refl). apply Hc. by eapply list_elem_of_lookup_2. }
      rewrite list_lookup_fmap in Hj. apply fmap_Some in Hj as (r & Hr' & ->). apply (ease_sees c).
      * specialize (Hease eq_refl). rewrite forallb_forall in Hease. by eapply Hease, list_elem_of_In, in_delete.
      * apply Hc. by eapply list_elem_of_lookup_2.
Qed.

Lemma play_steps {A} E sched (T T' : table A) P : play E sched T = Some (P, T') -> P -> clear_sighted T ->
  rtc sys_step (erase T) (erase T') /\ clear_sighted T'.
Proof.
  revert T P. induction sched as [|m sched IH]; intros T P; cbn [play]; [intros [= <- <-] _ Hc; by split|].
  destruct (move E m T) as [[P1 T1]|] eqn:Em; [|done]. destruct (play E sched T1) as [[P2 T2]|] eqn:Ep; [|done].
  intros [= <- <-] [H1 H2] Hc. destruct (move_steps _ _ _ _ _ Em H1 Hc) as [Hs Hc1].
  destruct (IH _ _ Ep H2 Hc1) as [Hs2 Hc2]. split; [by etransitivity|done].
Qed.

(** What a run along a schedule ends in. *)
Definition plays {A} (E : Env) (sched : list (nat * bool)) (d : DB) (w : World) (ms : list (prog A))
    (Q : DB -> list (option A) -> Prop) : Prop :=
  match play E sched (seated d w ms) with
  | Some (P, T) => P /\ Q (t_db T) (map (fun p => match s_prog p with Ret a => Some a | Vis _ _ => None end) (t_slots T))
  | None => False
  end.
Definition result_of {A} (p : proc A) : option A := match p_prog p with Ret a => Some a | Vis _ _ => None end.

Lemma plays_run {A} E sched d w (ms : list (prog A)) Q : plays E sched d w ms Q ->
  exists d' ps, rtc sys_step (d, map fresh ms) (d', ps) /\ Q d' (map result_of ps).
Proof.
  unfold plays. destruct (play E sched (seated d w ms)) as [[P T]|] eqn:Ep; [|done]. intros [HP HQ].
  destruct (play_steps _ _ _ _ _ Ep HP) as [Hs _].
  { apply Forall_forall. intros p Hp. apply list_elem_of_fmap in Hp as (m & -> & _). done. }
  exists (t_db T), (map (fun p => Proc (s_prog p) (s_conn p)) (t_slots T)). split.
  - unfold erase, seated in Hs. cbn [t_db t_slots] in Hs. rewrite map_map in Hs. exact Hs.
  - rewrite map_map. exact HQ.
Qed.

(** ** A program that runs alone *)

(** *** The view of a transaction *)

Definition detached_writes (ws : list write) : Prop := Forall (fun w => detached (wr_stmt w)) ws.

Lemma replay_batches t0 ws d d' : detached_writes ws -> replay t0 ws d d' -> log_batches d' = log_batches d.
Proof.
  intros Hw. revert d. induction Hw as [|w ws Hd _ IH]; intros d; simpl; [by intros ->|].
  intros (d1 & E1 & R1). rewrite (IH _ R1). by eapply detached_keeps.
Qed.
Lemma replay_detached t0 ws b d d' :
  detached_writes ws -> replay t0 ws d d' -> replay t0 ws (set_log_batches b d) (set_log_batches b d').
Proof.
  intros Hw. revert d. induction Hw as [|w ws Hd _ IH]; intros d; simpl; [by intros ->|].
  intros (d1 & E1 & R1). exists (set_log_batches b d1). split; [by rewrite Hd, E1|by apply IH].
Qed.

(** The transaction of the world, as a connection. *)
Inductive same_tx (c : DB) : txstate -> conn_state -> Prop :=
| same_none : same_tx c TxNone Closed
| same_open x d : detached_writes (x_writes x) -> view_of x c d -> same_tx c (TxOpen (x_start x) d) (Open x)
| same_aborted : same_tx c TxAborted Failed.

Definition stage_of (t : conn_state) : stage := match t with Closed => Outside | _ => Untracked end.

(** A statement on the pool leaves the transaction the view of the new database. *)
Lemma pool_same {A} (s : stmt A) now c a c' tx t :
  (forall x, t = Open x -> pool_stmt s) -> same_tx c tx t -> s now c = inr (a, c') -> same_tx c' (see s now tx) t.
Proof.
  intros Hs Hsame E. destruct Hsame as [|x d Hw Hv|]; [constructor| |constructor].
  destruct (Hs x eq_refl) as [Hr|Hl]; cbn [see].
  - rewrite (Hr _ _ _ _ E). destruct (s now d) as [code|[a' d']] eqn:Ed; [by constructor|].
    rewrite (Hr _ _ _ _ Ed). by constructor.
  - pose proof (batch_local_stmt s Hl _ _ _ _ E) as Hc.
    rewrite (Hl now c d (eq_sym (replay_batches _ _ _ _ Hw Hv))), E. constructor; [done|].
    unfold view_of, same_but_batches in *. rewrite Hc at 1. by apply replay_detached.
Qed.

Section Alone.
Context (G : DB -> DB -> Prop) (held : row_key -> Prop) (Hfree : forall k, ~ held k) (E : Env).

Lemma free_spares c c' : spares held c c'.
Proof. intros k Hk. by destruct (Hfree k). Qed.

Lemma tx_alone {A} (s : stmt A) f (w : World) t :
  (forall x, t = Open x -> detached s) -> same_tx (w_db w) (w_tx w) t ->
  let '(r, w') := sql_tx s f w in
  exists t', tx_step s (w_db w) t r t' /\ same_tx (w_db w') (w_tx w') t' /\ w_db w' = w_db w /\ stage_of t' = stage_of t.
Proof.
  intros Hs Hsame. unfold sql_tx. destruct (w_tx w) as [|t0 d|] eqn:Ht; inversion Hsame as [|x d0 Hw Hv|]; subst.
  - exists Closed. split_and!; [by constructor|by rewrite Ht|done..].
  - destruct f as [c|]; [|destruct (s (x_start x) d) as [c|[a d']] eqn:Es];
      try (exists Failed; split_and!; [by constructor|constructor|done..]).
    exists (Open (add_write s a x)). split_and!; [by eapply tx_write| |done..]. cbn [w_db w_tx with_tx].
    apply (same_open (w_db w) (add_write s a x)).
    + apply Forall_app. split; [done|constructor; [by eapply Hs|constructor]].
    + unfold view_of, add_write. cbn [x_start x_writes]. apply replay_app. exists d. split; [exact Hv|]. by exists d'.
  - exists Failed. split_and!; [by constructor|by rewrite Ht|done..].
Qed.

Lemma lock_alone {A} k (s : stmt A) f (w : World) t :
  (forall x, t = Open x -> read_stmt s) -> same_tx (w_db w) (w_tx w) t ->
  let '(r, w') := sql_tx s f w in
  exists t', lock_step held k s (w_db w) t r t' /\ same_tx (w_db w') (w_tx w') t' /\ w_db w' = w_db w /\ stage_of t' = stage_of t.
Proof.
  intros Hs Hsame. unfold sql_tx. destruct (w_tx w) as [|t0 d|] eqn:Ht; inversion Hsame as [|x d0 Hw Hv|]; subst.
  - exists Closed. split_and!; [by constructor|by rewrite Ht|done..].
  - destruct f as [c|]; [|destruct (s (x_start x) d) as [c|[a d']] eqn:Es];
      try (exists Failed; split_and!; [by constructor|constructor|done..]).
    pose proof (Hs x eq_refl _ _ _ _ Es) as ->. exists (Open (add_lock k x)).
    split_and!; [by eapply lock_taken; [apply Hfree|exact Hv|exact Es]| |done..].
    by apply (same_open (w_db w) (add_lock k x)).
  - exists Failed. split_and!; [by constructor|by rewrite Ht|done..].
Qed.

Lemma pool_alone {A} (s : stmt A) now f (w : World) t :
  (forall x, t = Open x -> pool_stmt s) -> same_tx (w_db w) (w_tx w) t ->
  let '(r, w') := sql_pool s now f w in
  pool_step held s (w_db w) r (w_db w') /\ same_tx (w_db w') (w_tx w') t.
Proof.
  intros Hs Hsame. unfold sql_pool.
  destruct f as [[]|]; try (split; [apply pool_failed|done]);
    destruct (s now (w_db w)) as [code|[a c']] eqn:Es; try (split; [apply pool_failed|done]); cbn [w_db w_tx with_db with_tx].
  - split; [eapply pool_lost; [exact Es|apply free_spares]|by eapply pool_same].
  - split; [eapply pool_done; [exact Es|apply free_spares]|by eapply pool_same].
Qed.

Lemma commit_alone f (w : World) t :
  same_tx (w_db w) (w_tx w) t ->
  let '(r, w') := commit f w in commit_step held (w_db w) t r (w_db w') /\ w_tx w' = TxNone.
Proof.
  unfold commit. intros Hsame. destruct (w_tx w) as [|t0 d|] eqn:Ht; inversion Hsame as [|x d0 Hw Hv|]; subst.
  - by split; [apply commit_failed|].
  - destruct f as [[]|]; (split; [|done]); try apply commit_failed; cbn [w_db with_db].
    + apply commit_unheard; [exact Hv|apply free_spares].
    + apply commit_done; [exact Hv|apply free_spares].
  - by split; [apply commit_failed|].
Qed.

(** An event of a program that runs alone is a step it may take among others. *)
Lemma react_alone {X} (e : ev X) (w : World) t Q :
  ev_conforms G (stage_of t) e Q -> same_tx (w_db w) (w_tx w) t ->
  let '(x, w') := Prog.step E e w in
  exists t', react held e (w_db w) t x (w_db w') t' /\ same_tx (w_db w') (w_tx w') t' /\ Q x (stage_of t').
Proof.
  intros He Hsame.
  destruct e as [| | |? [] s| | | | | | |? f| | | | | | | |? rk s]; cbn [Prog.step react ev_conforms] in *;
    try (exists t; by split_and!).
  - destruct He as [Hs HQ].
    assert (Hp : forall x, t = Open x -> pool_stmt s) by (by intros x ->).
    pose proof (pool_alone s (e_now E (w_tick w)) (e_fault E (w_tick w)) w t Hp Hsame) as H.
    destruct (sql_pool _ _ _ w) as [r w']. destruct H as [H1 H2]. exists t. by split_and!.
  - assert (Hd : (forall x, t = Open x -> detached s) /\ forall r, Q r (stage_of t)).
    { destruct t as [|x|]; simpl in He; [by split|by destruct He; split|by destruct He; split]. }
    destruct Hd as [Hd HQ]. pose proof (tx_alone s (e_fault E (w_tick w)) w t Hd Hsame) as H.
    destruct (sql_tx s _ w) as [r w']. destruct H as (t' & H1 & H2 & H3 & H4). exists t'. rewrite H3 in *. rewrite H4. by split_and!.
  - destruct He as (Ho & _ & Hu & Hf). destruct t; try done. inversion Hsame as [Ht| |].
    destruct (e_fault E (w_tick w)) as [c|]; cbn [w_db w_tx with_tx].
    + exists Closed. rewrite <- Ht. split_and!; [done|constructor|constructor|apply Hf].
    + exists (Open (begun (e_now E (w_tick w)))). split_and!; [done|constructor| |exact Hu].
      by apply (same_open (w_db w) (begun _)); [constructor|].
  - destruct He as [_ HQ]. pose proof (commit_alone (e_fault E (w_tick w)) w t Hsame) as H.
    destruct (commit _ w) as [r w']. destruct H as [H1 H2]. exists Closed. rewrite H2. split_and!; [done|done|constructor|apply HQ].
  - exists Closed. split_and!; [done..|constructor|exact He].
  - exists t. destruct (e_evicted E (w_tick w)); by split_and!.
  - exists t. destruct (e_fault E (w_tick w)) as [[]|]; by split_and!.
  - exists t. destruct (e_fault E (w_tick w)) as [[]|]; by split_and!.
  - destruct (f (w_mgr w)) as [a m']. exists t. by split_and!.
  - exists t. split_and!; [apply reorder_perm|done..|apply He, reorder_perm].
  - exists t. destruct (e_fault E (w_tick w)) as [[]|]; by split_and!.
  - assert (Hd : (forall x, t = Open x -> read_stmt s) /\ forall r, Q r (stage_of t)).
    { destruct t as [|x|]; simpl in He; [by split|by destruct He as [[] ?]; split|by destruct He as [[] ?]; split]. }
    destruct Hd as [Hd HQ]. pose proof (lock_alone rk s (e_fault E (w_tick w)) w t Hd Hsame) as H.
    destruct (sql_tx s _ w) as [r w']. destruct H as (t' & H1 & H2 & H3 & H4). exists t'. rewrite H3 in *. rewrite H4. by split_and!.
Qed.
End Alone.

(** *** Systems *)

Lemma held_insert {A} i (q : proc A) ps k : held i (<[i := q]> ps) k <-> held i ps k.
Proof.
  unfold held. split; intros (j & p & Hj & Hp & Hk); exists j, p; (split; [done|]);
    [rewrite list_lookup_insert_ne in Hp by done|rewrite list_lookup_insert_ne by done]; by split.
Qed.

(** The first part of a program, run while the others hold no lock. *)
Lemma run_alone {A B} G E (m : prog A) (f : A -> prog B) (w : World) t i ps Q :
  ps !! i = Some (Proc (pbind m f) t) -> (forall k, ~ held i ps k) -> conforms G (stage_of t) m Q -> same_tx (w_db w) (w_tx w) t ->
  wp E m w (fun a w' => exists t',
    rtc sys_step (w_db w, ps) (w_db w', <[i := Proc (f a) t']> ps) /\ same_tx (w_db w') (w_tx w') t' /\ Q a (stage_of t')).
Proof.
  unfold wp. revert w t ps. induction m as [a|X e k IH]; intros w t ps Hi Hk Hm Hsame; simpl.
  - exists t. rewrite list_insert_id by done. by split_and!.
  - pose proof (react_alone G (held i ps) Hk E e w t _ Hm Hsame) as H.
    destruct (Prog.step E e w) as [x w1]. destruct H as (t1 & Hr & Hs1 & Hc1).
    assert (Hlt : (i < length ps)%nat) by (by eapply lookup_lt_Some).
    specialize (IH x (tick w1) t1 (<[i := Proc (pbind (k x) f) t1]> ps)).
    destruct (run E (k x) (tick w1)) as [a w']. destruct IH as (t' & Hrest & Hs' & HQ); [by rewrite list_lookup_insert_eq|
      intros key; rewrite held_insert; apply Hk|exact Hc1|exact Hs1|].
    exists t'. rewrite list_insert_insert_eq in Hrest. split_and!; [|done..]. eapply rtc_l; [|exact Hrest].
    by apply (sys_event i ps (w_db w) e (fun y => pbind (k y) f) t x (w_db w1) t1).
Qed.

Lemma fresh_free {A} i (ms : list (prog A)) k : ~ held i (map fresh ms) k.
Proof.
  intros (j & p & _ & Hp & Hk). rewrite list_lookup_fmap in Hp. apply fmap_Some in Hp as (m & _ & ->). by apply not_elem_of_nil in Hk.
Qed.

(** Between transactions: the programs are what is left of them. *)
Lemma turn_alone {A B} G E (m : prog A) (f : A -> prog B) (w : World) i ms :
  ms !! i = Some (pbind m f) -> conforms G Outside m (fun _ st => st = Outside) -> w_tx w = TxNone ->
  wp E m w (fun a w' => w_tx w' = TxNone /\ rtc sys_step (w_db w, map fresh ms) (w_db w', map fresh (<[i := f a]> ms))).
Proof.
  intros Hi Hm Hw. eapply wp_mono.
  - apply (run_alone G E m f w Closed i (map fresh ms)); [by rewrite list_lookup_fmap, Hi|apply fresh_free|exact Hm|].
    rewrite Hw. constructor.
  - intros a w' (t' & Hs & Hsame & Ht). destruct t'; try done. inversion Hsame. split; [done|]. by rewrite list_fmap_insert.
Qed.
