(* ===== verification/Chart.v ===== *)
(** * internal/ir/schema.go: charts of accounts

    A chart is parsed from a JSON document; [regexp.Compile] is a parameter, giving the
    match function of a pattern that compiles. Validating an address walks the tree, an
    exact segment first, then the first variable child the map iteration meets. *)
From S2P Require Import Prelude GoStd Json Storage Db Prog Logic.

Definition SchemaStrict : string := "strict".
Definition SchemaBestEffort : string := "best_effort".
Definition SchemaDisabled : string := "disabled".

#[local] Unset Elimination Schemes.
Inductive ChartNode := mkNode {
  Children : list (string * ChartNode);
  Pattern : string;
  compiledPattern : option (string -> bool);
  IsLeaf : bool;
  DefaultMetadata : gomap
}.
#[local] Set Elimination Schemes.

Definition ChartOfAccounts : Type := list (string * ChartNode).

Section Parse.
Context (regexp_Compile : string -> option (string -> bool)).

Definition empty_node : ChartNode := mkNode [] "" None false None.

Definition set_leaf (n : ChartNode) : ChartNode :=
  mkNode (Children n) (Pattern n) (compiledPattern n) true (DefaultMetadata n).

(** A node with no children is a leaf, whether or not it says [.self]. *)
Definition implicit_leaf (n : ChartNode) : ChartNode :=
  match Children n with [] => set_leaf n | _ => n end.

(** One attribute of a node; [child] parses a child. The keys of an object are
    distinct, as jsonb keeps them. *)
Definition parse_field (child : json -> result ChartNode) (node : ChartNode) (key : string) (val : json)
  : result ChartNode :=
  if String.eqb key ".pattern" then
    match val with
    | JStr _ | JNull =>
        let p := match val with JStr p => p | _ => "" end in
        match regexp_Compile p with
        | Some re => Ok (mkNode (Children node) p (Some re) (IsLeaf node) (DefaultMetadata node))
        | None => Err (EMsg "compiling pattern")
        end
    | _ => Err (EMsg "unmarshaling .pattern")
    end
  else if String.eqb key ".self" then Ok (set_leaf node)
  else if String.eqb key ".metadata" then
    match unmarshal_map val with
    | Some m => Ok (mkNode (Children node) (Pattern node) (compiledPattern node) (IsLeaf node) m)
    | None => Err (EMsg "unmarshaling .metadata")
    end
  else
    let? c := rmap_err (EWrap "child") (child val) in
    Ok (mkNode (Children node ++ [(key, c)]) (Pattern node) (compiledPattern node) (IsLeaf node) (DefaultMetadata node)).

Fixpoint parseNode (data : json) : result ChartNode :=
  match data with
  | JNull => Ok (implicit_leaf empty_node)
  | JObj raw =>
      let? node :=
        (fix fields (node : ChartNode) (raw : list (string * json)) : result ChartNode :=
           match raw with
           | [] => Ok node
           | (key, val) :: raw' => let? node := parse_field parseNode node key val in fields node raw'
           end) empty_node raw in
      Ok (implicit_leaf node)
  | _ => Err (EMsg "cannot unmarshal into a map")
  end.

Fixpoint parse_roots (raw : list (string * json)) : result ChartOfAccounts :=
  match raw with
  | [] => Ok []
  | (key, val) :: raw' =>
      let? node := rmap_err (EWrap "parsing node") (parseNode val) in
      let? rest := parse_roots raw' in
      Ok ((key, node) :: rest)
  end.

(** The document is the JSON value the bytes hold; [None] when they hold none. *)
Definition ParseChartOfAccounts (data : option json) : result ChartOfAccounts :=
  match data with
  | Some (JObj raw) => parse_roots raw
  | Some JNull => Ok []
  | _ => Err (EMsg "parsing chart of accounts")
  end.
End Parse.

(** ** Validation *)

Definition find_node (seg : string) (nodes : list (string * ChartNode)) : option ChartNode :=
  option_map snd (List.find (fun x => String.eqb seg (fst x)) nodes).

(** A variable child, whose pattern, if it has one, matches the segment. *)
Definition variable_match (seg : string) (x : string * ChartNode) : bool :=
  has_prefix (fst x) "$" &&
  match compiledPattern (snd x) with None => true | Some re => re seg end.

(** [matchNode]; [validate] is [validateSegments] on the remaining segments. *)
Definition matchNode (validate : list (string * ChartNode) -> M unit) (last : bool) (node : ChartNode) : M unit :=
  if last then
    if IsLeaf node || bool_decide (length (Children node) = 0%nat) then ok tt
    else fail (EMsg "not a valid leaf in chart of accounts")
  else if bool_decide (length (Children node) = 0%nat) then fail (EMsg "too many segments for chart of accounts")
  else validate (Children node).

Fixpoint validateSegments (segments : list string) (nodes : list (string * ChartNode)) : M unit :=
  match segments with
  | [] => fail (EMsg "incomplete address for chart")
  | seg :: remaining =>
      let match_node := matchNode (validateSegments remaining) (match remaining with [] => true | _ => false end) in
      match find_node seg nodes with
      | Some node => match_node node
      | None =>
          let+ nodes := trigger (Range nodes) in
          match List.find (variable_match seg) nodes with
          | Some (_, node) => match_node node
          | None => fail (EMsg "segment not allowed by chart of accounts")
          end
      end
  end.

Definition ValidateAccount (c : ChartOfAccounts) (address : string) : M unit :=
  match c with
  | [] => ok tt
  | _ => validateSegments (split_on ":" address) c
  end.

Definition ValidatePosting (c : ChartOfAccounts) (source destination : string) : M unit :=
  let* _ := wrap "source" (ValidateAccount c source) in
  wrap "destination" (ValidateAccount c destination).

(** ** What a chart accepts *)

(** The node a segment selects: the child of that name, or a variable child. *)
Definition selects (nodes : list (string * ChartNode)) (seg : string) (node : ChartNode) : Prop :=
  find_node seg nodes = Some node \/
  (find_node seg nodes = None /\ exists name, (name, node) ∈ nodes /\ variable_match seg (name, node) = true).

Inductive accepts : list (string * ChartNode) -> list string -> Prop :=
| accepts_last nodes seg node :
    selects nodes seg node -> IsLeaf node = true \/ Children node = [] -> accepts nodes [seg]
| accepts_inner nodes seg node next rest :
    selects nodes seg node -> Children node <> [] -> accepts (Children node) (next :: rest) ->
    accepts nodes (seg :: next :: rest).

(** No node of the chart has two variable children that take the same segment. *)
Definition unambiguous_at (nodes : list (string * ChartNode)) : Prop :=
  forall seg x y, x ∈ nodes -> y ∈ nodes ->
    variable_match seg x = true -> variable_match seg y = true -> x = y.
Inductive within : list (string * ChartNode) -> list (string * ChartNode) -> Prop :=
| within_refl nodes : within nodes nodes
| within_step nodes name node below :
    (name, node) ∈ nodes -> within (Children node) below -> within nodes below.
Definition unambiguous (c : ChartOfAccounts) : Prop := forall nodes, within c nodes -> unambiguous_at nodes.

Lemma find_node_in seg nodes node : find_node seg nodes = Some node -> (seg, node) ∈ nodes.
Proof.
  unfold find_node. destruct (List.find _ nodes) as [[k n]|] eqn:E; simpl; [|done].
  intros [=->]. apply List.find_some in E as [Hin Hk]. simpl in Hk. apply String.eqb_eq in Hk as ->.
  by apply list_elem_of_In.
Qed.

Lemma selects_in nodes seg node : selects nodes seg node -> exists name, (name, node) ∈ nodes.
Proof. intros [H|(_ & name & H & _)]; eauto using find_node_in. Qed.

Lemma run_validate E segs nodes w :
  unambiguous nodes ->
  (fst (run E (validateSegments segs nodes) w) = Ok tt <-> accepts nodes segs) /\
  w_db (snd (run E (validateSegments segs nodes) w)) = w_db w.
Proof.
  revert nodes w. induction segs as [|seg segs IH]; intros nodes w Hu.
  { simpl. split; [split; [done|]|done]. by inversion 1. }
  assert (Hmatch : forall node w', selects nodes seg node ->
    (forall node', selects nodes seg node' -> node' = node) -> w_db w' = w_db w ->
    let m := matchNode (validateSegments segs) (match segs with [] => true | _ => false end) node in
    (fst (run E m w') = Ok tt <-> accepts nodes (seg :: segs)) /\ w_db (snd (run E m w')) = w_db w).
  { intros node w' Hsel Hdet Hdb. destruct (selects_in _ _ _ Hsel) as [name Hin].
    assert (Hu' : unambiguous (Children node)).
    { intros ns Hw. apply Hu. by eapply within_step. }
    destruct segs as [|next rest]; cbv zeta; unfold matchNode.
    - destruct (IsLeaf node || bool_decide (length (Children node) = 0%nat)) eqn:El.
      + split; [split; [intros _|done]|done]. apply (accepts_last _ _ _ Hsel).
        apply orb_true_iff in El as [El|El]; [by left|]. apply bool_decide_eq_true, nil_length_inv in El. by right.
      + split; [split; [done|]|done]. inversion 1 as [? ? node' Hs Hl|]; subst.
        rewrite (Hdet _ Hs) in Hl. apply orb_false_iff in El as [El1 El2].
        apply bool_decide_eq_false in El2. destruct Hl as [Hl|Hl]; [congruence|]. by rewrite Hl in El2.
    - destruct (bool_decide (length (Children node) = 0%nat)) eqn:El.
      + split; [split; [done|]|done]. apply bool_decide_eq_true, nil_length_inv in El.
        inversion 1 as [|? ? node' ? ? Hs Hc]; subst. by rewrite (Hdet _ Hs) in Hc.
      + apply bool_decide_eq_false in El. destruct (IH (Children node) w' Hu') as [IH1 IH2].
        split; [|congruence]. rewrite IH1. split.
        * intros Ha. apply (accepts_inner _ _ _ _ _ Hsel); [|done]. intros Hc. by rewrite Hc in El.
        * inversion 1 as [|? ? node' ? ? Hs Hc Ha]; subst. by rewrite (Hdet _ Hs) in Ha. }
  simpl. destruct (find_node seg nodes) as [node|] eqn:Ef.
  - apply (Hmatch node w); [by left| |done]. intros node' [H|[H _]]; congruence.
  - simpl. destruct (List.find _ (reorder _ nodes)) as [[name node]|] eqn:Ev.
    + apply List.find_some in Ev as [Hin Hv]. apply list_elem_of_In in Hin. rewrite reorder_perm in Hin.
      apply (Hmatch node); [right; eauto| |done].
      intros node' [H|(_ & name' & Hin' & Hv')]; [congruence|].
      by pose proof (Hu nodes (within_refl _) seg _ _ Hin Hin' Hv Hv') as [= -> ->].
    + simpl. split; [|done]. split; [done|]. intros Ha. exfalso.
      assert (Hno : forall node, ~ selects nodes seg node).
      { intros node [H|(_ & name & Hin & Hv)]; [congruence|].
        pose proof (List.find_none _ _ Ev (name, node)) as Hn. rewrite Hv in Hn.
        rewrite <- (reorder_perm (e_order E (w_tick w))) in Hin. apply list_elem_of_In in Hin. by apply Hn in Hin. }
      inversion Ha; subst; by eapply Hno.
Qed.

(** C35: On a chart whose variable children never compete for a segment, and for every map
    iteration order, [ValidateAccount] accepts exactly the addresses whose segments
    follow a path of the chart ending in a leaf, and an empty chart accepts all. *)
Theorem ValidateAccount_spec E c address w :
  unambiguous c ->
  fst (run E (ValidateAccount c address) w) = Ok tt <-> (c = [] \/ accepts c (split_on ":" address)).
Proof.
  intros Hu. destruct c as [|x c]; [naive_solver|].
  pose proof (run_validate E (split_on ":" address) (x :: c) w Hu) as [Hv _].
  unfold ValidateAccount. rewrite Hv. naive_solver.
Qed.
