(* ===== verification/BatchManager.v ===== *)
(** * internal/log/batch: the life of a Merkle batch

    The manager keeps, per ledger, the batch that takes new events; the map and the set of
    batches being closed are guarded by one mutex ([Locked]), the creation of a batch by a
    lock per ledger. The goroutine that closes an evicted batch is an output of the
    program, and [closeBatchWithRetry] is what it runs. *)
From S2P Require Import Prelude GoStd Sha256 Merkle Json Storage Db Prog Logic Postgres.

Definition DefaultMaxEvents : Z := 1000.
Definition DefaultMaxAge : Z := 5 * Second.
Definition maxCloseRetries : nat := 3.
Definition initialCloseBackoff : Z := 50 * Millisecond.
Definition maxCloseBackoff : Z := 5 * Second.

Definition empty_mgr : mgr := {| openBatch := ∅; pendingClose := ∅ |}.

Section Manager.
Context (maxEvents maxAge : Z).

(** The first critical section: the batch that still takes events, with its count
    bumped, or the batch to evict. *)
Definition take_open (ledgerID : string) (now : Z) (m : mgr) : (option string * string) * mgr :=
  match openBatch m !! ledgerID with
  | Some st =>
      if (ob_eventCount st <? maxEvents) && (now - ob_openedAt st <? maxAge)
      then ((Some (ob_batchID st), EmptyString),
            {| openBatch := <[ledgerID := {| ob_batchID := ob_batchID st; ob_openedAt := ob_openedAt st;
                                             ob_eventCount := ob_eventCount st + 1 |}]> (openBatch m);
               pendingClose := pendingClose m |})
      else ((None, ob_batchID st), m)
  | None => ((None, EmptyString), m)
  end.

Definition put_open (ledgerID batchID : string) (now : Z) (m : mgr) : unit * mgr :=
  (tt, {| openBatch := <[ledgerID := {| ob_batchID := batchID; ob_openedAt := now; ob_eventCount := 1 |}]> (openBatch m);
          pendingClose := pendingClose m |}).

Definition CurrentBatchID (ledgerID : string) : M string :=
  let+ _ := trigger (LockLedger ledgerID) in
  let+ r :=
    (let+ t := time_Now in
     let+ hit := trigger (Locked (take_open ledgerID t)) in
     match hit with
     | (Some batchID, _) => ok batchID
     | (None, oldBatchID) =>
         let+ batchID := ulid_Make in
         let+ now := time_Now in
         let* _ := wrap "creating batch" (CreateBatch Pool
                {| ba_BatchID := batchID; ba_LedgerID := ledgerID; ba_OpenedAt := now; ba_ClosedAt := None;
                   ba_EventCount := 0; ba_MerkleRoot := None; ba_PrevBatchID := oldBatchID;
                   ba_AttestationURI := EmptyString |}) in
         let+ _ := trigger (Locked (put_open ledgerID batchID now)) in
         let+ _ := (if String.eqb oldBatchID EmptyString then Ret tt
                    else trigger (SpawnClose ledgerID oldBatchID)) in
         ok batchID
     end) in
  let+ _ := trigger (UnlockLedger ledgerID) in
  Ret r.

Definition markPendingClose (batchID : string) (m : mgr) : bool * mgr :=
  match pendingClose m !! batchID with
  | Some true => (false, m)
  | _ => (true, {| openBatch := openBatch m; pendingClose := <[batchID := true]> (pendingClose m) |})
  end.

Definition unmarkPendingClose (batchID : string) (m : mgr) : unit * mgr :=
  (tt, {| openBatch := openBatch m; pendingClose := delete batchID (pendingClose m) |}).

(** The leaf of an event. The time is formatted in the location the driver returns it
    in, the process's local zone: [tz] is its offset at an instant, in seconds. *)
Section Leaves.
Context (tz : Z -> Z).

Definition leaf (e : LogEventRecord) : string :=
  LeafHash sha256 (ev_EventID e) (rfc3339nano_at (tz (ev_SystemTime e)) (ev_SystemTime e))
    (be_uint16 (ev_Type e)) (default EmptyString (ev_Payload e)).

Definition closeBatch (ledgerID batchID : string) : M unit :=
  let* events := wrap "listing batch events" (ListBatchEvents Pool batchID) in
  match events with
  | [] => ok tt
  | _ =>
      let root := ComputeRoot sha256 (map leaf events) in
      wrap "closing batch" (CloseBatch Pool batchID root (Z.of_nat (length events)))
  end.

(** The retry loop after [attempt] attempts: [left] more are allowed. *)
Fixpoint close_attempts (left : nat) (backoff : Z) (ledgerID batchID : string) : prog unit :=
  let+ r := closeBatch ledgerID batchID in
  match r with
  | Ok _ => Ret tt
  | Err _ =>
      match left with
      | O => Ret tt
      | S left' =>
          let+ jitter := trigger (RandN backoff) in
          let+ go_on := trigger (SleepOrDone (backoff + jitter)) in
          if negb go_on then Ret tt
          else close_attempts left' (Z.min (backoff * 2) maxCloseBackoff) ledgerID batchID
      end
  end.

Definition closeBatchWithRetry (ledgerID batchID : string) : prog unit :=
  let+ mine := trigger (Locked (markPendingClose batchID)) in
  if negb mine then Ret tt
  else
    let+ _ := close_attempts maxCloseRetries initialCloseBackoff ledgerID batchID in
    trigger (Locked (unmarkPendingClose batchID)).

(** The batches past their age leave the map (the clock is read once for the loop). *)
Definition evict_expired (now : Z) (m : mgr) : list (string * string) * mgr :=
  (map (fun '(l, st) => (l, ob_batchID st))
       (List.filter (fun x => maxAge <=? now - ob_openedAt (snd x)) (map_to_list (openBatch m))),
   {| openBatch := base.filter (fun x => now - ob_openedAt (snd x) < maxAge) (openBatch m);
      pendingClose := pendingClose m |}).

Fixpoint close_all (l : list (string * string)) : prog unit :=
  match l with
  | [] => Ret tt
  | (ledgerID, batchID) :: l' =>
      let+ _ := closeBatchWithRetry ledgerID batchID in close_all l'
  end.

Definition CloseExpiredBatches : prog unit :=
  let+ now := time_Now in
  let+ toClose := trigger (Locked (evict_expired now)) in
  let+ toClose := trigger (Range toClose) in
  let+ _ := close_all toClose in
  let+ orphaned := ListOpenBatches Pool maxAge in
  match orphaned with
  | Err _ => Ret tt
  | Ok l => close_all (map (fun b => (ba_LedgerID b, ba_BatchID b)) l)
  end.

Definition VerifyBatch (batchID : string) : M (bool * option string * Z) :=
  let* batch := GetBatch Pool batchID in
  match ba_MerkleRoot batch with
  | None => fail (EMsg "batch is not yet closed")
  | Some _ =>
      let* events := ListBatchEvents Pool batchID in
      ok (Verify sha256 (map leaf events) (ba_MerkleRoot batch), ba_MerkleRoot batch, Z.of_nat (length events))
  end.
End Leaves.
End Manager.
