(* ===== verification/Redis.v ===== *)
(** * internal/storage/redis and the publishing side of internal/subscriptions *)
From S2P Require Import Prelude GoStd Json Storage Db Prog Logic.

Definition idempotencyKey (ledgerID key : string) : string := "ik:" +:+ ledgerID +:+ ":" +:+ key.

(** [HSet] and [Expire] in one pipeline; the expiry is an eviction of the environment. *)
Definition SetIdempotencyKey (ledgerID key eventID : string) (hash : option string) : M unit :=
  trigger (HSet (idempotencyKey ledgerID key)
             (<["event_id" := eventID]> {["hash" := default EmptyString hash]})).

(** [(eventID, hash, found, err)]. *)
Definition Redis_GetIdempotencyKey (ledgerID key : string) : prog (string * string * bool * option error) :=
  let+ r := trigger (HGetAll (idempotencyKey ledgerID key)) in
  Ret match r with
      | Err e => (EmptyString, EmptyString, false, Some e)
      | Ok result =>
          if bool_decide (size result = 0%nat) then (EmptyString, EmptyString, false, None)
          else (default EmptyString (result !! "event_id"), default EmptyString (result !! "hash"), true, None)
      end.

Definition SubscriptionChannel (ledgerID : string) : string := "sub:" +:+ ledgerID.

Definition BalanceKey (ledgerID account asset : string) : string :=
  "bal:" +:+ ledgerID +:+ ":" +:+ account +:+ ":" +:+ asset.

Definition Redis_Publish (ledgerID message : string) : M unit :=
  trigger (PublishMsg (SubscriptionChannel ledgerID) message).

Record EventNotification := { en_LedgerID : string; en_EventID : string; en_Type : Z }.

Definition json_of_notification (n : EventNotification) : json :=
  JObj [("ledger_id", JStr (en_LedgerID n)); ("event_id", JStr (en_EventID n)); ("type", JInt (en_Type n))].

Definition Publish (notification : EventNotification) : M unit :=
  Redis_Publish (en_LedgerID notification) (marshal (json_of_notification notification)).
