(* ===== verification/Planner.v ===== *)
(** * internal/planner: the safe-write path shared by all operations

    planner.go, the idempotency and retry machinery of operations_post.go, and the helpers
    of operations_shared.go that the cores of the operations use. *)
From S2P Require Import Prelude GoStd Regex Accounts Assets Policy Sha256 Json Storage Db Prog.
From S2P Require Import Logic Postgres BatchManager Redis Chart.

Definition ledgerStateSealed : string := "sealed".
Definition maxDeadlockRetries : nat := 5.
Definition schemaVersionV1 : Z := 1.
Definition featureSchemaEnforcement : string := "schema_enforcement".
Definition featureActiveSchemaVersion : string := "active_schema_version".

(** What the planner is built with that is not under src: whether a publisher is
    wired in, [regexp.Compile], and the syntactic part of [json.Unmarshal]. *)
Class Deps := {
  has_subs : bool;
  regexp_Compile : string -> option (string -> bool);
  json_parse : string -> option json
}.

Record SubmitResult := {
  sr_EventID : string;
  sr_IdempotentHit : bool;
  sr_Transaction : option TransactionRecord;
  sr_HoldID : string;
  sr_ConversionID : string
}.
Definition event_result (eventID : string) : SubmitResult :=
  {| sr_EventID := eventID; sr_IdempotentHit := false; sr_Transaction := None; sr_HoldID := ""; sr_ConversionID := "" |}.
Definition hit_result (eventID : string) : SubmitResult :=
  {| sr_EventID := eventID; sr_IdempotentHit := true; sr_Transaction := None; sr_HoldID := ""; sr_ConversionID := "" |}.

(** [Amount] is a pointer that may be nil. *)
Record PostingInput := { pi_Source : string; pi_Destination : string; pi_Amount : option Z; pi_Asset : string }.

(** The amount behind the pointer; every use follows a check that it is not nil. *)
Definition amount (p : PostingInput) : Z := default 0 (pi_Amount p).

Definition positive (a : option Z) : bool := match a with Some z => 0 <? z | None => false end.

Definition isIdempotencyConflict (e : error) : bool := errors_is e ErrIdempotencyKeyConflict.

(** [if err := Validate(x); err != nil { return fmt.Errorf("<what>: %w", err) }]. *)
Definition checked (what : string) (o : option error) : result unit :=
  match o with None => Ok tt | Some e => Err (EWrap what e) end.

Fixpoint validate_each (postings : list PostingInput) : result unit :=
  match postings with
  | [] => Ok tt
  | p :: rest =>
      let? _ := checked "posting source" (Accounts.Validate (pi_Source p)) in
      let? _ := checked "posting destination" (Accounts.Validate (pi_Destination p)) in
      let? _ := checked "posting asset" (Assets.Validate (pi_Asset p)) in
      if negb (positive (pi_Amount p)) then Err (EMsg "posting: amount must be positive")
      else validate_each rest
  end.

Definition validatePostings (postings : list PostingInput) : result unit :=
  match postings with
  | [] => Err (EMsg "at least one posting is required")
  | _ => validate_each postings
  end.

(** ** Idempotency hashes *)

Definition writeHashField (data : string) : string := be_uint32 (Z.of_nat (String.length data)) +:+ data.

Definition computeGenericIdempotencyHash (fields : list string) : string :=
  sha256 (String.concat "" (map writeHashField fields)).

Definition metadata_fields (m : gomap) : list string :=
  match m with
  | None => []
  | Some m => flat_map (fun '(k, v) => [k; Sprint v]) (sort_fields (map_to_list m))
  end.

Definition computeIdempotencyHash (ledgerID : string) (postings : list PostingInput) (reference : string)
    (metadata : gomap) (validTime : option Z) : string :=
  computeGenericIdempotencyHash
    ([ledgerID; reference] ++
     flat_map (fun p => [pi_Source p; pi_Destination p; dec_of_Z (amount p); pi_Asset p]) postings ++
     metadata_fields metadata ++
     match validTime with None => [] | Some t => [rfc3339nano t] end).

(** ** Retries *)

Section Retry.
Context {A : Type} (retryable : error -> bool) (maxBackoff : Z).

(** The loop with [left] retries left. *)
Fixpoint retry (left : nat) (backoff : Z) (fn : M A) : M A :=
  let+ r := fn in
  match r with
  | Ok a => ok a
  | Err e =>
      if negb (retryable e) then fail e
      else match left with
           | O => fail e
           | S left' =>
               let+ jitter := trigger (RandN backoff) in
               let+ go_on := trigger (SleepOrDone (backoff + jitter)) in
               if negb go_on then fail ECtxDone
               else retry left' (Z.min (backoff * 2) maxBackoff) fn
           end
  end.
End Retry.

Definition withDeadlockRetry {A} (maxRetries : nat) (fn : M A) : M A :=
  retry (fun e => errors_is e ErrDeadlock) (5 * Second) maxRetries (10 * Millisecond) fn.

Definition backoffRetryInitial : Z := 20 * Millisecond.
Definition backoffRetryMax : Z := 2 * Second.
Definition withBackoffRetry {A} (maxRetries : nat) (fn : M A) : M A :=
  retry (fun _ => true) backoffRetryMax maxRetries backoffRetryInitial fn.

(** [map[acctAsset]*big.Int]. *)
Abbreviation buckets_map := (gmap (string * string) Z).

Section Planner.
Context `{Deps}.

Definition publishEvent (ledgerID eventID : string) (eventType : Z) : prog unit :=
  if negb has_subs then Ret tt
  else let+ _ := Publish {| en_LedgerID := ledgerID; en_EventID := eventID; en_Type := eventType |} in Ret tt.

Definition checkLedgerNotSealed (ledgerID : string) : M LedgerRecord :=
  let* ledger := wrap "getting ledger" (GetLedger Pool ledgerID) in
  if String.eqb (lr_State ledger) ledgerStateSealed then fail (ESent ErrLedgerSealed) else ok ledger.

(** ** Two-tier idempotency *)

Definition resolveIdempotencyConflict (ledgerID key : string) : M SubmitResult :=
  let+ r := GetIdempotencyKey Pool ledgerID key in
  match r with
  | Ok (Some ikRecord) => ok (hit_result (ik_EventID ikRecord))
  | _ => fail (ESent ErrIdempotencyKeyConflict)
  end.

(** [string(h1) != string(h2)] of byte slices that may be nil. *)
Definition same_hash (h1 h2 : option string) : bool :=
  String.eqb (default EmptyString h1) (default EmptyString h2).

Definition checkIdempotency (ledgerID key : string) (ikHash : option string) : M (option SubmitResult) :=
  let+ (eventID, storedHash, found, _) := Redis_GetIdempotencyKey ledgerID key in
  if found : bool then
    if negb (same_hash (Some storedHash) ikHash) then fail (ESent ErrInvalidIdempotencyInput)
    else ok (Some (hit_result eventID))
  else
    let* ikRecord := wrap "checking idempotency key in PG" (GetIdempotencyKey Pool ledgerID key) in
    match ikRecord with
    | Some rec =>
        if negb (same_hash (ik_IdempotencyHash rec) ikHash) then fail (ESent ErrInvalidIdempotencyInput)
        else
          let+ _ := SetIdempotencyKey ledgerID key (ik_EventID rec) (ik_IdempotencyHash rec) in
          ok (Some (hit_result (ik_EventID rec)))
    | None => ok None
    end.

Definition recordIdempotency (ledgerID key eventID : string) (ikHash : option string) : M unit :=
  let+ r := InsertIdempotencyKey Tx {| ik_LedgerID := ledgerID; ik_IdempotencyKey := key;
              ik_IdempotencyHash := ikHash; ik_EventID := eventID; ik_CreatedAt := 0 |} in
  match r with
  | Err e => if errors_is e ErrIdempotencyKeyConflict then ok tt else fail (EWrap "inserting idempotency key" e)
  | Ok _ => ok tt
  end.

(** [if idempotencyKey != "" && ikHash != nil { recordIdempotency }]. *)
Definition record_if_keyed (ledgerID key eventID : string) (ikHash : option string) : M unit :=
  if negb (String.eqb key EmptyString) && bool_decide (ikHash <> None)
  then recordIdempotency ledgerID key eventID ikHash else ok tt.

Definition postCommitIdempotency (ledgerID key eventID : string) (ikHash : option string) : prog unit :=
  let+ _ := SetIdempotencyKey ledgerID key eventID ikHash in Ret tt.

(** One attempt: the body of the deadlock-retried closure. *)
Definition submit_attempt (ledgerID key : string) (ikHash : option string) (eventType : Z) (dryRun : bool)
    (work : M SubmitResult) : M SubmitResult :=
  let* _ := wrap "beginning tx" BeginTx in
  with_rollback (
    let* r := work in
    if dryRun then
      let+ _ := TxRollback in ok r
    else
      let* _ := wrap "committing transaction" TxCommit in
      let+ _ := (if negb (String.eqb key EmptyString)
                 then postCommitIdempotency ledgerID key (sr_EventID r) ikHash else Ret tt) in
      let+ _ := publishEvent ledgerID (sr_EventID r) eventType in
      ok r).

Definition submitWithIdempotency (ledgerID key : string) (ikHash : option string) (eventType : Z) (dryRun : bool)
    (work : M SubmitResult) : M SubmitResult :=
  let* hit := (if negb (String.eqb key EmptyString) then checkIdempotency ledgerID key ikHash else ok None) in
  match hit with
  | Some result => ok result
  | None =>
      let+ r := withDeadlockRetry maxDeadlockRetries (submit_attempt ledgerID key ikHash eventType dryRun work) in
      match r with
      | Ok result => ok result
      | Err e =>
          if negb (String.eqb key EmptyString) && isIdempotencyConflict e
          then resolveIdempotencyConflict ledgerID key
          else fail e
      end
  end.

(** ** Helpers of the cores *)

Definition log_event (eventID ledgerID : string) (seq eventType : Z) (payload : option string) (key : string)
    (ikHash : option string) (vt now : Z) (batchID : string) : LogEventRecord :=
  {| ev_EventID := eventID; ev_LedgerID := ledgerID; ev_LedgerSeq := seq; ev_SystemTime := now;
     ev_ValidTime := vt; ev_Type := eventType; ev_Payload := payload; ev_IdempotencyKey := key;
     ev_IdempotencyHash := if negb (String.eqb key EmptyString) then ikHash else None;
     ev_BatchID := batchID; ev_SchemaVersion := schemaVersionV1 |}.

Definition appendEvent (ledgerID : string) (eventType : Z) (payload : option string) (key : string)
    (ikHash : option string) (vt now : Z) : M (string * Z) :=
  let+ eventID := ulid_Make in
  let* batchID := wrap "getting batch ID" (CurrentBatchID DefaultMaxEvents DefaultMaxAge ledgerID) in
  let* seq := wrap "getting next seq" (NextLedgerSeq ledgerID) in
  let* _ := AppendLogEvent Tx (log_event eventID ledgerID seq eventType payload key ikHash vt now batchID) in
  ok (eventID, seq).

Definition availableBalance (ledgerID account asset : string) : M Z :=
  let* bal := wrap "getting balance" (GetBalance Tx ledgerID account asset None None) in
  let available := br_Input bal - br_Output bal in
  let* activeHolds := wrap "getting active holds" (GetActiveHoldsTotal Tx ledgerID account asset) in
  ok (available - activeHolds).

Definition add_to (m : buckets_map) (key : string * string) (x : Z) : buckets_map :=
  <[key := default 0 (m !! key) + x]> m.

Definition check_source (ledger : LedgerRecord) (netInputs : buckets_map) (x : (string * string) * Z) : M unit :=
  let '((account, asset), output) := x in
  if IsIssuer account (lr_IssuerAccounts ledger) then ok tt
  else
    let* available := availableBalance (lr_ID ledger) account asset in
    let available := match netInputs !! (account, asset) with Some netIn => available + netIn | None => available end in
    if available <? output then fail (EWrap "account, asset" (ESent ErrInsufficientFunds)) else ok tt.

Definition checkSourceBalances (ledger : LedgerRecord) (netOutputs netInputs : buckets_map) : M unit :=
  let+ outputs := trigger (Range (map_to_list netOutputs)) in
  for_each (check_source ledger netInputs) outputs.

(** Each posting against the chart: a failure is an error in strict mode only. *)
Fixpoint validate_chart (coa : ChartOfAccounts) (mode : string) (postings : list PostingInput) : M unit :=
  match postings with
  | [] => ok tt
  | p :: rest =>
      let+ r := ValidatePosting coa (pi_Source p) (pi_Destination p) in
      match r with
      | Err e => if String.eqb mode SchemaStrict then fail (EWrap "posting" e) else validate_chart coa mode rest
      | Ok _ => validate_chart coa mode rest
      end
  end.

Definition validatePostingsAgainstSchema (ledgerID schemaVersion : string) (postings : list PostingInput)
    (mode : string) : M unit :=
  if String.eqb schemaVersion EmptyString then ok tt
  else
    let+ schema := GetSchema Pool ledgerID schemaVersion in
    match schema with
    | Err _ => ok tt
    | Ok schema =>
        match sc_Document schema with
        | DocBytes docBytes =>
            match ParseChartOfAccounts regexp_Compile (json_parse (default EmptyString docBytes)) with
            | Err e => if String.eqb mode SchemaStrict then fail (EWrap "invalid chart of accounts" e) else ok tt
            | Ok coa => validate_chart coa mode postings
            end
        | DocAny _ =>
            if String.eqb mode SchemaStrict
            then fail (EMsg "schema document has unexpected type, expected []byte") else ok tt
        end
    end.

Definition account_upsert (ledgerID addr : string) (now : Z) : M unit :=
  UpsertAccount Tx {| ac_LedgerID := ledgerID; ac_Address := addr; ac_FirstUsage := now;
                      ac_UpdatedAt := now; ac_Metadata := Some ∅ |}.

(** A delta row; [input] and [output] are the two columns. *)
Definition volume_delta (ledgerID account asset eventID : string) (vt now input output : Z) : VolumeDeltaRecord :=
  {| vd_LedgerID := ledgerID; vd_Account := account; vd_Asset := asset; vd_Shard := 0; vd_EventID := eventID;
     vd_ValidTime := vt; vd_SystemTime := now; vd_InputDelta := input; vd_OutputDelta := output |}.

(** The two sides of a posting. *)
Definition insert_posting (ledgerID eventID : string) (vt now : Z) (p : PostingInput) : M unit :=
  if amount p =? 0 then ok tt
  else
    let* _ := wrap "inserting source volume delta"
                (InsertVolumeDelta Tx (volume_delta ledgerID (pi_Source p) (pi_Asset p) eventID vt now 0 (amount p))) in
    wrap "inserting dest volume delta"
      (InsertVolumeDelta Tx (volume_delta ledgerID (pi_Destination p) (pi_Asset p) eventID vt now (amount p) 0)).

(** [touchedAccounts]: the keys of the map the loop fills. *)
Definition touchedAccounts (postings : list PostingInput) : list string :=
  elements (list_to_set (flat_map (fun p => if amount p =? 0 then [] else [pi_Source p; pi_Destination p]) postings) : gset string).
End Planner.
