(* ===== verification/Cores.v ===== *)
(** * internal/planner/operations_shared.go: the cores of the operations

    Each [do*InTx] runs on the open transaction of its caller, standalone or batch. *)
From S2P Require Import Prelude GoStd Regex Accounts Assets Policy Sha256 Json Storage Db Prog.
From S2P Require Import Logic Postgres BatchManager Redis Chart Planner.

Section Cores.
Context `{Deps}.

(** ** Posting *)

Definition posting_record (p : PostingInput) : PostingRecord :=
  {| po_Source := pi_Source p; po_Destination := pi_Destination p; po_Amount := dec_of_Z (amount p);
     po_Asset := pi_Asset p |}.

Definition feature (ledger : LedgerRecord) (name : string) : string := default EmptyString (lr_Features ledger !! name).

(** The nets per bucket; a posting of amount zero is skipped. *)
Definition net_outputs (postings : list PostingInput) : buckets_map :=
  fold_left (fun m p => if amount p =? 0 then m else add_to m (pi_Source p, pi_Asset p) (amount p)) postings ∅.
Definition net_inputs (postings : list PostingInput) : buckets_map :=
  fold_left (fun m p => if amount p =? 0 then m else add_to m (pi_Destination p, pi_Asset p) (amount p)) postings ∅.

Definition post_payload (txID : string) (postings : list PostingInput) (metadata : gomap) (reference : string) : json :=
  JObj (sort_fields [("transaction_id", JStr txID);
                     ("postings", json_of_postings (map posting_record postings));
                     ("metadata", json_of_gomap metadata);
                     ("reference", JStr reference)]).

Definition enforce_schema (ledger : LedgerRecord) (postings : list PostingInput) : M unit :=
  let mode := feature ledger featureSchemaEnforcement in
  if String.eqb mode SchemaStrict || String.eqb mode SchemaBestEffort
  then validatePostingsAgainstSchema (lr_ID ledger) (feature ledger featureActiveSchemaVersion) postings mode
  else ok tt.

(** [len(metadata) > 0]. *)
Definition has_metadata (m : gomap) : bool :=
  match m with None => false | Some m => negb (bool_decide (size m = 0%nat)) end.

Definition doPostInTx (ledger : LedgerRecord) (postings : list PostingInput) (reference : string) (metadata : gomap)
    (idempotencyKey : string) (ikHash : option string) (vt now : Z) (dryRun : bool) : M SubmitResult :=
  let* _ := lift (validatePostings postings) in
  let* _ := enforce_schema ledger postings in
  let* _ := checkSourceBalances ledger (net_outputs postings) (net_inputs postings) in
  if dryRun then ok (event_result "dry-run")
  else
    let+ txID := ulid_Make in
    let* (eventID, _) := appendEvent (lr_ID ledger) EventTypeTransactionPosted
        (Some (marshal (post_payload txID postings metadata reference))) idempotencyKey ikHash vt now in
    let txRec := {| tx_LedgerID := lr_ID ledger; tx_TransactionID := txID; tx_EventID := eventID;
                    tx_ValidTime := vt; tx_SystemTime := now; tx_Reference := reference;
                    tx_Postings := map posting_record postings; tx_Metadata := metadata |} in
    let* _ := on_err (InsertTransaction Tx txRec)
                (fun e => if errors_is e ErrTransactionReferenceConflict then e
                          else EWrap "inserting transaction" e) in
    let* _ := when (has_metadata metadata)
        (wrap "inserting initial metadata history" (InsertMetadataHistory Tx
          {| mh_LedgerID := lr_ID ledger; mh_TargetType := TargetTypeTransaction; mh_TargetID := txID;
             mh_Revision := 0; mh_Metadata := metadata; mh_EventID := eventID; mh_SystemTime := now |})) in
    let* _ := for_each (insert_posting (lr_ID ledger) eventID vt now) postings in
    let+ addrs := trigger (Range (touchedAccounts postings)) in
    let* _ := for_each (fun addr => wrap "upserting account" (account_upsert (lr_ID ledger) addr now)) addrs in
    let* _ := record_if_keyed (lr_ID ledger) idempotencyKey eventID ikHash in
    ok {| sr_EventID := eventID; sr_IdempotentHit := false; sr_Transaction := Some txRec;
          sr_HoldID := ""; sr_ConversionID := "" |}.

(** ** Conversion *)

Record ConvertParams := {
  cv_Source : string;
  cv_Destination : string;
  cv_SourceAmount : option Z;
  cv_SourceAsset : string;
  cv_DestAmount : option Z;
  cv_DestAsset : string;
  cv_Rate : string;
  cv_RateSource : string;
  cv_SlippageAccount : string;
  cv_SlippageAmount : option Z;
  cv_ValidTime : option Z
}.

(** What [big.ParseFloat(s, 10, 128, ...)] accepts (exponents that overflow aside). *)
Definition digits : re := RPlus (RClass is_digit).
Definition one_of (s : string) : re := RClass (fun a => existsb (Ascii.eqb a) (list_ascii_of_string s)).
Definition word (s : string) : re := fold_right (fun c r => RSeq (RChar c) r) REps (list_ascii_of_string s).
Definition floatRe : re :=
  RSeq (ROpt (one_of "+-"))
    (RAlt (RAlt (word "Inf") (word "inf"))
       (RSeq (RAlt (RSeq digits (ROpt (RSeq (RChar ".") (ROpt digits)))) (RSeq (RChar ".") digits))
             (ROpt (RSeq (one_of "eEpP") (RSeq (ROpt (one_of "+-")) digits))))).

Definition validateConvertParams (params : ConvertParams) : result unit :=
  let? _ := checked "source" (Accounts.Validate (cv_Source params)) in
  let? _ := checked "destination" (Accounts.Validate (cv_Destination params)) in
  let? _ := checked "source_asset" (Assets.Validate (cv_SourceAsset params)) in
  let? _ := checked "destination_asset" (Assets.Validate (cv_DestAsset params)) in
  let? _ := (if negb (String.eqb (cv_SlippageAccount params) EmptyString)
             then checked "slippage_account" (Accounts.Validate (cv_SlippageAccount params)) else Ok tt) in
  if negb (positive (cv_SourceAmount params)) then Err (EMsg "source_amount must be positive")
  else if negb (positive (cv_DestAmount params)) then Err (EMsg "destination_amount must be positive")
  else if String.eqb (cv_SourceAsset params) (cv_DestAsset params) then
    Err (EMsg "source_asset and destination_asset must differ for conversion")
  else if negb (String.eqb (cv_Rate params) EmptyString) && negb (re_match floatRe (cv_Rate params)) then
    Err (EWrap "invalid conversion rate" (EMsg "number has no digits"))
  else Ok tt.

(** The two amounts, after the checks that they are not nil. *)
Definition source_amount (params : ConvertParams) : Z := default 0 (cv_SourceAmount params).
Definition dest_amount (params : ConvertParams) : Z := default 0 (cv_DestAmount params).
Definition slippage_amount (params : ConvertParams) : Z := default 0 (cv_SlippageAmount params).

Definition hasSlippage (params : ConvertParams) : bool :=
  positive (cv_SlippageAmount params) && negb (String.eqb (cv_SlippageAccount params) EmptyString).

Definition totalSourceOutput (params : ConvertParams) : Z :=
  source_amount params + (if positive (cv_SlippageAmount params) then slippage_amount params else 0).

Definition convert_legs (ledgerID eventID : string) (vt now : Z) (params : ConvertParams) : list VolumeDeltaRecord :=
  let leg account asset input output := volume_delta ledgerID account asset eventID vt now input output in
  [leg (cv_Source params) (cv_SourceAsset params) 0 (source_amount params);
   leg (cv_Destination params) (cv_SourceAsset params) (source_amount params) 0;
   leg (cv_Destination params) (cv_DestAsset params) 0 (dest_amount params);
   leg (cv_Source params) (cv_DestAsset params) (dest_amount params) 0] ++
  if hasSlippage params then
    [leg (cv_Source params) (cv_SourceAsset params) 0 (slippage_amount params);
     leg (cv_SlippageAccount params) (cv_SourceAsset params) (slippage_amount params) 0]
  else [].

Definition convert_postings (params : ConvertParams) : list PostingRecord :=
  [{| po_Source := cv_Source params; po_Destination := cv_Destination params;
      po_Amount := dec_of_Z (source_amount params); po_Asset := cv_SourceAsset params |};
   {| po_Source := cv_Destination params; po_Destination := cv_Source params;
      po_Amount := dec_of_Z (dest_amount params); po_Asset := cv_DestAsset params |}] ++
  if hasSlippage params then
    [{| po_Source := cv_Source params; po_Destination := cv_SlippageAccount params;
        po_Amount := dec_of_Z (slippage_amount params); po_Asset := cv_SourceAsset params |}]
  else [].

Definition convert_accounts (params : ConvertParams) : list string :=
  [cv_Source params; cv_Destination params] ++ if hasSlippage params then [cv_SlippageAccount params] else [].

Definition convert_payload (conversionID : string) (params : ConvertParams) : json :=
  json_of_strings
    [("conversion_id", conversionID); ("source", cv_Source params); ("destination", cv_Destination params);
     ("source_amount", dec_of_Z (source_amount params)); ("source_asset", cv_SourceAsset params);
     ("destination_amount", dec_of_Z (dest_amount params)); ("destination_asset", cv_DestAsset params);
     ("rate", cv_Rate params); ("rate_source", cv_RateSource params)].

Definition doConvertInTx (ledger : LedgerRecord) (params : ConvertParams) (idempotencyKey : string)
    (ikHash : option string) (vt now : Z) : M SubmitResult :=
  let* _ := lift (validateConvertParams params) in
  let+ conversionID := ulid_Make in
  let+ txID := ulid_Make in
  let* _ := when (negb (IsIssuer (cv_Source params) (lr_IssuerAccounts ledger)))
      (let* available := availableBalance (lr_ID ledger) (cv_Source params) (cv_SourceAsset params) in
       if available <? totalSourceOutput params
       then fail (EWrap "account, asset" (ESent ErrInsufficientFunds)) else ok tt) in
  let* (eventID, _) := appendEvent (lr_ID ledger) EventTypeConversionCreated
      (Some (marshal (convert_payload conversionID params))) idempotencyKey ikHash vt now in
  let* _ := for_each (InsertVolumeDelta Tx) (convert_legs (lr_ID ledger) eventID vt now params) in
  let* _ := for_each (fun addr => wrap "upserting account" (account_upsert (lr_ID ledger) addr now))
              (convert_accounts params) in
  let* _ := wrap "inserting conversion transaction" (InsertTransaction Tx
      {| tx_LedgerID := lr_ID ledger; tx_TransactionID := txID; tx_EventID := eventID; tx_ValidTime := vt;
         tx_SystemTime := now; tx_Reference := ""; tx_Postings := convert_postings params;
         tx_Metadata := Some (<["type" := JStr "conversion"]>
           (<["rate" := JStr (cv_Rate params)]> {["rate_source" := JStr (cv_RateSource params)]})) |}) in
  let* _ := record_if_keyed (lr_ID ledger) idempotencyKey eventID ikHash in
  ok {| sr_EventID := eventID; sr_IdempotentHit := false; sr_Transaction := None; sr_HoldID := "";
        sr_ConversionID := conversionID |}.

(** ** Holds *)

Definition authorize_payload (holdID source destHint asset : string) (amt expiresAt : Z) : json :=
  json_of_strings [("hold_id", holdID); ("source", source); ("destination_hint", destHint);
                   ("amount", dec_of_Z amt); ("asset", asset); ("expires_at", rfc3339nano expiresAt)].

Definition doAuthorizeInTx (ledger : LedgerRecord) (source destHint asset : string) (amt : option Z) (expiresAt : Z)
    (idempotencyKey : string) (ikHash : option string) (now : Z) : M SubmitResult :=
  match amt with
  | Some amt =>
      if amt <=? 0 then fail (EMsg "authorize amount must be positive")
      else
        let+ holdID := ulid_Make in
        let* _ := when (negb (IsIssuer source (lr_IssuerAccounts ledger)))
            (let* available := availableBalance (lr_ID ledger) source asset in
             if available <? amt then fail (EWrap "account, asset" (ESent ErrInsufficientFunds)) else ok tt) in
        let* (eventID, _) := appendEvent (lr_ID ledger) EventTypeHoldCreated
            (Some (marshal (authorize_payload holdID source destHint asset amt expiresAt)))
            idempotencyKey ikHash now now in
        let* _ := InsertHold Tx
            {| ho_LedgerID := lr_ID ledger; ho_HoldID := holdID; ho_Source := source; ho_DestinationHint := destHint;
               ho_Asset := asset; ho_AuthorizedAmount := amt; ho_CapturedAmount := 0; ho_Voided := false;
               ho_Expired := false; ho_ExpiresAt := expiresAt; ho_AuthorizedEventID := eventID;
               ho_ValidTime := now; ho_SystemTime := now |} in
        let* _ := wrap "upserting source account" (account_upsert (lr_ID ledger) source now) in
        let* _ := record_if_keyed (lr_ID ledger) idempotencyKey eventID ikHash in
        ok {| sr_EventID := eventID; sr_IdempotentHit := false; sr_Transaction := None; sr_HoldID := holdID;
              sr_ConversionID := "" |}
  | None => fail (EMsg "authorize amount must be positive")
  end.

(** The hold a capture, a void or an expiry may act on. *)
Definition hold_open (hold : HoldRecord) : M unit :=
  if ho_Voided hold then fail (EWrap "hold" (ESent ErrHoldVoided))
  else if ho_Expired hold then fail (EWrap "hold" (ESent ErrHoldExpired))
  else ok tt.

Definition capture_payload (holdID dest : string) (amt : Z) : json :=
  json_of_strings [("hold_id", holdID); ("amount", dec_of_Z amt); ("destination", dest)].

Definition doCaptureInTx (ledgerID holdID : string) (amt : option Z) (destination idempotencyKey : string)
    (ikHash : option string) (now : Z) : M SubmitResult :=
  match amt with
  | Some amt =>
      if amt <=? 0 then fail (EMsg "capture amount must be positive")
      else
        let* hold := GetHold Tx ledgerID holdID in
        let* _ := hold_open hold in
        let remaining := ho_AuthorizedAmount hold - ho_CapturedAmount hold in
        if remaining <? amt then fail (EWrap "capture exceeds remaining on hold" (ESent ErrInsufficientFunds))
        else
          let dest := if String.eqb destination EmptyString then ho_DestinationHint hold else destination in
          if String.eqb dest EmptyString then
            fail (EMsg "destination required for capture (no destination_hint on hold)")
          else
            let* (eventID, _) := appendEvent ledgerID EventTypeHoldConfirmed
                (Some (marshal (capture_payload holdID dest amt))) idempotencyKey ikHash now now in
            let* _ := UpdateHoldCaptured Tx ledgerID holdID amt in
            let* _ := InsertVolumeDelta Tx (volume_delta ledgerID (ho_Source hold) (ho_Asset hold) eventID now now 0 amt) in
            let* _ := InsertVolumeDelta Tx (volume_delta ledgerID dest (ho_Asset hold) eventID now now amt 0) in
            let* _ := wrap "upserting destination account" (account_upsert ledgerID dest now) in
            let* _ := record_if_keyed ledgerID idempotencyKey eventID ikHash in
            ok (event_result eventID)
  | None => fail (EMsg "capture amount must be positive")
  end.

Definition doVoidInTx (ledgerID holdID idempotencyKey : string) (ikHash : option string) (now : Z) : M SubmitResult :=
  let* hold := GetHold Tx ledgerID holdID in
  let* _ := hold_open hold in
  let* (eventID, _) := appendEvent ledgerID EventTypeHoldVoided
      (Some (marshal (json_of_strings [("hold_id", holdID)]))) idempotencyKey ikHash now now in
  let* _ := VoidHold Tx ledgerID holdID in
  let* _ := record_if_keyed ledgerID idempotencyKey eventID ikHash in
  ok (event_result eventID).

(** ** Reversal and amendment *)

Fixpoint reverse_each (postings : list PostingRecord) : result (list PostingInput) :=
  match postings with
  | [] => Ok []
  | p :: rest =>
      match Z_of_dec (po_Amount p) with
      | None => Err (EMsg "posting: invalid amount in original transaction")
      | Some amt =>
          let? reversed := reverse_each rest in
          Ok ({| pi_Source := po_Destination p; pi_Destination := po_Source p; pi_Amount := Some amt;
                 pi_Asset := po_Asset p |} :: reversed)
      end
  end.

Definition reversePostings (postings : list PostingRecord) : result (list PostingInput) :=
  match postings with
  | [] => Err (EMsg "original transaction has no postings to revert")
  | _ => reverse_each postings
  end.

Definition is_revert_of (txID : string) (rel : RelationshipRecord) : bool :=
  (rel_RelationshipType rel =? 0) && String.eqb (rel_ParentTxID rel) txID.

Definition check_revert (ledger : LedgerRecord) (ledgerID : string) (p : PostingInput) : M unit :=
  if IsIssuer (pi_Source p) (lr_IssuerAccounts ledger) then ok tt
  else
    let* available := availableBalance ledgerID (pi_Source p) (pi_Asset p) in
    if available <? amount p
    then fail (EWrap "reverting would leave account negative" (ESent ErrInsufficientFunds)) else ok tt.

Definition revert_metadata (originalTxID reason : string) : gmap string json :=
  <["reverts" := JStr originalTxID]> {["revert_reason" := JStr reason]}.

Definition revert_payload (txID : string) (postings : list PostingInput) (metadata : gmap string json) : json :=
  JObj (sort_fields [("transaction_id", JStr txID);
                     ("postings", json_of_postings (map posting_record postings));
                     ("metadata", json_of_map metadata)]).

Definition doRevertInTx (ledgerID originalTxID : string) (force atEffectiveDate : bool) (reason idempotencyKey : string)
    (ikHash : option string) (now : Z) : M SubmitResult :=
  let+ txID := ulid_Make in
  let* origTx := GetTransaction Tx ledgerID originalTxID in
  let* rels := GetRelationships Tx ledgerID originalTxID 1 in
  if existsb (is_revert_of originalTxID) rels then fail (ESent ErrAlreadyReverted)
  else
    let* reversedPostings := lift (reversePostings (tx_Postings origTx)) in
    let* ledger := wrap "getting ledger" (GetLedger Tx ledgerID) in
    let vt := if atEffectiveDate then tx_ValidTime origTx else now in
    let* _ := when (negb force) (for_each (check_revert ledger ledgerID) reversedPostings) in
    let metadata := revert_metadata originalTxID reason in
    let* (eventID, _) := wrap "appending log event" (appendEvent ledgerID EventTypeTransactionReverted
        (Some (marshal (revert_payload txID reversedPostings metadata))) idempotencyKey ikHash vt now) in
    let txRec := {| tx_LedgerID := ledgerID; tx_TransactionID := txID; tx_EventID := eventID; tx_ValidTime := vt;
                    tx_SystemTime := now; tx_Reference := ""; tx_Postings := map posting_record reversedPostings;
                    tx_Metadata := Some metadata |} in
    let* _ := wrap "inserting reverting transaction" (InsertTransaction Tx txRec) in
    let* _ := for_each (insert_posting ledgerID eventID vt now) reversedPostings in
    let+ addrs := trigger (Range (touchedAccounts reversedPostings)) in
    let* _ := for_each (fun addr => wrap "upserting account" (account_upsert ledgerID addr now)) addrs in
    let* _ := wrap "inserting revert relationship" (InsertRelationship Tx
        {| rel_LedgerID := ledgerID; rel_ParentTxID := originalTxID; rel_ChildTxID := txID;
           rel_RelationshipType := RelationshipTypeReverts; rel_EventID := eventID; rel_SystemTime := now |}) in
    let* _ := record_if_keyed ledgerID idempotencyKey eventID ikHash in
    ok {| sr_EventID := eventID; sr_IdempotentHit := false; sr_Transaction := Some txRec; sr_HoldID := "";
          sr_ConversionID := "" |}.

Definition doAmendInTx (ledgerID originalTxID : string) (metadataChanges : gomap) (idempotencyKey : string)
    (ikHash : option string) (now : Z) : M SubmitResult :=
  let* _ := GetTransaction Tx ledgerID originalTxID in
  let* (eventID, seq) := appendEvent ledgerID EventTypeTransactionAmended
      (Some (marshal (JObj (sort_fields [("original_transaction_id", JStr originalTxID);
                                         ("metadata_changes", json_of_gomap metadataChanges)]))))
      idempotencyKey ikHash now now in
  let* _ := wrap "updating transaction metadata" (UpdateTransactionMetadata Tx ledgerID originalTxID metadataChanges) in
  let* _ := InsertMetadataHistory Tx
      {| mh_LedgerID := ledgerID; mh_TargetType := TargetTypeTransaction; mh_TargetID := originalTxID;
         mh_Revision := seq; mh_Metadata := metadataChanges; mh_EventID := eventID; mh_SystemTime := now |} in
  let* _ := InsertRelationship Tx
      {| rel_LedgerID := ledgerID; rel_ParentTxID := originalTxID; rel_ChildTxID := eventID;
         rel_RelationshipType := RelationshipTypeAmends; rel_EventID := eventID; rel_SystemTime := now |} in
  let* _ := record_if_keyed ledgerID idempotencyKey eventID ikHash in
  ok (event_result eventID).

(** ** Metadata *)

Definition target_fields (targetType : Z) (targetID : string) (more : string * json) : json :=
  JObj (sort_fields [("target_type", JInt targetType); ("target_id", JStr targetID); more]).

Definition doSetMetadataInTx (ledgerID : string) (targetType : Z) (targetID : string) (metadata : gomap)
    (idempotencyKey : string) (ikHash : option string) (now : Z) : M SubmitResult :=
  let* (eventID, seq) := appendEvent ledgerID EventTypeMetadataSet
      (Some (marshal (target_fields targetType targetID ("metadata", json_of_gomap metadata))))
      idempotencyKey ikHash now now in
  let* _ := when (targetType =? 0)
      (UpsertAccount Tx {| ac_LedgerID := ledgerID; ac_Address := targetID; ac_FirstUsage := now;
                           ac_UpdatedAt := now; ac_Metadata := metadata |}) in
  let* _ := when (targetType =? 1)
      (wrap "updating transaction metadata" (UpdateTransactionMetadata Tx ledgerID targetID metadata)) in
  let* _ := InsertMetadataHistory Tx
      {| mh_LedgerID := ledgerID; mh_TargetType := targetType; mh_TargetID := targetID; mh_Revision := seq;
         mh_Metadata := metadata; mh_EventID := eventID; mh_SystemTime := now |} in
  let* _ := record_if_keyed ledgerID idempotencyKey eventID ikHash in
  ok (event_result eventID).

(** [x, err := get(); if err != nil && !errors.Is(err, ErrNotFound) { return err }]. *)
Definition found_or_nil {A} (m : M A) : M (option A) :=
  let+ r := m in
  match r with
  | Ok a => ok (Some a)
  | Err e => if errors_is e ErrNotFound then ok None else fail e
  end.

Definition delete_key (key : string) (m : gomap) : gomap := option_map (delete key) m.

Definition doDeleteMetadataInTx (ledgerID : string) (targetType : Z) (targetID key idempotencyKey : string)
    (ikHash : option string) (now : Z) : M SubmitResult :=
  let* (eventID, seq) := appendEvent ledgerID EventTypeMetadataDeleted
      (Some (marshal (target_fields targetType targetID ("key", JStr key)))) idempotencyKey ikHash now now in
  let* _ := when (targetType =? 0)
      (let* acct := found_or_nil (GetAccount Tx ledgerID targetID) in
       match acct with
       | None => ok tt
       | Some a => UpsertAccount Tx
           {| ac_LedgerID := ac_LedgerID a; ac_Address := ac_Address a; ac_FirstUsage := ac_FirstUsage a;
              ac_UpdatedAt := now; ac_Metadata := delete_key key (ac_Metadata a) |}
       end) in
  let* _ := when (targetType =? 1)
      (let* _ := on_err (found_or_nil (DeleteTransactionMetadataKey Tx ledgerID targetID key))
                   (EWrap "deleting transaction metadata key") in ok tt) in
  let* current :=
      (if targetType =? 0 then
         let* a := found_or_nil (GetAccount Tx ledgerID targetID) in
         ok (match a with Some a => ac_Metadata a | None => None end)
       else if targetType =? 1 then
         let* t := found_or_nil (GetTransaction Tx ledgerID targetID) in
         ok (match t with Some t => tx_Metadata t | None => None end)
       else ok None) in
  let* _ := InsertMetadataHistory Tx
      {| mh_LedgerID := ledgerID; mh_TargetType := targetType; mh_TargetID := targetID; mh_Revision := seq;
         mh_Metadata := match current with None => Some ∅ | m => m end;
         mh_EventID := eventID; mh_SystemTime := now |} in
  let* _ := record_if_keyed ledgerID idempotencyKey eventID ikHash in
  ok (event_result eventID).

(** ** Schemas *)

Definition doInsertSchemaInTx (ledgerID : string) (schemaBytes : option string) (version idempotencyKey : string)
    (ikHash : option string) (now : Z) : M SubmitResult :=
  let* (eventID, _) := appendEvent ledgerID EventTypeSchemaInserted schemaBytes idempotencyKey ikHash now now in
  let* _ := InsertSchema Tx {| sc_LedgerID := ledgerID; sc_Version := version; sc_Document := DocBytes schemaBytes;
                               sc_InsertedAt := 0; sc_EventID := eventID |} in
  let* _ := record_if_keyed ledgerID idempotencyKey eventID ikHash in
  ok (event_result eventID).
End Cores.
