(* ===== verification/Operations.v ===== *)
(** * internal/planner: the Submit* operations, batches and the expiry sweep

    operations_*.go, operations_batch.go and expire.go. *)
From S2P Require Import Prelude GoStd Regex Accounts Assets Policy Sha256 Json Storage Db Prog.
From S2P Require Import Logic Postgres BatchManager Redis Chart Planner Cores.

Section Operations.
Context `{Deps}.

(** [if idempotencyKey != "" { ikHash = ... }]. *)
Definition hash_if_keyed (idempotencyKey : string) (fields : list string) : option string :=
  if negb (String.eqb idempotencyKey EmptyString) then Some (computeGenericIdempotencyHash fields) else None.

Definition format_bool (b : bool) : string := if b then "true" else "false".

Definition SubmitPost (ledgerID : string) (postings : list PostingInput) (reference : string) (metadata : gomap)
    (idempotencyKey : string) (validTime : option Z) (dryRun : bool) : M SubmitResult :=
  let* _ := lift (validatePostings postings) in
  let ikHash := if negb (String.eqb idempotencyKey EmptyString)
                then Some (computeIdempotencyHash ledgerID postings reference metadata validTime) else None in
  let* ledger := checkLedgerNotSealed ledgerID in
  let+ now := time_Now in
  let vt := default now validTime in
  submitWithIdempotency ledgerID idempotencyKey ikHash EventTypeTransactionPosted dryRun
    (doPostInTx ledger postings reference metadata idempotencyKey ikHash vt now dryRun).

Definition SubmitAuthorize (ledgerID source destHint asset : string) (amt : option Z) (expiresAt : Z)
    (idempotencyKey : string) : M SubmitResult :=
  match amt with
  | Some a =>
      if a <=? 0 then fail (EMsg "authorize amount must be positive")
      else
        let* ledger := checkLedgerNotSealed ledgerID in
        let ikHash := hash_if_keyed idempotencyKey
              [ledgerID; "authorize"; source; destHint; asset; dec_of_Z a; rfc3339nano expiresAt] in
        let+ now := time_Now in
        submitWithIdempotency ledgerID idempotencyKey ikHash EventTypeHoldCreated false
          (doAuthorizeInTx ledger source destHint asset amt expiresAt idempotencyKey ikHash now)
  | None => fail (EMsg "authorize amount must be positive")
  end.

Definition SubmitCapture (ledgerID holdID : string) (amt : option Z) (destination idempotencyKey : string) : M SubmitResult :=
  match amt with
  | Some a =>
      if a <=? 0 then fail (EMsg "capture amount must be positive")
      else
        let* _ := checkLedgerNotSealed ledgerID in
        let ikHash := hash_if_keyed idempotencyKey [ledgerID; "capture"; holdID; dec_of_Z a; destination] in
        let+ now := time_Now in
        submitWithIdempotency ledgerID idempotencyKey ikHash EventTypeHoldConfirmed false
          (doCaptureInTx ledgerID holdID amt destination idempotencyKey ikHash now)
  | None => fail (EMsg "capture amount must be positive")
  end.

Definition SubmitVoid (ledgerID holdID idempotencyKey : string) : M SubmitResult :=
  let* _ := checkLedgerNotSealed ledgerID in
  let ikHash := hash_if_keyed idempotencyKey [ledgerID; "void"; holdID] in
  let+ now := time_Now in
  submitWithIdempotency ledgerID idempotencyKey ikHash EventTypeHoldVoided false
    (doVoidInTx ledgerID holdID idempotencyKey ikHash now).

Definition SubmitConvert (ledgerID : string) (params : ConvertParams) (idempotencyKey : string) : M SubmitResult :=
  let* _ := lift (validateConvertParams params) in
  let* ledger := checkLedgerNotSealed ledgerID in
  let ikHash := hash_if_keyed idempotencyKey
        [ledgerID; "convert"; cv_Source params; cv_Destination params; dec_of_Z (source_amount params);
         cv_SourceAsset params; dec_of_Z (dest_amount params); cv_DestAsset params; cv_Rate params;
         cv_RateSource params] in
  let+ now := time_Now in
  let vt := default now (cv_ValidTime params) in
  submitWithIdempotency ledgerID idempotencyKey ikHash EventTypeConversionCreated false
    (doConvertInTx ledger params idempotencyKey ikHash vt now).

Definition SubmitRevert (ledgerID originalTxID : string) (force atEffectiveDate : bool) (reason idempotencyKey : string)
  : M SubmitResult :=
  let* _ := checkLedgerNotSealed ledgerID in
  let ikHash := hash_if_keyed idempotencyKey
        [ledgerID; "revert"; originalTxID; format_bool force; format_bool atEffectiveDate; reason] in
  let+ now := time_Now in
  submitWithIdempotency ledgerID idempotencyKey ikHash EventTypeTransactionReverted false
    (doRevertInTx ledgerID originalTxID force atEffectiveDate reason idempotencyKey ikHash now).

Definition SubmitAmend (ledgerID originalTxID : string) (metadataChanges : gomap) (idempotencyKey : string) : M SubmitResult :=
  let* _ := checkLedgerNotSealed ledgerID in
  let ikHash := hash_if_keyed idempotencyKey
        [ledgerID; "amend"; originalTxID; marshal (json_of_gomap metadataChanges)] in
  let+ now := time_Now in
  submitWithIdempotency ledgerID idempotencyKey ikHash EventTypeTransactionAmended false
    (doAmendInTx ledgerID originalTxID metadataChanges idempotencyKey ikHash now).

Definition SubmitSetMetadata (ledgerID : string) (targetType : Z) (targetID : string) (metadata : gomap)
    (idempotencyKey : string) : M SubmitResult :=
  let* _ := checkLedgerNotSealed ledgerID in
  let ikHash := hash_if_keyed idempotencyKey
        [ledgerID; "set_metadata"; dec_of_Z targetType; targetID; marshal (json_of_gomap metadata)] in
  let+ now := time_Now in
  submitWithIdempotency ledgerID idempotencyKey ikHash EventTypeMetadataSet false
    (doSetMetadataInTx ledgerID targetType targetID metadata idempotencyKey ikHash now).

Definition SubmitDeleteMetadata (ledgerID : string) (targetType : Z) (targetID key idempotencyKey : string) : M SubmitResult :=
  let* _ := checkLedgerNotSealed ledgerID in
  let ikHash := hash_if_keyed idempotencyKey
        [ledgerID; "delete_metadata"; dec_of_Z targetType; targetID; key] in
  let+ now := time_Now in
  submitWithIdempotency ledgerID idempotencyKey ikHash EventTypeMetadataDeleted false
    (doDeleteMetadataInTx ledgerID targetType targetID key idempotencyKey ikHash now).

Definition SubmitInsertSchema (ledgerID : string) (schemaBytes : option string) (version idempotencyKey : string) : M SubmitResult :=
  let* _ := checkLedgerNotSealed ledgerID in
  let ikHash := hash_if_keyed idempotencyKey [ledgerID; "insert_schema"; version] in
  let+ now := time_Now in
  submitWithIdempotency ledgerID idempotencyKey ikHash EventTypeSchemaInserted false
    (doInsertSchemaInTx ledgerID schemaBytes version idempotencyKey ikHash now).

(** ** Policies (operations_policy.go) *)

Definition checkPolicy (ledgerID principal operationType : string) (accountsTouched : list string) : M (bool * string) :=
  let* pol := GetActivePolicy Pool ledgerID in
  match pol with
  | None => ok (false, EmptyString)
  | Some pol =>
      match ValidatePolicy (pol_CedarPolicy pol) with
      | Some e => fail (EWrap "active policy for ledger is malformed" e)
      | None =>
          let result := Evaluate (pol_CedarPolicy pol) principal operationType accountsTouched in
          ok (Denied result, Reason result)
      end
  end.

Definition EvaluatePolicy (ledgerID principal operationType : string) (accountsTouched : list string) : M unit :=
  let* (denied, reason) := checkPolicy ledgerID principal operationType accountsTouched in
  if denied : bool then fail (EWrap reason (ESent ErrPolicyDenied)) else ok tt.

Definition writePolicyDenialEvent (ledgerID principal reason : string) : M unit :=
  let+ now := time_Now in
  let* _ := BeginTx in
  with_rollback (
    let* _ := appendEvent ledgerID EventTypePolicyDenied
        (Some (marshal (json_of_strings [("principal", principal); ("reason", reason)]))) EmptyString None now now in
    TxCommit).

Definition WritePolicyDenialEvent : string -> string -> string -> M unit := writePolicyDenialEvent.

(** ** Batches (operations_batch.go) *)

Record BatchIntent := {
  bi_Type : string;
  bi_Postings : list PostingInput;
  bi_Reference : string;
  bi_Metadata : gomap;
  bi_IdempotencyKey : string;
  bi_Source : string;
  bi_DestinationHint : string;
  bi_Asset : string;
  bi_Amount : option Z;
  bi_ExpiresAt : Z;
  bi_HoldID : string;
  bi_Destination : string;
  bi_OriginalTxID : string;
  bi_Force : bool;
  bi_AtEffectiveDate : bool;
  bi_Reason : string;
  bi_ConvertParams : option ConvertParams;
  bi_TargetType : Z;
  bi_TargetID : string;
  bi_MetadataKey : string
}.

Record BatchIntentResult := { bir_EventID : string; bir_Success : bool; bir_Error : option error }.

Record BatchResult := {
  br_Results : list BatchIntentResult;
  br_Successes : Z;
  br_Failures : Z;
  br_Failed : bool;
  br_FailedAt : Z;
  br_Error : option error
}.

Definition no_result : BatchIntentResult := {| bir_EventID := ""; bir_Success := false; bir_Error := None |}.
Definition success (r : SubmitResult) : BatchIntentResult :=
  {| bir_EventID := sr_EventID r; bir_Success := true; bir_Error := None |}.
Definition failure (e : error) : BatchIntentResult := {| bir_EventID := ""; bir_Success := false; bir_Error := Some e |}.

Definition executeIntent (ledgerID : string) (intent : BatchIntent) : M SubmitResult :=
  let t := bi_Type intent in
  if String.eqb t "post" then
    SubmitPost ledgerID (bi_Postings intent) (bi_Reference intent) (bi_Metadata intent) (bi_IdempotencyKey intent) None false
  else if String.eqb t "authorize" then
    SubmitAuthorize ledgerID (bi_Source intent) (bi_DestinationHint intent) (bi_Asset intent) (bi_Amount intent)
      (bi_ExpiresAt intent) (bi_IdempotencyKey intent)
  else if String.eqb t "capture" then
    SubmitCapture ledgerID (bi_HoldID intent) (bi_Amount intent) (bi_Destination intent) (bi_IdempotencyKey intent)
  else if String.eqb t "void" then SubmitVoid ledgerID (bi_HoldID intent) (bi_IdempotencyKey intent)
  else if String.eqb t "revert" then
    SubmitRevert ledgerID (bi_OriginalTxID intent) (bi_Force intent) (bi_AtEffectiveDate intent) (bi_Reason intent)
      (bi_IdempotencyKey intent)
  else if String.eqb t "amend" then
    SubmitAmend ledgerID (bi_OriginalTxID intent) (bi_Metadata intent) (bi_IdempotencyKey intent)
  else if String.eqb t "convert" then
    match bi_ConvertParams intent with
    | None => fail (EMsg "convert intent missing params")
    | Some params => SubmitConvert ledgerID params (bi_IdempotencyKey intent)
    end
  else if String.eqb t "set_metadata" then
    SubmitSetMetadata ledgerID (bi_TargetType intent) (bi_TargetID intent) (bi_Metadata intent) (bi_IdempotencyKey intent)
  else if String.eqb t "delete_metadata" then
    SubmitDeleteMetadata ledgerID (bi_TargetType intent) (bi_TargetID intent) (bi_MetadataKey intent) (bi_IdempotencyKey intent)
  else fail (EMsg "unsupported batch intent type").

Definition executePostInTx (ledgerID : string) (intent : BatchIntent) : M SubmitResult :=
  let* ledger := GetLedger Tx ledgerID in
  let+ now := time_Now in
  doPostInTx ledger (bi_Postings intent) (bi_Reference intent) (bi_Metadata intent) (bi_IdempotencyKey intent) None now now false.

Definition executeSetMetadataInTx (ledgerID : string) (intent : BatchIntent) : M SubmitResult :=
  let+ now := time_Now in
  doSetMetadataInTx ledgerID (bi_TargetType intent) (bi_TargetID intent) (bi_Metadata intent) EmptyString None now.

Definition executeDeleteMetadataInTx (ledgerID : string) (intent : BatchIntent) : M SubmitResult :=
  let+ now := time_Now in
  doDeleteMetadataInTx ledgerID (bi_TargetType intent) (bi_TargetID intent) (bi_MetadataKey intent) EmptyString None now.

Definition executeAuthorizeInTx (ledgerID : string) (intent : BatchIntent) : M SubmitResult :=
  let* ledger := GetLedger Tx ledgerID in
  let+ now := time_Now in
  doAuthorizeInTx ledger (bi_Source intent) (bi_DestinationHint intent) (bi_Asset intent) (bi_Amount intent)
    (bi_ExpiresAt intent) EmptyString None now.

Definition executeCaptureInTx (ledgerID : string) (intent : BatchIntent) : M SubmitResult :=
  let+ now := time_Now in
  doCaptureInTx ledgerID (bi_HoldID intent) (bi_Amount intent) (bi_Destination intent) EmptyString None now.

Definition executeVoidInTx (ledgerID : string) (intent : BatchIntent) : M SubmitResult :=
  let+ now := time_Now in
  doVoidInTx ledgerID (bi_HoldID intent) EmptyString None now.

Definition executeRevertInTx (ledgerID : string) (intent : BatchIntent) : M SubmitResult :=
  let+ now := time_Now in
  doRevertInTx ledgerID (bi_OriginalTxID intent) (bi_Force intent) (bi_AtEffectiveDate intent) (bi_Reason intent)
    EmptyString None now.

Definition executeAmendInTx (ledgerID : string) (intent : BatchIntent) : M SubmitResult :=
  let+ now := time_Now in
  doAmendInTx ledgerID (bi_OriginalTxID intent) (bi_Metadata intent) EmptyString None now.

Definition executeConvertInTx (ledgerID : string) (intent : BatchIntent) : M SubmitResult :=
  match bi_ConvertParams intent with
  | None => fail (EMsg "convert intent missing params")
  | Some params =>
      let* ledger := GetLedger Tx ledgerID in
      let+ now := time_Now in
      let vt := default now (cv_ValidTime params) in
      doConvertInTx ledger params EmptyString None vt now
  end.

Definition executeIntentInTx (ledgerID : string) (intent : BatchIntent) : M SubmitResult :=
  let t := bi_Type intent in
  if String.eqb t "post" then executePostInTx ledgerID intent
  else if String.eqb t "set_metadata" then executeSetMetadataInTx ledgerID intent
  else if String.eqb t "delete_metadata" then executeDeleteMetadataInTx ledgerID intent
  else if String.eqb t "authorize" then executeAuthorizeInTx ledgerID intent
  else if String.eqb t "capture" then executeCaptureInTx ledgerID intent
  else if String.eqb t "void" then executeVoidInTx ledgerID intent
  else if String.eqb t "revert" then executeRevertInTx ledgerID intent
  else if String.eqb t "amend" then executeAmendInTx ledgerID intent
  else if String.eqb t "convert" then executeConvertInTx ledgerID intent
  else fail (EMsg "unsupported operation type in batch").

(** The loop of ALL_OR_NOTHING over the intents left, [done] already executed: the
    results, or the index of the intent that failed and its error. *)
Fixpoint batch_in_tx (ledgerID : string) (intents : list BatchIntent) (done : list BatchIntentResult)
  : prog (list BatchIntentResult * option (Z * error)) :=
  match intents with
  | [] => Ret (done, None)
  | intent :: rest =>
      let+ r := executeIntentInTx ledgerID intent in
      match r with
      | Err e => Ret (done ++ map (fun _ => no_result) intents, Some (Z.of_nat (length done), e))
      | Ok r => batch_in_tx ledgerID rest (done ++ [success r])
      end
  end.

Fixpoint batch_best_effort (ledgerID : string) (intents : list BatchIntent) : prog (list BatchIntentResult) :=
  match intents with
  | [] => Ret []
  | intent :: rest =>
      let+ r := executeIntent ledgerID intent in
      let+ results := batch_best_effort ledgerID rest in
      Ret (match r with Ok r => success r | Err e => failure e end :: results)
  end.

(** The Go function may return a result along with an error: [(BatchResult, error)]. *)
Definition SubmitBatch (ledgerID : string) (intents : list BatchIntent) (mode : string)
  : prog (option BatchResult * option error) :=
  let failed (e : error) : prog (option BatchResult * option error) := Ret (None, Some e) in
  let+ sealed := checkLedgerNotSealed ledgerID in
  match sealed with
  | Err e => failed e
  | Ok _ =>
      if String.eqb mode "ALL_OR_NOTHING" then
        let+ b := wrap "beginning batch tx" BeginTx in
        match b with
        | Err e => failed e
        | Ok _ =>
            let+ r :=
              (let+ (results, failed_at) := batch_in_tx ledgerID intents [] in
               match failed_at with
               | Some (i, e) =>
                   Ret (Some {| br_Results := results; br_Successes := 0; br_Failures := 0; br_Failed := true;
                                br_FailedAt := i; br_Error := Some e |}, Some e)
               | None =>
                   let+ c := TxCommit in
                   match c with
                   | Err e => failed (EWrap "committing batch" e)
                   | Ok _ => Ret (Some {| br_Results := results; br_Successes := Z.of_nat (length intents);
                                          br_Failures := 0; br_Failed := false; br_FailedAt := 0; br_Error := None |}, None)
                   end
               end) in
            let+ _ := TxRollback in Ret r
        end
      else if String.eqb mode "BEST_EFFORT" then
        let+ results := batch_best_effort ledgerID intents in
        Ret (Some {| br_Results := results;
                     br_Successes := Z.of_nat (length (List.filter bir_Success results));
                     br_Failures := Z.of_nat (length (List.filter (fun r => negb (bir_Success r)) results));
                     br_Failed := false; br_FailedAt := 0; br_Error := None |}, None)
      else failed (EMsg "unsupported batch mode")
  end.

(** ** Expiry (expire.go) *)

Definition expiredHoldsBatchSize : Z := 1000.

Definition expire_payload (hold : HoldRecord) : json :=
  json_of_strings [("hold_id", ho_HoldID hold); ("source", ho_Source hold); ("asset", ho_Asset hold)].

Definition expireSingleHold (hold : HoldRecord) : M unit :=
  let+ now := time_Now in
  let* _ := BeginTx in
  with_rollback (
    let* currentHold := GetHold Tx (ho_LedgerID hold) (ho_HoldID hold) in
    if ho_Expired currentHold || ho_Voided currentHold then ok tt
    else
      let* (eventID, _) := appendEvent (ho_LedgerID hold) EventTypeHoldExpired (Some (marshal (expire_payload hold)))
                             EmptyString None now now in
      let* _ := ExpireHold Tx (ho_LedgerID hold) (ho_HoldID hold) in
      let* _ := TxCommit in
      let+ _ := publishEvent (ho_LedgerID hold) eventID EventTypeHoldExpired in
      ok tt).

(** The page loop: how many of the holds could be expired. *)
Fixpoint expire_page (holds : list HoldRecord) : prog Z :=
  match holds with
  | [] => Ret 0
  | hold :: rest =>
      let+ r := expireSingleHold hold in
      let+ progressed := expire_page rest in
      Ret ((if is_ok r then 1 else 0) + progressed)
  end.

(** The sweep; [None] when [fuel] passes were not enough. *)
Fixpoint ExpireHolds (fuel : nat) : prog (option (result unit)) :=
  match fuel with
  | O => Ret None
  | S fuel' =>
      let+ expired := ListExpiredHolds Pool in
      match expired with
      | Err e => Ret (Some (Err e))
      | Ok expired =>
          if bool_decide (length expired = 0%nat) then Ret (Some (Ok tt))
          else
            let+ progressed := expire_page expired in
            if progressed =? 0 then Ret (Some (Ok tt))
            else if Z.of_nat (length expired) <? expiredHoldsBatchSize then Ret (Some (Ok tt))
            else ExpireHolds fuel'
      end
  end.
End Operations.
