(* ===== verification/IntentJson.v ===== *)
(** * json.Unmarshal of a BatchIntent

    An intent that waits for approval is stored as the JSON text the client sent, and
    decoded when the last approval arrives. The rules are those of encoding/json for the
    structs of internal/planner, which have no tags: keys match a field's name up to case
    folding, unknown keys are ignored, null leaves a scalar as it is and makes a pointer,
    slice or map nil, a value of another type is an error, and a repeated key decodes into
    what the earlier one left. A time is the text of RFC 3339 (an escape in that text,
    which the decoder of time.Time refuses, is not told apart); a *big.Int is an integer
    literal. The parsing of the text is the parameter [json_parse]. *)
From S2P Require Import Prelude GoStd Json Storage Db Prog Logic Postgres Chart Planner Cores.
From S2P Require Import Operations.

(** ** time.Time *)

(** The day number of a date of the proleptic Gregorian calendar. *)
Definition days_of_civil (y m d : Z) : Z :=
  let y := if m <=? 2 then y - 1 else y in
  let era := y / 400 in
  let yoe := y mod 400 in
  let doy := (153 * (if 2 <? m then m - 3 else m + 9) + 2) / 5 + d - 1 in
  era * 146097 + (yoe * 365 + yoe / 4 - yoe / 100 + doy) - 719468.

Definition leap_year (y : Z) : bool := (y mod 4 =? 0) && (negb (y mod 100 =? 0) || (y mod 400 =? 0)).
Definition days_in (m y : Z) : Z :=
  if m =? 2 then (if leap_year y then 29 else 28)
  else if existsb (Z.eqb m) [4; 6; 9; 11] then 30 else 31.

(** Digits only, at least as many as the text is long; bounds as in [parseUint]. *)
Fixpoint digits_value (acc : Z) (s : string) : option Z :=
  match s with
  | EmptyString => Some acc
  | String a s' => if is_digit a then digits_value (acc * 10 + (Z_of_byte a - 48)) s' else None
  end.
Definition parse_uint (s : string) (lo hi : Z) : option Z :=
  match digits_value 0 s with
  | Some x => if (lo <=? x) && (x <=? hi) then Some x else None
  | None => None
  end.

Definition at_ (i : nat) (s : string) (a : ascii) : bool :=
  match String.get i s with Some b => Ascii.eqb a b | None => false end.

Fixpoint digit_run (s : string) : nat :=
  match s with String a s' => if is_digit a then S (digit_run s') else O | EmptyString => O end.

(** The digits after the period; those beyond the ninth are dropped. *)
Definition nanoseconds (ds : string) : Z :=
  let ds := String.substring 0 9 ds in
  default 0 (digits_value 0 ds) * 10 ^ (9 - Z.of_nat (String.length ds)).

(** A zone, its offset at most [hours] and [minutes]. *)
Definition parse_zone (hours minutes : Z) (s : string) : option Z :=
  if String.eqb s "Z" then Some 0
  else if negb (Nat.eqb (String.length s) 6) then None
  else
    match parse_uint (String.substring 1 2 s) 0 hours, parse_uint (String.substring 4 2 s) 0 minutes with
    | Some hr, Some mm =>
        if (at_ 0 s "-" || at_ 0 s "+") && at_ 3 s ":"
        then Some (let off := (hr * 60 + mm) * 60 in if at_ 0 s "-" then - off else off) else None
    | _, _ => None
    end.

(** A date and time of RFC 3339, as nanoseconds since the epoch. *)
Definition parse_date_time (hours minutes : Z) (s : string) : option Z :=
  let sub i n := String.substring i n s in
  match parse_uint (sub 0 4)%nat 0 9999, parse_uint (sub 5 2)%nat 1 12 with
  | Some year, Some month =>
      match parse_uint (sub 8 2)%nat 1 (days_in month year), parse_uint (sub 11 2)%nat 0 23,
            parse_uint (sub 14 2)%nat 0 59, parse_uint (sub 17 2)%nat 0 59 with
      | Some day, Some hour, Some min, Some sec =>
          if (19 <=? String.length s)%nat && at_ 4 s "-" && at_ 7 s "-" && at_ 10 s "T" && at_ 13 s ":" && at_ 16 s ":" then
            let rest := String.substring 19 (String.length s - 19) s in
            let n := match rest with String _ ds => digit_run ds | EmptyString => O end in
            let frac := at_ 0 rest "." && (0 <? n)%nat in
            let nsec := if frac then nanoseconds (String.substring 1 n rest) else 0 in
            let zone := if frac then String.substring (S n) (String.length rest - S n) rest else rest in
            match parse_zone hours minutes zone with
            | Some off =>
                Some ((days_of_civil year month day * 86400 + hour * 3600 + min * 60 + sec - off) * Second + nsec)
            | None => None
            end
          else None
      | _, _, _, _ => None
      end
  | _, _ => None
  end.

(** [parseRFC3339]. *)
Definition parse_rfc3339 : string -> option Z := parse_date_time 23 59.

Example rfc3339_reads_back :
  forallb (fun t => bool_decide (parse_rfc3339 (rfc3339nano t) = Some t))
    [0; 1700000000123456789; 951782399000000001; 4102444800000000000; -1] = true.
Proof. vm_compute. reflexivity. Qed.
Example rfc3339_zone : parse_rfc3339 "2024-02-29T23:30:00.5-01:30" = parse_rfc3339 "2024-03-01T01:00:00.5Z".
Proof. vm_compute. reflexivity. Qed.
Example rfc3339_no_such_day : parse_rfc3339 "2023-02-29T00:00:00Z" = None.
Proof. vm_compute. reflexivity. Qed.

(** ** encoding/json *)

Definition upper (a : ascii) : ascii := if is_lower a then ascii_of_N (N_of_ascii a - 32) else a.

(** [foldName]: case folding, with the long s and the Kelvin sign. *)
Fixpoint fold_name (s : string) : string :=
  match s with
  | EmptyString => EmptyString
  | String a s1 =>
      match s1 with
      | String b s2 =>
          if Ascii.eqb a (ascii_of_nat 197) && Ascii.eqb b (ascii_of_nat 191) then String "S" (fold_name s2)
          else match s2 with
               | String c s3 =>
                   if Ascii.eqb a (ascii_of_nat 226) && Ascii.eqb b (ascii_of_nat 132) && Ascii.eqb c (ascii_of_nat 170)
                   then String "K" (fold_name s3) else String (upper a) (fold_name s1)
               | EmptyString => String (upper a) (fold_name s1)
               end
      | EmptyString => String (upper a) EmptyString
      end
  end.

(** A decoder is given the value and what the place holds. *)
Definition type_error {A} : result A := Err (EMsg "json: cannot unmarshal").
Definition decoder (A : Type) : Type := json -> A -> result A.

Definition decode_string : decoder string := fun j old =>
  match j with JStr s => Ok s | JNull => Ok old | _ => type_error end.
Definition decode_bool : decoder bool := fun j old =>
  match j with JBool b => Ok b | JNull => Ok old | _ => type_error end.
Definition decode_int16 : decoder Z := fun j old =>
  match j with
  | JInt z => if (-32768 <=? z) && (z <=? 32767) then Ok z else type_error
  | JNull => Ok old
  | _ => type_error
  end.
Definition decode_bigint : decoder (option Z) := fun j _ =>
  match j with JInt z => Ok (Some z) | JNull => Ok None | _ => type_error end.
Definition decode_time : decoder Z := fun j old =>
  match j with
  | JStr s => match parse_rfc3339 s with Some t => Ok t | None => type_error end
  | JNull => Ok old
  | _ => type_error
  end.

(** A map keeps its entries and takes those of the object; numbers become float64. *)
Definition decode_map : decoder gomap := fun j old =>
  match j with
  | JObj l => Ok (Some (fold_left (fun m '(k, v) => <[k := of_column v]> m) l (default ∅ old)))
  | JNull => Ok None
  | _ => type_error
  end.

(** A pointer keeps what it points to; [zero] is what a nil pointer is given. *)
Definition decode_ptr {A} (zero : A) (dec : decoder A) : decoder (option A) := fun j old =>
  match j with JNull => Ok None | _ => let? a := dec j (default zero old) in Ok (Some a) end.

(** The elements of an array decode into the elements the slice has. *)
Fixpoint decode_elements {A} (zero : A) (dec : decoder A) (js : list json) (old : list A) : result (list A) :=
  match js with
  | [] => Ok []
  | j :: js' =>
      let? a := dec j (default zero (head old)) in
      let? l := decode_elements zero dec js' (tail old) in
      Ok (a :: l)
  end.
Definition decode_slice {A} (zero : A) (dec : decoder A) : decoder (list A) := fun j old =>
  match j with JArr js => decode_elements zero dec js old | JNull => Ok [] | _ => type_error end.

(** The values of the keys that name a field, in order. *)
Fixpoint field {A} (name : string) (dec : decoder A) (l : list (string * json)) (old : A) : result A :=
  match l with
  | [] => Ok old
  | (k, v) :: l' =>
      if String.eqb (fold_name k) (fold_name name)
      then let? a := dec v old in field name dec l' a
      else field name dec l' old
  end.
Definition decode_struct {A} (members : list (string * json) -> A -> result A) : decoder A := fun j old =>
  match j with JObj l => members l old | JNull => Ok old | _ => type_error end.

(** ** The structs of the planner *)

Definition zero_time : Z := -62135596800 * Second.

Definition zero_posting : PostingInput := {| pi_Source := ""; pi_Destination := ""; pi_Amount := None; pi_Asset := "" |}.
Definition posting_members (l : list (string * json)) (p : PostingInput) : result PostingInput :=
  let? source := field "Source" decode_string l (pi_Source p) in
  let? destination := field "Destination" decode_string l (pi_Destination p) in
  let? amount := field "Amount" decode_bigint l (pi_Amount p) in
  let? asset := field "Asset" decode_string l (pi_Asset p) in
  Ok {| pi_Source := source; pi_Destination := destination; pi_Amount := amount; pi_Asset := asset |}.

Definition zero_convert : ConvertParams :=
  {| cv_Source := ""; cv_Destination := ""; cv_SourceAmount := None; cv_SourceAsset := ""; cv_DestAmount := None;
     cv_DestAsset := ""; cv_Rate := ""; cv_RateSource := ""; cv_SlippageAccount := ""; cv_SlippageAmount := None;
     cv_ValidTime := None |}.
Definition convert_members (l : list (string * json)) (c : ConvertParams) : result ConvertParams :=
  let? source := field "Source" decode_string l (cv_Source c) in
  let? destination := field "Destination" decode_string l (cv_Destination c) in
  let? sourceAmount := field "SourceAmount" decode_bigint l (cv_SourceAmount c) in
  let? sourceAsset := field "SourceAsset" decode_string l (cv_SourceAsset c) in
  let? destAmount := field "DestAmount" decode_bigint l (cv_DestAmount c) in
  let? destAsset := field "DestAsset" decode_string l (cv_DestAsset c) in
  let? rate := field "Rate" decode_string l (cv_Rate c) in
  let? rateSource := field "RateSource" decode_string l (cv_RateSource c) in
  let? slippageAccount := field "SlippageAccount" decode_string l (cv_SlippageAccount c) in
  let? slippageAmount := field "SlippageAmount" decode_bigint l (cv_SlippageAmount c) in
  let? validTime := field "ValidTime" (decode_ptr zero_time decode_time) l (cv_ValidTime c) in
  Ok {| cv_Source := source; cv_Destination := destination; cv_SourceAmount := sourceAmount;
        cv_SourceAsset := sourceAsset; cv_DestAmount := destAmount; cv_DestAsset := destAsset; cv_Rate := rate;
        cv_RateSource := rateSource; cv_SlippageAccount := slippageAccount; cv_SlippageAmount := slippageAmount;
        cv_ValidTime := validTime |}.

Definition zero_intent : BatchIntent :=
  {| bi_Type := ""; bi_Postings := []; bi_Reference := ""; bi_Metadata := None; bi_IdempotencyKey := "";
     bi_Source := ""; bi_DestinationHint := ""; bi_Asset := ""; bi_Amount := None; bi_ExpiresAt := zero_time;
     bi_HoldID := ""; bi_Destination := ""; bi_OriginalTxID := ""; bi_Force := false; bi_AtEffectiveDate := false;
     bi_Reason := ""; bi_ConvertParams := None; bi_TargetType := 0; bi_TargetID := ""; bi_MetadataKey := "" |}.
Definition intent_members (l : list (string * json)) (i : BatchIntent) : result BatchIntent :=
  let? type_ := field "Type" decode_string l (bi_Type i) in
  let? postings := field "Postings" (decode_slice zero_posting (decode_struct posting_members)) l (bi_Postings i) in
  let? reference := field "Reference" decode_string l (bi_Reference i) in
  let? metadata := field "Metadata" decode_map l (bi_Metadata i) in
  let? key := field "IdempotencyKey" decode_string l (bi_IdempotencyKey i) in
  let? source := field "Source" decode_string l (bi_Source i) in
  let? hint := field "DestinationHint" decode_string l (bi_DestinationHint i) in
  let? asset := field "Asset" decode_string l (bi_Asset i) in
  let? amount := field "Amount" decode_bigint l (bi_Amount i) in
  let? expiresAt := field "ExpiresAt" decode_time l (bi_ExpiresAt i) in
  let? holdID := field "HoldID" decode_string l (bi_HoldID i) in
  let? destination := field "Destination" decode_string l (bi_Destination i) in
  let? originalTxID := field "OriginalTxID" decode_string l (bi_OriginalTxID i) in
  let? force := field "Force" decode_bool l (bi_Force i) in
  let? atEffectiveDate := field "AtEffectiveDate" decode_bool l (bi_AtEffectiveDate i) in
  let? reason := field "Reason" decode_string l (bi_Reason i) in
  let? params := field "ConvertParams" (decode_ptr zero_convert (decode_struct convert_members)) l (bi_ConvertParams i) in
  let? targetType := field "TargetType" decode_int16 l (bi_TargetType i) in
  let? targetID := field "TargetID" decode_string l (bi_TargetID i) in
  let? metadataKey := field "MetadataKey" decode_string l (bi_MetadataKey i) in
  Ok {| bi_Type := type_; bi_Postings := postings; bi_Reference := reference; bi_Metadata := metadata;
        bi_IdempotencyKey := key; bi_Source := source; bi_DestinationHint := hint; bi_Asset := asset;
        bi_Amount := amount; bi_ExpiresAt := expiresAt; bi_HoldID := holdID; bi_Destination := destination;
        bi_OriginalTxID := originalTxID; bi_Force := force; bi_AtEffectiveDate := atEffectiveDate;
        bi_Reason := reason; bi_ConvertParams := params; bi_TargetType := targetType; bi_TargetID := targetID;
        bi_MetadataKey := metadataKey |}.

(** [json.Unmarshal(payload, &intent)]. *)
Definition unmarshal_intent `{Deps} (payload : string) : result BatchIntent :=
  match json_parse payload with
  | None => Err (EMsg "json: syntax error")
  | Some j => decode_struct intent_members j zero_intent
  end.

(** Keys match up to case, a repeated key wins, unknown ones are ignored. *)
Example decode_post :
  option_map (fun i => (bi_Type i, bi_Postings i))
    (match decode_struct intent_members
       (JObj [("type", JStr "void"); ("Type", JStr "post"); ("x", JNull);
              ("postings", JArr [JObj [("source", JStr "a"); ("DESTINATION", JStr "b"); ("Amount", JInt 7)]])]) zero_intent
     with Ok i => Some i | Err _ => None end) =
  Some ("post", [{| pi_Source := "a"; pi_Destination := "b"; pi_Amount := Some 7; pi_Asset := "" |}]).
Proof. vm_compute. reflexivity. Qed.
Example decode_amount_string :
  is_ok (decode_struct intent_members (JObj [("Amount", JStr "7")]) zero_intent) = false.
Proof. reflexivity. Qed.
