(* ===== verification/Approval.v ===== *)
(** * internal/planner/operations_approval.go: intents that wait for approval

    An intent is parked as a row of pending_approvals; each required approver but the
    submitter signs it; the last signature moves it to "executing" in the same
    transaction, after which the intent is executed under a key derived from its id, an
    audit event is appended, and the row becomes "executed" (or "rejected"). A sweep
    expires what is due and resolves rows a crash left in "executing". *)
From S2P Require Import Prelude GoStd Regex Accounts Assets Policy Sha256 Json Storage Db Prog.
From S2P Require Import Logic Postgres BatchManager Redis Chart Planner Cores Operations IntentJson.

Definition statePending : string := "pending".
Definition stateExecuting : string := "executing".
Definition stateExecuted : string := "executed".
Definition stateRejected : string := "rejected".
Definition stateExpired : string := "expired".

Definition maxAuditRetries : nat := 3.
Definition approvalExecutionKey (intentID : string) : string := "approval:" +:+ intentID.

(** [intent.IdempotencyKey = key]: what the payload says is overwritten. *)
Definition with_key (key : string) (i : BatchIntent) : BatchIntent :=
  {| bi_Type := bi_Type i; bi_Postings := bi_Postings i; bi_Reference := bi_Reference i; bi_Metadata := bi_Metadata i;
     bi_IdempotencyKey := key; bi_Source := bi_Source i; bi_DestinationHint := bi_DestinationHint i;
     bi_Asset := bi_Asset i; bi_Amount := bi_Amount i; bi_ExpiresAt := bi_ExpiresAt i; bi_HoldID := bi_HoldID i;
     bi_Destination := bi_Destination i; bi_OriginalTxID := bi_OriginalTxID i; bi_Force := bi_Force i;
     bi_AtEffectiveDate := bi_AtEffectiveDate i; bi_Reason := bi_Reason i; bi_ConvertParams := bi_ConvertParams i;
     bi_TargetType := bi_TargetType i; bi_TargetID := bi_TargetID i; bi_MetadataKey := bi_MetadataKey i |}.

Definition received (a : PendingApprovalRecord) : list ApprovalEntry := default [] (pa_ReceivedApprovals a).
Definition required (a : PendingApprovalRecord) : list string := default [] (pa_RequiredApprovers a).
Definition approved_by (a : PendingApprovalRecord) (principal : string) : bool :=
  existsb (fun e => String.eqb (ae_Principal e) principal) (received a).
Definition allApproved (a : PendingApprovalRecord) : bool := forallb (approved_by a) (required a).

Section Approval.
Context `{Deps}.

Definition SubmitForApproval (ledgerID : string) (intentPayload : option string) (requiredApprovers : option (list string))
    (submittedBy : string) (expiresIn : Z) : M string :=
  let* _ := checkLedgerNotSealed ledgerID in
  let+ intentID := ulid_Make in
  let h := sha256 (default EmptyString intentPayload) in
  let+ now := time_Now in
  let expiresAt := if expiresIn =? 0 then now + 24 * Hour else now + expiresIn in
  let* _ := InsertPendingApproval Pool
      {| pa_LedgerID := ledgerID; pa_IntentID := intentID; pa_IntentPayload := intentPayload; pa_IntentHash := Some h;
         pa_RequiredApprovers := requiredApprovers; pa_ReceivedApprovals := None; pa_ExpiresAt := expiresAt;
         pa_State := statePending; pa_SubmittedAt := now; pa_SubmittedBy := submittedBy; pa_ExecutingAt := None |} in
  ok intentID.

(** The audit event: one transaction per attempt, the same event id for all. *)
Definition writeOnce (ledgerID eventID : string) (now : Z) (payload : option string) : M unit :=
  let* batchID := wrap "getting batch ID" (CurrentBatchID DefaultMaxEvents DefaultMaxAge ledgerID) in
  let* _ := wrap "begin tx" BeginTx in
  with_rollback (
    let* seq := wrap "next seq" (NextLedgerSeq ledgerID) in
    let* _ := wrap "append event" (AppendLogEvent Tx
                (log_event eventID ledgerID seq EventTypeApprovalRecorded payload EmptyString None now now batchID)) in
    wrap "commit" TxCommit).

Definition recordApprovalAuditEvent (ledgerID intentID : string) (payload : option string) : prog unit :=
  let+ now := time_Now in
  let+ eventID := ulid_Make in
  let+ r := withBackoffRetry maxAuditRetries (writeOnce ledgerID eventID now payload) in
  match r with
  | Err _ => Ret tt
  | Ok _ => publishEvent ledgerID eventID EventTypeApprovalRecorded
  end.

(** What the transaction of [Approve] found, each followed by the commit. *)
Inductive decision :=
| DecExpired
| DecPartial
| DecComplete (approval : PendingApprovalRecord).

(** [Approve] from its [BeginTx] to its commit. *)
Definition approve_tx (ledgerID intentID principal signature : string) : M decision :=
  let* approval := GetPendingApproval Tx ledgerID intentID in
  if negb (String.eqb (pa_State approval) statePending) then fail (EMsg "approval: expected pending")
  else
    let+ now := time_Now in
    if pa_ExpiresAt approval <? now then
      let* _ := wrap "marking approval as expired" (UpdateApprovalState Tx ledgerID intentID stateExpired) in
      ok DecExpired
    else if String.eqb principal (pa_SubmittedBy approval) then fail (EMsg "submitter cannot approve their own intent")
    else if negb (existsb (fun ra => String.eqb ra principal) (required approval))
    then fail (EMsg "principal is not a required approver")
    else if approved_by approval principal then fail (EMsg "principal has already approved intent")
    else
      let* _ := AddApproval Tx ledgerID intentID principal signature in
      let* approval := GetPendingApproval Tx ledgerID intentID in
      if negb (allApproved approval) then ok DecPartial
      else
        let* _ := MarkApprovalExecuting Tx ledgerID intentID in
        ok (DecComplete approval).

(** [Approve] after the commit of a complete approval. *)
Definition execute_approved (ledgerID intentID : string) (approval : PendingApprovalRecord) : M SubmitResult :=
  match unmarshal_intent (default EmptyString (pa_IntentPayload approval)) with
  | Err e =>
      let+ _ := UpdateApprovalState Pool ledgerID intentID stateRejected in
      fail (EWrap "deserializing approved intent" e)
  | Ok intent =>
      let+ r := executeIntent ledgerID (with_key (approvalExecutionKey intentID) intent) in
      match r with
      | Err e =>
          let+ _ := UpdateApprovalState Pool ledgerID intentID stateRejected in
          fail (EWrap "executing approved intent" e)
      | Ok result =>
          let+ _ := recordApprovalAuditEvent ledgerID intentID (pa_IntentPayload approval) in
          let+ _ := UpdateApprovalStateIf Pool ledgerID intentID stateExecuting stateExecuted in
          ok result
      end
  end.

Definition Approve (ledgerID intentID principal signature : string) : M SubmitResult :=
  let* _ := wrap "beginning approve tx" BeginTx in
  with_rollback (
    let* found := approve_tx ledgerID intentID principal signature in
    match found with
    | DecExpired => let* _ := wrap "committing expired state" TxCommit in fail (EMsg "approval has expired")
    | DecPartial => let* _ := TxCommit in ok (event_result intentID)
    | DecComplete approval => let* _ := TxCommit in execute_approved ledgerID intentID approval
    end).

(** ** The sweep *)

Fixpoint expire_approvals (l : list PendingApprovalRecord) : prog unit :=
  match l with
  | [] => Ret tt
  | a :: rest =>
      let+ _ := UpdateApprovalState Pool (pa_LedgerID a) (pa_IntentID a) stateExpired in
      expire_approvals rest
  end.

Definition recover_approval (a : PendingApprovalRecord) : prog unit :=
  let+ events := ListLogEventsByIdempotencyKey Pool (pa_LedgerID a) (approvalExecutionKey (pa_IntentID a)) in
  match events with
  | Err _ => Ret tt
  | Ok events =>
      let nextState := if bool_decide (0 < length events)%nat then stateExecuted else stateExpired in
      let+ _ := UpdateApprovalStateIf Pool (pa_LedgerID a) (pa_IntentID a) stateExecuting nextState in
      Ret tt
  end.

Fixpoint recover_approvals (l : list PendingApprovalRecord) : prog unit :=
  match l with
  | [] => Ret tt
  | a :: rest => let+ _ := recover_approval a in recover_approvals rest
  end.

Definition ExpireStaleApprovals (stuckThreshold : Z) : M unit :=
  let* expired := ListExpiredApprovals Pool in
  let+ _ := expire_approvals expired in
  let* stuck := ListStuckApprovals Pool stuckThreshold in
  let+ _ := recover_approvals stuck in
  ok tt.
End Approval.
