(* ===== verification/Proto.v ===== *)
(** * pkg/proto/ledger/v1 and internal/api/grpc/converters.go: the messages of the API

    Module [pb] has the generated message structs, a field per field (the bookkeeping of
    the protobuf runtime aside). A message pointer and a map that may be nil are options,
    a oneof is an inductive type, a *timestamppb.Timestamp is an option of its instant in
    nanoseconds, and an enum is its number. The integers carry the width of their type
    where a conversion narrows them. *)
From S2P Require Import Prelude GoStd Json Storage Db Prog Logic Postgres Chart Planner.

(** Go's conversions between integer types. *)
Definition wrap_signed (w z : Z) : Z := (z + 2 ^ (w - 1)) mod 2 ^ w - 2 ^ (w - 1).
Definition int16_of (z : Z) : Z := wrap_signed 16 z.
Definition int32_of (z : Z) : Z := wrap_signed 32 z.
Definition int64_of (z : Z) : Z := wrap_signed 64 z.
Definition uint64_of (z : Z) : Z := z mod 2 ^ 64.

Module pb.

(** ** ir.proto *)

Inductive MetadataValue :=
| StringValue (s : string)
| IntValue (z : Z)
| BoolValue (b : bool)
| DecimalValue (s : string)
| TimestampValue (t : option Z)
| NoValue.
Definition metadata_map : Type := option (gmap string (option MetadataValue)).

Record Posting := { Posting_Source : string; Posting_Destination : string; Posting_Amount : string; Posting_Asset : string }.
Record PostOperation := { Post_Postings : list Posting }.
Record AuthorizeOperation := {
  Authorize_Source : string;
  Authorize_DestinationHint : string;
  Authorize_Amount : string;
  Authorize_Asset : string;
  Authorize_ExpiresAt : option Z
}.
Record CaptureOperation := { CaptureOp_HoldId : string; CaptureOp_Amount : string; CaptureOp_Destination : string }.
Record VoidOperation := { Void_HoldId : string }.
Record ConvertOperation := {
  Convert_Source : string;
  Convert_Destination : string;
  Convert_SourceAmount : string;
  Convert_SourceAsset : string;
  Convert_DestinationAmount : string;
  Convert_DestinationAsset : string;
  Convert_Rate : string;
  Convert_RateSource : string;
  Convert_SlippageAccount : string;
  Convert_SlippageAmount : string
}.
Record RevertOperation := {
  RevertOp_OriginalTransactionId : string;
  RevertOp_Force : bool;
  RevertOp_AtEffectiveDate : bool;
  RevertOp_Reason : string
}.
Record AmendOperation := { AmendOp_OriginalTransactionId : string; AmendOp_MetadataChanges : metadata_map }.
Record SetMetadataOperation := { SetMetadata_TargetType : Z; SetMetadata_TargetId : string; SetMetadata_Metadata : metadata_map }.
Record DeleteMetadataOperation := { DeleteMetadata_TargetType : Z; DeleteMetadata_TargetId : string; DeleteMetadata_Key : string }.
Record InsertSchemaOperation := { InsertSchemaOp_SchemaBytes : option string; InsertSchemaOp_Version : string }.

Definition BatchOperation_ALL_OR_NOTHING : Z := 0.
Definition BatchOperation_BEST_EFFORT : Z := 1.
Definition BatchOperation_CHECKPOINTED : Z := 2.
Definition SetMetadataOperation_ACCOUNT : Z := 0.
Definition DeleteMetadataOperation_ACCOUNT : Z := 0.

(** An intent, over the type of its oneof (a batch nests intents). *)
Record Intent_ (Op : Type) := {
  Intent_LedgerId : string;
  Intent_ValidTime : option Z;
  Intent_IdempotencyKey : string;
  Intent_Reference : string;
  Intent_Metadata : metadata_map;
  Intent_Operation : option Op;
  Intent_DryRun : bool
}.
Arguments Intent_LedgerId {Op} i.
Arguments Intent_ValidTime {Op} i.
Arguments Intent_IdempotencyKey {Op} i.
Arguments Intent_Reference {Op} i.
Arguments Intent_Metadata {Op} i.
Arguments Intent_Operation {Op} i.
Arguments Intent_DryRun {Op} i.

#[local] Unset Elimination Schemes.
Inductive Operation :=
| Intent_Post (op : PostOperation)
| Intent_Authorize (op : AuthorizeOperation)
| Intent_Capture (op : CaptureOperation)
| Intent_Void (op : VoidOperation)
| Intent_Convert (op : ConvertOperation)
| Intent_Batch (mode : Z) (intents : list (Intent_ Operation))
| Intent_Revert (op : RevertOperation)
| Intent_Amend (op : AmendOperation)
| Intent_SetMetadata (op : SetMetadataOperation)
| Intent_DeleteMetadata (op : DeleteMetadataOperation)
| Intent_InsertSchema (op : InsertSchemaOperation).
#[local] Set Elimination Schemes.
Definition Intent : Type := Intent_ Operation.

(** ** api.proto: the domain messages *)

Record Ledger := {
  Ledger_Id : string;
  Ledger_BucketId : string;
  Ledger_State : string;
  Ledger_Features : gmap string string;
  Ledger_Metadata : option (gmap string string);
  Ledger_CreatedAt : option Z;
  Ledger_SealedAt : option Z;
  Ledger_IssuerAccounts : list string
}.
Record Transaction := {
  Transaction_LedgerId : string;
  Transaction_TransactionId : string;
  Transaction_EventId : string;
  Transaction_ValidTime : option Z;
  Transaction_SystemTime : option Z;
  Transaction_Reference : string;
  Transaction_Postings : list Posting;
  Transaction_Metadata : metadata_map
}.
Record Account := {
  Account_LedgerId : string;
  Account_Address : string;
  Account_FirstUsage : option Z;
  Account_UpdatedAt : option Z;
  Account_Metadata : metadata_map
}.
Record Hold := {
  Hold_LedgerId : string;
  Hold_HoldId : string;
  Hold_Source : string;
  Hold_DestinationHint : string;
  Hold_Asset : string;
  Hold_AuthorizedAmount : string;
  Hold_CapturedAmount : string;
  Hold_Voided : bool;
  Hold_Expired : bool;
  Hold_ExpiresAt : option Z;
  Hold_ValidTime : option Z;
  Hold_SystemTime : option Z
}.
Record Capture := { Capture_CaptureId : string; Capture_HoldId : string; Capture_Amount : string; Capture_Destination : string }.
Record Conversion := {
  Conversion_ConversionId : string;
  Conversion_Source : string;
  Conversion_Destination : string;
  Conversion_SourceAmount : string;
  Conversion_SourceAsset : string;
  Conversion_DestinationAmount : string;
  Conversion_DestinationAsset : string;
  Conversion_Rate : string;
  Conversion_RateSource : string
}.
Record Revert := { Revert_OriginalTransactionId : string; Revert_RevertingTransactionId : string }.
Record Amend := { Amend_OriginalTransactionId : string; Amend_MetadataChanges : metadata_map }.
Record Schema := {
  Schema_LedgerId : string;
  Schema_Version : string;
  Schema_Document : option string;
  Schema_InsertedAt : option Z;
  Schema_EventId : string
}.
Record Relationship := {
  Relationship_ParentTxId : string;
  Relationship_ChildTxId : string;
  Relationship_Type : Z;
  Relationship_EventId : string;
  Relationship_SystemTime : option Z
}.
Record ApprovalEntry := { ApprovalEntry_Principal : string; ApprovalEntry_Signature : string; ApprovalEntry_SignedAt : option Z }.
Record PendingApproval := {
  PendingApproval_LedgerId : string;
  PendingApproval_IntentId : string;
  PendingApproval_IntentHash : option string;
  PendingApproval_RequiredApprovers : list string;
  PendingApproval_ReceivedApprovals : list ApprovalEntry;
  PendingApproval_ExpiresAt : option Z;
  PendingApproval_State : string;
  PendingApproval_SubmittedAt : option Z;
  PendingApproval_SubmittedBy : string
}.

(** ** events.proto *)

Record LogEvent := {
  LogEvent_EventId : string;
  LogEvent_LedgerId : string;
  LogEvent_LedgerSeq : Z;         (* uint64 *)
  LogEvent_SystemTime : option Z;
  LogEvent_ValidTime : option Z;
  LogEvent_IdempotencyKey : string;
  LogEvent_IdempotencyHash : string;
  LogEvent_BatchId : string;
  LogEvent_Payload : option string;
  LogEvent_Type : Z;              (* int32 *)
  LogEvent_SchemaVersion : Z      (* uint64 *)
}.

(** ** api.proto: requests and responses *)

Record CreateLedgerRequest := { CreateLedger_Id : string; CreateLedger_BucketId : string; CreateLedger_Metadata : option (gmap string string) }.
Record PageRequest := { Page_LedgerId : string; Page_PageSize : Z; Page_PageToken : string }.
Record GetBalanceRequest := {
  GetBalance_LedgerId : string;
  GetBalance_Account : string;
  GetBalance_Asset : string;
  GetBalance_AsOfValid : option Z;
  GetBalance_AsOfSystem : option Z;
  GetBalance_IncludeHolds : bool
}.
Record GetBalanceResponse := {
  Balance_PostedBalance : string;
  Balance_AvailableBalance : string;
  Balance_Asset : string;
  Balance_AsOfValid : option Z;
  Balance_AsOfSystem : option Z
}.
Record GetAggregatedBalancesRequest := {
  Aggregated_LedgerId : string;
  Aggregated_AddressPattern : string;
  Aggregated_AsOfValid : option Z;
  Aggregated_AsOfSystem : option Z
}.
Record VerifyBatchResponse := { VerifyBatch_Valid : bool; VerifyBatch_MerkleRoot : string; VerifyBatch_EventCount : Z }.
Record SubmitForApprovalRequest := {
  ForApproval_LedgerId : string;
  ForApproval_IntentPayload : option string;
  ForApproval_RequiredApprovers : list string;
  ForApproval_SubmittedBy : string;
  ForApproval_ExpiresInSeconds : Z   (* int64 *)
}.
Record ApproveIntentRequest := {
  ApproveIntent_LedgerId : string;
  ApproveIntent_IntentId : string;
  ApproveIntent_Principal : string;
  ApproveIntent_Signature : string
}.
Record ApproveIntentResponse := { Approved_FullyApproved : bool; Approved_EventId : string; Approved_Transaction : option Transaction }.

Record SubmitResponse_ (Out : Type) := {
  SubmitResponse_EventId : string;
  SubmitResponse_IdempotentHit : bool;
  SubmitResponse_Error : option error;    (* the text of an error *)
  SubmitResponse_Output : option Out
}.
Arguments SubmitResponse_EventId {Out} s.
Arguments SubmitResponse_IdempotentHit {Out} s.
Arguments SubmitResponse_Error {Out} s.
Arguments SubmitResponse_Output {Out} s.

#[local] Unset Elimination Schemes.
Inductive Output :=
| SubmitResponse_Transaction (t : Transaction)
| SubmitResponse_Hold (h : Hold)
| SubmitResponse_Capture (c : Capture)
| SubmitResponse_Conversion (c : Conversion)
| SubmitResponse_BatchResult (results : list (SubmitResponse_ Output)) (successes failures : Z)
| SubmitResponse_Revert (r : Revert)
| SubmitResponse_Amend (a : Amend).
#[local] Set Elimination Schemes.
Definition SubmitResponse : Type := SubmitResponse_ Output.
End pb.

(** ** converters.go *)

Definition ledgerRecordToProto (rec : LedgerRecord) : pb.Ledger :=
  {| pb.Ledger_Id := lr_ID rec; pb.Ledger_BucketId := lr_BucketID rec; pb.Ledger_State := lr_State rec;
     pb.Ledger_Features := lr_Features rec; pb.Ledger_Metadata := lr_Metadata rec;
     pb.Ledger_CreatedAt := Some (lr_CreatedAt rec); pb.Ledger_SealedAt := lr_SealedAt rec;
     pb.Ledger_IssuerAccounts := lr_IssuerAccounts rec |}.

Definition postingRecordToProto (p : PostingRecord) : pb.Posting :=
  {| pb.Posting_Source := po_Source p; pb.Posting_Destination := po_Destination p;
     pb.Posting_Amount := po_Amount p; pb.Posting_Asset := po_Asset p |}.

Definition txRecordToProto (rec : TransactionRecord) : pb.Transaction :=
  {| pb.Transaction_LedgerId := tx_LedgerID rec; pb.Transaction_TransactionId := tx_TransactionID rec;
     pb.Transaction_EventId := tx_EventID rec; pb.Transaction_ValidTime := Some (tx_ValidTime rec);
     pb.Transaction_SystemTime := Some (tx_SystemTime rec); pb.Transaction_Reference := tx_Reference rec;
     pb.Transaction_Postings := map postingRecordToProto (tx_Postings rec); pb.Transaction_Metadata := None |}.

Definition accountRecordToProto (rec : AccountRecord) : pb.Account :=
  {| pb.Account_LedgerId := ac_LedgerID rec; pb.Account_Address := ac_Address rec;
     pb.Account_FirstUsage := Some (ac_FirstUsage rec); pb.Account_UpdatedAt := Some (ac_UpdatedAt rec);
     pb.Account_Metadata := None |}.

Definition logEventRecordToProto (rec : LogEventRecord) : pb.LogEvent :=
  {| pb.LogEvent_EventId := ev_EventID rec; pb.LogEvent_LedgerId := ev_LedgerID rec;
     pb.LogEvent_LedgerSeq := uint64_of (ev_LedgerSeq rec); pb.LogEvent_SystemTime := Some (ev_SystemTime rec);
     pb.LogEvent_ValidTime := Some (ev_ValidTime rec); pb.LogEvent_IdempotencyKey := ev_IdempotencyKey rec;
     pb.LogEvent_IdempotencyHash := ""; pb.LogEvent_BatchId := ev_BatchID rec; pb.LogEvent_Payload := ev_Payload rec;
     pb.LogEvent_Type := ev_Type rec; pb.LogEvent_SchemaVersion := uint64_of (ev_SchemaVersion rec) |}.

Definition holdRecordToProto (rec : HoldRecord) : pb.Hold :=
  {| pb.Hold_LedgerId := ho_LedgerID rec; pb.Hold_HoldId := ho_HoldID rec; pb.Hold_Source := ho_Source rec;
     pb.Hold_DestinationHint := ho_DestinationHint rec; pb.Hold_Asset := ho_Asset rec;
     pb.Hold_AuthorizedAmount := dec_of_Z (ho_AuthorizedAmount rec); pb.Hold_CapturedAmount := dec_of_Z (ho_CapturedAmount rec);
     pb.Hold_Voided := ho_Voided rec; pb.Hold_Expired := ho_Expired rec; pb.Hold_ExpiresAt := Some (ho_ExpiresAt rec);
     pb.Hold_ValidTime := Some (ho_ValidTime rec); pb.Hold_SystemTime := Some (ho_SystemTime rec) |}.

Definition pendingApprovalRecordToProto (rec : PendingApprovalRecord) : pb.PendingApproval :=
  {| pb.PendingApproval_LedgerId := pa_LedgerID rec; pb.PendingApproval_IntentId := pa_IntentID rec;
     pb.PendingApproval_IntentHash := pa_IntentHash rec;
     pb.PendingApproval_RequiredApprovers := default [] (pa_RequiredApprovers rec);
     pb.PendingApproval_ReceivedApprovals :=
       map (fun a => {| pb.ApprovalEntry_Principal := ae_Principal a; pb.ApprovalEntry_Signature := ae_Signature a;
                        pb.ApprovalEntry_SignedAt := Some (ae_SignedAt a) |}) (default [] (pa_ReceivedApprovals rec));
     pb.PendingApproval_ExpiresAt := Some (pa_ExpiresAt rec); pb.PendingApproval_State := pa_State rec;
     pb.PendingApproval_SubmittedAt := Some (pa_SubmittedAt rec); pb.PendingApproval_SubmittedBy := pa_SubmittedBy rec |}.

Definition relationshipToProto (r : RelationshipRecord) : pb.Relationship :=
  {| pb.Relationship_ParentTxId := rel_ParentTxID r; pb.Relationship_ChildTxId := rel_ChildTxID r;
     pb.Relationship_Type := rel_RelationshipType r + 1; pb.Relationship_EventId := rel_EventID r;
     pb.Relationship_SystemTime := Some (rel_SystemTime r) |}.

(** [AsTime] of a nil timestamp is the epoch. *)
Definition metadataValueToAny (v : option pb.MetadataValue) : json :=
  match v with
  | None => JNull
  | Some v =>
      match v with
      | pb.StringValue s => JStr s
      | pb.IntValue z => JInt z
      | pb.BoolValue b => JBool b
      | pb.DecimalValue s => JStr s
      | pb.TimestampValue t => JTime (default 0 t)
      | pb.NoValue => JNull
      end
  end.

(** [make(map[string]any)] filled from the message's map; [if_present] leaves nil as nil. *)
Definition metadata_of (m : pb.metadata_map) : gomap := Some (metadataValueToAny <$> default ∅ m).
Definition metadata_if_present (m : pb.metadata_map) : gomap := option_map (fmap metadataValueToAny) m.

(** ** Status errors *)

Inductive code :=
| InvalidArgument
| NotFound
| AlreadyExists
| PermissionDenied
| ResourceExhausted
| FailedPrecondition
| Aborted
| Unimplemented
| Internal
| Unauthenticated.

(** What an RPC answers: a message, or a status with the text of an error. *)
Inductive reply (A : Type) :=
| Reply (a : A)
| Status (c : code) (e : error).
Arguments Reply {A} a.
Arguments Status {A} c e.

Definition isNotFound (e : error) : bool := errors_is e ErrNotFound.
Definition isAlreadyExists (e : error) : bool := errors_is e ErrAlreadyExists.

Definition mapPlannerError {A} (e : error) : reply A :=
  if errors_is e ErrInsufficientFunds then Status FailedPrecondition e
  else if errors_is e ErrInvalidIdempotencyInput then Status FailedPrecondition (EMsg "idempotency key exists with different input")
  else if errors_is e ErrIdempotencyKeyConflict then
    Status Aborted (EMsg "concurrent idempotency-key conflict; retry to observe the committed result")
  else if errors_is e ErrLedgerSealed then Status FailedPrecondition (EMsg "ledger is sealed")
  else if errors_is e ErrTransactionReferenceConflict then Status AlreadyExists (EMsg "transaction reference already exists")
  else if errors_is e ErrAlreadyReverted then Status FailedPrecondition e
  else if errors_is e ErrHoldExpired then Status FailedPrecondition e
  else if errors_is e ErrHoldVoided then Status FailedPrecondition e
  else if errors_is e ErrPolicyDenied then Status PermissionDenied e
  else if errors_is e ErrApprovalExpired then Status FailedPrecondition e
  else if errors_is e ErrNotFound then Status NotFound e
  else Status Internal (EMsg "internal error").
