(* ===== verification/Auth.v ===== *)
(** * internal/api/grpc/auth/auth.go: who is calling, and which ledgers they may touch

    The interceptors verify the bearer token of a request and hand the handler a context
    with the caller's identity: the subject of the token and the ledgers its claim names.
    The verification of a JSON web token against the issuer's keys (its signature, expiry,
    audience and issuer) is [jwt_Parse], of the jwx library. *)
From S2P Require Import Prelude GoStd Json Storage Db Prog Logic Postgres Chart Planner Proto.

Record Token := { tok_Subject : string; tok_Ledgers : option json }.

Class Jwt := {
  (** [jwt.Parse] at an instant, for an audience and an issuer that may be empty. *)
  jwt_Parse : Z -> string -> string -> string -> option Token
}.

(** ** Identities *)

Record Identity := { id_Principal : string; id_ledgers : gset string; id_allLedgers : bool }.

Definition CanAccessLedger (i : Identity) (ledgerID : string) : bool :=
  id_allLedgers i || bool_decide (ledgerID ∈ id_ledgers i).
Definition AllLedgers (i : Identity) : bool := id_allLedgers i.
Definition NewIdentity (principal : string) (ledgers : list string) (allLedgers : bool) : Identity :=
  {| id_Principal := principal; id_ledgers := list_to_set ledgers; id_allLedgers := allLedgers |}.

(** What a request's context carries: the incoming metadata, the peer's address, and the
    values of the two context keys. *)
Record Context := {
  ctx_metadata : option (gmap string (list string));
  ctx_peer : option string;
  ctx_principal : option string;
  ctx_identity : option Identity
}.
(** The metadata of a call, and the context in which it arrives at the server. *)
Abbreviation outgoing := (gmap string (list string)).
Definition arriving (md : outgoing) : Context :=
  {| ctx_metadata := Some md; ctx_peer := None; ctx_principal := None; ctx_identity := None |}.
Definition PrincipalFromContext (ctx : Context) : option string := ctx_principal ctx.
Definition IdentityFromContext (ctx : Context) : option Identity := ctx_identity ctx.
Definition contextWithPrincipal (principal : string) (ctx : Context) : Context :=
  {| ctx_metadata := ctx_metadata ctx; ctx_peer := ctx_peer ctx; ctx_principal := Some principal;
     ctx_identity := ctx_identity ctx |}.
Definition contextWithIdentity (id : Identity) (ctx : Context) : Context :=
  {| ctx_metadata := ctx_metadata ctx; ctx_peer := ctx_peer ctx; ctx_principal := ctx_principal ctx;
     ctx_identity := Some id |}.
Definition ContextWithIdentity : Identity -> Context -> Context := contextWithIdentity.

(** ** The bearer token *)

Definition ErrUnauthenticated : error := EMsg "unauthenticated".
Definition authorizationMetadataKey : string := "authorization".
Definition bearerPrefix : string := "Bearer ".
Definition allLedgersWildcard : string := "*".

Definition lower (a : ascii) : ascii := if is_upper a then ascii_of_N (N_of_ascii a + 32) else a.
Fixpoint to_lower (s : string) : string :=
  match s with EmptyString => EmptyString | String a s' => String (lower a) (to_lower s') end.
(** [strings.EqualFold] with a text that has neither k nor s, whose only foldings are
    those of ASCII. *)
Definition equal_fold (s t : string) : bool := String.eqb (to_lower s) (to_lower t).

Definition bearerToken (ctx : Context) : result string :=
  match ctx_metadata ctx with
  | None => Err (EWrap "missing request metadata" ErrUnauthenticated)
  | Some md =>
      match default [] (md !! authorizationMetadataKey) with
      | [] => Err (EWrap "missing authorization metadata" ErrUnauthenticated)
      | header :: _ =>
          let n := String.length bearerPrefix in
          if (String.length header <=? n)%nat || negb (equal_fold (String.substring 0 n header) bearerPrefix)
          then Err (EWrap "authorization metadata must be a Bearer token" ErrUnauthenticated)
          else
            let token := trim_space (String.substring n (String.length header - n) header) in
            if String.eqb token EmptyString then Err (EWrap "empty bearer token" ErrUnauthenticated) else Ok token
      end
  end.

(** The set of ledgers, or [None] when the wildcard is among them. *)
Fixpoint claimed (raw : list json) (ledgers : gset string) : option (gset string) :=
  match raw with
  | [] => Some ledgers
  | JStr s :: rest => if String.eqb s allLedgersWildcard then None else claimed rest ({[s]} ∪ ledgers)
  | _ :: rest => claimed rest ledgers
  end.
Definition parseLedgersClaim (token : Token) : gset string * bool :=
  match tok_Ledgers token with
  | Some (JArr raw) => match claimed raw ∅ with Some ledgers => (ledgers, false) | None => (∅, true) end
  | _ => (∅, false)
  end.

Section Auth.
Context `{Jwt}.

Record jwtAuthenticator := { ja_audience : string; ja_issuer : string }.

Definition AuthenticateIdentity (a : jwtAuthenticator) (ctx : Context) : M Identity :=
  let* raw := lift (bearerToken ctx) in
  let+ now := time_Now in
  match jwt_Parse now (ja_audience a) (ja_issuer a) raw with
  | None => fail (EWrap "parsing token" ErrUnauthenticated)
  | Some token =>
      if String.eqb (tok_Subject token) EmptyString
      then fail (EWrap "token has empty subject claim" ErrUnauthenticated)
      else
        let '(ledgers, all) := parseLedgersClaim token in
        ok {| id_Principal := tok_Subject token; id_ledgers := ledgers; id_allLedgers := all |}
  end.

Definition Authenticate (a : jwtAuthenticator) (ctx : Context) : M string :=
  let* id := AuthenticateIdentity a ctx in
  ok (id_Principal id).
End Auth.

(** An Authenticator, by the interface it implements besides. *)
Inductive Authenticator :=
| WithIdentity (authenticate : Context -> M Identity)
| PrincipalOnly (authenticate : Context -> M string).

(** ** The interceptors *)

Definition methodIsExempt (fullMethod : string) : bool :=
  has_prefix fullMethod "/grpc.health.v1.Health/" || has_prefix fullMethod "/grpc.reflection.".

Definition authenticateAndInject (ctx : Context) (authn : Authenticator) : M Context :=
  match authn with
  | WithIdentity authenticate =>
      let* id := authenticate ctx in
      ok (contextWithIdentity id (contextWithPrincipal (id_Principal id) ctx))
  | PrincipalOnly authenticate =>
      let* principal := authenticate ctx in
      ok (contextWithPrincipal principal ctx)
  end.

(** The unary and the stream interceptor: [handler] is what comes after. *)
Definition authenticated {A} (authn : option Authenticator) (fullMethod : string) (ctx : Context)
    (handler : Context -> prog (reply A)) : prog (reply A) :=
  if methodIsExempt fullMethod then handler ctx
  else
    match authn with
    | None => Ret (Status Unauthenticated (EMsg "authentication required"))
    | Some authn =>
        let+ r := authenticateAndInject ctx authn in
        match r with
        | Err _ => Ret (Status Unauthenticated (EMsg "authentication required"))
        | Ok authCtx => handler authCtx
        end
    end.

(** ** The scope of a token *)

Lemma claimed_spec raw ledgers :
  match claimed raw ledgers with
  | Some s => (JStr "*" ∉ raw) /\ forall l, l ∈ s <-> l ∈ ledgers \/ JStr l ∈ raw
  | None => JStr "*" ∈ raw
  end.
Proof.
  revert ledgers. induction raw as [|j raw IH]; intros ledgers; simpl.
  - split; [apply not_elem_of_nil|]. intros l. rewrite elem_of_nil. naive_solver.
  - assert (Hskip : (forall s, j <> JStr s) -> match claimed raw ledgers with
      | Some s => (JStr "*" ∉ j :: raw) /\ (forall l, l ∈ s <-> l ∈ ledgers \/ JStr l ∈ j :: raw)
      | None => JStr "*" ∈ j :: raw end).
    { intros Hj. specialize (IH ledgers). destruct (claimed raw ledgers) as [s|].
      - destruct IH as [H1 H2]. split; [rewrite elem_of_cons; naive_solver|].
        intros l. rewrite H2, elem_of_cons. naive_solver.
      - apply elem_of_cons. by right. }
    destruct j; try (by apply Hskip). destruct (String.eqb_spec s allLedgersWildcard) as [->|Hne].
    + apply elem_of_cons. by left.
    + specialize (IH ({[s]} ∪ ledgers)). destruct (claimed raw _) as [t|].
      * destruct IH as [H1 H2]. split; [rewrite elem_of_cons; naive_solver|].
        intros l. rewrite H2, elem_of_cons, elem_of_union, elem_of_singleton. naive_solver.
      * apply elem_of_cons. by right.
Qed.

(** The ledgers a claim names; no claim, or one that is not a list, names none. *)
Definition names_ledger (token : Token) (l : string) : Prop :=
  match tok_Ledgers token with Some (JArr raw) => JStr "*" ∈ raw \/ JStr l ∈ raw | _ => False end.

Lemma parseLedgersClaim_spec token principal l :
  let '(ledgers, all) := parseLedgersClaim token in
  CanAccessLedger {| id_Principal := principal; id_ledgers := ledgers; id_allLedgers := all |} l = true <->
  names_ledger token l.
Proof.
  unfold parseLedgersClaim, names_ledger, CanAccessLedger. destruct (tok_Ledgers token) as [[]|]; simpl.
  7: { pose proof (claimed_spec l0 ∅) as Hc. destruct (claimed l0 ∅) as [s|]; simpl; [|naive_solver].
       destruct Hc as [H1 H2]. rewrite bool_decide_eq_true, H2. set_solver. }
  all: rewrite bool_decide_eq_true; set_solver.
Qed.

(** Who an authenticated request runs as: the subject of a token that verifies, with the
    ledgers of its claim. *)
Lemma AuthenticateIdentity_spec `{Jwt} E a ctx w :
  wp E (AuthenticateIdentity a ctx) w (fun r w' => w_db w' = w_db w /\ w_tx w' = w_tx w /\
    forall id, r = Ok id -> exists raw now token, bearerToken ctx = Ok raw /\
      jwt_Parse now (ja_audience a) (ja_issuer a) raw = Some token /\
      id_Principal id = tok_Subject token /\ id_Principal id <> "" /\
      forall l, CanAccessLedger id l = true <-> names_ledger token l).
Proof.
  unfold AuthenticateIdentity. apply wp_mbind, wp_ret. destruct (bearerToken ctx) as [raw|e]; [|done].
  apply wp_bind, wp_trigger. simpl. set (now := e_now E _).
  destruct (jwt_Parse now (ja_audience a) (ja_issuer a) raw) as [token|] eqn:Et; [|done].
  destruct (String.eqb_spec (tok_Subject token) EmptyString) as [|Hne]; [done|].
  destruct (parseLedgersClaim token) as [ledgers all] eqn:Ep. apply wp_ret. split; [done|]. split; [done|]. intros id [= <-].
  exists raw, now, token. split_and!; try done. intros l. pose proof (parseLedgersClaim_spec token (tok_Subject token) l) as Hs.
  by rewrite Ep in Hs.
Qed.
