(* ===== verification/RateLimit.v ===== *)
(** * internal/api/grpc/ratelimit/ratelimit.go: requests per second and principal

    A fixed window of one second per class (reads, writes) and principal, counted in
    Redis. [Counter] is the interface the limiter needs; [RedisCounter] implements it by
    the events of the interpreter. The limiter fails open; its count of failures, which
    only thins out a log message, is left out. *)
From S2P Require Import Prelude GoStd Json Storage Db Prog Logic Proto Auth.

Class Counter := {
  counter_Incr : string -> M Z;
  counter_Expire : string -> Z -> M unit
}.

#[export] Instance RedisCounter : Counter := {|
  counter_Incr := fun key => trigger (Incr key);
  counter_Expire := fun key ttl => trigger (ExpireKey key ttl)
|}.

Definition windowTTL : Z := 2 * Second.
Definition writeMethods : list string :=
  ["Submit"; "SubmitForApproval"; "ApproveIntent"; "Import"; "CreateLedger"; "SealLedger"].

Record Limiter := { lim_readRPS : Z; lim_writeRPS : Z }.

Definition limitFor (l : Limiter) (fullMethod : string) : Z * string :=
  let name := match cut_last "/" fullMethod with Some (_, n) => n | None => fullMethod end in
  if existsb (String.eqb name) writeMethods then (lim_writeRPS l, "w") else (lim_readRPS l, "r").

Definition contains (c : ascii) (s : string) : bool := match cut_first c s with Some _ => true | None => false end.

(** The host of [net.SplitHostPort], when it succeeds. *)
Definition SplitHost (hostport : string) : option string :=
  match cut_last ":" hostport with
  | None => None
  | Some (before, port) =>
      match hostport with
      | String c rest =>
          if Ascii.eqb c "[" then
            match cut_first "]" rest with
            | None => None
            | Some (host, tail) =>
                if String.eqb tail (String ":" port) && negb (contains "[" rest) && negb (contains "]" tail) then Some host else None
            end
          else if contains ":" before || contains "[" hostport || contains "]" hostport then None
          else Some before
      | EmptyString => None
      end
  end.

Definition principalKey (ctx : Context) : string :=
  match PrincipalFromContext ctx with
  | Some (String _ _ as p) => "p:" +:+ p
  | _ =>
      match ctx_peer ctx with
      | Some addr => "ip:" +:+ default addr (SplitHost addr)
      | None => "anon"
      end
  end.

Definition window_key (class who : string) (window : Z) : string :=
  "rl:" +:+ class +:+ ":" +:+ who +:+ ":" +:+ dec_of_Z window.

Section Limiter.
Context `{Counter}.

(** [(bool, error)]. *)
Definition allow (l : Limiter) (ctx : Context) (fullMethod : string) : prog (bool * option error) :=
  let '(limit, class) := limitFor l fullMethod in
  if limit <=? 0 then Ret (true, None)
  else
    let+ now := time_Now in
    let window := now / Second in
    let key := window_key class (principalKey ctx) window in
    let+ r := counter_Incr key in
    match r with
    | Err e => Ret (true, Some e)
    | Ok n =>
        let+ _ := (if n =? 1 then counter_Expire key windowTTL else ok tt) in
        Ret (n <=? limit, None)
    end.

Definition check_rate (l : Limiter) (ctx : Context) (fullMethod : string) : prog (option (code * error)) :=
  let+ r := allow l ctx fullMethod in
  match r with
  | (_, Some _) => Ret None
  | (allowed, None) =>
      Ret (if allowed then None else Some (ResourceExhausted, EMsg "rate limit exceeded; retry later"))
  end.

(** The unary and the stream interceptor. *)
Definition rate_limited {A} (l : option Limiter) (fullMethod : string) (ctx : Context)
    (handler : Context -> prog (reply A)) : prog (reply A) :=
  match l with
  | None => handler ctx
  | Some l =>
      let+ r := check_rate l ctx fullMethod in
      match r with
      | Some (c, e) => Ret (Status c e)
      | None => handler ctx
      end
  end.
End Limiter.

(** ** What a window admits *)

Definition call : Type := string * Context.

Fixpoint admit_calls (l : Limiter) (calls : list call) : prog (list (bool * option error)) :=
  match calls with
  | [] => Ret []
  | (fullMethod, ctx) :: rest =>
      let+ r := allow l ctx fullMethod in
      let+ rs := admit_calls l rest in
      Ret (r :: rs)
  end.

(** The calls of a class and principal that were counted and let through. *)
Definition counted_in (l : Limiter) (class who : string) (x : call * (bool * option error)) : bool :=
  let '((fullMethod, ctx), (allowed, err)) := x in
  String.eqb (snd (limitFor l fullMethod)) class && String.eqb (principalKey ctx) who &&
  allowed && match err with None => true | Some _ => false end.
Definition admitted (l : Limiter) (class who : string) (calls : list call) (rs : list (bool * option error)) : Z :=
  Z.of_nat (length (List.filter (counted_in l class who) (combine calls rs))).

Definition class_limit (l : Limiter) (class : string) : Z := if String.eqb class "w" then lim_writeRPS l else lim_readRPS l.

Lemma limitFor_class l m : limitFor l m = (class_limit l (snd (limitFor l m)), snd (limitFor l m)).
Proof. unfold limitFor, class_limit. by destruct (existsb _ _). Qed.

Definition counter_of (key : string) (w : World) : Z := default 0 (w_counters w !! key).

(** One call within the window [W]: its counter goes up, by one if it was counted, and no
    other counter moves. *)
Lemma allow_spec E l W ctx m (w : World) :
  (forall n, e_now E n / Second = W) -> (forall n, e_evicted E n = false) ->
  wp E (allow l ctx m) w (fun r w' =>
    let class := snd (limitFor l m) in let key := window_key class (principalKey ctx) W in
    (forall k, counter_of k w <= counter_of k w') /\
    (class_limit l class <= 0 /\ r = (true, None) \/
     0 < class_limit l class /\ match r with
       | (b, None) => counter_of key w' = counter_of key w + 1 /\ b = (counter_of key w + 1 <=? class_limit l class)
       | (b, Some _) => b = true
       end)).
Proof.
  intros Hnow Hev. unfold allow. rewrite (limitFor_class l m). set (class := snd (limitFor l m)).
  destruct (Z.leb_spec (class_limit l class) 0) as [Hle|Hgt]; [apply wp_ret; split; [done|by left]|].
  apply wp_bind, wp_trigger. cbn [Prog.step]. rewrite Hnow. set (key := window_key class (principalKey ctx) W).
  apply wp_bind, wp_trigger. cbn [Prog.step w_tick tick]. rewrite Hev.
  assert (Hup : forall k, counter_of k w <= default 0 (<[key := counter_of key w + 1]> (w_counters w) !! k)).
  { intros k. destruct (decide (k = key)) as [->|Hne].
    - rewrite lookup_insert_eq. simpl. lia.
    - rewrite lookup_insert_ne by done. unfold counter_of. lia. }
  assert (Hmono : forall k, counter_of k w <= counter_of k w) by (intros; lia).
  unfold redis_reply. destruct (e_fault E _) as [[]|]; cbn [pbind]; try (apply wp_ret; split; [done|by right]).
  apply wp_bind. eapply (wp_mono _ _ _ (fun _ w' => w_counters w' = <[key := counter_of key w + 1]> (w_counters w))).
  { destruct (_ =? 1); [|by apply wp_ret]. by apply wp_trigger. }
  intros _ w' Hw'. apply wp_ret. split; [intros k; unfold counter_of at 2; by rewrite Hw'|]. right. split; [done|].
  unfold counter_of at 1. rewrite Hw', lookup_insert_eq. done.
Qed.

Lemma admit_counted E l W class who calls (w : World) :
  (forall n, e_now E n / Second = W) -> (forall n, e_evicted E n = false) -> 0 < class_limit l class ->
  wp E (admit_calls l calls) w (fun rs _ =>
    admitted l class who calls rs <= Z.max 0 (class_limit l class - counter_of (window_key class who W) w)).
Proof.
  intros Hnow Hev Hl. revert w. induction calls as [|[m ctx] calls IH]; intros w; cbn [admit_calls].
  { apply wp_ret. unfold admitted. simpl. lia. }
  apply wp_bind. eapply wp_mono; [by apply allow_spec|]. intros r w1 [Hup Hr].
  apply wp_bind. eapply wp_mono; [apply IH|]. intros rs w2 Hrs. apply wp_ret.
  specialize (Hup (window_key class who W)). unfold admitted in *. cbn [combine List.filter].
  destruct r as [b e]. change (string * Context)%type with call in *.
  match goal with |- context [counted_in l class who ?x] => destruct (counted_in l class who x) eqn:Ec end; [|lia].
  cbn [counted_in] in Ec. apply andb_prop in Ec as [Ec He]. apply andb_prop in Ec as [Ec ->].
  apply andb_prop in Ec as [<-%String.eqb_eq <-%String.eqb_eq]. destruct e; [done|].
  cbn [length]. destruct Hr as [[Hr _]|[_ [Hc Hb]]]; [lia|]. symmetry in Hb. apply Z.leb_le in Hb. lia.
Qed.
