(* ===== verification/Grpc.v ===== *)
(** * internal/api/grpc/service.go: the handlers of the LedgerService

    One definition per RPC, from the context the interceptors made and the request
    message to the reply: a message or a status. [admins] is the configured set of admin
    principals, [tz] the offset of the local time zone. The text of a status keeps the
    error it reports. The reading RPCs are in Queries.v, Export and Import in Transfer.v,
    Subscribe in Subscriptions.v. *)
From S2P Require Import Prelude GoStd Regex Accounts Assets Policy Sha256 Json Storage Db Prog.
From S2P Require Import Logic Postgres BatchManager Redis Chart Planner Cores Operations IntentJson Approval.
From S2P Require Import Proto Auth.

(** [let!] stops at a status. *)
Definition reply_bind {A B} (m : prog (reply A)) (f : A -> prog (reply B)) : prog (reply B) :=
  let+ r := m in
  match r with Reply a => f a | Status c e => Ret (Status c e) end.
Notation "'let!' x ':=' m 'in' k" := (reply_bind m (fun x => k))
  (at level 10, x pattern, m at level 200, k at level 200,
   format "'[v' 'let!'  x  ':='  m  'in' '/' k ']'") : go_scope.

Definition status {A} (c : code) (m : string) : prog (reply A) := Ret (Status c (EMsg m)).

(** [v, err := m; if err != nil { return nil, f(err) }]. *)
Definition call_or {A} (f : error -> reply A) (m : M A) : prog (reply A) :=
  let+ r := m in
  Ret match r with Ok a => Reply a | Err e => f e end.
Definition internal {A} (msg : string) (e : error) : reply A := Status Internal (EWrap msg e).
Definition or_not_found {A} (what msg : string) (e : error) : reply A :=
  if isNotFound e then Status NotFound (EMsg what) else internal msg e.
Definition planner_call {A} : M A -> prog (reply A) := call_or mapPlannerError.

(** [new(big.Int).SetString(s, 10)], or the status of a bad amount. *)
Definition parse_amount (what s : string) : reply Z :=
  match Z_of_dec s with Some z => Reply z | None => Status InvalidArgument (EMsg what) end.

Fixpoint parse_postings (what : string) (ps : list pb.Posting) : reply (list PostingInput) :=
  match ps with
  | [] => Reply []
  | p :: rest =>
      match parse_amount what (pb.Posting_Amount p) with
      | Status c e => Status c e
      | Reply amount =>
          match parse_postings what rest with
          | Status c e => Status c e
          | Reply l => Reply ({| pi_Source := pb.Posting_Source p; pi_Destination := pb.Posting_Destination p;
                                 pi_Amount := Some amount; pi_Asset := pb.Posting_Asset p |} :: l)
          end
      end
  end.

Definition submit_response (r : SubmitResult) (out : option pb.Output) : pb.SubmitResponse :=
  {| pb.SubmitResponse_EventId := sr_EventID r; pb.SubmitResponse_IdempotentHit := sr_IdempotentHit r;
     pb.SubmitResponse_Error := None; pb.SubmitResponse_Output := out |}.

Definition list_params (size : Z) (token : string) : ListParams := {| lp_PageSize := size; lp_PageToken := token |}.

(** [hex.EncodeToString]. *)
Fixpoint hex (s : string) : string :=
  match s with
  | EmptyString => EmptyString
  | String a s' => String (hex_digit (N_of_ascii a / 16)) (String (hex_digit (N_of_ascii a mod 16)) (hex s'))
  end.

Section Grpc.
Context `{Deps} (tz : Z -> Z) (admins : gset string).

(** ** Authorization *)

Definition authorizeLedger (ctx : Context) (ledgerID : string) : prog (reply unit) :=
  match IdentityFromContext ctx with
  | None => status Unauthenticated "authentication required"
  | Some id =>
      if CanAccessLedger id ledgerID then Ret (Reply tt)
      else status PermissionDenied "principal is not authorized for ledger"
  end.

Definition requireImportExportAuthz (principal : string) : prog (reply unit) :=
  if bool_decide (principal ∈ admins) then Ret (Reply tt)
  else status PermissionDenied "principal is not authorized for import/export".

Definition extractPrincipal (ctx : Context) : prog (reply string) :=
  match PrincipalFromContext ctx with
  | Some (String _ _ as principal) => Ret (Reply principal)
  | _ => status Unauthenticated "authentication required"
  end.

(** ** Ledgers *)

Definition rpc_CreateLedger (ctx : Context) (req : pb.CreateLedgerRequest) : prog (reply pb.Ledger) :=
  let! _ := authorizeLedger ctx (pb.CreateLedger_Id req) in
  let meta := default ∅ (pb.CreateLedger_Metadata req) in
  let! rec := call_or (fun e => if isAlreadyExists e then Status AlreadyExists (EMsg "ledger already exists")
                                else internal "creating ledger" e)
                (CreateLedger Pool {| cl_ID := pb.CreateLedger_Id req; cl_BucketID := pb.CreateLedger_BucketId req;
                                      cl_Metadata := Some meta |}) in
  Ret (Reply (ledgerRecordToProto rec)).

Definition rpc_GetLedger (ctx : Context) (id : string) : prog (reply pb.Ledger) :=
  let! _ := authorizeLedger ctx id in
  let! rec := call_or (or_not_found "ledger not found" "getting ledger") (GetLedger Pool id) in
  Ret (Reply (ledgerRecordToProto rec)).

Definition visible (ctx : Context) (rec : LedgerRecord) : bool :=
  match IdentityFromContext ctx with Some id => CanAccessLedger id (lr_ID rec) | None => true end.
Definition rpc_ListLedgers (ctx : Context) (size : Z) (token : string) : prog (reply (list pb.Ledger * string)) :=
  let! (recs, nextToken) := call_or (internal "listing ledgers") (ListLedgers Pool (list_params size token)) in
  Ret (Reply (map ledgerRecordToProto (List.filter (visible ctx) recs), nextToken)).

Definition rpc_SealLedger (ctx : Context) (id : string) : prog (reply pb.Ledger) :=
  let! _ := authorizeLedger ctx id in
  let! rec := call_or (or_not_found "ledger not found or already sealed" "sealing ledger") (SealLedger Pool id) in
  Ret (Reply (ledgerRecordToProto rec)).

(** ** Submit *)

Definition classifyIntent (intent : pb.Intent) : string * list string :=
  match pb.Intent_Operation intent with
  | Some (pb.Intent_Post op) =>
      ("post", flat_map (fun p => [pb.Posting_Source p; pb.Posting_Destination p]) (pb.Post_Postings op))
  | Some (pb.Intent_Authorize op) => ("authorize", [pb.Authorize_Source op])
  | Some (pb.Intent_Capture _) => ("capture", [])
  | Some (pb.Intent_Void _) => ("void", [])
  | Some (pb.Intent_Revert _) => ("revert", [])
  | Some (pb.Intent_Amend _) => ("amend", [])
  | Some (pb.Intent_Convert op) => ("convert", [pb.Convert_Source op; pb.Convert_Destination op])
  | Some (pb.Intent_Batch _ _) => ("batch", [])
  | Some (pb.Intent_SetMetadata op) =>
      ("set_metadata", if pb.SetMetadata_TargetType op =? pb.SetMetadataOperation_ACCOUNT then [pb.SetMetadata_TargetId op] else [])
  | Some (pb.Intent_DeleteMetadata op) =>
      ("delete_metadata", if pb.DeleteMetadata_TargetType op =? pb.DeleteMetadataOperation_ACCOUNT then [pb.DeleteMetadata_TargetId op] else [])
  | Some (pb.Intent_InsertSchema _) => ("insert_schema", [])
  | None => ("unknown", [])
  end.

Definition handlePost (intent : pb.Intent) (op : pb.PostOperation) : prog (reply pb.SubmitResponse) :=
  let! postings := Ret (parse_postings "posting: invalid amount" (pb.Post_Postings op)) in
  let metadata := metadata_if_present (pb.Intent_Metadata intent) in
  let! result := planner_call (SubmitPost (pb.Intent_LedgerId intent) postings (pb.Intent_Reference intent) metadata
                   (pb.Intent_IdempotencyKey intent) (pb.Intent_ValidTime intent) (pb.Intent_DryRun intent)) in
  Ret (Reply (submit_response result
    (option_map (fun tx => pb.SubmitResponse_Transaction (txRecordToProto tx)) (sr_Transaction result)))).

Definition handleSetMetadata (intent : pb.Intent) (op : pb.SetMetadataOperation) : prog (reply pb.SubmitResponse) :=
  let! result := planner_call (SubmitSetMetadata (pb.Intent_LedgerId intent) (int16_of (pb.SetMetadata_TargetType op))
                   (pb.SetMetadata_TargetId op) (metadata_of (pb.SetMetadata_Metadata op)) (pb.Intent_IdempotencyKey intent)) in
  Ret (Reply (submit_response result None)).

Definition handleDeleteMetadata (intent : pb.Intent) (op : pb.DeleteMetadataOperation) : prog (reply pb.SubmitResponse) :=
  let! result := planner_call (SubmitDeleteMetadata (pb.Intent_LedgerId intent) (int16_of (pb.DeleteMetadata_TargetType op))
                   (pb.DeleteMetadata_TargetId op) (pb.DeleteMetadata_Key op) (pb.Intent_IdempotencyKey intent)) in
  Ret (Reply (submit_response result None)).

Definition handleInsertSchema (intent : pb.Intent) (op : pb.InsertSchemaOperation) : prog (reply pb.SubmitResponse) :=
  let! result := planner_call (SubmitInsertSchema (pb.Intent_LedgerId intent) (pb.InsertSchemaOp_SchemaBytes op)
                   (pb.InsertSchemaOp_Version op) (pb.Intent_IdempotencyKey intent)) in
  Ret (Reply (submit_response result None)).

Definition handleAuthorize (intent : pb.Intent) (op : pb.AuthorizeOperation) : prog (reply pb.SubmitResponse) :=
  let! amount := Ret (parse_amount "invalid amount" (pb.Authorize_Amount op)) in
  match pb.Authorize_ExpiresAt op with
  | None => status InvalidArgument "expires_at is required for authorize"
  | Some expiresAt =>
      let! result := planner_call (SubmitAuthorize (pb.Intent_LedgerId intent) (pb.Authorize_Source op)
                       (pb.Authorize_DestinationHint op) (pb.Authorize_Asset op) (Some amount) expiresAt
                       (pb.Intent_IdempotencyKey intent)) in
      Ret (Reply (submit_response result (Some (pb.SubmitResponse_Hold
        {| pb.Hold_LedgerId := ""; pb.Hold_HoldId := sr_HoldID result; pb.Hold_Source := pb.Authorize_Source op;
           pb.Hold_DestinationHint := pb.Authorize_DestinationHint op; pb.Hold_Asset := pb.Authorize_Asset op;
           pb.Hold_AuthorizedAmount := pb.Authorize_Amount op; pb.Hold_CapturedAmount := "0";
           pb.Hold_Voided := false; pb.Hold_Expired := false; pb.Hold_ExpiresAt := pb.Authorize_ExpiresAt op;
           pb.Hold_ValidTime := None; pb.Hold_SystemTime := None |}))))
  end.

Definition handleCapture (intent : pb.Intent) (op : pb.CaptureOperation) : prog (reply pb.SubmitResponse) :=
  let! amount := Ret (parse_amount "invalid amount" (pb.CaptureOp_Amount op)) in
  let! result := planner_call (SubmitCapture (pb.Intent_LedgerId intent) (pb.CaptureOp_HoldId op) (Some amount)
                   (pb.CaptureOp_Destination op) (pb.Intent_IdempotencyKey intent)) in
  Ret (Reply (submit_response result (Some (pb.SubmitResponse_Capture
    {| pb.Capture_CaptureId := ""; pb.Capture_HoldId := pb.CaptureOp_HoldId op; pb.Capture_Amount := pb.CaptureOp_Amount op;
       pb.Capture_Destination := pb.CaptureOp_Destination op |})))).

Definition handleVoid (intent : pb.Intent) (op : pb.VoidOperation) : prog (reply pb.SubmitResponse) :=
  let! result := planner_call (SubmitVoid (pb.Intent_LedgerId intent) (pb.Void_HoldId op) (pb.Intent_IdempotencyKey intent)) in
  Ret (Reply (submit_response result None)).

Definition handleRevert (intent : pb.Intent) (op : pb.RevertOperation) : prog (reply pb.SubmitResponse) :=
  let! result := planner_call (SubmitRevert (pb.Intent_LedgerId intent) (pb.RevertOp_OriginalTransactionId op)
                   (pb.RevertOp_Force op) (pb.RevertOp_AtEffectiveDate op) (pb.RevertOp_Reason op)
                   (pb.Intent_IdempotencyKey intent)) in
  Ret (Reply (submit_response result (Some (pb.SubmitResponse_Revert
    {| pb.Revert_OriginalTransactionId := pb.RevertOp_OriginalTransactionId op;
       pb.Revert_RevertingTransactionId := match sr_Transaction result with Some tx => tx_TransactionID tx | None => "" end |})))).

Definition handleAmend (intent : pb.Intent) (op : pb.AmendOperation) : prog (reply pb.SubmitResponse) :=
  let! result := planner_call (SubmitAmend (pb.Intent_LedgerId intent) (pb.AmendOp_OriginalTransactionId op)
                   (metadata_of (pb.AmendOp_MetadataChanges op)) (pb.Intent_IdempotencyKey intent)) in
  Ret (Reply (submit_response result (Some (pb.SubmitResponse_Amend
    {| pb.Amend_OriginalTransactionId := pb.AmendOp_OriginalTransactionId op; pb.Amend_MetadataChanges := None |})))).

(** The three amounts of a conversion; an empty slippage amount is a nil pointer. *)
Definition convert_params (op : pb.ConvertOperation) : reply ConvertParams :=
  match parse_amount "invalid source_amount" (pb.Convert_SourceAmount op) with
  | Status c e => Status c e
  | Reply srcAmt =>
      match parse_amount "invalid destination_amount" (pb.Convert_DestinationAmount op) with
      | Status c e => Status c e
      | Reply dstAmt =>
          let params slipAmt :=
            {| cv_Source := pb.Convert_Source op; cv_Destination := pb.Convert_Destination op;
               cv_SourceAmount := Some srcAmt; cv_SourceAsset := pb.Convert_SourceAsset op;
               cv_DestAmount := Some dstAmt; cv_DestAsset := pb.Convert_DestinationAsset op;
               cv_Rate := pb.Convert_Rate op; cv_RateSource := pb.Convert_RateSource op;
               cv_SlippageAccount := pb.Convert_SlippageAccount op; cv_SlippageAmount := slipAmt; cv_ValidTime := None |} in
          if String.eqb (pb.Convert_SlippageAmount op) EmptyString then Reply (params None)
          else match parse_amount "invalid slippage_amount" (pb.Convert_SlippageAmount op) with
               | Status c e => Status c e
               | Reply slipAmt => Reply (params (Some slipAmt))
               end
      end
  end.

Definition handleConvert (intent : pb.Intent) (op : pb.ConvertOperation) : prog (reply pb.SubmitResponse) :=
  let! params := Ret (convert_params op) in
  let! result := planner_call (SubmitConvert (pb.Intent_LedgerId intent) params (pb.Intent_IdempotencyKey intent)) in
  Ret (Reply
    {| pb.SubmitResponse_EventId := sr_EventID result; pb.SubmitResponse_IdempotentHit := false; pb.SubmitResponse_Error := None;
       pb.SubmitResponse_Output := Some (pb.SubmitResponse_Conversion
         {| pb.Conversion_ConversionId := sr_ConversionID result; pb.Conversion_Source := pb.Convert_Source op;
            pb.Conversion_Destination := pb.Convert_Destination op; pb.Conversion_SourceAmount := pb.Convert_SourceAmount op;
            pb.Conversion_SourceAsset := pb.Convert_SourceAsset op; pb.Conversion_DestinationAmount := pb.Convert_DestinationAmount op;
            pb.Conversion_DestinationAsset := pb.Convert_DestinationAsset op; pb.Conversion_Rate := pb.Convert_Rate op;
            pb.Conversion_RateSource := pb.Convert_RateSource op |}) |}).

(** ** Batches *)

(** A [planner.BatchIntent] with the fields the operations set. *)
Definition nested_intent (nested : pb.Intent) (type : string) (postings : list PostingInput) (metadata : gomap)
    (source hint asset : string) (amount : option Z) (expiresAt : Z) (holdID destination originalTxID : string)
    (force atEffectiveDate : bool) (reason : string) (params : option ConvertParams) (targetType : Z)
    (targetID metadataKey : string) : BatchIntent :=
  {| bi_Type := type; bi_Postings := postings; bi_Reference := pb.Intent_Reference nested; bi_Metadata := metadata;
     bi_IdempotencyKey := pb.Intent_IdempotencyKey nested; bi_Source := source; bi_DestinationHint := hint; bi_Asset := asset;
     bi_Amount := amount; bi_ExpiresAt := expiresAt; bi_HoldID := holdID; bi_Destination := destination;
     bi_OriginalTxID := originalTxID; bi_Force := force; bi_AtEffectiveDate := atEffectiveDate; bi_Reason := reason;
     bi_ConvertParams := params; bi_TargetType := targetType; bi_TargetID := targetID; bi_MetadataKey := metadataKey |}.

Definition reply_map {A B} (f : A -> B) (r : reply A) : reply B :=
  match r with Reply a => Reply (f a) | Status c e => Status c e end.

Definition batch_intent (nested : pb.Intent) : reply BatchIntent :=
  let plain type := nested_intent nested type [] None "" "" "" None zero_time in
  match pb.Intent_Operation nested with
  | Some (pb.Intent_Post op) =>
      reply_map (fun postings => nested_intent nested "post" postings None "" "" "" None zero_time "" "" "" false false "" None 0 "" "")
        (parse_postings "batch intent posting: invalid amount" (pb.Post_Postings op))
  | Some (pb.Intent_Authorize op) =>
      reply_map (fun amt => nested_intent nested "authorize" [] None (pb.Authorize_Source op) (pb.Authorize_DestinationHint op)
                              (pb.Authorize_Asset op) (Some amt) (default zero_time (pb.Authorize_ExpiresAt op))
                              "" "" "" false false "" None 0 "" "")
        (parse_amount "batch intent: invalid amount" (pb.Authorize_Amount op))
  | Some (pb.Intent_Capture op) =>
      reply_map (fun amt => nested_intent nested "capture" [] None "" "" "" (Some amt) zero_time
                              (pb.CaptureOp_HoldId op) (pb.CaptureOp_Destination op) "" false false "" None 0 "" "")
        (parse_amount "batch intent: invalid amount" (pb.CaptureOp_Amount op))
  | Some (pb.Intent_Void op) => Reply (plain "void" (pb.Void_HoldId op) "" "" false false "" None 0 "" "")
  | Some (pb.Intent_Revert op) =>
      Reply (plain "revert" "" "" (pb.RevertOp_OriginalTransactionId op) (pb.RevertOp_Force op)
               (pb.RevertOp_AtEffectiveDate op) (pb.RevertOp_Reason op) None 0 "" "")
  | Some (pb.Intent_Amend op) =>
      Reply (nested_intent nested "amend" [] (metadata_of (pb.AmendOp_MetadataChanges op)) "" "" "" None zero_time "" ""
               (pb.AmendOp_OriginalTransactionId op) false false "" None 0 "" "")
  | Some (pb.Intent_Convert op) =>
      reply_map (fun cp => plain "convert" "" "" "" false false "" (Some cp) 0 "" "") (convert_params op)
  | Some (pb.Intent_SetMetadata op) =>
      Reply (nested_intent nested "set_metadata" [] (metadata_of (pb.SetMetadata_Metadata op)) "" "" "" None zero_time "" "" ""
               false false "" None (int16_of (pb.SetMetadata_TargetType op)) (pb.SetMetadata_TargetId op) "")
  | Some (pb.Intent_DeleteMetadata op) =>
      Reply (plain "delete_metadata" "" "" "" false false "" None (int16_of (pb.DeleteMetadata_TargetType op))
               (pb.DeleteMetadata_TargetId op) (pb.DeleteMetadata_Key op))
  | _ => Status InvalidArgument (EMsg "batch intent: unsupported operation type")
  end.

Fixpoint batch_intents (l : list pb.Intent) : reply (list BatchIntent) :=
  match l with
  | [] => Reply []
  | nested :: rest =>
      match batch_intent nested with
      | Status c e => Status c e
      | Reply bi => reply_map (cons bi) (batch_intents rest)
      end
  end.

Definition batch_mode (mode : Z) : string :=
  if mode =? pb.BatchOperation_BEST_EFFORT then "BEST_EFFORT"
  else if mode =? pb.BatchOperation_CHECKPOINTED then "CHECKPOINTED"
  else "ALL_OR_NOTHING".

Definition batch_response (r : BatchResult) : pb.SubmitResponse :=
  {| pb.SubmitResponse_EventId := ""; pb.SubmitResponse_IdempotentHit := false; pb.SubmitResponse_Error := None;
     pb.SubmitResponse_Output := Some (pb.SubmitResponse_BatchResult
       (map (fun r => {| pb.SubmitResponse_EventId := bir_EventID r; pb.SubmitResponse_IdempotentHit := false;
                         pb.SubmitResponse_Error := if bir_Success r then None else bir_Error r;
                         pb.SubmitResponse_Output := None |}) (br_Results r))
       (int32_of (br_Successes r)) (int32_of (br_Failures r))) |}.

Definition handleBatch (intent : pb.Intent) (mode : Z) (intents : list pb.Intent) : prog (reply pb.SubmitResponse) :=
  let! intents := Ret (batch_intents intents) in
  let mode := batch_mode mode in
  let+ (batchResult, err) := SubmitBatch (pb.Intent_LedgerId intent) intents mode in
  match err, batchResult with
  | Some e, None => Ret (mapPlannerError e)
  | Some e, Some r => if String.eqb mode "ALL_OR_NOTHING" then Ret (mapPlannerError e) else Ret (Reply (batch_response r))
  | None, None => status Internal "batch produced no results"
  | None, Some r => Ret (Reply (batch_response r))
  end.

(** The text of the error of [EvaluatePolicy]. *)
Definition denial_text (e : error) : string :=
  match e with EWrap reason (ESent ErrPolicyDenied) => "policy denied: " +:+ reason | _ => EmptyString end.

Definition rpc_Submit (ctx : Context) (intent : option pb.Intent) : prog (reply pb.SubmitResponse) :=
  match intent with
  | None => status InvalidArgument "intent is required"
  | Some intent =>
      let ledgerID := pb.Intent_LedgerId intent in
      if String.eqb ledgerID EmptyString then status InvalidArgument "ledger_id is required"
      else
        let! principal := extractPrincipal ctx in
        let '(opType, accountsTouched) := classifyIntent intent in
        let! _ := authorizeLedger ctx ledgerID in
        let+ policy := EvaluatePolicy ledgerID principal opType accountsTouched in
        match policy with
        | Err e =>
            let+ _ := (if errors_is e ErrPolicyDenied
                       then (let+ _ := WritePolicyDenialEvent ledgerID principal (denial_text e) in Ret tt) else Ret tt) in
            Ret (mapPlannerError e)
        | Ok _ =>
            match pb.Intent_Operation intent with
            | Some (pb.Intent_Post op) => handlePost intent op
            | Some (pb.Intent_SetMetadata op) => handleSetMetadata intent op
            | Some (pb.Intent_DeleteMetadata op) => handleDeleteMetadata intent op
            | Some (pb.Intent_InsertSchema op) => handleInsertSchema intent op
            | Some (pb.Intent_Authorize op) => handleAuthorize intent op
            | Some (pb.Intent_Capture op) => handleCapture intent op
            | Some (pb.Intent_Void op) => handleVoid intent op
            | Some (pb.Intent_Revert op) => handleRevert intent op
            | Some (pb.Intent_Amend op) => handleAmend intent op
            | Some (pb.Intent_Batch mode intents) => handleBatch intent mode intents
            | Some (pb.Intent_Convert op) => handleConvert intent op
            | None => status Unimplemented "operation type not yet supported"
            end
        end
  end.
End Grpc.
