(* ===== verification/Queries.v ===== *)
(** * internal/api/grpc/service.go: the reading RPCs, and the RPCs of approvals *)
From S2P Require Import Prelude GoStd Regex Accounts Assets Policy Sha256 Json Storage Db Prog.
From S2P Require Import Logic Postgres BatchManager Redis Chart Planner Cores Operations IntentJson Approval.
From S2P Require Import Proto Auth Grpc.

Section Queries.
Context `{Deps} (tz : Z -> Z).

(** ** Records *)

Definition rpc_GetTransaction (ctx : Context) (ledgerID transactionID : string) : prog (reply pb.Transaction) :=
  let! _ := authorizeLedger ctx ledgerID in
  let! rec := call_or (or_not_found "transaction not found" "getting transaction") (GetTransaction Pool ledgerID transactionID) in
  Ret (Reply (txRecordToProto rec)).

Definition rpc_ListTransactions (ctx : Context) (req : pb.PageRequest) : prog (reply (list pb.Transaction * string)) :=
  let! _ := authorizeLedger ctx (pb.Page_LedgerId req) in
  let! (recs, nextToken) := call_or (internal "listing transactions")
      (ListTransactions Pool (pb.Page_LedgerId req) (list_params (pb.Page_PageSize req) (pb.Page_PageToken req))) in
  Ret (Reply (map txRecordToProto recs, nextToken)).

Definition rpc_GetAccount (ctx : Context) (ledgerID address : string) : prog (reply pb.Account) :=
  let! _ := authorizeLedger ctx ledgerID in
  let! rec := call_or (or_not_found "account not found" "getting account") (GetAccount Pool ledgerID address) in
  Ret (Reply (accountRecordToProto rec)).

Definition rpc_ListAccounts (ctx : Context) (req : pb.PageRequest) : prog (reply (list pb.Account * string)) :=
  let! _ := authorizeLedger ctx (pb.Page_LedgerId req) in
  let! (recs, nextToken) := call_or (internal "listing accounts")
      (ListAccounts Pool (pb.Page_LedgerId req) (list_params (pb.Page_PageSize req) (pb.Page_PageToken req))) in
  Ret (Reply (map accountRecordToProto recs, nextToken)).

Definition rpc_GetHold (ctx : Context) (ledgerID holdID : string) : prog (reply pb.Hold) :=
  let! _ := authorizeLedger ctx ledgerID in
  let! rec := call_or (or_not_found "hold not found" "getting hold") (GetHold Pool ledgerID holdID) in
  Ret (Reply (holdRecordToProto rec)).

Definition rpc_ListHolds (ctx : Context) (req : pb.PageRequest) (account : string) : prog (reply (list pb.Hold * string)) :=
  let! _ := authorizeLedger ctx (pb.Page_LedgerId req) in
  let! (recs, nextToken) := call_or (internal "listing holds")
      (ListHolds Pool (pb.Page_LedgerId req) (list_params (pb.Page_PageSize req) (pb.Page_PageToken req)) account) in
  Ret (Reply (map holdRecordToProto recs, nextToken)).

Definition rpc_GetRelationships (ctx : Context) (ledgerID transactionID : string) (depth : Z) : prog (reply (list pb.Relationship)) :=
  let! _ := authorizeLedger ctx ledgerID in
  let! rels := call_or (internal "getting relationships") (GetRelationships Pool ledgerID transactionID depth) in
  Ret (Reply (map relationshipToProto rels)).

Definition rpc_ListLogEvents (ctx : Context) (req : pb.PageRequest) : prog (reply (list pb.LogEvent * string)) :=
  let! _ := authorizeLedger ctx (pb.Page_LedgerId req) in
  let! (recs, nextToken) := call_or (internal "listing log events")
      (ListLogEvents Pool (pb.Page_LedgerId req) (list_params (pb.Page_PageSize req) (pb.Page_PageToken req))) in
  Ret (Reply (map logEventRecordToProto recs, nextToken)).

Definition rpc_GetLogEvent (ctx : Context) (ledgerID eventID : string) : prog (reply pb.LogEvent) :=
  let! _ := authorizeLedger ctx ledgerID in
  let! rec := call_or (or_not_found "log event not found" "getting log event") (GetLogEvent Pool ledgerID eventID) in
  Ret (Reply (logEventRecordToProto rec)).

Definition schema_bytes (d : document) : option string :=
  match d with DocBytes b => b | DocAny j => Some (marshal j) end.
Definition rpc_GetSchema (ctx : Context) (ledgerID version : string) : prog (reply pb.Schema) :=
  let! _ := authorizeLedger ctx ledgerID in
  let! rec := call_or (or_not_found "schema not found" "getting schema") (GetSchema Pool ledgerID version) in
  Ret (Reply {| pb.Schema_LedgerId := sc_LedgerID rec; pb.Schema_Version := sc_Version rec;
                pb.Schema_Document := schema_bytes (sc_Document rec); pb.Schema_InsertedAt := Some (sc_InsertedAt rec);
                pb.Schema_EventId := sc_EventID rec |}).

(** The request names a ledger, which the handler does not look at. *)
Definition rpc_VerifyBatch (ctx : Context) (batchID : string) : prog (reply pb.VerifyBatchResponse) :=
  let! (valid, root, count) := call_or (or_not_found "batch not found" "verifying batch") (VerifyBatch tz batchID) in
  Ret (Reply {| pb.VerifyBatch_Valid := valid; pb.VerifyBatch_MerkleRoot := hex (default EmptyString root);
                pb.VerifyBatch_EventCount := int32_of count |}).

(** ** Balances *)

Definition rpc_GetBalance (ctx : Context) (req : pb.GetBalanceRequest) : prog (reply pb.GetBalanceResponse) :=
  let ledgerID := pb.GetBalance_LedgerId req in
  let account := pb.GetBalance_Account req in
  let asset := pb.GetBalance_Asset req in
  if String.eqb asset EmptyString then status InvalidArgument "asset is required for GetBalance"
  else
    let! _ := authorizeLedger ctx ledgerID in
    let! bal := call_or (internal "getting balance")
        (GetBalance Pool ledgerID account asset (pb.GetBalance_AsOfValid req) (pb.GetBalance_AsOfSystem req)) in
    let balance := br_Input bal - br_Output bal in
    let! available :=
      (if pb.GetBalance_IncludeHolds req then
         let! holdsTotal := call_or (internal "getting active holds total") (GetActiveHoldsTotal Pool ledgerID account asset) in
         Ret (Reply (dec_of_Z (balance - holdsTotal)))
       else Ret (Reply EmptyString)) in
    Ret (Reply {| pb.Balance_PostedBalance := dec_of_Z balance; pb.Balance_AvailableBalance := available;
                  pb.Balance_Asset := asset; pb.Balance_AsOfValid := pb.GetBalance_AsOfValid req;
                  pb.Balance_AsOfSystem := pb.GetBalance_AsOfSystem req |}).

Definition rpc_GetAggregatedBalances (ctx : Context) (req : pb.GetAggregatedBalancesRequest) : prog (reply (gmap string string)) :=
  let! _ := authorizeLedger ctx (pb.Aggregated_LedgerId req) in
  let! balances := call_or (internal "getting aggregated balances")
      (GetAggregatedBalances Pool (pb.Aggregated_LedgerId req) (pb.Aggregated_AddressPattern req)
         (pb.Aggregated_AsOfValid req) (pb.Aggregated_AsOfSystem req)) in
  Ret (Reply (dec_of_Z <$> balances)).

(** ** Approvals *)

Definition rpc_SubmitForApproval (ctx : Context) (req : pb.SubmitForApprovalRequest) : prog (reply string) :=
  let ledgerID := pb.ForApproval_LedgerId req in
  if String.eqb ledgerID EmptyString then status InvalidArgument "ledger_id is required"
  else if String.eqb (default EmptyString (pb.ForApproval_IntentPayload req)) EmptyString
  then status InvalidArgument "intent_payload is required"
  else match pb.ForApproval_RequiredApprovers req with
  | [] => status InvalidArgument "at least one required_approver is needed"
  | approvers =>
      let! submittedBy := extractPrincipal ctx in
      let expiresIn := int64_of (pb.ForApproval_ExpiresInSeconds req * Second) in
      let! _ := authorizeLedger ctx ledgerID in
      planner_call (SubmitForApproval ledgerID (pb.ForApproval_IntentPayload req) (Some approvers) submittedBy expiresIn)
  end.

Definition rpc_ApproveIntent (ctx : Context) (req : pb.ApproveIntentRequest) : prog (reply pb.ApproveIntentResponse) :=
  let ledgerID := pb.ApproveIntent_LedgerId req in
  let intentID := pb.ApproveIntent_IntentId req in
  if String.eqb ledgerID EmptyString then status InvalidArgument "ledger_id is required"
  else if String.eqb intentID EmptyString then status InvalidArgument "intent_id is required"
  else
    let! principal := extractPrincipal ctx in
    let! _ := authorizeLedger ctx ledgerID in
    let! result := planner_call (Approve ledgerID intentID principal (pb.ApproveIntent_Signature req)) in
    let executed := negb (String.eqb (sr_EventID result) EmptyString) && negb (String.eqb (sr_EventID result) intentID) in
    Ret (Reply
      (if executed
       then {| pb.Approved_FullyApproved := true; pb.Approved_EventId := sr_EventID result;
               pb.Approved_Transaction := option_map txRecordToProto (sr_Transaction result) |}
       else {| pb.Approved_FullyApproved := false; pb.Approved_EventId := ""; pb.Approved_Transaction := None |})).

Definition rpc_ListPendingApprovals (ctx : Context) (req : pb.PageRequest) : prog (reply (list pb.PendingApproval * string)) :=
  let ledgerID := pb.Page_LedgerId req in
  if String.eqb ledgerID EmptyString then status InvalidArgument "ledger_id is required"
  else
    let! _ := authorizeLedger ctx ledgerID in
    let! (recs, nextToken) := call_or (internal "listing pending approvals")
        (ListPendingApprovals Pool ledgerID (list_params (pb.Page_PageSize req) (pb.Page_PageToken req))) in
    Ret (Reply (map pendingApprovalRecordToProto recs, nextToken)).
End Queries.
