(* ===== verification/Transfer.v ===== *)
(** * internal/api/grpc/service.go: Export and Import of the log of a ledger *)
From S2P Require Import Prelude GoStd Regex Accounts Assets Policy Sha256 Json Storage Db Prog.
From S2P Require Import Logic Postgres BatchManager Redis Chart Planner Cores Operations IntentJson Approval.
From S2P Require Import Proto Auth Grpc.

Section Transfer.
Context `{Deps} (admins : gset string).

(** ** Export *)

(** [stream.Send]: whether the client still takes the [n]-th message. *)
Definition sink : Type := nat -> bool.

Fixpoint send_events (send : sink) (sent : list pb.LogEvent) (events : list LogEventRecord) : list pb.LogEvent * bool :=
  match events with
  | [] => (sent, true)
  | e :: rest => if send (length sent) then send_events send (sent ++ [logEventRecordToProto e]) rest else (sent, false)
  end.

(** The loop over the pages: what was sent, and how it ended; [None] when [fuel] pages do
    not suffice. *)
Fixpoint export_pages (fuel : nat) (send : sink) (ledgerID pageToken : string) (sent : list pb.LogEvent)
  : prog (option (list pb.LogEvent * reply unit)) :=
  match fuel with
  | O => Ret None
  | S fuel =>
      let+ r := ListLogEvents Pool ledgerID (list_params 1000 pageToken) in
      match r with
      | Err e => Ret (Some (sent, internal "listing events for export" e))
      | Ok (events, nextToken) =>
          match send_events send sent events with
          | (sent, false) => Ret (Some (sent, Status Internal (EMsg "stream")))
          | (sent, true) =>
              if String.eqb nextToken EmptyString then Ret (Some (sent, Reply tt))
              else export_pages fuel send ledgerID nextToken sent
          end
      end
  end.

Definition rpc_Export (fuel : nat) (ctx : Context) (ledgerID : string) (send : sink)
  : prog (option (list pb.LogEvent * reply unit)) :=
  let+ authorized :=
    (let! principal := extractPrincipal ctx in
     let! _ := requireImportExportAuthz admins principal in
     planner_call (EvaluatePolicy ledgerID principal "export" [])) in
  match authorized with
  | Status c e => Ret (Some ([], Status c e))
  | Reply _ => export_pages fuel send ledgerID EmptyString []
  end.

(** ** Import *)

Definition maxImportEventsPerCall : Z := 100000.
Definition maxImportClockSkew : Z := 5 * Minute.

Definition json_Valid (payload : string) : bool := match json_parse payload with Some _ => true | None => false end.

Definition validateImportEvent (event : pb.LogEvent) : prog (reply unit) :=
  if String.eqb (pb.LogEvent_LedgerId event) EmptyString then status InvalidArgument "event ledger_id is required"
  else if String.eqb (pb.LogEvent_EventId event) EmptyString then status InvalidArgument "event event_id is required"
  else
    let payload := default EmptyString (pb.LogEvent_Payload event) in
    if String.eqb payload EmptyString then status InvalidArgument "event has an empty payload"
    else if negb (json_Valid payload) then status InvalidArgument "event payload is not valid JSON"
    else if (pb.LogEvent_Type event <? 1) || (EventTypeApprovalRecorded <? pb.LogEvent_Type event)
    then status InvalidArgument "event has unknown event type"
    else match pb.LogEvent_SystemTime event, pb.LogEvent_ValidTime event with
         | Some _, Some _ => Ret (Reply tt)
         | _, _ => status InvalidArgument "event is missing system_time or valid_time"
         end.

(** The next sequence number and the batch of each ledger of the stream. *)
Definition import_state : Type := gmap string (Z * string).

Definition import_start (principal ledgerID : string) (st : import_state) : prog (reply import_state) :=
  match st !! ledgerID with
  | Some _ => Ret (Reply st)
  | None =>
      let! _ := planner_call (EvaluatePolicy ledgerID principal "import" []) in
      let! ledger := call_or (or_not_found "ledger not found" "checking ledger") (GetLedger Pool ledgerID) in
      if String.eqb (lr_State ledger) "sealed" then status FailedPrecondition "ledger is sealed; import rejected"
      else
        let! (existing, _) := call_or (internal "checking ledger emptiness")
            (ListLogEvents Pool ledgerID (list_params 1 EmptyString)) in
        match existing with
        | _ :: _ => status FailedPrecondition "ledger already has events; import only restores into an empty ledger"
        | [] =>
            let! batchID := call_or (internal "allocating import batch") (CurrentBatchID DefaultMaxEvents DefaultMaxAge ledgerID) in
            Ret (Reply (<[ledgerID := (1, batchID)]> st))
        end
  end.

(** What the loop appends for an event. *)
Definition imported (event : pb.LogEvent) (batchID : string) : LogEventRecord :=
  {| ev_EventID := pb.LogEvent_EventId event; ev_LedgerID := pb.LogEvent_LedgerId event;
     ev_LedgerSeq := int64_of (pb.LogEvent_LedgerSeq event); ev_SystemTime := default 0 (pb.LogEvent_SystemTime event);
     ev_ValidTime := default 0 (pb.LogEvent_ValidTime event); ev_Type := int16_of (pb.LogEvent_Type event);
     ev_Payload := pb.LogEvent_Payload event; ev_IdempotencyKey := pb.LogEvent_IdempotencyKey event;
     ev_IdempotencyHash := None; ev_BatchID := batchID; ev_SchemaVersion := int64_of (pb.LogEvent_SchemaVersion event) |}.

Definition import_event (principal : string) (event : pb.LogEvent) (st : import_state) : prog (reply import_state) :=
  let! _ := validateImportEvent event in
  let ledgerID := pb.LogEvent_LedgerId event in
  let! st := import_start principal ledgerID st in
  let+ now := time_Now in
  if now + maxImportClockSkew <? default 0 (pb.LogEvent_SystemTime event)
  then status InvalidArgument "event system_time is in the future"
  else
    let '(want, batchID) := default (0, EmptyString) (st !! ledgerID) in
    if negb (uint64_of want =? pb.LogEvent_LedgerSeq event) then status InvalidArgument "event has non-contiguous ledger_seq"
    else
      let! _ := call_or (fun e => if errors_is e ErrIdempotencyKeyConflict
                                  then Status AlreadyExists (EMsg "event already exists (idempotency conflict)")
                                  else internal "importing event" e)
                  (AppendLogEvent Pool (imported event batchID)) in
      Ret (Reply (<[ledgerID := (want + 1, batchID)]> st)).

(** The loop over the stream, which ends with EOF or, if [broken], with an error: how many
    events were imported, or a status. *)
Fixpoint import_stream (principal : string) (events : list pb.LogEvent) (broken : bool) (count : Z) (st : import_state)
  : prog (reply Z) :=
  match events with
  | [] => if broken then status Internal "receiving event" else Ret (Reply count)
  | event :: rest =>
      if maxImportEventsPerCall <=? count then status ResourceExhausted "import exceeds per-call limit"
      else
        let! st := import_event principal event st in
        import_stream principal rest broken (count + 1) st
  end.

Definition rpc_Import (ctx : Context) (events : list pb.LogEvent) (broken : bool) : prog (reply Z) :=
  let! principal := extractPrincipal ctx in
  let! _ := requireImportExportAuthz admins principal in
  import_stream principal events broken 0 ∅.
End Transfer.
