(* ===== verification/Subscriptions.v ===== *)
(** * internal/subscriptions/manager.go and the Subscribe RPC of internal/api/grpc

    A subscription first replays the log from an event id, page by page, into a channel
    of a hundred places that nobody reads until the replay is over; then a goroutine
    turns the notifications of Redis into sends on that channel, and the handler sends on
    the stream what it receives. [Subscribe] is the call of the manager; what follows it is
    a sequence of [sub_step]s, between which other requests may run. A [select] in which
    [ctx.Done()] is one of the ready cases asks the environment ([SleepOrDone]) whether
    that case is taken. *)
From S2P Require Import Prelude GoStd Regex Accounts Assets Policy Sha256 Json Storage Db Prog.
From S2P Require Import Logic Postgres BatchManager Redis Chart Planner Cores Operations IntentJson Approval.
From S2P Require Import Proto Auth Grpc.

Definition subscriptionBufferSize : Z := 100.
Definition maxReplayEvents : Z := 100000.

Definition shouldInclude (eventType : Z) (filter : list Z) : bool :=
  match filter with [] => true | _ => existsb (Z.eqb eventType) filter end.

(** Whether the context is still alive, where a [select] may see that it ended. *)
Definition not_done : prog bool := trigger (SleepOrDone 0).

(** ** Replay *)

(** The dedup set, the high-water mark, the counter, and what waits in the channel. *)
Record replay_state := {
  rp_replayedIDs : gset string;
  rp_highWaterMark : string;
  rp_replayed : Z;
  rp_ch : list LogEventRecord
}.

Definition seen_event (e : LogEventRecord) (st : replay_state) : replay_state :=
  {| rp_replayedIDs := {[ev_EventID e]} ∪ rp_replayedIDs st;
     rp_highWaterMark := if string_lt (rp_highWaterMark st) (ev_EventID e) then ev_EventID e else rp_highWaterMark st;
     rp_replayed := rp_replayed st + 1; rp_ch := rp_ch st |}.
Definition queued (e : LogEventRecord) (st : replay_state) : replay_state :=
  {| rp_replayedIDs := rp_replayedIDs st; rp_highWaterMark := rp_highWaterMark st; rp_replayed := rp_replayed st;
     rp_ch := rp_ch st ++ [e] |}.

(** A wait that only the end of the context ends. The code waits as long as it takes; the
    model looks [patience] times, and answers [false] when it is still waiting then. *)
Fixpoint await_done (patience : nat) : prog bool :=
  match patience with
  | O => Ret false
  | S patience => let+ alive := not_done in if alive then await_done patience else Ret true
  end.

(** A full channel, which nobody reads yet, leaves [ctx.Done()] the only case of the
    [select] that can become ready: the send waits. [None]: it is still waiting. *)
Fixpoint replay_events (patience : nat) (eventTypes : list Z) (events : list LogEventRecord) (st : replay_state)
  : prog (option (result replay_state)) :=
  match events with
  | [] => Ret (Some (Ok st))
  | e :: rest =>
      if maxReplayEvents <? rp_replayed st + 1
      then Ret (Some (Err (EMsg "replay window exceeds the limit; use the Export RPC for full history instead of Subscribe")))
      else
        let st := seen_event e st in
        if shouldInclude (ev_Type e) eventTypes then
          if Z.of_nat (length (rp_ch st)) <? subscriptionBufferSize then
            let+ alive := not_done in
            if alive then replay_events patience eventTypes rest (queued e st) else Ret (Some (Err ECtxDone))
          else
            let+ ended := await_done patience in
            Ret (if ended : bool then Some (Err ECtxDone) else None)
        else replay_events patience eventTypes rest st
  end.

(** The loop over the pages; [None] when it has not ended, after [fuel] pages or in a
    wait that was looked at [patience] times. *)
Fixpoint replay_pages (fuel patience : nat) (ledgerID : string) (eventTypes : list Z) (pageToken : string) (st : replay_state)
  : prog (option (result replay_state)) :=
  match fuel with
  | O => Ret None
  | S fuel =>
      let+ r := ListLogEvents Pool ledgerID (list_params 100 pageToken) in
      match r with
      | Err e => Ret (Some (Err e))
      | Ok (events, nextToken) =>
          let+ r := replay_events patience eventTypes events st in
          match r with
          | None => Ret None
          | Some (Err e) => Ret (Some (Err e))
          | Some (Ok st) =>
              if String.eqb nextToken EmptyString then Ret (Some (Ok st))
              else replay_pages fuel patience ledgerID eventTypes nextToken st
          end
      end
  end.

(** ** The subscription *)

(** [replayedIDs] is nil when nothing is replayed, and again once a live event is past the
    high-water mark. *)
Record subscription := {
  sb_replayedIDs : option (gset string);
  sb_highWaterMark : string;
  sb_dropped : Z;
  sb_ch : list LogEventRecord;
  sb_open : bool
}.

Definition from_replay (st : replay_state) : subscription :=
  {| sb_replayedIDs := Some (rp_replayedIDs st); sb_highWaterMark := rp_highWaterMark st; sb_dropped := 0;
     sb_ch := rp_ch st; sb_open := true |}.

Definition Subscribe (fuel patience : nat) (ledgerID : string) (eventTypes : list Z) (fromEventID : string)
  : prog (option (result subscription)) :=
  if String.eqb fromEventID EmptyString
  then Ret (Some (Ok {| sb_replayedIDs := None; sb_highWaterMark := EmptyString; sb_dropped := 0; sb_ch := []; sb_open := true |}))
  else
    let+ r := replay_pages fuel patience ledgerID eventTypes fromEventID
                {| rp_replayedIDs := ∅; rp_highWaterMark := EmptyString; rp_replayed := 0; rp_ch := [] |} in
    Ret (option_map (fun r => let? st := r in Ok (from_replay st)) r).

(** ** Live events *)

Definition zero_notification : EventNotification := {| en_LedgerID := ""; en_EventID := ""; en_Type := 0 |}.
Definition notification_members (l : list (string * json)) (n : EventNotification) : result EventNotification :=
  let? ledgerID := field "ledger_id" decode_string l (en_LedgerID n) in
  let? eventID := field "event_id" decode_string l (en_EventID n) in
  let? type_ := field "type" decode_int16 l (en_Type n) in
  Ok {| en_LedgerID := ledgerID; en_EventID := eventID; en_Type := type_ |}.
Definition decode_notification : json -> result EventNotification := fun j =>
  decode_struct notification_members j zero_notification.

(** [json.Unmarshal([]byte(msg.Payload), &notification)]. *)
Definition unmarshal_notification `{Deps} (payload : string) : result EventNotification :=
  match json_parse payload with
  | None => Err (EMsg "json: syntax error")
  | Some j => decode_notification j
  end.

(** A send that does not wait; a drop is counted by [atomic.AddUint64]. *)
Definition sent_to (e : LogEventRecord) (s : subscription) : subscription :=
  {| sb_replayedIDs := sb_replayedIDs s; sb_highWaterMark := sb_highWaterMark s; sb_dropped := sb_dropped s;
     sb_ch := sb_ch s ++ [e]; sb_open := sb_open s |}.
Definition dropping (s : subscription) : subscription :=
  {| sb_replayedIDs := sb_replayedIDs s; sb_highWaterMark := sb_highWaterMark s; sb_dropped := (sb_dropped s + 1) mod 2 ^ 64;
     sb_ch := sb_ch s; sb_open := sb_open s |}.

Definition handleNotification (notification : EventNotification) (eventTypes : list Z) (s : subscription) : prog subscription :=
  if negb (shouldInclude (en_Type notification) eventTypes) then Ret s
  else
    let+ event := GetLogEvent Pool (en_LedgerID notification) (en_EventID notification) in
    match event with
    | Err _ => Ret s
    | Ok event =>
        let+ alive := not_done in
        if negb alive then Ret s
        else if Z.of_nat (length (sb_ch s)) <? subscriptionBufferSize then Ret (sent_to event s)
        else Ret (dropping s)
    end.

(** The dedup check of the loop: whether the event was replayed, and what is kept. *)
Definition dedup (id : string) (s : subscription) : bool * subscription :=
  let keep ids := {| sb_replayedIDs := ids; sb_highWaterMark := sb_highWaterMark s; sb_dropped := sb_dropped s;
                     sb_ch := sb_ch s; sb_open := sb_open s |} in
  match sb_replayedIDs s with
  | None => (false, s)
  | Some ids =>
      if bool_decide (id ∈ ids) then (true, keep (Some (ids ∖ {[id]})))
      else if string_lt (sb_highWaterMark s) id then (false, keep None)
      else (false, s)
  end.

(** One message of Redis. *)
Definition on_message `{Deps} (eventTypes : list Z) (payload : string) (s : subscription) : prog subscription :=
  match unmarshal_notification payload with
  | Err _ => Ret s
  | Ok notification =>
      let '(seen, s) := dedup (en_EventID notification) s in
      if seen then Ret s else handleNotification notification eventTypes s
  end.

(** ** The RPC *)

Module pbs.
Record SubscribeRequest := {
  Subscribe_LedgerId : string;
  Subscribe_Types : list Z;
  Subscribe_FromEventId : string;
  Subscribe_IncludeHistorical : bool
}.
Record SubscriptionEvent := { Event : pb.LogEvent; IsReplay : bool }.
End pbs.

(** A stream: the subscription behind it, what was sent, and how the handler returned. *)
Record stream := {
  sm_sub : subscription;
  sm_sent : list pbs.SubscriptionEvent;
  sm_done : option (reply unit)
}.

Definition event_types (req : pbs.SubscribeRequest) : list Z := map int16_of (pbs.Subscribe_Types req).

Definition rpc_Subscribe (fuel patience : nat) (ctx : Context) (req : pbs.SubscribeRequest) : prog (option (reply stream)) :=
  let+ authorized := authorizeLedger ctx (pbs.Subscribe_LedgerId req) in
  match authorized with
  | Status c e => Ret (Some (Status c e))
  | Reply _ =>
      let+ r := Subscribe fuel patience (pbs.Subscribe_LedgerId req) (event_types req) (pbs.Subscribe_FromEventId req) in
      Ret match r with
          | None => None
          | Some (Err e) => Some (internal "subscribing" e)
          | Some (Ok s) => Some (Reply {| sm_sub := s; sm_sent := []; sm_done := None |})
          end
  end.

(** What happens to a stream: a message of Redis, the end of the goroutine (its context or
    the pub/sub ended), or a turn of the handler's loop, whose send the client takes or not. *)
Inductive sub_step :=
| Message (payload : string)
| Closed
| Forward (taken : bool).

Definition is_replay (req : pbs.SubscribeRequest) : bool :=
  negb (String.eqb (pbs.Subscribe_FromEventId req) EmptyString) && pbs.Subscribe_IncludeHistorical req.

Definition with_sub (s : subscription) (m : stream) : stream :=
  {| sm_sub := s; sm_sent := sm_sent m; sm_done := sm_done m |}.
Definition with_ch (ch : list LogEventRecord) (open : bool) (s : subscription) : subscription :=
  {| sb_replayedIDs := sb_replayedIDs s; sb_highWaterMark := sb_highWaterMark s; sb_dropped := sb_dropped s;
     sb_ch := ch; sb_open := open |}.

(** [for event := range ch { if err := stream.Send(...); err != nil { return err } }]. *)
Definition forward (req : pbs.SubscribeRequest) (taken : bool) (m : stream) : stream :=
  let s := sm_sub m in
  match sm_done m, sb_ch s with
  | Some _, _ => m
  | None, [] => if sb_open s then m else {| sm_sub := s; sm_sent := sm_sent m; sm_done := Some (Reply tt) |}
  | None, e :: ch =>
      let s := with_ch ch (sb_open s) s in
      if taken
      then {| sm_sub := s; sm_done := None;
              sm_sent := sm_sent m ++ [{| pbs.Event := logEventRecordToProto e; pbs.IsReplay := is_replay req |}] |}
      else {| sm_sub := s; sm_sent := sm_sent m; sm_done := Some (Status Internal (EMsg "stream")) |}
  end.

Definition advance `{Deps} (req : pbs.SubscribeRequest) (step : sub_step) (m : stream) : prog stream :=
  match step with
  | Message payload =>
      if sb_open (sm_sub m)
      then let+ s := on_message (event_types req) payload (sm_sub m) in Ret (with_sub s m)
      else Ret m
  | Closed => Ret (with_sub (with_ch (sb_ch (sm_sub m)) false (sm_sub m)) m)
  | Forward taken => Ret (forward req taken m)
  end.

(** What a published notification decodes to is what was published. *)
Example notification_roundtrip :
  decode_notification (json_of_notification {| en_LedgerID := "main"; en_EventID := "01H"; en_Type := 4 |}) =
  Ok {| en_LedgerID := "main"; en_EventID := "01H"; en_Type := 4 |}.
Proof. reflexivity. Qed.
