(* ===== verification/Sdk.v ===== *)
(** * pkg/sdk: the Go client

    A call checks its arguments and, when they pass, sends one message to the server; what
    a connection does with it is the interface [LedgerServiceClient], which the generated
    gRPC client implements. The outgoing metadata is what the server's interceptors read.
    A call answers [Err] when nothing was sent, and otherwise the reply of the server. *)
From S2P Require Import Prelude GoStd Regex Accounts Assets Bigamount Policy Sha256 Json Storage Db Prog.
From S2P Require Import Logic Postgres BatchManager Redis Chart Planner Cores Operations IntentJson Approval.
From S2P Require Import Proto Auth Grpc.

Class LedgerServiceClient := {
  client_Submit : outgoing -> pb.Intent -> prog (reply pb.SubmitResponse);
  client_CreateLedger : outgoing -> pb.CreateLedgerRequest -> prog (reply pb.Ledger);
  client_GetLedger : outgoing -> string -> prog (reply pb.Ledger);
  client_ListLedgers : outgoing -> Z -> string -> prog (reply (list pb.Ledger * string));
  client_SealLedger : outgoing -> string -> prog (reply pb.Ledger);
  client_GetTransaction : outgoing -> string -> string -> prog (reply pb.Transaction);
  client_GetAccount : outgoing -> string -> string -> prog (reply pb.Account);
  client_GetBalance : outgoing -> pb.GetBalanceRequest -> prog (reply pb.GetBalanceResponse);
  client_GetHold : outgoing -> string -> string -> prog (reply pb.Hold);
  client_ListHolds : outgoing -> pb.PageRequest -> string -> prog (reply (list pb.Hold * string));
  client_GetRelationships : outgoing -> string -> string -> Z -> prog (reply (list pb.Relationship))
}.

Module sdk.

(** ** validate.go *)

Definition validateAccount (field addr : string) : result unit := checked field (Accounts.Validate addr).
Definition validateAsset (field asset : string) : result unit := checked field (Assets.Validate asset).
Definition validateAmount (field amount : string) : result unit :=
  match Bigamount.FromString amount with
  | Err e => Err (EWrap field e)
  | Ok a => if negb (Bigamount.IsPositive a) then Err (EMsg "amount must be positive") else Ok tt
  end.
Definition validatePosting (source destination amount asset : string) : result unit :=
  let? _ := validateAccount "source" source in
  let? _ := validateAccount "destination" destination in
  let? _ := validateAsset "asset" asset in
  validateAmount "amount" amount.

(** ** client.go *)

(** What [New] makes of its options. *)
Record Client := { bearerToken : string }.

Definition withBearer (token : string) (md : outgoing) : outgoing :=
  <["authorization" := default [] (md !! "authorization") ++ ["Bearer " +:+ token]]> md.
(** The interceptor of every call, installed when the client has a token. *)
Definition intercepted (c : Client) (md : outgoing) : outgoing :=
  if String.eqb (bearerToken c) EmptyString then md else withBearer (bearerToken c) md.

(** [grpc.NewClient] is a parameter, with its connections and the dial options a caller
    may add. An interceptor is what it makes of the outgoing metadata. *)
Section New.
Context {Custom ClientConn : Type}.
Inductive DialOption :=
| InsecureTransport
| UnaryInterceptor (f : outgoing -> outgoing)
| StreamInterceptor (f : outgoing -> outgoing)
| Added (o : Custom).
Context (NewClient : string -> list DialOption -> result ClientConn).

Record options := { o_bearerToken : string; o_dialOpts : list Custom }.
Definition Option : Type := options -> options.
Definition WithBearerToken (token : string) : Option := fun o => {| o_bearerToken := token; o_dialOpts := o_dialOpts o |}.
Definition WithDialOptions (opts : list Custom) : Option := fun o =>
  {| o_bearerToken := o_bearerToken o; o_dialOpts := o_dialOpts o ++ opts |}.

Definition bearerUnaryInterceptor (token : string) : DialOption := UnaryInterceptor (withBearer token).
Definition bearerStreamInterceptor (token : string) : DialOption := StreamInterceptor (withBearer token).

Definition configured (opts : list Option) : options := fold_left (fun o opt => opt o) opts {| o_bearerToken := ""; o_dialOpts := [] |}.
Definition dialOpts (o : options) : list DialOption :=
  [InsecureTransport] ++
  (if negb (String.eqb (o_bearerToken o) EmptyString)
   then [bearerUnaryInterceptor (o_bearerToken o); bearerStreamInterceptor (o_bearerToken o)] else []) ++
  map Added (o_dialOpts o).
(** The connection, and what its interceptors make it. *)
Definition New (addr : string) (opts : list Option) : result (ClientConn * Client) :=
  let o := configured opts in
  match NewClient addr (dialOpts o) with
  | Err e => Err (EWrap "connecting to ledger" e)
  | Ok conn => Ok (conn, {| bearerToken := o_bearerToken o |})
  end.

(** The interceptors that were dialled with do to a call what [intercepted] says. *)
Definition unary_interceptors (l : list DialOption) (md : outgoing) : outgoing :=
  fold_left (fun md o => match o with UnaryInterceptor f => f md | _ => md end) l md.
Definition stream_interceptors (l : list DialOption) (md : outgoing) : outgoing :=
  fold_left (fun md o => match o with StreamInterceptor f => f md | _ => md end) l md.
Lemma New_intercepts addr opts conn c :
  New addr opts = Ok (conn, c) ->
  exists l, NewClient addr l = Ok conn /\
    forall md, unary_interceptors l md = intercepted c md /\ stream_interceptors l md = intercepted c md.
Proof.
  unfold New, intercepted. intros Hn. exists (dialOpts (configured opts)). destruct (NewClient _ _) as [conn'|e]; [|done].
  injection Hn as -> <-. split; [done|]. intros md. unfold unary_interceptors, stream_interceptors, dialOpts. cbn [bearerToken].
  rewrite !fold_left_app. destruct (String.eqb _ _); simpl; (split; [|]); (generalize md || generalize (withBearer (o_bearerToken (configured opts)) md));
    intros md'; by induction (o_dialOpts (configured opts)).
Qed.
End New.

Definition CreateLedgerOption : Type := pb.CreateLedgerRequest -> pb.CreateLedgerRequest.
Definition WithBucket (bucket : string) : CreateLedgerOption := fun r =>
  {| pb.CreateLedger_Id := pb.CreateLedger_Id r; pb.CreateLedger_BucketId := bucket;
     pb.CreateLedger_Metadata := pb.CreateLedger_Metadata r |}.
Definition WithLedgerMetadata (meta : option (gmap string string)) : CreateLedgerOption := fun r =>
  {| pb.CreateLedger_Id := pb.CreateLedger_Id r; pb.CreateLedger_BucketId := pb.CreateLedger_BucketId r;
     pb.CreateLedger_Metadata := meta |}.

Definition defaultListPageSize : Z := 1000.

(** ** transaction.go *)

(** The fluent methods return the builder they were called on, and change a field. *)
Record TransactionBuilder := {
  tb_ledgerID : string;
  tb_postings : list pb.Posting;
  tb_reference : string;
  tb_metadata : pb.metadata_map;
  tb_ik : string;
  tb_dryRun : bool
}.
Definition NewTransaction (ledgerID : string) : TransactionBuilder :=
  {| tb_ledgerID := ledgerID; tb_postings := []; tb_reference := ""; tb_metadata := None; tb_ik := ""; tb_dryRun := false |}.
Definition Post (source destination amount asset : string) (b : TransactionBuilder) : TransactionBuilder :=
  {| tb_ledgerID := tb_ledgerID b;
     tb_postings := tb_postings b ++ [{| pb.Posting_Source := source; pb.Posting_Destination := destination;
                                         pb.Posting_Amount := amount; pb.Posting_Asset := asset |}];
     tb_reference := tb_reference b; tb_metadata := tb_metadata b; tb_ik := tb_ik b; tb_dryRun := tb_dryRun b |}.
Definition WithReference (ref : string) (b : TransactionBuilder) : TransactionBuilder :=
  {| tb_ledgerID := tb_ledgerID b; tb_postings := tb_postings b; tb_reference := ref; tb_metadata := tb_metadata b;
     tb_ik := tb_ik b; tb_dryRun := tb_dryRun b |}.
Definition WithIdempotencyKey (key : string) (b : TransactionBuilder) : TransactionBuilder :=
  {| tb_ledgerID := tb_ledgerID b; tb_postings := tb_postings b; tb_reference := tb_reference b;
     tb_metadata := tb_metadata b; tb_ik := key; tb_dryRun := tb_dryRun b |}.
Definition WithMetadata (key value : string) (b : TransactionBuilder) : TransactionBuilder :=
  {| tb_ledgerID := tb_ledgerID b; tb_postings := tb_postings b; tb_reference := tb_reference b;
     tb_metadata := Some (<[key := Some (pb.StringValue value)]> (default ∅ (tb_metadata b)));
     tb_ik := tb_ik b; tb_dryRun := tb_dryRun b |}.
Definition DryRun (b : TransactionBuilder) : TransactionBuilder :=
  {| tb_ledgerID := tb_ledgerID b; tb_postings := tb_postings b; tb_reference := tb_reference b;
     tb_metadata := tb_metadata b; tb_ik := tb_ik b; tb_dryRun := true |}.

Fixpoint validate_postings (l : list pb.Posting) : result unit :=
  match l with
  | [] => Ok tt
  | pst :: rest =>
      match validatePosting (pb.Posting_Source pst) (pb.Posting_Destination pst) (pb.Posting_Amount pst) (pb.Posting_Asset pst) with
      | Err e => Err (EWrap "posting" e)
      | Ok _ => validate_postings rest
      end
  end.

(** The checks of [Submit], and the intent it sends. *)
Definition built (b : TransactionBuilder) : result pb.Intent :=
  match tb_postings b with
  | [] => Err (EMsg "at least one posting is required")
  | _ =>
      let? _ := validate_postings (tb_postings b) in
      Ok {| pb.Intent_LedgerId := tb_ledgerID b; pb.Intent_ValidTime := None; pb.Intent_IdempotencyKey := tb_ik b;
            pb.Intent_Reference := tb_reference b; pb.Intent_Metadata := tb_metadata b;
            pb.Intent_Operation := Some (pb.Intent_Post {| pb.Post_Postings := tb_postings b |});
            pb.Intent_DryRun := tb_dryRun b |}
  end.

(** ** operations.go *)

Definition SubmitOption : Type := pb.Intent -> pb.Intent.
Definition WithIK (key : string) : SubmitOption := fun i =>
  {| pb.Intent_LedgerId := pb.Intent_LedgerId i; pb.Intent_ValidTime := pb.Intent_ValidTime i; pb.Intent_IdempotencyKey := key;
     pb.Intent_Reference := pb.Intent_Reference i; pb.Intent_Metadata := pb.Intent_Metadata i;
     pb.Intent_Operation := pb.Intent_Operation i; pb.Intent_DryRun := pb.Intent_DryRun i |}.
Definition WithDestinationHint (hint : string) : SubmitOption := fun i =>
  match pb.Intent_Operation i with
  | Some (pb.Intent_Authorize op) =>
      {| pb.Intent_LedgerId := pb.Intent_LedgerId i; pb.Intent_ValidTime := pb.Intent_ValidTime i;
         pb.Intent_IdempotencyKey := pb.Intent_IdempotencyKey i; pb.Intent_Reference := pb.Intent_Reference i;
         pb.Intent_Metadata := pb.Intent_Metadata i;
         pb.Intent_Operation := Some (pb.Intent_Authorize
           {| pb.Authorize_Source := pb.Authorize_Source op; pb.Authorize_DestinationHint := hint;
              pb.Authorize_Amount := pb.Authorize_Amount op; pb.Authorize_Asset := pb.Authorize_Asset op;
              pb.Authorize_ExpiresAt := pb.Authorize_ExpiresAt op |});
         pb.Intent_DryRun := pb.Intent_DryRun i |}
  | _ => i
  end.
Definition applySubmitOptions (opts : list SubmitOption) (i : pb.Intent) : pb.Intent := fold_left (fun i opt => opt i) opts i.

(** An intent with nothing but its operation. *)
Definition intent_of (ledgerID : string) (op : pb.Operation) : pb.Intent :=
  {| pb.Intent_LedgerId := ledgerID; pb.Intent_ValidTime := None; pb.Intent_IdempotencyKey := ""; pb.Intent_Reference := "";
     pb.Intent_Metadata := None; pb.Intent_Operation := Some op; pb.Intent_DryRun := false |}.

Definition authorize_intent (ledgerID source asset amount : string) (expiresAt : Z) : result pb.Intent :=
  let? _ := validateAccount "source" source in
  let? _ := validateAsset "asset" asset in
  let? _ := validateAmount "amount" amount in
  Ok (intent_of ledgerID (pb.Intent_Authorize
        {| pb.Authorize_Source := source; pb.Authorize_DestinationHint := ""; pb.Authorize_Amount := amount;
           pb.Authorize_Asset := asset; pb.Authorize_ExpiresAt := Some expiresAt |})).

Definition capture_intent (ledgerID holdID amount destination : string) : result pb.Intent :=
  if String.eqb holdID EmptyString then Err (EMsg "hold_id is required")
  else
    let? _ := validateAmount "amount" amount in
    let? _ := (if negb (String.eqb destination EmptyString) then validateAccount "destination" destination else Ok tt) in
    Ok (intent_of ledgerID (pb.Intent_Capture
          {| pb.CaptureOp_HoldId := holdID; pb.CaptureOp_Amount := amount; pb.CaptureOp_Destination := destination |})).

Definition void_intent (ledgerID holdID : string) : result pb.Intent :=
  if String.eqb holdID EmptyString then Err (EMsg "hold_id is required")
  else Ok (intent_of ledgerID (pb.Intent_Void {| pb.Void_HoldId := holdID |})).

Definition revert_intent (ledgerID txID : string) (force : bool) : result pb.Intent :=
  Ok (intent_of ledgerID (pb.Intent_Revert
        {| pb.RevertOp_OriginalTransactionId := txID; pb.RevertOp_Force := force; pb.RevertOp_AtEffectiveDate := false;
           pb.RevertOp_Reason := "" |})).

Definition amend_intent (ledgerID txID : string) (metadata : pb.metadata_map) : result pb.Intent :=
  Ok (intent_of ledgerID (pb.Intent_Amend
        {| pb.AmendOp_OriginalTransactionId := txID; pb.AmendOp_MetadataChanges := metadata |})).

Record ConvertParams := {
  cp_Source : string;
  cp_Destination : string;
  cp_SourceAmount : string;
  cp_SourceAsset : string;
  cp_DestAmount : string;
  cp_DestAsset : string;
  cp_Rate : string;
  cp_RateSource : string;
  cp_SlippageAccount : string;
  cp_SlippageAmount : string
}.
Definition convert_operation (p : ConvertParams) : pb.ConvertOperation :=
  {| pb.Convert_Source := cp_Source p; pb.Convert_Destination := cp_Destination p;
     pb.Convert_SourceAmount := cp_SourceAmount p; pb.Convert_SourceAsset := cp_SourceAsset p;
     pb.Convert_DestinationAmount := cp_DestAmount p; pb.Convert_DestinationAsset := cp_DestAsset p;
     pb.Convert_Rate := cp_Rate p; pb.Convert_RateSource := cp_RateSource p;
     pb.Convert_SlippageAccount := cp_SlippageAccount p; pb.Convert_SlippageAmount := cp_SlippageAmount p |}.
Definition convert_intent (ledgerID : string) (p : ConvertParams) : result pb.Intent :=
  let? _ := validateAccount "source" (cp_Source p) in
  let? _ := validateAccount "destination" (cp_Destination p) in
  let? _ := validateAsset "source_asset" (cp_SourceAsset p) in
  let? _ := validateAsset "dest_asset" (cp_DestAsset p) in
  let? _ := validateAmount "source_amount" (cp_SourceAmount p) in
  let? _ := validateAmount "dest_amount" (cp_DestAmount p) in
  let? _ := (if negb (String.eqb (cp_SlippageAmount p) EmptyString)
             then let? _ := validateAccount "slippage_account" (cp_SlippageAccount p) in
                  validateAmount "slippage_amount" (cp_SlippageAmount p)
             else Ok tt) in
  Ok (intent_of ledgerID (pb.Intent_Convert (convert_operation p))).

Section Calls.
Context `{LedgerServiceClient} (c : Client).

(** What follows the checks of a submitting call: its options, then the call. *)
Definition submitted (md : outgoing) (opts : list SubmitOption) (intent : result pb.Intent) : M (reply pb.SubmitResponse) :=
  match intent with
  | Err e => fail e
  | Ok intent => let+ r := client_Submit (intercepted c md) (applySubmitOptions opts intent) in ok r
  end.

Definition Submit (md : outgoing) (b : TransactionBuilder) : M (reply pb.SubmitResponse) := submitted md [] (built b).
Definition Authorize md ledgerID source asset amount expiresAt opts : M (reply pb.SubmitResponse) :=
  submitted md opts (authorize_intent ledgerID source asset amount expiresAt).
Definition Capture md ledgerID holdID amount destination opts : M (reply pb.SubmitResponse) :=
  submitted md opts (capture_intent ledgerID holdID amount destination).
Definition Void md ledgerID holdID opts : M (reply pb.SubmitResponse) := submitted md opts (void_intent ledgerID holdID).
Definition Revert md ledgerID txID force opts : M (reply pb.SubmitResponse) :=
  submitted md opts (revert_intent ledgerID txID force).
Definition Amend md ledgerID txID metadata opts : M (reply pb.SubmitResponse) :=
  submitted md opts (amend_intent ledgerID txID metadata).
Definition Convert md ledgerID params opts : M (reply pb.SubmitResponse) := submitted md opts (convert_intent ledgerID params).

Definition CreateLedger (md : outgoing) (id : string) (opts : list CreateLedgerOption) : prog (reply pb.Ledger) :=
  client_CreateLedger (intercepted c md)
    (fold_left (fun r opt => opt r) opts
       {| pb.CreateLedger_Id := id; pb.CreateLedger_BucketId := "_default"; pb.CreateLedger_Metadata := None |}).
Definition GetLedger (md : outgoing) (id : string) : prog (reply pb.Ledger) := client_GetLedger (intercepted c md) id.
Definition SealLedger (md : outgoing) (id : string) : prog (reply pb.Ledger) := client_SealLedger (intercepted c md) id.
Definition GetTransaction (md : outgoing) (ledgerID txID : string) : prog (reply pb.Transaction) :=
  client_GetTransaction (intercepted c md) ledgerID txID.
Definition GetAccount (md : outgoing) (ledgerID address : string) : prog (reply pb.Account) :=
  client_GetAccount (intercepted c md) ledgerID address.
Definition GetBalance (md : outgoing) (ledgerID account asset : string) : prog (reply pb.GetBalanceResponse) :=
  client_GetBalance (intercepted c md)
    {| pb.GetBalance_LedgerId := ledgerID; pb.GetBalance_Account := account; pb.GetBalance_Asset := asset;
       pb.GetBalance_AsOfValid := None; pb.GetBalance_AsOfSystem := None; pb.GetBalance_IncludeHolds := false |}.
Definition GetHold (md : outgoing) (ledgerID holdID : string) : prog (reply pb.Hold) :=
  client_GetHold (intercepted c md) ledgerID holdID.
Definition GetRelationships (md : outgoing) (ledgerID txID : string) (depth : Z) : prog (reply (list pb.Relationship)) :=
  client_GetRelationships (intercepted c md) ledgerID txID (int32_of depth).

(** The loop over the pages of a listing; [None] when [fuel] pages do not suffice. *)
Fixpoint all_pages {A} (next : string -> prog (reply (list A * string))) (fuel : nat) (pageToken : string) (all : list A)
  : prog (option (reply (list A))) :=
  match fuel with
  | O => Ret None
  | S fuel =>
      let+ resp := next pageToken in
      match resp with
      | Status c e => Ret (Some (Status c e))
      | Reply (items, nextPageToken) =>
          let all := all ++ items in
          if String.eqb nextPageToken EmptyString || String.eqb nextPageToken pageToken then Ret (Some (Reply all))
          else all_pages next fuel nextPageToken all
      end
  end.
Definition ListLedgers (fuel : nat) (md : outgoing) : prog (option (reply (list pb.Ledger))) :=
  all_pages (fun pageToken => client_ListLedgers (intercepted c md) defaultListPageSize pageToken) fuel EmptyString [].
Definition ListHolds (fuel : nat) (md : outgoing) (ledgerID account : string) : prog (option (reply (list pb.Hold))) :=
  all_pages (fun pageToken => client_ListHolds (intercepted c md)
    {| pb.Page_LedgerId := ledgerID; pb.Page_PageSize := defaultListPageSize; pb.Page_PageToken := pageToken |} account)
    fuel EmptyString [].
End Calls.
End sdk.

(** ** The checks are the server's *)

Lemma checked_passes what o : checked what o = Ok tt <-> o = None.
Proof. by destruct o. Qed.

Lemma validateAmount_ok what s : sdk.validateAmount what s = Ok tt <-> exists z, Z_of_dec s = Some z /\ 0 < z.
Proof.
  unfold sdk.validateAmount, FromString. destruct (Z_of_dec s) as [z|]; [|naive_solver].
  unfold IsPositive. cbn [value]. rewrite Z.gtb_ltb. destruct (Z.ltb_spec 0 (Z.sgn z)); cbn [negb].
  - split; [|done]. intros _. exists z. split; [done|lia].
  - split; [done|]. intros (? & [= <-] & ?). lia.
Qed.

Lemma result_unit_and (r : result unit) (k : result unit) : (let? _ := r in k) = Ok tt <-> r = Ok tt /\ k = Ok tt.
Proof. destruct r as [[]|]; naive_solver. Qed.

Lemma validatePosting_ok p :
  sdk.validatePosting (pb.Posting_Source p) (pb.Posting_Destination p) (pb.Posting_Amount p) (pb.Posting_Asset p) = Ok tt <->
  Accounts.Validate (pb.Posting_Source p) = None /\ Accounts.Validate (pb.Posting_Destination p) = None /\
  Assets.Validate (pb.Posting_Asset p) = None /\ exists z, Z_of_dec (pb.Posting_Amount p) = Some z /\ 0 < z.
Proof.
  unfold sdk.validatePosting, sdk.validateAccount, sdk.validateAsset.
  by rewrite !result_unit_and, !checked_passes, validateAmount_ok.
Qed.

(** The server's check of one posting. *)
Definition input_ok (p : PostingInput) : Prop :=
  Accounts.Validate (pi_Source p) = None /\ Accounts.Validate (pi_Destination p) = None /\
  Assets.Validate (pi_Asset p) = None /\ positive (pi_Amount p) = true.
Lemma validate_each_inputs ps : validate_each ps = Ok tt <-> Forall input_ok ps.
Proof.
  induction ps as [|p ps IH]; cbn [validate_each]; [by split|].
  rewrite !result_unit_and, !checked_passes, Forall_cons, <- IH. unfold input_ok.
  destruct (positive (pi_Amount p)); cbn [negb]; naive_solver.
Qed.

Lemma validate_postings_ok what l :
  sdk.validate_postings l = Ok tt <-> exists ps, parse_postings what l = Reply ps /\ validate_each ps = Ok tt.
Proof.
  induction l as [|p l IH]; cbn [sdk.validate_postings parse_postings].
  { split; [intros _; by exists []|done]. }
  pose proof (validatePosting_ok p) as Hp. destruct (sdk.validatePosting _ _ _ _) as [[]|e].
  - destruct (proj1 Hp eq_refl) as (H1 & H2 & H3 & z & Hz & Hpos). unfold parse_amount. rewrite Hz, IH.
    split.
    + intros (ps & -> & Hps). eexists. split; [done|]. apply validate_each_inputs. constructor; [|by apply validate_each_inputs].
      split_and!; [done..|]. cbn. by apply Z.ltb_lt.
    + intros (ps & Hps & Hv). destruct (parse_postings what l) as [ps'|]; [|done]. injection Hps as <-.
      apply validate_each_inputs, Forall_cons in Hv as [_ Hv]. exists ps'. split; [done|by apply validate_each_inputs].
  - split; [done|]. intros (ps & Hps & Hv). exfalso. unfold parse_amount in Hps.
    destruct (Z_of_dec (pb.Posting_Amount p)) as [z|] eqn:Ez; [|done].
    destruct (parse_postings what l) as [ps'|]; [|done]. injection Hps as <-.
    apply validate_each_inputs, Forall_cons in Hv as [(H1 & H2 & H3 & H4) _]. cbn in H1, H2, H3, H4.
    assert (Hno : @Err unit e = Ok tt); [|done]. apply Hp. split_and!; [done..|]. exists z. split; [done|by apply Z.ltb_lt].
Qed.

(** C37: the client's checks are conservative and complete for posts: the builder sends a
    transaction exactly when the server parses every amount and its validation of the
    postings passes; and what it sends is a post of those postings to the ledger, with the
    reference, metadata, key and mode that were set. *)
Theorem sdk_checks_agree what b :
  ((exists i, sdk.built b = Ok i) <->
   (exists ps, parse_postings what (sdk.tb_postings b) = Reply ps /\ validatePostings ps = Ok tt)) /\
  forall i, sdk.built b = Ok i ->
    pb.Intent_Operation i = Some (pb.Intent_Post {| pb.Post_Postings := sdk.tb_postings b |}) /\
    pb.Intent_LedgerId i = sdk.tb_ledgerID b /\ pb.Intent_Reference i = sdk.tb_reference b /\
    pb.Intent_Metadata i = sdk.tb_metadata b /\ pb.Intent_IdempotencyKey i = sdk.tb_ik b /\
    pb.Intent_DryRun i = sdk.tb_dryRun b.
Proof.
  unfold sdk.built. destruct (sdk.tb_postings b) as [|p l] eqn:El.
  { split; [|done]. split; [by intros []|]. intros (ps & [= <-] & Hv). done. }
  rewrite <- El. split.
  - transitivity (sdk.validate_postings (sdk.tb_postings b) = Ok tt).
    { destruct (sdk.validate_postings _) as [[]|]; naive_solver. }
    rewrite (validate_postings_ok what). apply exist_proper. intros ps.
    split; intros [Hp Hv]; (split; [done|]); destruct ps; try done.
    exfalso. rewrite El in Hp. cbn [parse_postings] in Hp.
    destruct (parse_amount _ _); [|done]. by destruct (parse_postings what l).
  - intros i. destruct (sdk.validate_postings _) as [[]|]; [|done]. by intros [= <-].
Qed.

Definition sample_builder : sdk.TransactionBuilder :=
  sdk.WithIdempotencyKey "k1" (sdk.WithReference "payment-123"
    (sdk.Post "users:42:wallet" "fees:platform" "100" "USD/2"
      (sdk.Post "_world" "users:42:wallet" "10000" "USD/2" (sdk.NewTransaction "my-ledger")))).

Lemma sdk_checks_agree_witness :
  (exists i, sdk.built sample_builder = Ok i /\ pb.Intent_Reference i = "payment-123" /\ pb.Intent_LedgerId i = "my-ledger") /\
  is_ok (sdk.built (sdk.Post "a" "b" "0" "USD/2" sample_builder)) = false /\
  is_ok (sdk.built (sdk.NewTransaction "my-ledger")) = false.
Proof.
  assert (Hok : is_ok (sdk.built sample_builder) = true) by (vm_compute; reflexivity).
  destruct (sdk.built sample_builder) as [i|e] eqn:Eb; [|discriminate Hok].
  destruct (proj2 (sdk_checks_agree "posting: invalid amount" sample_builder) i Eb) as (_ & Hl & Hr & _).
  split; [exists i; split; [reflexivity|split; [exact Hr|exact Hl]]|]. split; vm_compute; reflexivity.
Defined.

(** A conversion with a slippage amount and no slippage account: the client refuses it,
    the server parses it and its validation passes. *)
Definition unattributed_slippage : sdk.ConvertParams :=
  {| sdk.cp_Source := "alice"; sdk.cp_Destination := "bob"; sdk.cp_SourceAmount := "100"; sdk.cp_SourceAsset := "USD/2";
     sdk.cp_DestAmount := "90"; sdk.cp_DestAsset := "EUR/2"; sdk.cp_Rate := "0.9"; sdk.cp_RateSource := "desk";
     sdk.cp_SlippageAccount := ""; sdk.cp_SlippageAmount := "1" |}.
Example convert_stricter :
  is_ok (sdk.convert_intent "main" unattributed_slippage) = false /\
  match convert_params (sdk.convert_operation unattributed_slippage) with
  | Reply params => validateConvertParams params = Ok tt
  | Status _ _ => False
  end.
Proof. split; vm_compute; reflexivity. Qed.

(** ** The token the client sends is the one the server reads *)

Lemma substring_all s : String.substring 0 (String.length s) s = s.
Proof. induction s as [|a s IH]; [done|]. cbn. by rewrite IH. Qed.
Lemma bearer_roundtrip token ctx :
  token <> EmptyString -> trim_space token = token ->
  bearerToken {| ctx_metadata := Some (sdk.intercepted {| sdk.bearerToken := token |} ∅); ctx_peer := ctx_peer ctx;
                 ctx_principal := ctx_principal ctx; ctx_identity := ctx_identity ctx |} = Ok token.
Proof.
  intros Hne Htrim. unfold bearerToken, sdk.intercepted. cbn [ctx_metadata sdk.bearerToken].
  rewrite (proj2 (String.eqb_neq _ _) Hne). unfold sdk.withBearer, authorizationMetadataKey.
  change (default [] (∅ !! "authorization")) with ([] : list string). rewrite lookup_insert_eq. cbn [default app id].
  change (String.length bearerPrefix) with 7%nat.
  set (header := "Bearer " +:+ token).
  assert (Hlen : String.length header = (7 + String.length token)%nat) by done.
  assert (Hpre : String.substring 0 7 header = "Bearer ") by (unfold header; cbn; by destruct token).
  assert (Hrest : String.substring 7 (String.length token) header = token) by (unfold header; cbn; apply substring_all).
  rewrite Hlen, Hpre. replace (7 + String.length token - 7)%nat with (String.length token) by lia.
  rewrite Hrest, Htrim, (proj2 (String.eqb_neq _ _) Hne), (proj2 (Nat.leb_gt _ _)); [done|].
  destruct token; [done|cbn; lia].
Qed.
