(* ===== verification/Ledgerctl.v ===== *)
(** * cmd/ledgerctl: the command line client

    The flags of a command are the parameter [Flags] (cobra parses them, and refuses a
    command without its required ones); a command makes one message of them, or an error.
    The printing of the answer is not modelled. *)
From S2P Require Import Prelude GoStd Regex Accounts Assets Bigamount Policy Sha256 Json Storage Db Prog.
From S2P Require Import Logic Postgres BatchManager Redis Chart Planner Cores Operations IntentJson Approval.
From S2P Require Import Proto Auth Grpc Sdk.

Record Flags := {
  GetString : string -> string;
  GetBool : string -> bool;
  GetInt32 : string -> Z;
  GetStringSlice : string -> list string
}.

(** [strings.SplitN]. *)
Fixpoint split_n (n : nat) (c : ascii) (s : string) : list string :=
  match n with
  | O => []
  | S O => [s]
  | S n' => match cut_first c s with Some (u, v) => u :: split_n n' c v | None => [s] end
  end.

(** [time.Parse(time.RFC3339, s)]: unlike encoding/json it takes a one-digit hour, a comma
    before the fraction, and an offset of up to 24:60. *)
Definition time_Parse (s : string) : option Z :=
  let s := if at_ 12 s ":" then String.substring 0 11 s +:+ "0" +:+ String.substring 11 (String.length s - 11) s else s in
  let s := if at_ 19 s "," then String.substring 0 19 s +:+ "." +:+ String.substring 20 (String.length s - 20) s else s in
  parse_date_time 24 60 s.

(** ** connect.go *)

Section Connect.
Context {Custom ClientConn : Type} (NewClient : string -> list (@sdk.DialOption Custom) -> result ClientConn).
Definition requireClient (authToken serverAddr : string) : result (ClientConn * sdk.Client) :=
  if String.eqb authToken EmptyString
  then Err (EMsg "a bearer token is required: set --token or LEDGER_TOKEN (get one via 'make dev-token')")
  else
    match sdk.New NewClient serverAddr [sdk.WithBearerToken authToken] with
    | Err e => Err (EWrap "connecting to server" e)
    | Ok c => Ok c
    end.

(** No command runs without a token, and each of its calls carries it. *)
Lemma requireClient_token authToken serverAddr conn c :
  requireClient authToken serverAddr = Ok (conn, c) ->
  authToken <> EmptyString /\ c = {| sdk.bearerToken := authToken |}.
Proof.
  unfold requireClient, sdk.New. destruct (String.eqb_spec authToken EmptyString) as [|Hne]; [done|].
  destruct (NewClient _ _); [|done]. by intros [= _ <-].
Qed.
End Connect.

(** ** submit.go *)

Fixpoint parsePostings (raw : list string) : result (list pb.Posting) :=
  match raw with
  | [] => Ok []
  | s :: rest =>
      match split_n 4 ":" s with
      | [source; destination; amount; asset] =>
          let? postings := parsePostings rest in
          Ok ({| pb.Posting_Source := source; pb.Posting_Destination := destination; pb.Posting_Amount := amount;
                 pb.Posting_Asset := asset |} :: postings)
      | _ => Err (EMsg "invalid posting format: expected source:destination:amount:asset")
      end
  end.

Fixpoint parse_metadata (raw : list string) (m : gmap string (option pb.MetadataValue)) : result (gmap string (option pb.MetadataValue)) :=
  match raw with
  | [] => Ok m
  | s :: rest =>
      match cut_first "=" s with
      | None => Err (EMsg "invalid metadata format: expected key=value")
      | Some (k, v) => parse_metadata rest (<[k := Some (pb.StringValue v)]> m)
      end
  end.
Definition parseMetadataFlags (raw : list string) : result pb.metadata_map :=
  match raw with
  | [] => Ok None
  | _ => let? m := parse_metadata raw ∅ in Ok (Some m)
  end.

(** The shared flags of every submit command. *)
Definition submitIntent (cmd : Flags) (op : pb.Operation) : pb.Intent :=
  {| pb.Intent_LedgerId := GetString cmd "ledger"; pb.Intent_ValidTime := None;
     pb.Intent_IdempotencyKey := GetString cmd "ik"; pb.Intent_Reference := GetString cmd "reference";
     pb.Intent_Metadata := None; pb.Intent_Operation := Some op; pb.Intent_DryRun := GetBool cmd "dry-run" |}.

Definition SubmitPostCmd (cmd : Flags) : result pb.Intent :=
  match GetStringSlice cmd "posting" with
  | [] => Err (EMsg "at least one --posting is required")
  | raw =>
      let? postings := parsePostings raw in
      Ok (submitIntent cmd (pb.Intent_Post {| pb.Post_Postings := postings |}))
  end.

Definition SubmitAuthorizeCmd (cmd : Flags) : result pb.Intent :=
  let op expiresAt :=
    {| pb.Authorize_Source := GetString cmd "source"; pb.Authorize_DestinationHint := GetString cmd "destination-hint";
       pb.Authorize_Amount := GetString cmd "amount"; pb.Authorize_Asset := GetString cmd "asset";
       pb.Authorize_ExpiresAt := expiresAt |} in
  let expiresStr := GetString cmd "expires-at" in
  if String.eqb expiresStr EmptyString then Ok (submitIntent cmd (pb.Intent_Authorize (op None)))
  else
    match time_Parse expiresStr with
    | None => Err (EWrap "invalid --expires-at" (EMsg "parsing time"))
    | Some t => Ok (submitIntent cmd (pb.Intent_Authorize (op (Some t))))
    end.

Definition SubmitCaptureCmd (cmd : Flags) : result pb.Intent :=
  Ok (submitIntent cmd (pb.Intent_Capture
        {| pb.CaptureOp_HoldId := GetString cmd "hold-id"; pb.CaptureOp_Amount := GetString cmd "amount";
           pb.CaptureOp_Destination := GetString cmd "destination" |})).

Definition SubmitVoidCmd (cmd : Flags) : result pb.Intent :=
  Ok (submitIntent cmd (pb.Intent_Void {| pb.Void_HoldId := GetString cmd "hold-id" |})).

Definition SubmitRevertCmd (cmd : Flags) : result pb.Intent :=
  Ok (submitIntent cmd (pb.Intent_Revert
        {| pb.RevertOp_OriginalTransactionId := GetString cmd "tx-id"; pb.RevertOp_Force := GetBool cmd "force";
           pb.RevertOp_AtEffectiveDate := GetBool cmd "at-effective-date"; pb.RevertOp_Reason := GetString cmd "reason" |})).

Definition SubmitAmendCmd (cmd : Flags) : result pb.Intent :=
  let? meta := parseMetadataFlags (GetStringSlice cmd "metadata") in
  Ok (submitIntent cmd (pb.Intent_Amend
        {| pb.AmendOp_OriginalTransactionId := GetString cmd "tx-id"; pb.AmendOp_MetadataChanges := meta |})).

Definition SubmitConvertCmd (cmd : Flags) : result pb.Intent :=
  Ok (submitIntent cmd (pb.Intent_Convert
        {| pb.Convert_Source := GetString cmd "source"; pb.Convert_Destination := GetString cmd "destination";
           pb.Convert_SourceAmount := GetString cmd "src-amount"; pb.Convert_SourceAsset := GetString cmd "src-asset";
           pb.Convert_DestinationAmount := GetString cmd "dst-amount"; pb.Convert_DestinationAsset := GetString cmd "dst-asset";
           pb.Convert_Rate := GetString cmd "rate"; pb.Convert_RateSource := GetString cmd "rate-source";
           pb.Convert_SlippageAccount := ""; pb.Convert_SlippageAmount := "" |})).

(** The target types of the two metadata operations are numbered alike. *)
Definition target_type (targetType : string) : result Z :=
  if String.eqb targetType "account" then Ok 0
  else if String.eqb targetType "transaction" then Ok 1
  else Err (EMsg "--target-type must be 'account' or 'transaction'").

Definition SubmitSetMetadataCmd (cmd : Flags) : result pb.Intent :=
  let? meta := parseMetadataFlags (GetStringSlice cmd "metadata") in
  let? targetType := target_type (GetString cmd "target-type") in
  Ok (submitIntent cmd (pb.Intent_SetMetadata
        {| pb.SetMetadata_TargetType := targetType; pb.SetMetadata_TargetId := GetString cmd "target-id"; pb.SetMetadata_Metadata := meta |})).

Definition SubmitDeleteMetadataCmd (cmd : Flags) : result pb.Intent :=
  let? targetType := target_type (GetString cmd "target-type") in
  Ok (submitIntent cmd (pb.Intent_DeleteMetadata
        {| pb.DeleteMetadata_TargetType := targetType; pb.DeleteMetadata_TargetId := GetString cmd "target-id";
           pb.DeleteMetadata_Key := GetString cmd "key" |})).

(** ** balance.go, log.go *)

Definition BalanceGetCmd (cmd : Flags) : pb.GetBalanceRequest :=
  {| pb.GetBalance_LedgerId := GetString cmd "ledger"; pb.GetBalance_Account := GetString cmd "account";
     pb.GetBalance_Asset := GetString cmd "asset"; pb.GetBalance_AsOfValid := None; pb.GetBalance_AsOfSystem := None;
     pb.GetBalance_IncludeHolds := GetBool cmd "include-holds" |}.
Definition LogListCmd (cmd : Flags) : pb.PageRequest :=
  {| pb.Page_LedgerId := GetString cmd "ledger"; pb.Page_PageSize := GetInt32 cmd "page-size"; pb.Page_PageToken := "" |}.
Definition LogGetCmd (cmd : Flags) : string * string := (GetString cmd "ledger", GetString cmd "event-id").

(** ** A posting on the command line *)

Definition posting_text (p : pb.Posting) : string :=
  pb.Posting_Source p +:+ String ":" (pb.Posting_Destination p +:+ String ":" (pb.Posting_Amount p +:+ String ":" (pb.Posting_Asset p))).

(** Without a colon. *)
Definition plain (s : string) : Prop := split_on ":" s = [s].

Lemma cut_split c s :
  match cut_first c s with
  | Some (u, v) => split_on c s = u :: split_on c v
  | None => split_on c s = [s]
  end.
Proof.
  unfold split_on. induction s as [|a s IH]; [done|]. cbn [cut_first split_by]. rewrite (Ascii.eqb_sym c a).
  destruct (Ascii.eqb a c); [done|]. destruct (cut_first c s) as [[u v]|]; by rewrite IH.
Qed.

Lemma split_on_app c u v : split_on c (u +:+ String c v) = split_on c u ++ split_on c v.
Proof.
  unfold split_on. induction u as [|a u IH]; cbn; [by rewrite Ascii.eqb_refl|].
  destruct (Ascii.eqb c a); [by rewrite IH|]. rewrite IH.
  pose proof (split_by_not_nil (Ascii.eqb c) u). by destruct (split_by (Ascii.eqb c) u).
Qed.

Lemma split_parts c s x1 x2 x3 l :
  split_on c s = x1 :: x2 :: x3 :: l -> l <> [] -> exists d, split_n 4 c s = [x1; x2; x3; d] /\ split_on c d = l.
Proof.
  intros Hs Hl. cbn [split_n].
  pose proof (cut_split c s) as H1. destruct (cut_first c s) as [[a v1]|]; [|congruence]. rewrite H1 in Hs. injection Hs as -> Hs.
  pose proof (cut_split c v1) as H2. destruct (cut_first c v1) as [[b v2]|]; [|congruence]. rewrite H2 in Hs. injection Hs as -> Hs.
  pose proof (cut_split c v2) as H3. destruct (cut_first c v2) as [[e d]|]; [|congruence]. rewrite H3 in Hs. injection Hs as -> Hs.
  by exists d.
Qed.

Lemma string_split_inj c s t : split_on c s = split_on c t -> s = t.
Proof. intros He. by rewrite <- (join_split c s), He, join_split. Qed.

(** An asset has no colon. *)
Lemma forall_plain p s : p ":"%char = false -> string_forall p s = true -> split_on ":" s = [s].
Proof.
  intros Hp Hs. pose proof (cut_split ":" s) as H. rewrite cut_none_first in H; [done|].
  eapply string_forall_impl; [|exact Hs]. intros a. by apply class_not.
Qed.
Definition asset_char (a : ascii) : bool := is_upper_digit a || Ascii.eqb a "_" || Ascii.eqb a "/".
Lemma asset_plain s : Assets.Validate s = None -> plain s.
Proof.
  unfold Assets.Validate. destruct (String.eqb s ""); [done|]. destruct (re_match assetRe s) eqn:Em; [|done]. intros _.
  apply assetRe_spec in Em as (t & sf & ds & (a & t' & -> & Ha & _ & Ht) & (_ & Hsf) & (_ & Hds) & ->).
  apply (forall_plain asset_char); [done|]. unfold render. rewrite !string_forall_app. cbn [string_forall].
  assert (Hup : forall b, is_upper b = true -> asset_char b = true) by (intros b Hb; unfold asset_char, is_upper_digit; by rewrite Hb).
  assert (Hdg : forall b, is_digit b = true -> asset_char b = true)
    by (intros b Hb; unfold asset_char, is_upper_digit; by rewrite Hb, orb_true_r).
  assert (Hud : forall b, is_upper_digit b = true -> asset_char b = true) by (intros b Hb; unfold asset_char; by rewrite Hb).
  rewrite Hup, (string_forall_impl _ _ _ Hud Ht) by done. cbn [andb]. apply andb_true_iff. split.
  - destruct (String.eqb sf ""); [done|]. exact (string_forall_impl _ _ _ Hup Hsf).
  - destruct (String.eqb ds ""); [done|]. exact (string_forall_impl _ _ _ Hdg Hds).
Qed.

(** What --posting can say. The text source:destination:amount:asset is always read
    as one posting; it is the posting that was meant when source, destination and amount
    have no colon, and otherwise its asset is one the server refuses. So the command posts
    to accounts of one segment only, whatever the amount and the asset: a text like
    _world:users:001:wallet:10000:USD/2 never posts. *)
Theorem parsePostings_plain p :
  exists q, parsePostings [posting_text p] = Ok [q] /\
    (plain (pb.Posting_Source p) -> plain (pb.Posting_Destination p) -> plain (pb.Posting_Amount p) -> q = p) /\
    (Assets.Validate (pb.Posting_Asset q) = None ->
     plain (pb.Posting_Source p) /\ plain (pb.Posting_Destination p) /\ plain (pb.Posting_Amount p)).
Proof.
  assert (Hs : split_on ":" (posting_text p) = split_on ":" (pb.Posting_Source p) ++ split_on ":" (pb.Posting_Destination p) ++
                 split_on ":" (pb.Posting_Amount p) ++ split_on ":" (pb.Posting_Asset p)).
  { unfold posting_text. by rewrite !split_on_app. }
  assert (Hne : forall s, exists x l, split_on ":" s = x :: l).
  { intros s. pose proof (split_by_not_nil (Ascii.eqb ":") s). unfold split_on. destruct (split_by _ s) as [|x l]; [done|by exists x, l]. }
  unfold plain. destruct p as [src dst amt ast]. cbn [pb.Posting_Source pb.Posting_Destination pb.Posting_Amount pb.Posting_Asset] in *.
  destruct (split_on ":" (posting_text _)) as [|x1 [|x2 [|x3 l]]] eqn:Et.
  1-3: apply (f_equal (@length _)) in Hs; destruct (Hne src) as (? & ? & E1), (Hne dst) as (? & ? & E2), (Hne amt) as (? & ? & E3),
    (Hne ast) as (? & ? & E4); rewrite E1, E2, E3, E4, !length_app in Hs; simpl in Hs; lia.
  assert (Hl : l <> []).
  { intros ->. apply (f_equal (@length _)) in Hs. destruct (Hne src) as (? & ? & E1), (Hne dst) as (? & ? & E2), (Hne amt) as (? & ? & E3),
      (Hne ast) as (? & ? & E4). rewrite E1, E2, E3, E4, !length_app in Hs. simpl in Hs. lia. }
  destruct (split_parts _ _ _ _ _ _ Et Hl) as (d & Hp & Hd). cbn [parsePostings]. rewrite Hp. eexists. split; [reflexivity|]. split.
  - intros H1 H2 H3. rewrite H1, H2, H3 in Hs. injection Hs as -> -> -> Hs. rewrite Hs in Hd. by apply string_split_inj in Hd as ->.
  - intros Ha%asset_plain. unfold plain in Ha. cbn in Ha. rewrite Ha in Hd. subst l.
    destruct (Hne src) as (y1 & l1 & E1), (Hne dst) as (y2 & l2 & E2), (Hne amt) as (y3 & l3 & E3), (Hne ast) as (y4 & l4 & E4).
    assert (Hlen : length (l1 ++ l2 ++ l3 ++ l4) = 0%nat).
    { apply (f_equal (@length _)) in Hs. rewrite E1, E2, E3, E4 in Hs. rewrite !length_app in *. simpl in *. lia. }
    rewrite !length_app in Hlen. destruct l1, l2, l3; try (simpl in Hlen; lia).
    pose proof (join_split ":" src) as J1. pose proof (join_split ":" dst) as J2. pose proof (join_split ":" amt) as J3.
    rewrite E1 in J1. rewrite E2 in J2. rewrite E3 in J3. cbn in J1, J2, J3. by rewrite E1, E2, E3, J1, J2, J3.
Qed.

(** The first posting of src/test/postman/grpcurl-examples.sh. *)
Definition example_posting : pb.Posting :=
  {| pb.Posting_Source := "_world"; pb.Posting_Destination := "users:001:wallet"; pb.Posting_Amount := "10000"; pb.Posting_Asset := "USD/2" |}.

Lemma parsePostings_plain_witness :
  posting_text example_posting = "_world:users:001:wallet:10000:USD/2" /\
  exists q, parsePostings [posting_text example_posting] = Ok [q] /\ Assets.Validate (pb.Posting_Asset q) <> None.
Proof.
  split; [vm_compute; reflexivity|]. destruct (parsePostings_plain example_posting) as (q & Hq & _ & Hno).
  exists q. split; [exact Hq|]. intros Ha. destruct (Hno Ha) as (_ & Hd & _). vm_compute in Hd. discriminate Hd.
Defined.
Example plain_posting :
  parsePostings ["_world:alice:10000:USD/2"] =
  Ok [{| pb.Posting_Source := "_world"; pb.Posting_Destination := "alice"; pb.Posting_Amount := "10000"; pb.Posting_Asset := "USD/2" |}].
Proof. vm_compute. reflexivity. Qed.
Example lenient_time : time_Parse "2024-03-01T1:00:00,5Z" = parse_rfc3339 "2024-03-01T01:00:00.5Z".
Proof. vm_compute. reflexivity. Qed.
