(* ===== verification/Rpc.v ===== *)
(** * The server: every RPC behind its interceptors

    [handle] dispatches a request to its handler, and [serve_rpc] is what cmd/server wires
    together: authentication first, then the rate limit, then the handler (the logging
    interceptor changes nothing). The streams of Import and Export carry what the client
    sends and how much it takes; Subscribe is in Subscriptions.v. A method the service
    does not define is answered by the generated [Unimplemented] one. *)
From S2P Require Import Prelude GoStd Regex Accounts Assets Policy Sha256 Json Storage Db Prog.
From S2P Require Import Logic Postgres BatchManager Redis Chart Planner Cores Operations IntentJson Approval.
From S2P Require Import Proto Auth RateLimit Grpc Queries Transfer Config.

Inductive rpc :=
| CreateLedgerRpc (req : pb.CreateLedgerRequest)
| GetLedgerRpc (id : string)
| ListLedgersRpc (size : Z) (token : string)
| SealLedgerRpc (id : string)
| SubmitRpc (intent : option pb.Intent)
| GetTransactionRpc (ledgerID transactionID : string)
| ListTransactionsRpc (req : pb.PageRequest)
| GetAccountRpc (ledgerID address : string)
| ListAccountsRpc (req : pb.PageRequest)
| GetBalanceRpc (req : pb.GetBalanceRequest)
| GetAggregatedBalancesRpc (req : pb.GetAggregatedBalancesRequest)
| GetHoldRpc (ledgerID holdID : string)
| ListHoldsRpc (req : pb.PageRequest) (account : string)
| GetRelationshipsRpc (ledgerID transactionID : string) (depth : Z)
| ListLogEventsRpc (req : pb.PageRequest)
| GetLogEventRpc (ledgerID eventID : string)
| VerifyBatchRpc (ledgerID batchID : string)
| InsertSchemaRpc (ledgerID : string) (schemaBytes : option string) (version : string)
| GetSchemaRpc (ledgerID version : string)
| SubmitForApprovalRpc (req : pb.SubmitForApprovalRequest)
| ApproveIntentRpc (req : pb.ApproveIntentRequest)
| ListPendingApprovalsRpc (req : pb.PageRequest)
| ImportRpc (events : list pb.LogEvent) (broken : bool).

Definition method_name (r : rpc) : string :=
  match r with
  | CreateLedgerRpc _ => "CreateLedger"
  | GetLedgerRpc _ => "GetLedger"
  | ListLedgersRpc _ _ => "ListLedgers"
  | SealLedgerRpc _ => "SealLedger"
  | SubmitRpc _ => "Submit"
  | GetTransactionRpc _ _ => "GetTransaction"
  | ListTransactionsRpc _ => "ListTransactions"
  | GetAccountRpc _ _ => "GetAccount"
  | ListAccountsRpc _ => "ListAccounts"
  | GetBalanceRpc _ => "GetBalance"
  | GetAggregatedBalancesRpc _ => "GetAggregatedBalances"
  | GetHoldRpc _ _ => "GetHold"
  | ListHoldsRpc _ _ => "ListHolds"
  | GetRelationshipsRpc _ _ _ => "GetRelationships"
  | ListLogEventsRpc _ => "ListLogEvents"
  | GetLogEventRpc _ _ => "GetLogEvent"
  | VerifyBatchRpc _ _ => "VerifyBatch"
  | InsertSchemaRpc _ _ _ => "InsertSchema"
  | GetSchemaRpc _ _ => "GetSchema"
  | SubmitForApprovalRpc _ => "SubmitForApproval"
  | ApproveIntentRpc _ => "ApproveIntent"
  | ListPendingApprovalsRpc _ => "ListPendingApprovals"
  | ImportRpc _ _ => "Import"
  end.
Definition full_method (r : rpc) : string := "/ledger.v1.LedgerService/" +:+ method_name r.

Inductive answer :=
| ALedger (a : pb.Ledger)
| ALedgers (a : list pb.Ledger * string)
| ASubmit (a : pb.SubmitResponse)
| ATransaction (a : pb.Transaction)
| ATransactions (a : list pb.Transaction * string)
| AAccount (a : pb.Account)
| AAccounts (a : list pb.Account * string)
| ABalance (a : pb.GetBalanceResponse)
| ABalances (a : gmap string string)
| AHold (a : pb.Hold)
| AHolds (a : list pb.Hold * string)
| ARelationships (a : list pb.Relationship)
| AEvents (a : list pb.LogEvent * string)
| AEvent (a : pb.LogEvent)
| AVerified (a : pb.VerifyBatchResponse)
| ASchema (a : pb.Schema)
| AIntentId (a : string)
| AApproved (a : pb.ApproveIntentResponse)
| AApprovals (a : list pb.PendingApproval * string)
| AImported (n : Z).

Definition answering {A} (f : A -> answer) (m : prog (reply A)) : prog (reply answer) :=
  let! a := m in Ret (Reply (f a)).

(** A method that [LedgerService] does not have, and takes from the embedded
    [UnimplementedLedgerServiceServer]. *)
Definition unimplemented (method : string) : prog (reply answer) :=
  status Unimplemented ("method " +:+ method +:+ " not implemented").

Section Server.
Context `{Deps} (tz : Z -> Z) (admins : gset string).

Definition handle (r : rpc) (ctx : Context) : prog (reply answer) :=
  match r with
  | CreateLedgerRpc req => answering ALedger (rpc_CreateLedger ctx req)
  | GetLedgerRpc id => answering ALedger (rpc_GetLedger ctx id)
  | ListLedgersRpc size token => answering ALedgers (rpc_ListLedgers ctx size token)
  | SealLedgerRpc id => answering ALedger (rpc_SealLedger ctx id)
  | SubmitRpc intent => answering ASubmit (rpc_Submit ctx intent)
  | GetTransactionRpc l id => answering ATransaction (rpc_GetTransaction ctx l id)
  | ListTransactionsRpc req => answering ATransactions (rpc_ListTransactions ctx req)
  | GetAccountRpc l a => answering AAccount (rpc_GetAccount ctx l a)
  | ListAccountsRpc req => answering AAccounts (rpc_ListAccounts ctx req)
  | GetBalanceRpc req => answering ABalance (rpc_GetBalance ctx req)
  | GetAggregatedBalancesRpc req => answering ABalances (rpc_GetAggregatedBalances ctx req)
  | GetHoldRpc l id => answering AHold (rpc_GetHold ctx l id)
  | ListHoldsRpc req account => answering AHolds (rpc_ListHolds ctx req account)
  | GetRelationshipsRpc l id depth => answering ARelationships (rpc_GetRelationships ctx l id depth)
  | ListLogEventsRpc req => answering AEvents (rpc_ListLogEvents ctx req)
  | GetLogEventRpc l id => answering AEvent (rpc_GetLogEvent ctx l id)
  | VerifyBatchRpc _ batch => answering AVerified (rpc_VerifyBatch tz ctx batch)
  | InsertSchemaRpc _ _ _ => unimplemented "InsertSchema"
  | GetSchemaRpc l version => answering ASchema (rpc_GetSchema ctx l version)
  | SubmitForApprovalRpc req => answering AIntentId (rpc_SubmitForApproval ctx req)
  | ApproveIntentRpc req => answering AApproved (rpc_ApproveIntent ctx req)
  | ListPendingApprovalsRpc req => answering AApprovals (rpc_ListPendingApprovals ctx req)
  | ImportRpc events broken => answering AImported (rpc_Import admins ctx events broken)
  end.

(** [newGRPCServer]: the chain of interceptors of a request. *)
Definition serve_rpc (authn : option Authenticator) (limiter : option Limiter) (r : rpc) (ctx : Context) : prog (reply answer) :=
  authenticated authn (full_method r) ctx (fun ctx => rate_limited limiter (full_method r) ctx (handle r)).

(** The stream of Export behind the same interceptors: what was sent, and how it ended. *)
Definition serve_export (authn : option Authenticator) (limiter : option Limiter) (fuel : nat) (ledgerID : string) (send : sink)
    (ctx : Context) : prog (reply (option (list pb.LogEvent * reply unit))) :=
  let method := "/ledger.v1.LedgerService/Export" in
  authenticated authn method ctx (fun ctx => rate_limited limiter method ctx (fun ctx =>
    let+ stream := rpc_Export admins fuel ctx ledgerID send in Ret (Reply stream))).

(** ** What cmd/server wires from its configuration *)

Context `{Jwt}.

Definition newAuthenticator (cfg : Config) : Authenticator :=
  WithIdentity (AuthenticateIdentity {| ja_audience := auth_Audience (cfg_Auth cfg); ja_issuer := auth_Issuer (cfg_Auth cfg) |}).
Definition newRateLimiter (cfg : RateLimitConfig) : option Limiter :=
  if negb (rl_Enabled cfg) then None else Some {| lim_readRPS := rl_ReadRPS cfg; lim_writeRPS := rl_WriteRPS cfg |}.
End Server.

Definition serve_configured `{Deps, Jwt} (tz : Z -> Z) (cfg : Config) (r : rpc) (ctx : Context) : prog (reply answer) :=
  serve_rpc tz (list_to_set (auth_AdminPrincipals (cfg_Auth cfg))) (Some (newAuthenticator cfg))
    (newRateLimiter (cfg_RateLimit cfg)) r ctx.
Definition export_configured `{Deps, Jwt} (cfg : Config) (fuel : nat) (ledgerID : string) (send : sink) (ctx : Context)
  : prog (reply (option (list pb.LogEvent * reply unit))) :=
  serve_export (list_to_set (auth_AdminPrincipals (cfg_Auth cfg))) (Some (newAuthenticator cfg))
    (newRateLimiter (cfg_RateLimit cfg)) fuel ledgerID send ctx.
