(* ===== verification/Gateway.v ===== *)
(** * pkg/proto/ledger/v1/api.pb.gw.go: what the REST gateway makes of a request

    For every method with an HTTP route the generated code has two functions that turn
    the request into a message and call the method: [request_...] over a client, and
    [local_request_...] on a server in the same process. Here both take the call as a
    parameter. The runtime of grpc-gateway (decoding JSON, filling a message from a query,
    matching a path, choosing a route) is the class [Runtime]; what its documentation says
    of it is [RuntimeLaws] (Rest.v). Reading the rest of the body to drop it changes
    nothing, and is left out; so is the metadata of a response, which no handler sets. *)
From S2P Require Import Prelude GoStd Regex Accounts Assets Policy Sha256 Json Storage Db Prog.
From S2P Require Import Logic Postgres BatchManager Redis Chart Planner Cores Operations IntentJson Approval.
From S2P Require Import Proto Auth RateLimit Grpc Queries Transfer Rpc.

(** ** net/http and net/url *)

Abbreviation Values := (gmap string (list string)).
Abbreviation pathParams := (gmap string string).

Record HttpRequest := {
  http_Method : string;
  http_Path : string;                          (* [URL.EscapedPath()] *)
  http_RawQuery : string;
  http_Header : gmap string (list string);
  http_Body : string;
  http_PostForm : result Values                (* a form that is posted as the body; empty otherwise *)
}.

Definition hex_value (a : ascii) : option Z :=
  let n := Z_of_byte a in
  if is_digit a then Some (n - 48)
  else if ascii_between 97 102 a then Some (n - 87)
  else if ascii_between 65 70 a then Some (n - 55)
  else None.

(** [url.QueryUnescape] when [query], and [url.PathUnescape]. *)
Fixpoint unescape (query : bool) (s : string) : result string :=
  match s with
  | EmptyString => Ok EmptyString
  | String a s1 =>
      if Ascii.eqb a "%" then
        match s1 with
        | String h (String l s2) =>
            match hex_value h, hex_value l with
            | Some x, Some y => let? t := unescape query s2 in Ok (String (byte_of_Z (16 * x + y)) t)
            | _, _ => Err (EMsg "invalid URL escape")
            end
        | _ => Err (EMsg "invalid URL escape")
        end
      else let? t := unescape query s1 in Ok (String (if query && Ascii.eqb a "+" then " "%char else a) t)
  end.

Definition contains (c : ascii) (s : string) : bool := match cut_first c s with Some _ => true | None => false end.
Definition add_value (k v : string) (m : Values) : Values := <[k := default [] (m !! k) ++ [v]]> m.

(** One setting of a query: [None] when it is skipped. *)
Definition parse_setting (setting : string) : result (option (string * string)) :=
  if contains ";" setting then Err (EMsg "invalid semicolon separator in query")
  else if String.eqb setting EmptyString then Ok None
  else
    let '(key, value) := default (setting, EmptyString) (cut_first "=" setting) in
    let? key := unescape true key in
    let? value := unescape true value in
    Ok (Some (key, value)).

(** [url.ParseQuery]: the settings that parse, and the first error. *)
Definition ParseQuery (query : string) : Values * option error :=
  fold_left (fun '(m, err) setting =>
    match parse_setting setting with
    | Ok None => (m, err)
    | Ok (Some (k, v)) => (add_value k v m, err)
    | Err e => (m, match err with Some e0 => Some e0 | None => Some e end)
    end) (split_on "&" query) (∅, None).

(** [req.ParseForm()] and [req.Form]: the values of the posted form, then the query's. *)
Definition ParseForm (req : HttpRequest) : result Values :=
  let? posted := http_PostForm req in
  let '(query, err) := ParseQuery (http_RawQuery req) in
  match err with
  | Some e => Err e
  | None => Ok (merge (fun a b => match a, b with None, None => None | _, _ => Some (default [] a ++ default [] b) end) posted query)
  end.

(** ** The messages of api.proto the gateway fills *)

Module msg.
Record ListLedgersRequest := { ListLedgers_PageSize : Z; ListLedgers_PageToken : string }.
Record SubmitRequest := { Submit_Intent : option pb.Intent }.
Record GetTransactionRequest := {
  GetTransaction_LedgerId : string;
  GetTransaction_TransactionId : string;
  GetTransaction_AsOfValid : option Z;
  GetTransaction_AsOfSystem : option Z
}.
Record ListTransactionsRequest := {
  ListTransactions_LedgerId : string;
  ListTransactions_PageSize : Z;
  ListTransactions_PageToken : string;
  ListTransactions_AsOfValid : option Z;
  ListTransactions_AsOfSystem : option Z;
  ListTransactions_Account : string;
  ListTransactions_Reference : string;
  ListTransactions_MetadataFilter : gmap string string
}.
Record GetAccountRequest := {
  GetAccount_LedgerId : string;
  GetAccount_Address : string;
  GetAccount_AsOfValid : option Z;
  GetAccount_AsOfSystem : option Z
}.
Record ListAccountsRequest := {
  ListAccounts_LedgerId : string;
  ListAccounts_PageSize : Z;
  ListAccounts_PageToken : string;
  ListAccounts_AddressPattern : string;
  ListAccounts_MetadataFilter : gmap string string
}.
Record ListHoldsRequest := {
  ListHolds_LedgerId : string;
  ListHolds_PageSize : Z;
  ListHolds_PageToken : string;
  ListHolds_Account : string
}.
Record GetRelationshipsRequest := {
  GetRelationships_LedgerId : string;
  GetRelationships_TransactionId : string;
  GetRelationships_Depth : Z
}.
Record InsertSchemaRequest := {
  InsertSchema_LedgerId : string;
  InsertSchema_SchemaBytes : option string;
  InsertSchema_Version : string
}.
Record ExportRequest := { Export_LedgerId : string; Export_From : option Z; Export_To : option Z }.
End msg.

(** The messages that are read from a body or a query, as codes of types. *)
Inductive kind :=
| KCreateLedger | KSubmit | KInsertSchema | KSubmitForApproval | KApproveIntent
| KListLedgers | KGetTransaction | KListTransactions | KGetAccount | KListAccounts | KGetBalance
| KGetAggregatedBalances | KListHolds | KGetRelationships | KListLogEvents | KListPendingApprovals | KExport.

Definition Message (k : kind) : Type :=
  match k with
  | KCreateLedger => pb.CreateLedgerRequest
  | KSubmit => msg.SubmitRequest
  | KInsertSchema => msg.InsertSchemaRequest
  | KSubmitForApproval => pb.SubmitForApprovalRequest
  | KApproveIntent => pb.ApproveIntentRequest
  | KListLedgers => msg.ListLedgersRequest
  | KGetTransaction => msg.GetTransactionRequest
  | KListTransactions => msg.ListTransactionsRequest
  | KGetAccount => msg.GetAccountRequest
  | KListAccounts => msg.ListAccountsRequest
  | KGetBalance => pb.GetBalanceRequest
  | KGetAggregatedBalances => pb.GetAggregatedBalancesRequest
  | KListHolds => msg.ListHoldsRequest
  | KGetRelationships => msg.GetRelationshipsRequest
  | KListLogEvents | KListPendingApprovals => pb.PageRequest
  | KExport => msg.ExportRequest
  end.

(** ** The runtime of grpc-gateway *)

(** An error of a decoder, by [errors.Is(err, io.EOF)]. *)
Inductive read_error := EOF | ReadError (e : error).

(** utilities.DoubleArray: the fields a query must not set. *)
Record DoubleArray := { Encoding : gmap string Z; Base : list Z; Check_ : list Z }.

(** The arguments of [runtime.NewPattern]: a version, operations, their strings, a verb. *)
Record Pattern := { pat_version : Z; pat_ops : list Z; pat_pool : list string; pat_verb : string }.

Class Runtime := {
  (** [marshaler.NewDecoder(req.Body).Decode] into a zero message: what it holds then, and the error. *)
  Decode : forall k, string -> Message k * option read_error;
  runtime_String : string -> result string;
  PopulateFieldFromPath : forall k, Message k -> string -> string -> result (Message k);
  PopulateQueryParameters : forall k, Message k -> Values -> DoubleArray -> result (Message k);
  (** The metadata of the call for a request, its method and its path; and the context in process. *)
  AnnotateContext : HttpRequest -> string -> string -> reply outgoing;
  AnnotateIncomingContext : HttpRequest -> string -> string -> reply Context;
  (** [runtime.ServeMux]: the index of the route that takes a request, and the values of its path. *)
  mux_match : list (string * Pattern) -> HttpRequest -> option (nat * pathParams);
  (** The segments of the path of a request, as the mux unescapes them. *)
  request_segments : HttpRequest -> list string
}.

Section Requests.
Context `{Runtime}.

(** [val, ok := pathParams[name]; if !ok { ... }; protoReq.F, err = runtime.String(val)]. *)
Definition path_param (params : pathParams) (name : string) : prog (reply string) :=
  match params !! name with
  | None => status InvalidArgument "missing parameter"
  | Some val =>
      match runtime_String val with
      | Ok v => Ret (Reply v)
      | Err e => Ret (Status InvalidArgument (EWrap "type mismatch" e))
      end
  end.

Definition decoded (k : kind) (req : HttpRequest) : prog (reply (Message k)) :=
  match Decode k (http_Body req) with
  | (_, Some (ReadError e)) => Ret (Status InvalidArgument e)
  | (protoReq, _) => Ret (Reply protoReq)
  end.

Definition populated (k : kind) (req : HttpRequest) (filter : DoubleArray) (protoReq : Message k) : prog (reply (Message k)) :=
  match ParseForm req with
  | Err e => Ret (Status InvalidArgument e)
  | Ok form =>
      match PopulateQueryParameters k protoReq form filter with
      | Ok protoReq => Ret (Reply protoReq)
      | Err e => Ret (Status InvalidArgument e)
      end
  end.

(** What the service reads of the messages that have more fields. *)
Definition ListTransactionsPage (r : msg.ListTransactionsRequest) : pb.PageRequest :=
  {| pb.Page_LedgerId := msg.ListTransactions_LedgerId r; pb.Page_PageSize := msg.ListTransactions_PageSize r;
     pb.Page_PageToken := msg.ListTransactions_PageToken r |}.
Definition ListAccountsPage (r : msg.ListAccountsRequest) : pb.PageRequest :=
  {| pb.Page_LedgerId := msg.ListAccounts_LedgerId r; pb.Page_PageSize := msg.ListAccounts_PageSize r;
     pb.Page_PageToken := msg.ListAccounts_PageToken r |}.
Definition ListHoldsPage (r : msg.ListHoldsRequest) : pb.PageRequest :=
  {| pb.Page_LedgerId := msg.ListHolds_LedgerId r; pb.Page_PageSize := msg.ListHolds_PageSize r;
     pb.Page_PageToken := msg.ListHolds_PageToken r |}.

(** A call over the connection, or of the server, with its context. *)
Context {C : Type} (call : rpc -> C -> prog (reply answer)).

(** ** The requests, in the order of the file *)

Definition request_LedgerService_CreateLedger_0 (ctx : C) (req : HttpRequest) (params : pathParams) : prog (reply answer) :=
  let! protoReq := decoded KCreateLedger req in
  call (CreateLedgerRpc protoReq) ctx.
Definition local_request_LedgerService_CreateLedger_0 (ctx : C) (req : HttpRequest) (params : pathParams) : prog (reply answer) :=
  let! protoReq := decoded KCreateLedger req in
  call (CreateLedgerRpc protoReq) ctx.

Definition request_LedgerService_GetLedger_0 (ctx : C) (req : HttpRequest) (params : pathParams) : prog (reply answer) :=
  let! id := path_param params "id" in
  call (GetLedgerRpc id) ctx.
Definition local_request_LedgerService_GetLedger_0 (ctx : C) (req : HttpRequest) (params : pathParams) : prog (reply answer) :=
  let! id := path_param params "id" in
  call (GetLedgerRpc id) ctx.

Definition filter_LedgerService_ListLedgers_0 : DoubleArray :=
  {| Encoding := ∅; Base := []; Check_ := [] |}.
Definition request_LedgerService_ListLedgers_0 (ctx : C) (req : HttpRequest) (params : pathParams) : prog (reply answer) :=
  let! protoReq := populated KListLedgers req filter_LedgerService_ListLedgers_0
    {| msg.ListLedgers_PageSize := 0; msg.ListLedgers_PageToken := EmptyString |} in
  call (ListLedgersRpc (msg.ListLedgers_PageSize protoReq) (msg.ListLedgers_PageToken protoReq)) ctx.
Definition local_request_LedgerService_ListLedgers_0 (ctx : C) (req : HttpRequest) (params : pathParams) : prog (reply answer) :=
  let! protoReq := populated KListLedgers req filter_LedgerService_ListLedgers_0
    {| msg.ListLedgers_PageSize := 0; msg.ListLedgers_PageToken := EmptyString |} in
  call (ListLedgersRpc (msg.ListLedgers_PageSize protoReq) (msg.ListLedgers_PageToken protoReq)) ctx.

Definition request_LedgerService_SealLedger_0 (ctx : C) (req : HttpRequest) (params : pathParams) : prog (reply answer) :=
  let! id := path_param params "id" in
  call (SealLedgerRpc id) ctx.
Definition local_request_LedgerService_SealLedger_0 (ctx : C) (req : HttpRequest) (params : pathParams) : prog (reply answer) :=
  let! id := path_param params "id" in
  call (SealLedgerRpc id) ctx.

Definition request_LedgerService_Submit_0 (ctx : C) (req : HttpRequest) (params : pathParams) : prog (reply answer) :=
  let! protoReq := decoded KSubmit req in
  match params !! "intent.ledger_id" with
  | None => status InvalidArgument "missing parameter"
  | Some val =>
      match PopulateFieldFromPath KSubmit protoReq "intent.ledger_id" val with
      | Err e => Ret (Status InvalidArgument (EWrap "type mismatch" e))
      | Ok protoReq => call (SubmitRpc (msg.Submit_Intent protoReq)) ctx
      end
  end.
Definition local_request_LedgerService_Submit_0 (ctx : C) (req : HttpRequest) (params : pathParams) : prog (reply answer) :=
  let! protoReq := decoded KSubmit req in
  match params !! "intent.ledger_id" with
  | None => status InvalidArgument "missing parameter"
  | Some val =>
      match PopulateFieldFromPath KSubmit protoReq "intent.ledger_id" val with
      | Err e => Ret (Status InvalidArgument (EWrap "type mismatch" e))
      | Ok protoReq => call (SubmitRpc (msg.Submit_Intent protoReq)) ctx
      end
  end.

Definition filter_LedgerService_GetTransaction_0 : DoubleArray :=
  {| Encoding := {["ledger_id" := 0; "transaction_id" := 1]}; Base := [1; 1; 2; 0; 0]; Check_ := [0; 1; 1; 2; 3] |}.
Definition request_LedgerService_GetTransaction_0 (ctx : C) (req : HttpRequest) (params : pathParams) : prog (reply answer) :=
  let! ledger_id := path_param params "ledger_id" in
  let! transaction_id := path_param params "transaction_id" in
  let! protoReq := populated KGetTransaction req filter_LedgerService_GetTransaction_0
    {| msg.GetTransaction_LedgerId := ledger_id; msg.GetTransaction_TransactionId := transaction_id;
       msg.GetTransaction_AsOfValid := None; msg.GetTransaction_AsOfSystem := None |} in
  call (GetTransactionRpc (msg.GetTransaction_LedgerId protoReq) (msg.GetTransaction_TransactionId protoReq)) ctx.
Definition local_request_LedgerService_GetTransaction_0 (ctx : C) (req : HttpRequest) (params : pathParams) : prog (reply answer) :=
  let! ledger_id := path_param params "ledger_id" in
  let! transaction_id := path_param params "transaction_id" in
  let! protoReq := populated KGetTransaction req filter_LedgerService_GetTransaction_0
    {| msg.GetTransaction_LedgerId := ledger_id; msg.GetTransaction_TransactionId := transaction_id;
       msg.GetTransaction_AsOfValid := None; msg.GetTransaction_AsOfSystem := None |} in
  call (GetTransactionRpc (msg.GetTransaction_LedgerId protoReq) (msg.GetTransaction_TransactionId protoReq)) ctx.

Definition filter_LedgerService_ListTransactions_0 : DoubleArray :=
  {| Encoding := {["ledger_id" := 0]}; Base := [1; 1; 0]; Check_ := [0; 1; 2] |}.
Definition request_LedgerService_ListTransactions_0 (ctx : C) (req : HttpRequest) (params : pathParams) : prog (reply answer) :=
  let! ledger_id := path_param params "ledger_id" in
  let! protoReq := populated KListTransactions req filter_LedgerService_ListTransactions_0
    {| msg.ListTransactions_LedgerId := ledger_id; msg.ListTransactions_PageSize := 0;
       msg.ListTransactions_PageToken := EmptyString; msg.ListTransactions_AsOfValid := None;
       msg.ListTransactions_AsOfSystem := None; msg.ListTransactions_Account := EmptyString;
       msg.ListTransactions_Reference := EmptyString; msg.ListTransactions_MetadataFilter := ∅ |} in
  call (ListTransactionsRpc (ListTransactionsPage protoReq)) ctx.
Definition local_request_LedgerService_ListTransactions_0 (ctx : C) (req : HttpRequest) (params : pathParams) : prog (reply answer) :=
  let! ledger_id := path_param params "ledger_id" in
  let! protoReq := populated KListTransactions req filter_LedgerService_ListTransactions_0
    {| msg.ListTransactions_LedgerId := ledger_id; msg.ListTransactions_PageSize := 0;
       msg.ListTransactions_PageToken := EmptyString; msg.ListTransactions_AsOfValid := None;
       msg.ListTransactions_AsOfSystem := None; msg.ListTransactions_Account := EmptyString;
       msg.ListTransactions_Reference := EmptyString; msg.ListTransactions_MetadataFilter := ∅ |} in
  call (ListTransactionsRpc (ListTransactionsPage protoReq)) ctx.

Definition filter_LedgerService_GetAccount_0 : DoubleArray :=
  {| Encoding := {["ledger_id" := 0; "address" := 1]}; Base := [1; 1; 2; 0; 0]; Check_ := [0; 1; 1; 2; 3] |}.
Definition request_LedgerService_GetAccount_0 (ctx : C) (req : HttpRequest) (params : pathParams) : prog (reply answer) :=
  let! ledger_id := path_param params "ledger_id" in
  let! address := path_param params "address" in
  let! protoReq := populated KGetAccount req filter_LedgerService_GetAccount_0
    {| msg.GetAccount_LedgerId := ledger_id; msg.GetAccount_Address := address; msg.GetAccount_AsOfValid := None;
       msg.GetAccount_AsOfSystem := None |} in
  call (GetAccountRpc (msg.GetAccount_LedgerId protoReq) (msg.GetAccount_Address protoReq)) ctx.
Definition local_request_LedgerService_GetAccount_0 (ctx : C) (req : HttpRequest) (params : pathParams) : prog (reply answer) :=
  let! ledger_id := path_param params "ledger_id" in
  let! address := path_param params "address" in
  let! protoReq := populated KGetAccount req filter_LedgerService_GetAccount_0
    {| msg.GetAccount_LedgerId := ledger_id; msg.GetAccount_Address := address; msg.GetAccount_AsOfValid := None;
       msg.GetAccount_AsOfSystem := None |} in
  call (GetAccountRpc (msg.GetAccount_LedgerId protoReq) (msg.GetAccount_Address protoReq)) ctx.

Definition filter_LedgerService_ListAccounts_0 : DoubleArray :=
  {| Encoding := {["ledger_id" := 0]}; Base := [1; 1; 0]; Check_ := [0; 1; 2] |}.
Definition request_LedgerService_ListAccounts_0 (ctx : C) (req : HttpRequest) (params : pathParams) : prog (reply answer) :=
  let! ledger_id := path_param params "ledger_id" in
  let! protoReq := populated KListAccounts req filter_LedgerService_ListAccounts_0
    {| msg.ListAccounts_LedgerId := ledger_id; msg.ListAccounts_PageSize := 0;
       msg.ListAccounts_PageToken := EmptyString; msg.ListAccounts_AddressPattern := EmptyString;
       msg.ListAccounts_MetadataFilter := ∅ |} in
  call (ListAccountsRpc (ListAccountsPage protoReq)) ctx.
Definition local_request_LedgerService_ListAccounts_0 (ctx : C) (req : HttpRequest) (params : pathParams) : prog (reply answer) :=
  let! ledger_id := path_param params "ledger_id" in
  let! protoReq := populated KListAccounts req filter_LedgerService_ListAccounts_0
    {| msg.ListAccounts_LedgerId := ledger_id; msg.ListAccounts_PageSize := 0;
       msg.ListAccounts_PageToken := EmptyString; msg.ListAccounts_AddressPattern := EmptyString;
       msg.ListAccounts_MetadataFilter := ∅ |} in
  call (ListAccountsRpc (ListAccountsPage protoReq)) ctx.

Definition filter_LedgerService_GetBalance_0 : DoubleArray :=
  {| Encoding := {["ledger_id" := 0; "account" := 1]}; Base := [1; 1; 2; 0; 0]; Check_ := [0; 1; 1; 2; 3] |}.
Definition request_LedgerService_GetBalance_0 (ctx : C) (req : HttpRequest) (params : pathParams) : prog (reply answer) :=
  let! ledger_id := path_param params "ledger_id" in
  let! account := path_param params "account" in
  let! protoReq := populated KGetBalance req filter_LedgerService_GetBalance_0
    {| pb.GetBalance_LedgerId := ledger_id; pb.GetBalance_Account := account; pb.GetBalance_Asset := EmptyString;
       pb.GetBalance_AsOfValid := None; pb.GetBalance_AsOfSystem := None; pb.GetBalance_IncludeHolds := false |} in
  call (GetBalanceRpc protoReq) ctx.
Definition local_request_LedgerService_GetBalance_0 (ctx : C) (req : HttpRequest) (params : pathParams) : prog (reply answer) :=
  let! ledger_id := path_param params "ledger_id" in
  let! account := path_param params "account" in
  let! protoReq := populated KGetBalance req filter_LedgerService_GetBalance_0
    {| pb.GetBalance_LedgerId := ledger_id; pb.GetBalance_Account := account; pb.GetBalance_Asset := EmptyString;
       pb.GetBalance_AsOfValid := None; pb.GetBalance_AsOfSystem := None; pb.GetBalance_IncludeHolds := false |} in
  call (GetBalanceRpc protoReq) ctx.

Definition filter_LedgerService_GetAggregatedBalances_0 : DoubleArray :=
  {| Encoding := {["ledger_id" := 0]}; Base := [1; 1; 0]; Check_ := [0; 1; 2] |}.
Definition request_LedgerService_GetAggregatedBalances_0 (ctx : C) (req : HttpRequest) (params : pathParams) : prog (reply answer) :=
  let! ledger_id := path_param params "ledger_id" in
  let! protoReq := populated KGetAggregatedBalances req filter_LedgerService_GetAggregatedBalances_0
    {| pb.Aggregated_LedgerId := ledger_id; pb.Aggregated_AddressPattern := EmptyString;
       pb.Aggregated_AsOfValid := None; pb.Aggregated_AsOfSystem := None |} in
  call (GetAggregatedBalancesRpc protoReq) ctx.
Definition local_request_LedgerService_GetAggregatedBalances_0 (ctx : C) (req : HttpRequest) (params : pathParams) : prog (reply answer) :=
  let! ledger_id := path_param params "ledger_id" in
  let! protoReq := populated KGetAggregatedBalances req filter_LedgerService_GetAggregatedBalances_0
    {| pb.Aggregated_LedgerId := ledger_id; pb.Aggregated_AddressPattern := EmptyString;
       pb.Aggregated_AsOfValid := None; pb.Aggregated_AsOfSystem := None |} in
  call (GetAggregatedBalancesRpc protoReq) ctx.

Definition request_LedgerService_GetHold_0 (ctx : C) (req : HttpRequest) (params : pathParams) : prog (reply answer) :=
  let! ledger_id := path_param params "ledger_id" in
  let! hold_id := path_param params "hold_id" in
  call (GetHoldRpc ledger_id hold_id) ctx.
Definition local_request_LedgerService_GetHold_0 (ctx : C) (req : HttpRequest) (params : pathParams) : prog (reply answer) :=
  let! ledger_id := path_param params "ledger_id" in
  let! hold_id := path_param params "hold_id" in
  call (GetHoldRpc ledger_id hold_id) ctx.

Definition filter_LedgerService_ListHolds_0 : DoubleArray :=
  {| Encoding := {["ledger_id" := 0]}; Base := [1; 1; 0]; Check_ := [0; 1; 2] |}.
Definition request_LedgerService_ListHolds_0 (ctx : C) (req : HttpRequest) (params : pathParams) : prog (reply answer) :=
  let! ledger_id := path_param params "ledger_id" in
  let! protoReq := populated KListHolds req filter_LedgerService_ListHolds_0
    {| msg.ListHolds_LedgerId := ledger_id; msg.ListHolds_PageSize := 0; msg.ListHolds_PageToken := EmptyString;
       msg.ListHolds_Account := EmptyString |} in
  call (ListHoldsRpc (ListHoldsPage protoReq) (msg.ListHolds_Account protoReq)) ctx.
Definition local_request_LedgerService_ListHolds_0 (ctx : C) (req : HttpRequest) (params : pathParams) : prog (reply answer) :=
  let! ledger_id := path_param params "ledger_id" in
  let! protoReq := populated KListHolds req filter_LedgerService_ListHolds_0
    {| msg.ListHolds_LedgerId := ledger_id; msg.ListHolds_PageSize := 0; msg.ListHolds_PageToken := EmptyString;
       msg.ListHolds_Account := EmptyString |} in
  call (ListHoldsRpc (ListHoldsPage protoReq) (msg.ListHolds_Account protoReq)) ctx.

Definition filter_LedgerService_GetRelationships_0 : DoubleArray :=
  {| Encoding := {["ledger_id" := 0; "transaction_id" := 1]}; Base := [1; 1; 2; 0; 0]; Check_ := [0; 1; 1; 2; 3] |}.
Definition request_LedgerService_GetRelationships_0 (ctx : C) (req : HttpRequest) (params : pathParams) : prog (reply answer) :=
  let! ledger_id := path_param params "ledger_id" in
  let! transaction_id := path_param params "transaction_id" in
  let! protoReq := populated KGetRelationships req filter_LedgerService_GetRelationships_0
    {| msg.GetRelationships_LedgerId := ledger_id; msg.GetRelationships_TransactionId := transaction_id;
       msg.GetRelationships_Depth := 0 |} in
  call (GetRelationshipsRpc (msg.GetRelationships_LedgerId protoReq) (msg.GetRelationships_TransactionId protoReq)
    (msg.GetRelationships_Depth protoReq)) ctx.
Definition local_request_LedgerService_GetRelationships_0 (ctx : C) (req : HttpRequest) (params : pathParams) : prog (reply answer) :=
  let! ledger_id := path_param params "ledger_id" in
  let! transaction_id := path_param params "transaction_id" in
  let! protoReq := populated KGetRelationships req filter_LedgerService_GetRelationships_0
    {| msg.GetRelationships_LedgerId := ledger_id; msg.GetRelationships_TransactionId := transaction_id;
       msg.GetRelationships_Depth := 0 |} in
  call (GetRelationshipsRpc (msg.GetRelationships_LedgerId protoReq) (msg.GetRelationships_TransactionId protoReq)
    (msg.GetRelationships_Depth protoReq)) ctx.

Definition filter_LedgerService_ListLogEvents_0 : DoubleArray :=
  {| Encoding := {["ledger_id" := 0]}; Base := [1; 1; 0]; Check_ := [0; 1; 2] |}.
Definition request_LedgerService_ListLogEvents_0 (ctx : C) (req : HttpRequest) (params : pathParams) : prog (reply answer) :=
  let! ledger_id := path_param params "ledger_id" in
  let! protoReq := populated KListLogEvents req filter_LedgerService_ListLogEvents_0
    {| pb.Page_LedgerId := ledger_id; pb.Page_PageSize := 0; pb.Page_PageToken := EmptyString |} in
  call (ListLogEventsRpc protoReq) ctx.
Definition local_request_LedgerService_ListLogEvents_0 (ctx : C) (req : HttpRequest) (params : pathParams) : prog (reply answer) :=
  let! ledger_id := path_param params "ledger_id" in
  let! protoReq := populated KListLogEvents req filter_LedgerService_ListLogEvents_0
    {| pb.Page_LedgerId := ledger_id; pb.Page_PageSize := 0; pb.Page_PageToken := EmptyString |} in
  call (ListLogEventsRpc protoReq) ctx.

Definition request_LedgerService_GetLogEvent_0 (ctx : C) (req : HttpRequest) (params : pathParams) : prog (reply answer) :=
  let! ledger_id := path_param params "ledger_id" in
  let! event_id := path_param params "event_id" in
  call (GetLogEventRpc ledger_id event_id) ctx.
Definition local_request_LedgerService_GetLogEvent_0 (ctx : C) (req : HttpRequest) (params : pathParams) : prog (reply answer) :=
  let! ledger_id := path_param params "ledger_id" in
  let! event_id := path_param params "event_id" in
  call (GetLogEventRpc ledger_id event_id) ctx.

Definition request_LedgerService_VerifyBatch_0 (ctx : C) (req : HttpRequest) (params : pathParams) : prog (reply answer) :=
  let! ledger_id := path_param params "ledger_id" in
  let! batch_id := path_param params "batch_id" in
  call (VerifyBatchRpc ledger_id batch_id) ctx.
Definition local_request_LedgerService_VerifyBatch_0 (ctx : C) (req : HttpRequest) (params : pathParams) : prog (reply answer) :=
  let! ledger_id := path_param params "ledger_id" in
  let! batch_id := path_param params "batch_id" in
  call (VerifyBatchRpc ledger_id batch_id) ctx.

Definition request_LedgerService_InsertSchema_0 (ctx : C) (req : HttpRequest) (params : pathParams) : prog (reply answer) :=
  let! protoReq := decoded KInsertSchema req in
  let! ledger_id := path_param params "ledger_id" in
  call (InsertSchemaRpc ledger_id (msg.InsertSchema_SchemaBytes protoReq) (msg.InsertSchema_Version protoReq)) ctx.
Definition local_request_LedgerService_InsertSchema_0 (ctx : C) (req : HttpRequest) (params : pathParams) : prog (reply answer) :=
  let! protoReq := decoded KInsertSchema req in
  let! ledger_id := path_param params "ledger_id" in
  call (InsertSchemaRpc ledger_id (msg.InsertSchema_SchemaBytes protoReq) (msg.InsertSchema_Version protoReq)) ctx.

Definition request_LedgerService_GetSchema_0 (ctx : C) (req : HttpRequest) (params : pathParams) : prog (reply answer) :=
  let! ledger_id := path_param params "ledger_id" in
  let! version := path_param params "version" in
  call (GetSchemaRpc ledger_id version) ctx.
Definition local_request_LedgerService_GetSchema_0 (ctx : C) (req : HttpRequest) (params : pathParams) : prog (reply answer) :=
  let! ledger_id := path_param params "ledger_id" in
  let! version := path_param params "version" in
  call (GetSchemaRpc ledger_id version) ctx.

Definition request_LedgerService_SubmitForApproval_0 (ctx : C) (req : HttpRequest) (params : pathParams) : prog (reply answer) :=
  let! protoReq := decoded KSubmitForApproval req in
  let! ledger_id := path_param params "ledger_id" in
  let protoReq :=
    {| pb.ForApproval_LedgerId := ledger_id; pb.ForApproval_IntentPayload := pb.ForApproval_IntentPayload protoReq;
       pb.ForApproval_RequiredApprovers := pb.ForApproval_RequiredApprovers protoReq;
       pb.ForApproval_SubmittedBy := pb.ForApproval_SubmittedBy protoReq;
       pb.ForApproval_ExpiresInSeconds := pb.ForApproval_ExpiresInSeconds protoReq |} in
  call (SubmitForApprovalRpc protoReq) ctx.
Definition local_request_LedgerService_SubmitForApproval_0 (ctx : C) (req : HttpRequest) (params : pathParams) : prog (reply answer) :=
  let! protoReq := decoded KSubmitForApproval req in
  let! ledger_id := path_param params "ledger_id" in
  let protoReq :=
    {| pb.ForApproval_LedgerId := ledger_id; pb.ForApproval_IntentPayload := pb.ForApproval_IntentPayload protoReq;
       pb.ForApproval_RequiredApprovers := pb.ForApproval_RequiredApprovers protoReq;
       pb.ForApproval_SubmittedBy := pb.ForApproval_SubmittedBy protoReq;
       pb.ForApproval_ExpiresInSeconds := pb.ForApproval_ExpiresInSeconds protoReq |} in
  call (SubmitForApprovalRpc protoReq) ctx.

Definition request_LedgerService_ApproveIntent_0 (ctx : C) (req : HttpRequest) (params : pathParams) : prog (reply answer) :=
  let! protoReq := decoded KApproveIntent req in
  let! ledger_id := path_param params "ledger_id" in
  let! intent_id := path_param params "intent_id" in
  let protoReq :=
    {| pb.ApproveIntent_LedgerId := ledger_id; pb.ApproveIntent_IntentId := intent_id;
       pb.ApproveIntent_Principal := pb.ApproveIntent_Principal protoReq;
       pb.ApproveIntent_Signature := pb.ApproveIntent_Signature protoReq |} in
  call (ApproveIntentRpc protoReq) ctx.
Definition local_request_LedgerService_ApproveIntent_0 (ctx : C) (req : HttpRequest) (params : pathParams) : prog (reply answer) :=
  let! protoReq := decoded KApproveIntent req in
  let! ledger_id := path_param params "ledger_id" in
  let! intent_id := path_param params "intent_id" in
  let protoReq :=
    {| pb.ApproveIntent_LedgerId := ledger_id; pb.ApproveIntent_IntentId := intent_id;
       pb.ApproveIntent_Principal := pb.ApproveIntent_Principal protoReq;
       pb.ApproveIntent_Signature := pb.ApproveIntent_Signature protoReq |} in
  call (ApproveIntentRpc protoReq) ctx.

Definition filter_LedgerService_ListPendingApprovals_0 : DoubleArray :=
  {| Encoding := {["ledger_id" := 0]}; Base := [1; 1; 0]; Check_ := [0; 1; 2] |}.
Definition request_LedgerService_ListPendingApprovals_0 (ctx : C) (req : HttpRequest) (params : pathParams) : prog (reply answer) :=
  let! ledger_id := path_param params "ledger_id" in
  let! protoReq := populated KListPendingApprovals req filter_LedgerService_ListPendingApprovals_0
    {| pb.Page_LedgerId := ledger_id; pb.Page_PageSize := 0; pb.Page_PageToken := EmptyString |} in
  call (ListPendingApprovalsRpc protoReq) ctx.
Definition local_request_LedgerService_ListPendingApprovals_0 (ctx : C) (req : HttpRequest) (params : pathParams) : prog (reply answer) :=
  let! ledger_id := path_param params "ledger_id" in
  let! protoReq := populated KListPendingApprovals req filter_LedgerService_ListPendingApprovals_0
    {| pb.Page_LedgerId := ledger_id; pb.Page_PageSize := 0; pb.Page_PageToken := EmptyString |} in
  call (ListPendingApprovalsRpc protoReq) ctx.

(** A stream: what was received of it, and how it ended. *)
Definition export_stream : Type := option (list pb.LogEvent * reply unit).
Context (call_Export : msg.ExportRequest -> C -> prog (reply export_stream)).

Definition filter_LedgerService_Export_0 : DoubleArray :=
  {| Encoding := {["ledger_id" := 0]}; Base := [1; 1; 0]; Check_ := [0; 1; 2] |}.
Definition request_LedgerService_Export_0 (ctx : C) (req : HttpRequest) (params : pathParams) : prog (reply export_stream) :=
  let! ledger_id := path_param params "ledger_id" in
  let! protoReq := populated KExport req filter_LedgerService_Export_0
    {| msg.Export_LedgerId := ledger_id; msg.Export_From := None; msg.Export_To := None |} in
  call_Export protoReq ctx.
End Requests.
