(* ===== verification/Routes.v ===== *)
(** * The routes of the REST gateway, and the HTTP server of cmd/server

    The patterns and the two registrations of api.pb.gw.go: over a client, which cmd/server
    uses with a connection to its own gRPC port, and over a server in the same process,
    which skips the interceptors. A route is what a call of [mux.Handle] registers. Then
    the handlers of [newHTTPServer] in cmd/server/main.go. *)
From S2P Require Import Prelude GoStd Regex Accounts Assets Policy Sha256 Json Storage Db Prog.
From S2P Require Import Logic Postgres BatchManager Redis Chart Planner Cores Operations IntentJson Approval.
From S2P Require Import Proto Auth RateLimit Grpc Queries Transfer Rpc Gateway.

(** What the HTTP client gets: a message or a stream as JSON, the status of an error, the
    mux's own refusal, or what the other handlers of the server write. *)
Inductive http_response :=
| ForwardMessage (a : answer)
| ForwardStream (s : export_stream)
| HTTPError (c : code) (e : error)
| Unrouted
| Page (status : Z) (body : string)
| Redirect (path : string)
| OpenAPISpec
| SwaggerUI.

Definition handler : Type := HttpRequest -> pathParams -> prog http_response.

Record Route := {
  rt_method : string;
  rt_pattern : Pattern;
  rt_rpc : string;
  rt_path : string;
  rt_handler : handler
}.

(** ** Patterns *)

Definition pattern_LedgerService_CreateLedger_0 : Pattern := {|
  pat_version := 1;
  pat_ops := [2; 0; 2; 1];
  pat_pool := ["v1"; "ledgers"];
  pat_verb := EmptyString
|}.
Definition pattern_LedgerService_GetLedger_0 : Pattern := {|
  pat_version := 1;
  pat_ops := [2; 0; 2; 1; 1; 0; 4; 1; 5; 2];
  pat_pool := ["v1"; "ledgers"; "id"];
  pat_verb := EmptyString
|}.
Definition pattern_LedgerService_ListLedgers_0 : Pattern := {|
  pat_version := 1;
  pat_ops := [2; 0; 2; 1];
  pat_pool := ["v1"; "ledgers"];
  pat_verb := EmptyString
|}.
Definition pattern_LedgerService_SealLedger_0 : Pattern := {|
  pat_version := 1;
  pat_ops := [2; 0; 2; 1; 1; 0; 4; 1; 5; 2; 2; 3];
  pat_pool := ["v1"; "ledgers"; "id"; "seal"];
  pat_verb := EmptyString
|}.
Definition pattern_LedgerService_Submit_0 : Pattern := {|
  pat_version := 1;
  pat_ops := [2; 0; 2; 1; 1; 0; 4; 1; 5; 2; 2; 3];
  pat_pool := ["v1"; "ledgers"; "intent.ledger_id"; "submit"];
  pat_verb := EmptyString
|}.
Definition pattern_LedgerService_GetTransaction_0 : Pattern := {|
  pat_version := 1;
  pat_ops := [2; 0; 2; 1; 1; 0; 4; 1; 5; 2; 2; 3; 1; 0; 4; 1; 5; 4];
  pat_pool := ["v1"; "ledgers"; "ledger_id"; "transactions"; "transaction_id"];
  pat_verb := EmptyString
|}.
Definition pattern_LedgerService_ListTransactions_0 : Pattern := {|
  pat_version := 1;
  pat_ops := [2; 0; 2; 1; 1; 0; 4; 1; 5; 2; 2; 3];
  pat_pool := ["v1"; "ledgers"; "ledger_id"; "transactions"];
  pat_verb := EmptyString
|}.
Definition pattern_LedgerService_GetAccount_0 : Pattern := {|
  pat_version := 1;
  pat_ops := [2; 0; 2; 1; 1; 0; 4; 1; 5; 2; 2; 3; 1; 0; 4; 1; 5; 4];
  pat_pool := ["v1"; "ledgers"; "ledger_id"; "accounts"; "address"];
  pat_verb := EmptyString
|}.
Definition pattern_LedgerService_ListAccounts_0 : Pattern := {|
  pat_version := 1;
  pat_ops := [2; 0; 2; 1; 1; 0; 4; 1; 5; 2; 2; 3];
  pat_pool := ["v1"; "ledgers"; "ledger_id"; "accounts"];
  pat_verb := EmptyString
|}.
Definition pattern_LedgerService_GetBalance_0 : Pattern := {|
  pat_version := 1;
  pat_ops := [2; 0; 2; 1; 1; 0; 4; 1; 5; 2; 2; 3; 1; 0; 4; 1; 5; 4; 2; 5];
  pat_pool := ["v1"; "ledgers"; "ledger_id"; "accounts"; "account"; "balance"];
  pat_verb := EmptyString
|}.
Definition pattern_LedgerService_GetAggregatedBalances_0 : Pattern := {|
  pat_version := 1;
  pat_ops := [2; 0; 2; 1; 1; 0; 4; 1; 5; 2; 2; 3];
  pat_pool := ["v1"; "ledgers"; "ledger_id"; "aggregated-balances"];
  pat_verb := EmptyString
|}.
Definition pattern_LedgerService_GetHold_0 : Pattern := {|
  pat_version := 1;
  pat_ops := [2; 0; 2; 1; 1; 0; 4; 1; 5; 2; 2; 3; 1; 0; 4; 1; 5; 4];
  pat_pool := ["v1"; "ledgers"; "ledger_id"; "holds"; "hold_id"];
  pat_verb := EmptyString
|}.
Definition pattern_LedgerService_ListHolds_0 : Pattern := {|
  pat_version := 1;
  pat_ops := [2; 0; 2; 1; 1; 0; 4; 1; 5; 2; 2; 3];
  pat_pool := ["v1"; "ledgers"; "ledger_id"; "holds"];
  pat_verb := EmptyString
|}.
Definition pattern_LedgerService_GetRelationships_0 : Pattern := {|
  pat_version := 1;
  pat_ops := [2; 0; 2; 1; 1; 0; 4; 1; 5; 2; 2; 3; 1; 0; 4; 1; 5; 4; 2; 5];
  pat_pool := ["v1"; "ledgers"; "ledger_id"; "transactions"; "transaction_id"; "relationships"];
  pat_verb := EmptyString
|}.
Definition pattern_LedgerService_ListLogEvents_0 : Pattern := {|
  pat_version := 1;
  pat_ops := [2; 0; 2; 1; 1; 0; 4; 1; 5; 2; 2; 3];
  pat_pool := ["v1"; "ledgers"; "ledger_id"; "log"];
  pat_verb := EmptyString
|}.
Definition pattern_LedgerService_GetLogEvent_0 : Pattern := {|
  pat_version := 1;
  pat_ops := [2; 0; 2; 1; 1; 0; 4; 1; 5; 2; 2; 3; 1; 0; 4; 1; 5; 4];
  pat_pool := ["v1"; "ledgers"; "ledger_id"; "log"; "event_id"];
  pat_verb := EmptyString
|}.
Definition pattern_LedgerService_VerifyBatch_0 : Pattern := {|
  pat_version := 1;
  pat_ops := [2; 0; 2; 1; 1; 0; 4; 1; 5; 2; 2; 3; 1; 0; 4; 1; 5; 4; 2; 5];
  pat_pool := ["v1"; "ledgers"; "ledger_id"; "batches"; "batch_id"; "verify"];
  pat_verb := EmptyString
|}.
Definition pattern_LedgerService_InsertSchema_0 : Pattern := {|
  pat_version := 1;
  pat_ops := [2; 0; 2; 1; 1; 0; 4; 1; 5; 2; 2; 3];
  pat_pool := ["v1"; "ledgers"; "ledger_id"; "schemas"];
  pat_verb := EmptyString
|}.
Definition pattern_LedgerService_GetSchema_0 : Pattern := {|
  pat_version := 1;
  pat_ops := [2; 0; 2; 1; 1; 0; 4; 1; 5; 2; 2; 3; 1; 0; 4; 1; 5; 4];
  pat_pool := ["v1"; "ledgers"; "ledger_id"; "schemas"; "version"];
  pat_verb := EmptyString
|}.
Definition pattern_LedgerService_SubmitForApproval_0 : Pattern := {|
  pat_version := 1;
  pat_ops := [2; 0; 2; 1; 1; 0; 4; 1; 5; 2; 2; 3];
  pat_pool := ["v1"; "ledgers"; "ledger_id"; "approvals"];
  pat_verb := EmptyString
|}.
Definition pattern_LedgerService_ApproveIntent_0 : Pattern := {|
  pat_version := 1;
  pat_ops := [2; 0; 2; 1; 1; 0; 4; 1; 5; 2; 2; 3; 1; 0; 4; 1; 5; 4; 2; 5];
  pat_pool := ["v1"; "ledgers"; "ledger_id"; "approvals"; "intent_id"; "approve"];
  pat_verb := EmptyString
|}.
Definition pattern_LedgerService_ListPendingApprovals_0 : Pattern := {|
  pat_version := 1;
  pat_ops := [2; 0; 2; 1; 1; 0; 4; 1; 5; 2; 2; 3];
  pat_pool := ["v1"; "ledgers"; "ledger_id"; "approvals"];
  pat_verb := EmptyString
|}.
Definition pattern_LedgerService_Export_0 : Pattern := {|
  pat_version := 1;
  pat_ops := [2; 0; 2; 1; 1; 0; 4; 1; 5; 2; 2; 3];
  pat_pool := ["v1"; "ledgers"; "ledger_id"; "export"];
  pat_verb := EmptyString
|}.

(** ** What becomes of a reply *)

Definition ForwardResponseMessage : answer -> http_response := ForwardMessage.
Definition ForwardResponseStream : export_stream -> http_response := ForwardStream.

Definition forward_LedgerService_CreateLedger_0 := ForwardResponseMessage.
Definition forward_LedgerService_GetLedger_0 := ForwardResponseMessage.
Definition forward_LedgerService_ListLedgers_0 := ForwardResponseMessage.
Definition forward_LedgerService_SealLedger_0 := ForwardResponseMessage.
Definition forward_LedgerService_Submit_0 := ForwardResponseMessage.
Definition forward_LedgerService_GetTransaction_0 := ForwardResponseMessage.
Definition forward_LedgerService_ListTransactions_0 := ForwardResponseMessage.
Definition forward_LedgerService_GetAccount_0 := ForwardResponseMessage.
Definition forward_LedgerService_ListAccounts_0 := ForwardResponseMessage.
Definition forward_LedgerService_GetBalance_0 := ForwardResponseMessage.
Definition forward_LedgerService_GetAggregatedBalances_0 := ForwardResponseMessage.
Definition forward_LedgerService_GetHold_0 := ForwardResponseMessage.
Definition forward_LedgerService_ListHolds_0 := ForwardResponseMessage.
Definition forward_LedgerService_GetRelationships_0 := ForwardResponseMessage.
Definition forward_LedgerService_ListLogEvents_0 := ForwardResponseMessage.
Definition forward_LedgerService_GetLogEvent_0 := ForwardResponseMessage.
Definition forward_LedgerService_VerifyBatch_0 := ForwardResponseMessage.
Definition forward_LedgerService_InsertSchema_0 := ForwardResponseMessage.
Definition forward_LedgerService_GetSchema_0 := ForwardResponseMessage.
Definition forward_LedgerService_SubmitForApproval_0 := ForwardResponseMessage.
Definition forward_LedgerService_ApproveIntent_0 := ForwardResponseMessage.
Definition forward_LedgerService_ListPendingApprovals_0 := ForwardResponseMessage.
Definition forward_LedgerService_Export_0 := ForwardResponseStream.

(** ** Registration *)

Section Registration.
Context `{Runtime}.

(** The function that [mux.Handle] gets: the context of the call, the request, the answer. *)
Definition serving {C A} (annotate : HttpRequest -> string -> string -> reply C) (rpcMethodName path : string)
    (request : C -> HttpRequest -> pathParams -> prog (reply A)) (forward : A -> http_response) : handler :=
  fun req params =>
    match annotate req rpcMethodName path with
    | Status c e => Ret (HTTPError c e)
    | Reply annotatedContext =>
        let+ r := request annotatedContext req params in
        Ret match r with
            | Status c e => HTTPError c e
            | Reply resp => forward resp
            end
    end.
Definition Handle {C A} annotate (meth : string) (pattern : Pattern) (rpcMethodName path : string)
    (request : C -> HttpRequest -> pathParams -> prog (reply A)) (forward : A -> http_response) : Route :=
  {| rt_method := meth; rt_pattern := pattern; rt_rpc := rpcMethodName; rt_path := path;
     rt_handler := serving annotate rpcMethodName path request forward |}.

Section Server.
Context (server : rpc -> Context -> prog (reply answer)).

Definition server_CreateLedger : Route :=
  Handle AnnotateIncomingContext "POST" pattern_LedgerService_CreateLedger_0 "/ledger.v1.LedgerService/CreateLedger"
    "/v1/ledgers" (local_request_LedgerService_CreateLedger_0 server) forward_LedgerService_CreateLedger_0.
Definition server_GetLedger : Route :=
  Handle AnnotateIncomingContext "GET" pattern_LedgerService_GetLedger_0 "/ledger.v1.LedgerService/GetLedger"
    "/v1/ledgers/{id}" (local_request_LedgerService_GetLedger_0 server) forward_LedgerService_GetLedger_0.
Definition server_ListLedgers : Route :=
  Handle AnnotateIncomingContext "GET" pattern_LedgerService_ListLedgers_0 "/ledger.v1.LedgerService/ListLedgers"
    "/v1/ledgers" (local_request_LedgerService_ListLedgers_0 server) forward_LedgerService_ListLedgers_0.
Definition server_SealLedger : Route :=
  Handle AnnotateIncomingContext "POST" pattern_LedgerService_SealLedger_0 "/ledger.v1.LedgerService/SealLedger"
    "/v1/ledgers/{id}/seal" (local_request_LedgerService_SealLedger_0 server) forward_LedgerService_SealLedger_0.
Definition server_Submit : Route :=
  Handle AnnotateIncomingContext "POST" pattern_LedgerService_Submit_0 "/ledger.v1.LedgerService/Submit"
    "/v1/ledgers/{intent.ledger_id}/submit" (local_request_LedgerService_Submit_0 server) forward_LedgerService_Submit_0.
Definition server_GetTransaction : Route :=
  Handle AnnotateIncomingContext "GET" pattern_LedgerService_GetTransaction_0 "/ledger.v1.LedgerService/GetTransaction"
    "/v1/ledgers/{ledger_id}/transactions/{transaction_id}" (local_request_LedgerService_GetTransaction_0 server) forward_LedgerService_GetTransaction_0.
Definition server_ListTransactions : Route :=
  Handle AnnotateIncomingContext "GET" pattern_LedgerService_ListTransactions_0 "/ledger.v1.LedgerService/ListTransactions"
    "/v1/ledgers/{ledger_id}/transactions" (local_request_LedgerService_ListTransactions_0 server) forward_LedgerService_ListTransactions_0.
Definition server_GetAccount : Route :=
  Handle AnnotateIncomingContext "GET" pattern_LedgerService_GetAccount_0 "/ledger.v1.LedgerService/GetAccount"
    "/v1/ledgers/{ledger_id}/accounts/{address}" (local_request_LedgerService_GetAccount_0 server) forward_LedgerService_GetAccount_0.
Definition server_ListAccounts : Route :=
  Handle AnnotateIncomingContext "GET" pattern_LedgerService_ListAccounts_0 "/ledger.v1.LedgerService/ListAccounts"
    "/v1/ledgers/{ledger_id}/accounts" (local_request_LedgerService_ListAccounts_0 server) forward_LedgerService_ListAccounts_0.
Definition server_GetBalance : Route :=
  Handle AnnotateIncomingContext "GET" pattern_LedgerService_GetBalance_0 "/ledger.v1.LedgerService/GetBalance"
    "/v1/ledgers/{ledger_id}/accounts/{account}/balance" (local_request_LedgerService_GetBalance_0 server) forward_LedgerService_GetBalance_0.
Definition server_GetAggregatedBalances : Route :=
  Handle AnnotateIncomingContext "GET" pattern_LedgerService_GetAggregatedBalances_0 "/ledger.v1.LedgerService/GetAggregatedBalances"
    "/v1/ledgers/{ledger_id}/aggregated-balances" (local_request_LedgerService_GetAggregatedBalances_0 server) forward_LedgerService_GetAggregatedBalances_0.
Definition server_GetHold : Route :=
  Handle AnnotateIncomingContext "GET" pattern_LedgerService_GetHold_0 "/ledger.v1.LedgerService/GetHold"
    "/v1/ledgers/{ledger_id}/holds/{hold_id}" (local_request_LedgerService_GetHold_0 server) forward_LedgerService_GetHold_0.
Definition server_ListHolds : Route :=
  Handle AnnotateIncomingContext "GET" pattern_LedgerService_ListHolds_0 "/ledger.v1.LedgerService/ListHolds"
    "/v1/ledgers/{ledger_id}/holds" (local_request_LedgerService_ListHolds_0 server) forward_LedgerService_ListHolds_0.
Definition server_GetRelationships : Route :=
  Handle AnnotateIncomingContext "GET" pattern_LedgerService_GetRelationships_0 "/ledger.v1.LedgerService/GetRelationships"
    "/v1/ledgers/{ledger_id}/transactions/{transaction_id}/relationships" (local_request_LedgerService_GetRelationships_0 server) forward_LedgerService_GetRelationships_0.
Definition server_ListLogEvents : Route :=
  Handle AnnotateIncomingContext "GET" pattern_LedgerService_ListLogEvents_0 "/ledger.v1.LedgerService/ListLogEvents"
    "/v1/ledgers/{ledger_id}/log" (local_request_LedgerService_ListLogEvents_0 server) forward_LedgerService_ListLogEvents_0.
Definition server_GetLogEvent : Route :=
  Handle AnnotateIncomingContext "GET" pattern_LedgerService_GetLogEvent_0 "/ledger.v1.LedgerService/GetLogEvent"
    "/v1/ledgers/{ledger_id}/log/{event_id}" (local_request_LedgerService_GetLogEvent_0 server) forward_LedgerService_GetLogEvent_0.
Definition server_VerifyBatch : Route :=
  Handle AnnotateIncomingContext "POST" pattern_LedgerService_VerifyBatch_0 "/ledger.v1.LedgerService/VerifyBatch"
    "/v1/ledgers/{ledger_id}/batches/{batch_id}/verify" (local_request_LedgerService_VerifyBatch_0 server) forward_LedgerService_VerifyBatch_0.
Definition server_InsertSchema : Route :=
  Handle AnnotateIncomingContext "POST" pattern_LedgerService_InsertSchema_0 "/ledger.v1.LedgerService/InsertSchema"
    "/v1/ledgers/{ledger_id}/schemas" (local_request_LedgerService_InsertSchema_0 server) forward_LedgerService_InsertSchema_0.
Definition server_GetSchema : Route :=
  Handle AnnotateIncomingContext "GET" pattern_LedgerService_GetSchema_0 "/ledger.v1.LedgerService/GetSchema"
    "/v1/ledgers/{ledger_id}/schemas/{version}" (local_request_LedgerService_GetSchema_0 server) forward_LedgerService_GetSchema_0.
Definition server_SubmitForApproval : Route :=
  Handle AnnotateIncomingContext "POST" pattern_LedgerService_SubmitForApproval_0 "/ledger.v1.LedgerService/SubmitForApproval"
    "/v1/ledgers/{ledger_id}/approvals" (local_request_LedgerService_SubmitForApproval_0 server) forward_LedgerService_SubmitForApproval_0.
Definition server_ApproveIntent : Route :=
  Handle AnnotateIncomingContext "POST" pattern_LedgerService_ApproveIntent_0 "/ledger.v1.LedgerService/ApproveIntent"
    "/v1/ledgers/{ledger_id}/approvals/{intent_id}/approve" (local_request_LedgerService_ApproveIntent_0 server) forward_LedgerService_ApproveIntent_0.
Definition server_ListPendingApprovals : Route :=
  Handle AnnotateIncomingContext "GET" pattern_LedgerService_ListPendingApprovals_0 "/ledger.v1.LedgerService/ListPendingApprovals"
    "/v1/ledgers/{ledger_id}/approvals" (local_request_LedgerService_ListPendingApprovals_0 server) forward_LedgerService_ListPendingApprovals_0.
Definition server_Export : Route :=
  {| rt_method := "GET"; rt_pattern := pattern_LedgerService_Export_0; rt_rpc := EmptyString; rt_path := EmptyString;
     rt_handler := fun _ _ =>
       Ret (HTTPError Unimplemented (EMsg "streaming calls are not yet supported in the in-process transport")) |}.

Definition RegisterLedgerServiceHandlerServer : list Route :=
  [server_CreateLedger; server_GetLedger; server_ListLedgers; server_SealLedger; server_Submit;
   server_GetTransaction; server_ListTransactions; server_GetAccount; server_ListAccounts; server_GetBalance;
   server_GetAggregatedBalances; server_GetHold; server_ListHolds; server_GetRelationships; server_ListLogEvents;
   server_GetLogEvent; server_VerifyBatch; server_InsertSchema; server_GetSchema; server_SubmitForApproval;
   server_ApproveIntent; server_ListPendingApprovals; server_Export].
End Server.

(** The client over a connection. *)
Record ClientConn := {
  cc_call : rpc -> outgoing -> prog (reply answer);
  cc_Export : msg.ExportRequest -> outgoing -> prog (reply export_stream)
}.

Section Client.
Context (conn : ClientConn).

Definition client_CreateLedger : Route :=
  Handle AnnotateContext "POST" pattern_LedgerService_CreateLedger_0 "/ledger.v1.LedgerService/CreateLedger"
    "/v1/ledgers" (request_LedgerService_CreateLedger_0 (cc_call conn)) forward_LedgerService_CreateLedger_0.
Definition client_GetLedger : Route :=
  Handle AnnotateContext "GET" pattern_LedgerService_GetLedger_0 "/ledger.v1.LedgerService/GetLedger"
    "/v1/ledgers/{id}" (request_LedgerService_GetLedger_0 (cc_call conn)) forward_LedgerService_GetLedger_0.
Definition client_ListLedgers : Route :=
  Handle AnnotateContext "GET" pattern_LedgerService_ListLedgers_0 "/ledger.v1.LedgerService/ListLedgers"
    "/v1/ledgers" (request_LedgerService_ListLedgers_0 (cc_call conn)) forward_LedgerService_ListLedgers_0.
Definition client_SealLedger : Route :=
  Handle AnnotateContext "POST" pattern_LedgerService_SealLedger_0 "/ledger.v1.LedgerService/SealLedger"
    "/v1/ledgers/{id}/seal" (request_LedgerService_SealLedger_0 (cc_call conn)) forward_LedgerService_SealLedger_0.
Definition client_Submit : Route :=
  Handle AnnotateContext "POST" pattern_LedgerService_Submit_0 "/ledger.v1.LedgerService/Submit"
    "/v1/ledgers/{intent.ledger_id}/submit" (request_LedgerService_Submit_0 (cc_call conn)) forward_LedgerService_Submit_0.
Definition client_GetTransaction : Route :=
  Handle AnnotateContext "GET" pattern_LedgerService_GetTransaction_0 "/ledger.v1.LedgerService/GetTransaction"
    "/v1/ledgers/{ledger_id}/transactions/{transaction_id}" (request_LedgerService_GetTransaction_0 (cc_call conn)) forward_LedgerService_GetTransaction_0.
Definition client_ListTransactions : Route :=
  Handle AnnotateContext "GET" pattern_LedgerService_ListTransactions_0 "/ledger.v1.LedgerService/ListTransactions"
    "/v1/ledgers/{ledger_id}/transactions" (request_LedgerService_ListTransactions_0 (cc_call conn)) forward_LedgerService_ListTransactions_0.
Definition client_GetAccount : Route :=
  Handle AnnotateContext "GET" pattern_LedgerService_GetAccount_0 "/ledger.v1.LedgerService/GetAccount"
    "/v1/ledgers/{ledger_id}/accounts/{address}" (request_LedgerService_GetAccount_0 (cc_call conn)) forward_LedgerService_GetAccount_0.
Definition client_ListAccounts : Route :=
  Handle AnnotateContext "GET" pattern_LedgerService_ListAccounts_0 "/ledger.v1.LedgerService/ListAccounts"
    "/v1/ledgers/{ledger_id}/accounts" (request_LedgerService_ListAccounts_0 (cc_call conn)) forward_LedgerService_ListAccounts_0.
Definition client_GetBalance : Route :=
  Handle AnnotateContext "GET" pattern_LedgerService_GetBalance_0 "/ledger.v1.LedgerService/GetBalance"
    "/v1/ledgers/{ledger_id}/accounts/{account}/balance" (request_LedgerService_GetBalance_0 (cc_call conn)) forward_LedgerService_GetBalance_0.
Definition client_GetAggregatedBalances : Route :=
  Handle AnnotateContext "GET" pattern_LedgerService_GetAggregatedBalances_0 "/ledger.v1.LedgerService/GetAggregatedBalances"
    "/v1/ledgers/{ledger_id}/aggregated-balances" (request_LedgerService_GetAggregatedBalances_0 (cc_call conn)) forward_LedgerService_GetAggregatedBalances_0.
Definition client_GetHold : Route :=
  Handle AnnotateContext "GET" pattern_LedgerService_GetHold_0 "/ledger.v1.LedgerService/GetHold"
    "/v1/ledgers/{ledger_id}/holds/{hold_id}" (request_LedgerService_GetHold_0 (cc_call conn)) forward_LedgerService_GetHold_0.
Definition client_ListHolds : Route :=
  Handle AnnotateContext "GET" pattern_LedgerService_ListHolds_0 "/ledger.v1.LedgerService/ListHolds"
    "/v1/ledgers/{ledger_id}/holds" (request_LedgerService_ListHolds_0 (cc_call conn)) forward_LedgerService_ListHolds_0.
Definition client_GetRelationships : Route :=
  Handle AnnotateContext "GET" pattern_LedgerService_GetRelationships_0 "/ledger.v1.LedgerService/GetRelationships"
    "/v1/ledgers/{ledger_id}/transactions/{transaction_id}/relationships" (request_LedgerService_GetRelationships_0 (cc_call conn)) forward_LedgerService_GetRelationships_0.
Definition client_ListLogEvents : Route :=
  Handle AnnotateContext "GET" pattern_LedgerService_ListLogEvents_0 "/ledger.v1.LedgerService/ListLogEvents"
    "/v1/ledgers/{ledger_id}/log" (request_LedgerService_ListLogEvents_0 (cc_call conn)) forward_LedgerService_ListLogEvents_0.
Definition client_GetLogEvent : Route :=
  Handle AnnotateContext "GET" pattern_LedgerService_GetLogEvent_0 "/ledger.v1.LedgerService/GetLogEvent"
    "/v1/ledgers/{ledger_id}/log/{event_id}" (request_LedgerService_GetLogEvent_0 (cc_call conn)) forward_LedgerService_GetLogEvent_0.
Definition client_VerifyBatch : Route :=
  Handle AnnotateContext "POST" pattern_LedgerService_VerifyBatch_0 "/ledger.v1.LedgerService/VerifyBatch"
    "/v1/ledgers/{ledger_id}/batches/{batch_id}/verify" (request_LedgerService_VerifyBatch_0 (cc_call conn)) forward_LedgerService_VerifyBatch_0.
Definition client_InsertSchema : Route :=
  Handle AnnotateContext "POST" pattern_LedgerService_InsertSchema_0 "/ledger.v1.LedgerService/InsertSchema"
    "/v1/ledgers/{ledger_id}/schemas" (request_LedgerService_InsertSchema_0 (cc_call conn)) forward_LedgerService_InsertSchema_0.
Definition client_GetSchema : Route :=
  Handle AnnotateContext "GET" pattern_LedgerService_GetSchema_0 "/ledger.v1.LedgerService/GetSchema"
    "/v1/ledgers/{ledger_id}/schemas/{version}" (request_LedgerService_GetSchema_0 (cc_call conn)) forward_LedgerService_GetSchema_0.
Definition client_SubmitForApproval : Route :=
  Handle AnnotateContext "POST" pattern_LedgerService_SubmitForApproval_0 "/ledger.v1.LedgerService/SubmitForApproval"
    "/v1/ledgers/{ledger_id}/approvals" (request_LedgerService_SubmitForApproval_0 (cc_call conn)) forward_LedgerService_SubmitForApproval_0.
Definition client_ApproveIntent : Route :=
  Handle AnnotateContext "POST" pattern_LedgerService_ApproveIntent_0 "/ledger.v1.LedgerService/ApproveIntent"
    "/v1/ledgers/{ledger_id}/approvals/{intent_id}/approve" (request_LedgerService_ApproveIntent_0 (cc_call conn)) forward_LedgerService_ApproveIntent_0.
Definition client_ListPendingApprovals : Route :=
  Handle AnnotateContext "GET" pattern_LedgerService_ListPendingApprovals_0 "/ledger.v1.LedgerService/ListPendingApprovals"
    "/v1/ledgers/{ledger_id}/approvals" (request_LedgerService_ListPendingApprovals_0 (cc_call conn)) forward_LedgerService_ListPendingApprovals_0.
Definition client_Export : Route :=
  Handle AnnotateContext "GET" pattern_LedgerService_Export_0 "/ledger.v1.LedgerService/Export"
    "/v1/ledgers/{ledger_id}/export" (request_LedgerService_Export_0 (cc_Export conn)) forward_LedgerService_Export_0.

Definition RegisterLedgerServiceHandlerClient : list Route :=
  [client_CreateLedger; client_GetLedger; client_ListLedgers; client_SealLedger; client_Submit;
   client_GetTransaction; client_ListTransactions; client_GetAccount; client_ListAccounts; client_GetBalance;
   client_GetAggregatedBalances; client_GetHold; client_ListHolds; client_GetRelationships; client_ListLogEvents;
   client_GetLogEvent; client_VerifyBatch; client_InsertSchema; client_GetSchema; client_SubmitForApproval;
   client_ApproveIntent; client_ListPendingApprovals; client_Export].
Definition RegisterLedgerServiceHandler : list Route := RegisterLedgerServiceHandlerClient.
End Client.

(** [dial] is [grpc.NewClient], which fails on an endpoint it cannot parse. *)
Definition RegisterLedgerServiceHandlerFromEndpoint (dial : string -> result ClientConn) (endpoint : string)
  : result (list Route) :=
  let? conn := dial endpoint in
  Ok (RegisterLedgerServiceHandler conn).

(** The mux of the gateway. *)
Definition serve_mux (mux : list Route) (req : HttpRequest) : prog http_response :=
  match mux_match (map (fun r => (rt_method r, rt_pattern r)) mux) req with
  | None => Ret Unrouted
  | Some (i, params) =>
      match nth_error mux i with
      | Some r => rt_handler r req params
      | None => Ret Unrouted
      end
  end.
End Registration.

(** ** cmd/server/main.go: the HTTP server *)

(** A pattern of [http.ServeMux]: its segments, and whether it ends in a slash and so
    covers what is below it. *)
Record mux_pattern := { mp_segments : list string; mp_subtree : bool }.
Definition http_mux : Type := list (mux_pattern * handler).

Definition parse_mux_pattern (p : string) : mux_pattern :=
  match rev (tail (split_on "/" p)) with
  | EmptyString :: rest => {| mp_segments := rev rest; mp_subtree := true |}
  | _ => {| mp_segments := tail (split_on "/" p); mp_subtree := false |}
  end.

(** [path.Clean] of a rooted path, on its segments; the last slash stays. *)
Fixpoint clean_segments (seen segments : list string) : list string :=
  match segments with
  | [] => rev seen
  | s :: rest =>
      if String.eqb s EmptyString || String.eqb s "." then clean_segments seen rest
      else if String.eqb s ".." then clean_segments (tail seen) rest
      else clean_segments (s :: seen) rest
  end.
Definition cleanPath (p : string) : string :=
  let p := if has_prefix p "/" then p else "/" +:+ p in
  let np := "/" +:+ join_with "/" (clean_segments [] (split_on "/" p)) in
  if has_suffix p "/" && negb (String.eqb np "/") then np +:+ "/" else np.

Definition path_segments (path : string) : list string :=
  map (fun s => match unescape false s with Ok t => t | Err _ => s end) (tail (split_on "/" path)).
Definition exact_match (p : mux_pattern) (segments : list string) : bool :=
  bool_decide (segments = if mp_subtree p then mp_segments p ++ [EmptyString] else mp_segments p).
Definition pattern_matches (p : mux_pattern) (segments : list string) : bool :=
  if mp_subtree p
  then (length (mp_segments p) <? length segments)%nat && bool_decide (take (length (mp_segments p)) segments = mp_segments p)
  else bool_decide (segments = mp_segments p).

(** The pattern with the most segments wins. *)
Fixpoint best_match (mux : http_mux) (segments : list string) (best : option (mux_pattern * handler)) : option (mux_pattern * handler) :=
  match mux with
  | [] => best
  | (p, h) :: rest =>
      let better := match best with Some (q, _) => (length (mp_segments q) <? length (mp_segments p))%nat | None => true end in
      best_match rest segments (if pattern_matches p segments && better then Some (p, h) else best)
  end.

(** [http.ServeMux.ServeHTTP]. *)
Definition ServeHTTP (mux : http_mux) (req : HttpRequest) : prog http_response :=
  let path := if String.eqb (http_Method req) "CONNECT" then http_Path req else cleanPath (http_Path req) in
  let found p := best_match mux (path_segments p) None in
  let exact p := match found p with Some (q, _) => exact_match q (path_segments p) | None => false end in
  if String.eqb (http_Path req) "*" then Ret (Page 400 EmptyString)
  else if negb (exact path) && negb (has_suffix path "/") && exact (path +:+ "/") then Ret (Redirect (path +:+ "/"))
  else if negb (String.eqb path (http_Path req)) then Ret (Redirect path)
  else match found path with Some (_, h) => h req ∅ | None => Ret (Page 404 "404 page not found") end.

Definition HandleFunc (p : string) (h : HttpRequest -> prog http_response) (mux : http_mux) : http_mux :=
  mux ++ [(parse_mux_pattern p, fun req _ => h req)].

Definition registerDocs (mux : http_mux) : http_mux :=
  HandleFunc "/swagger/" (fun _ => Ret SwaggerUI) (HandleFunc "/openapi.json" (fun _ => Ret OpenAPISpec) mux).

Definition httpReadHeaderTimeout : Z := 10 * Second.
Definition httpIdleTimeout : Z := 120 * Second.

Record httpServer := {
  hs_Addr : string;
  hs_Handler : HttpRequest -> prog http_response;
  hs_ReadHeaderTimeout : Z;
  hs_IdleTimeout : Z
}.

Section HTTP.
Context `{Runtime} (dial : string -> result ClientConn).
(** Pinging PostgreSQL and Redis. *)
Context (pool_Ping redis_Ping : M unit).

Definition healthz (_ : HttpRequest) : prog http_response := Ret (Page 200 "ok").
Definition readyz (_ : HttpRequest) : prog http_response :=
  let+ pg := pool_Ping in
  match pg with
  | Err _ => Ret (Page 503 "postgres not ready")
  | Ok _ =>
      let+ rc := redis_Ping in
      Ret match rc with
          | Err _ => Page 503 "redis not ready"
          | Ok _ => Page 200 "ok"
          end
  end.

Definition newHTTPServer (cfg_Port grpcCfg_Port : Z) : result httpServer :=
  let grpcEndpoint := "127.0.0.1:" +:+ dec_of_Z grpcCfg_Port in
  match RegisterLedgerServiceHandlerFromEndpoint dial grpcEndpoint with
  | Err e => Err (EWrap "registering grpc-gateway" e)
  | Ok gwMux =>
      let mux := HandleFunc "/readyz" readyz (HandleFunc "/healthz" healthz []) in
      let mux := HandleFunc "/" (serve_mux gwMux) (registerDocs mux) in
      Ok {| hs_Addr := ":" +:+ dec_of_Z cfg_Port; hs_Handler := ServeHTTP mux;
            hs_ReadHeaderTimeout := httpReadHeaderTimeout; hs_IdleTimeout := httpIdleTimeout |}
  end.
End HTTP.
