(* ===== verification/StoreRules.v ===== *)
(** * Rules of the store methods inside a transaction

    What each store method does to the view of an open transaction, as rules of every
    [TxLogic]: a statement that fails aborts the transaction and needs no continuation. *)
From S2P Require Import Prelude GoStd Regex Accounts Assets Policy Sha256 Json Storage Db Prog.
From S2P Require Import Logic Postgres Bodies BatchManager Redis Chart Planner.

(** ** The discipline of a transaction body *)

Lemma pool_stmt_select {A} (f : Z -> DB -> A) : pool_stmt (fun now d => inr (f now d, d)).
Proof. left. intros now d a d' [= _ <-]. reflexivity. Qed.

Lemma pool_stmt_insert_batch b : pool_stmt (sql_insert_batch b).
Proof. right. intros now d1 d2 Hd. unfold sql_insert_batch. rewrite <- Hd. by repeat case_match. Qed.
Lemma batch_stmt_insert_batch b : batch_stmt (sql_insert_batch b).
Proof. apply pool_batch_stmt, pool_stmt_insert_batch. Qed.

Lemma tx_ok_on_err {A} (m : M A) f : tx_ok m -> tx_ok (on_err m f).
Proof. intros. by apply tx_ok_pbind. Qed.
Lemma tx_ok_affected what n : tx_ok (affected what n).
Proof. unfold affected. by destruct (_ =? _). Qed.
Lemma tx_ok_CurrentBatchID x y l : tx_ok (CurrentBatchID x y l).
Proof.
  unfold CurrentBatchID, CreateBatch. tx_ok. apply tx_ok_exec_pool, pool_stmt_insert_batch.
Qed.
Lemma tx_ok_query_pool {A} (f : Z -> DB -> option A) : tx_ok (query_row Pool (fun now d => inr (f now d, d))).
Proof. apply tx_ok_mbind; [apply tx_ok_exec_pool, pool_stmt_select|]. by intros []. Qed.
Lemma tx_ok_GetSchema_pool l v : tx_ok (GetSchema Pool l v).
Proof.
  unfold GetSchema. apply tx_ok_mbind; [|done]. apply tx_ok_on_err.
  apply (tx_ok_query_pool (fun _ d => _)).
Qed.
Lemma tx_ok_when b m : tx_ok m -> tx_ok (when b m).
Proof. by destruct b. Qed.

#[export] Hint Resolve tx_ok_on_err tx_ok_affected tx_ok_CurrentBatchID tx_ok_GetSchema_pool tx_ok_when : tx_ok.
#[export] Hint Extern 1 (tx_ok (AppendLogEvent _ _)) => unfold AppendLogEvent : tx_ok.

(** Unfold the store methods in a [tx_ok] goal. *)
Ltac tx_ok_store :=
  repeat (tx_ok_step ||
    match goal with
    | |- tx_ok (on_err _ _) => apply tx_ok_on_err
    | |- tx_ok (affected _ _) => apply tx_ok_affected
    | |- tx_ok (when _ _) => apply tx_ok_when
    | |- tx_ok (CurrentBatchID _ _ _) => apply tx_ok_CurrentBatchID
    | |- tx_ok (GetSchema Pool _ _) => apply tx_ok_GetSchema_pool
    | |- tx_ok (if ?b then _ else _) => destruct b
    | |- tx_ok ?m => let h := head_of m in unfold h
    end).

Lemma parseBigInt_dec z field : parseBigInt (dec_of_Z z) field = Ok z.
Proof. unfold parseBigInt. by rewrite Z_of_dec_of_Z. Qed.

Lemma hold_of_row_id h : hold_of_row h = Ok h.
Proof. unfold hold_of_row. rewrite !parseBigInt_dec. simpl. by destruct h. Qed.

(** ** What the statements compute *)

(** The net of a bucket, and what the active holds of an account reserve. *)
Definition posted (ledger account asset : string) (l : list VolumeDeltaRecord) : Z :=
  sum_by (fun r => if bucket_is ledger account asset r then vd_InputDelta r - vd_OutputDelta r else 0) l.
Definition reserved (ledger account asset : string) (l : list HoldRecord) : Z :=
  sum_by (fun h => if hold_on ledger account asset h && hold_live h
                   then ho_AuthorizedAmount h - ho_CapturedAmount h else 0) l.
Definition available (ledger account asset : string) (d : DB) : Z :=
  posted ledger account asset (volumes_delta d) - reserved ledger account asset (holds d).

Lemma sum_by_filter {A} (p : A -> bool) (f : A -> Z) l :
  sum_by f (List.filter p l) = sum_by (fun x => if p x then f x else 0) l.
Proof. induction l as [|x l IH]; simpl; [done|]. destruct (p x); simpl; lia. Qed.

Lemma sum_by_sub {A} (f g : A -> Z) l : sum_by f l - sum_by g l = sum_by (fun x => f x - g x) l.
Proof. induction l; simpl; lia. Qed.

Lemma balance_posted ledger account asset l :
  sum_by vd_InputDelta (List.filter (fun r => bucket_is ledger account asset r && true && true) l) -
  sum_by vd_OutputDelta (List.filter (fun r => bucket_is ledger account asset r && true && true) l) =
  posted ledger account asset l.
Proof.
  rewrite !sum_by_filter, sum_by_sub. unfold posted. apply sum_by_ext. intros r _.
  rewrite !andb_true_r. destruct (bucket_is _ _ _ r); lia.
Qed.

Lemma txwp_exec {A} t0 d (s : stmt A) (Q : result A -> DB -> Prop) :
  (forall a d', s t0 d = inr (a, d') -> Q (Ok a) d') -> txwp t0 (exec Tx s) d Q.
Proof. done. Qed.

(** What an account has available, each of the two sums as some SELECT saw it. *)
Definition assessed (seen : DB -> DB -> Prop) (l account asset : string) (d : DB) (x : Z) : Prop :=
  saw seen d (fun d1 => saw seen d (fun d2 =>
    x = posted l account asset (volumes_delta d1) - reserved l account asset (holds d2))).

(** The key row an operation records. *)
Definition key_rows (t0 : Z) (l key event : string) (ikh : option string) : list IdempotencyKeyRecord :=
  if negb (String.eqb key EmptyString) && bool_decide (ikh <> None)
  then [ik_row t0 {| ik_LedgerID := l; ik_IdempotencyKey := key; ik_IdempotencyHash := ikh; ik_EventID := event;
                     ik_CreatedAt := 0 |}] else [].

Section Methods.
Context {t0 : Z} {W : forall A, prog A -> DB -> (A -> DB -> Prop) -> Prop} {seen : DB -> DB -> Prop} `{!TxLogic t0 W seen}.
Arguments W {A}.
Implicit Types d : DB.

Lemma tl_CurrentBatchID d x y l (Q : result string -> DB -> Prop) :
  (forall r b, Q r (set_log_batches b d)) -> W (CurrentBatchID x y l) d Q.
Proof.
  intros HQ. assert (H0 : forall r, Q r d).
  { intros r. specialize (HQ r (log_batches d)). by destruct d. }
  unfold CurrentBatchID. apply tl_bind, tl_local; [done|]. intros _ _.
  assert (Hend : forall r b, W (let+ _ := trigger (UnlockLedger l) in Ret r) (set_log_batches b d) Q).
  { intros r b. apply tl_bind, tl_local; [done|]. intros _ _. apply tl_ret, HQ. }
  assert (Hend0 : forall r, W (let+ _ := trigger (UnlockLedger l) in Ret r) d Q).
  { intros r. specialize (Hend r (log_batches d)). by destruct d. }
  apply tl_bind, tl_bind, tl_now. intros t. apply tl_bind, tl_local; [done|]. intros [[b|] old] _; [by apply tl_ok|].
  apply tl_bind, tl_ulid. intros id. apply tl_bind, tl_now. intros now.
  apply tl_mbind, tl_wrap. unfold CreateBatch. apply tl_wrap, tl_pool; [apply batch_stmt_insert_batch|].
  intros [u|e] b; [|apply Hend]. apply tl_bind, tl_local; [done|]. intros _ _.
  apply tl_bind. destruct (String.eqb old EmptyString); [apply tl_ret, tl_ok, Hend|].
  apply tl_local; [done|]. intros _ _. apply tl_ok, Hend.
Qed.

(** An INSERT: the row is new, and added. *)
Lemma tl_insert {R} (conflicts : R -> R -> bool) (r : Z -> R) (get : DB -> list R) (set : list R -> DB -> DB) (s : stmt unit) d
    (Q : result unit -> DB -> Prop) :
  gentle s -> (forall now d, s now d = with_table (insert_row conflicts (r now) (get d)) (fun t => set t d)) ->
  (forall t d, get (set t d) = t) ->
  (existsb (conflicts (r t0)) (get d) = false -> Q (Ok tt) (set (get d ++ [r t0]) d)) -> W (exec Tx s) d Q.
Proof.
  intros Hg Hs Hget HQ.
  assert (Hi : forall now d a d', s now d = inr (a, d') -> existsb (conflicts (r now)) (get d) = false /\ d' = set (get d ++ [r now]) d).
  { intros now d0 a d' Ha. rewrite Hs in Ha. apply with_table_inv in Ha as (t & Ht & ->).
    by apply insert_row_inv in Ht as [Hc ->]. }
  apply tl_write; [done| |].
  - intros dr a _ Ha. apply Hi in Ha as [_ Ha]. apply (f_equal (length ∘ get)) in Ha.
    simpl in Ha. rewrite Hget, length_app in Ha. simpl in Ha. lia.
  - intros [] d' Ha. apply Hi in Ha as [Hc ->]. by apply HQ.
Qed.

Lemma tl_appendEvent d l ty payload key ikh vt now (Q : result (string * Z) -> DB -> Prop) :
  (forall e b, Q (Err e) (set_log_batches b d)) ->
  (forall id batch b,
     let ev := log_row (log_event id l (next_seq l d) ty payload key ikh vt now batch) in
     existsb (log_conflict ev) (log_events d) = false -> payload <> None ->
     Q (Ok (id, next_seq l d)) (set_log_events (log_events d ++ [ev]) (set_log_batches b d))) ->
  W (appendEvent l ty payload key ikh vt now) d Q.
Proof.
  intros HE HQ. unfold appendEvent. apply tl_bind, tl_ulid. intros id.
  apply tl_mbind, tl_wrap, tl_CurrentBatchID. intros [batch|e] b; simpl; [|apply HE].
  apply (tl_append l _ (fun seq => log_event id l seq ty payload key ikh vt now batch)); [done|].
  intros Hp Hc. apply tl_ok. by apply HQ.
Qed.

Lemma tl_availableBalance d l account asset (Q : result Z -> DB -> Prop) :
  (forall x, assessed seen l account asset d x -> Q (Ok x) d) -> W (availableBalance l account asset) d Q.
Proof.
  intros HQ. unfold availableBalance. apply tl_mbind, tl_wrap. unfold GetBalance, sql_sum_bucket.
  apply tl_mbind, tl_wrap, (tl_select (fun _ d => _)). intros [i o] (d1 & S1 & [= <- <-]). simpl.
  apply tl_mbind, tl_lift. rewrite parseBigInt_dec. apply tl_mbind, tl_lift. rewrite parseBigInt_dec. apply tl_ok. simpl.
  apply tl_mbind, tl_wrap. unfold GetActiveHoldsTotal, sql_sum_holds. apply tl_mbind, (tl_select (fun _ d => _)).
  intros a (d2 & S2 & <-). apply tl_lift. rewrite parseBigInt_dec. simpl. apply tl_ok, HQ.
  exists d1. split; [done|]. exists d2. split; [done|]. by rewrite balance_posted, sum_by_filter.
Qed.

Lemma tl_InsertTransaction d t (Q : result unit -> DB -> Prop) :
  (existsb (tx_conflict (row_of_tx t)) (transactions d) = false ->
     Q (Ok tt) (set_transactions (transactions d ++ [row_of_tx t]) d)) ->
  W (InsertTransaction Tx t) d Q.
Proof.
  intros HQ. apply tl_on_err, (tl_insert tx_conflict (fun _ => row_of_tx t) transactions set_transactions); auto with gentle.
Qed.

Lemma tl_InsertMetadataHistory d r (Q : result unit -> DB -> Prop) :
  (forall t, Q (Ok tt) (set_metadata_history t d)) -> W (InsertMetadataHistory Tx r) d Q.
Proof.
  intros HQ. eapply tl_wrap, tl_insert; [auto with gentle|reflexivity|done|]. intros _. apply HQ.
Qed.

Lemma tl_UpsertAccount d a (Q : result unit -> DB -> Prop) :
  (forall t, Q (Ok tt) (set_accounts t d)) -> W (UpsertAccount Tx a) d Q.
Proof.
  intros HQ. apply tl_wrap, tl_write; [auto with gentle| |by intros [] d' [= <-]; apply HQ].
  intros dr [] _ _. specialize (HQ (accounts d)). by destruct d.
Qed.

Lemma tl_InsertVolumeDelta d r (Q : result unit -> DB -> Prop) :
  (existsb (delta_conflict (delta_row r)) (volumes_delta d) = false ->
     Q (Ok tt) (set_volumes_delta (volumes_delta d ++ [delta_row r]) d)) ->
  W (InsertVolumeDelta Tx r) d Q.
Proof. intros HQ. apply (tl_insert delta_conflict (fun _ => delta_row r) volumes_delta set_volumes_delta); auto with gentle. Qed.

Lemma tl_InsertHold d h (Q : result unit -> DB -> Prop) :
  (existsb (hold_is (ho_LedgerID h) (ho_HoldID h)) (holds d) = false ->
     Q (Ok tt) (set_holds (holds d ++ [hold_row h]) d)) ->
  W (InsertHold Tx h) d Q.
Proof.
  intros HQ. apply (tl_insert (fun r x => hold_is (ho_LedgerID r) (ho_HoldID r) x) (fun _ => hold_row h) holds set_holds);
    auto with gentle.
Qed.

Lemma tl_GetHold d l id (Q : result HoldRecord -> DB -> Prop) :
  (forall h, find_hold l id d = Some h -> Q (Ok h) d) ->
  (find_hold l id d = None -> Q (Err (EWrap "hold" (ESent ErrNotFound))) d) ->
  W (GetHold Tx l id) d Q.
Proof.
  intros HQ HN. apply tl_mbind, tl_on_err, (tl_locked_row _ (fun _ d => find_hold l id d)).
  - intros dr h Hr Hh. simpl in Hr. apply tl_lift. rewrite hold_of_row_id. apply HQ. by rewrite <- Hr.
  - intros dr Hr Hh. simpl in *. apply HN. by rewrite <- Hr.
Qed.

(** The update of a live hold touches one row, or none, which is an error. *)
Definition update_hold (l id : string) (f : HoldRecord -> HoldRecord) (t : list HoldRecord) : list HoldRecord :=
  map (fun h => if hold_is l id h && hold_live h then f h else h) t.

Lemma update_hold_none l id f t :
  List.filter (fun h => hold_is l id h && hold_live h) t = [] -> update_hold l id f t = t.
Proof.
  intros Hf. unfold update_hold. rewrite <- (map_id t) at 2. apply map_ext_in. intros h Hin.
  destruct (hold_is l id h && hold_live h) eqn:Eh; [|done].
  assert (Hi : In h (List.filter (fun h => hold_is l id h && hold_live h) t)) by (by apply List.filter_In).
  by rewrite Hf in Hi.
Qed.

(** An update that changed no row found none. *)
Lemma update_hold_same l id f t : (forall h, hold_live h = true -> f h <> h) ->
  update_hold l id f t = t -> List.filter (fun h => hold_is l id h && hold_live h) t = [].
Proof.
  intros Hf. induction t as [|h t IH]; [done|]. simpl. intros [= Hh Ht]. rewrite IH by done.
  destruct (hold_is l id h && hold_live h) eqn:Eh; [|done]. apply andb_prop in Eh as [_ Eh]. by apply Hf in Eh.
Qed.

Lemma tl_affected what n d (Q : result unit -> DB -> Prop) :
  (n <> 0 -> Q (Ok tt) d) -> (forall e, n = 0 -> Q (Err e) d) -> W (affected what n) d Q.
Proof.
  intros HQ HE. unfold affected. destruct (Z.eqb_spec n 0) as [En|En]; [apply tl_fail; by apply HE|apply tl_ok; by apply HQ].
Qed.

Lemma tl_update_hold d l id f what (Q : result unit -> DB -> Prop) :
  Q (Ok tt) (set_holds (update_hold l id f (holds d)) d) ->
  (forall e, Q (Err e) d) -> (forall l' id' h, hold_is l' id' (f h) = hold_is l' id' h) -> (forall h, hold_live h = true -> f h <> h) ->
  W (let* n := exec Tx (sql_update_live_hold l id f) in affected what n) d Q.
Proof.
  intros HQ HE Hf Hc. apply tl_mbind, tl_write; [by apply gentle_update_hold| |].
  - intros dr n _ [= <- Hs]. apply tl_affected; [|done]. intros Hn. exfalso. apply Hn.
    apply (f_equal holds) in Hs. by rewrite (update_hold_same l id f (holds dr)).
  - intros n d' [= Hn <-]. apply tl_affected; [done|]. intros e En.
    assert (Hnone : update_hold l id f (holds d) = holds d).
    { apply update_hold_none. destruct (List.filter _ _); [done|]. simpl in Hn. lia. }
    unfold update_hold in Hnone. rewrite Hnone. specialize (HE e). by destruct d.
Qed.

Lemma tl_GetTransaction d l id (Q : result TransactionRecord -> DB -> Prop) :
  (forall r t, saw seen d (fun dr => find_tx l id dr = Some r) -> tx_of_row r = Ok t -> Q (Ok t) d) ->
  (forall e, Q (Err e) d) ->
  W (GetTransaction Tx l id) d Q.
Proof.
  intros HQ HE. apply tl_mbind, tl_on_err, (tl_row (fun _ d => find_tx l id d)); [|apply HE].
  intros r Hr. apply tl_lift. destruct (tx_of_row r) eqn:Et; eauto.
Qed.

Lemma tl_GetLedger d l (Q : result LedgerRecord -> DB -> Prop) :
  (forall r, saw seen d (fun dr => find_ledger l dr = Some r) -> Q (Ok r) d) -> (forall e, Q (Err e) d) ->
  W (GetLedger Tx l) d Q.
Proof. intros HQ HE. apply tl_on_err, (tl_row (fun _ d => find_ledger l d)); [exact HQ|apply HE]. Qed.

Lemma tl_GetRelationships1 d l id (Q : result (list RelationshipRecord) -> DB -> Prop) :
  (forall rs, saw seen d (fun dr => order_by rel_SystemTime (List.filter (touches l id) (relationships dr)) = rs) -> Q (Ok rs) d) ->
  W (GetRelationships Tx l id 1) d Q.
Proof. intros HQ. by apply (tl_select (fun _ d => _)). Qed.

Lemma tl_InsertRelationship d r (Q : result unit -> DB -> Prop) :
  (existsb (rel_conflict (rel_row r)) (relationships d) = false ->
     Q (Ok tt) (set_relationships (relationships d ++ [rel_row r]) d)) ->
  W (InsertRelationship Tx r) d Q.
Proof. intros HQ. apply (tl_insert rel_conflict (fun _ => rel_row r) relationships set_relationships); auto with gentle. Qed.

Lemma tl_record_if_keyed d l key event ikh (Q : result unit -> DB -> Prop) :
  ((forall r, In r (key_rows t0 l key event ikh) -> existsb (ik_conflict r) (idempotency_keys d) = false) ->
   Q (Ok tt) (set_idempotency_keys (idempotency_keys d ++ key_rows t0 l key event ikh) d)) ->
  W (record_if_keyed l key event ikh) d Q.
Proof.
  unfold record_if_keyed, key_rows. destruct (negb _ && _); intros HQ.
  - unfold recordIdempotency, InsertIdempotencyKey. apply tl_bind, tl_on_err.
    set (rec := {| ik_LedgerID := l |}) in *.
    assert (Hi : forall d a d', sql_insert_ik rec t0 d = inr (a, d') -> existsb (ik_conflict (ik_row t0 rec)) (idempotency_keys d) = false /\
        d' = set_idempotency_keys (idempotency_keys d ++ [ik_row t0 rec]) d).
    { intros d0 a d' Ha. unfold sql_insert_ik in Ha. destruct (ik_IdempotencyHash rec); [|done].
      apply with_table_inv in Ha as (t' & Ht & ->). by apply insert_row_inv in Ht as [Hc ->]. }
    apply tl_write; [auto with gentle| |].
    + intros dr a _ [_ Ha]%Hi. apply (f_equal (length ∘ idempotency_keys)) in Ha.
      simpl in Ha. rewrite length_app in Ha. simpl in Ha. lia.
    + intros [] d' [Hc ->]%Hi. apply tl_ok, HQ. intros r [<-|[]]. exact Hc.
  - rewrite app_nil_r in HQ. destruct d. apply tl_ok, HQ. intros r [].
Qed.
End Methods.
(** A body that runs alone assesses the balance of the database. *)
Lemma assessed_now l account asset d x : assessed eq l account asset d x -> x = available l account asset d.
Proof. by intros (d1 & -> & d2 & -> & ->). Qed.
