(* ===== verification/Views.v ===== *)
(** * The rows of one ledger

    [view l] keeps the rows of ledger [l]. A statement is confined to [l] when it leaves
    every other ledger's view alone, and local to [l] when its answer is the same on the
    view. Both lift to programs: [inside] follows a program through the replies its
    statements may give, and what it proves holds of every run. *)
From S2P Require Import Prelude GoStd Json Storage Db Prog Logic Postgres.

Definition view (l : string) (d : DB) : DB := {|
  buckets := [];
  ledgers := List.filter (fun r => String.eqb l (lr_ID r)) (ledgers d);
  log_events := List.filter (fun r => String.eqb l (ev_LedgerID r)) (log_events d);
  log_batches := List.filter (fun r => String.eqb l (ba_LedgerID r)) (log_batches d);
  idempotency_keys := List.filter (fun r => String.eqb l (ik_LedgerID r)) (idempotency_keys d);
  accounts := List.filter (fun r : account_row => String.eqb l (ac_LedgerID r)) (accounts d);
  transactions := List.filter (fun r : tx_row => String.eqb l (tx_LedgerID r)) (transactions d);
  volumes_delta := List.filter (fun r => String.eqb l (vd_LedgerID r)) (volumes_delta d);
  volumes_checkpoint := List.filter (fun r => String.eqb l (cp_LedgerID r)) (volumes_checkpoint d);
  schemas := List.filter (fun r => String.eqb l (sr_LedgerID r)) (schemas d);
  metadata_history := List.filter (fun r : metadata_row => String.eqb l (mh_LedgerID r)) (metadata_history d);
  holds := List.filter (fun r => String.eqb l (ho_LedgerID r)) (holds d);
  relationships := List.filter (fun r => String.eqb l (rel_LedgerID r)) (relationships d);
  policies := List.filter (fun r => String.eqb l (pol_LedgerID r)) (policies d);
  pending_approvals := List.filter (fun r : approval_row => String.eqb l (pa_LedgerID r)) (pending_approvals d)
|}.

(** Only [l]'s rows may differ. *)
Definition others_kept (l : string) (d d' : DB) : Prop := forall l', l' <> l -> view l' d' = view l' d.
#[export] Instance others_kept_preorder l : PreOrder (others_kept l).
Proof. split; [by intros d l'|]. intros d1 d2 d3 H1 H2 l' Hne. by rewrite H2, H1. Qed.

(** ** Lists *)

Lemma filter_append_other {R} (p : R -> bool) x t : p x = false -> List.filter p (t ++ [x]) = List.filter p t.
Proof. intros Hx. rewrite List.filter_app. simpl. by rewrite Hx, app_nil_r. Qed.
Lemma filter_map_other {R} (p : R -> bool) (f : R -> R) t :
  (forall x, p (f x) = p x) -> (forall x, p x = true -> f x = x) -> List.filter p (map f t) = List.filter p t.
Proof.
  intros Hp Hf. induction t as [|x t IH]; simpl; [done|]. rewrite Hp. destruct (p x) eqn:Ex; [by rewrite IH, Hf|done].
Qed.
(** A condition that implies another needs only the rows of the other. *)
Lemma filter_within {R} (p q : R -> bool) t :
  (forall x, q x = true -> p x = true) -> List.filter q (List.filter p t) = List.filter q t.
Proof.
  intros Hpq. induction t as [|x t IH]; simpl; [done|]. destruct (p x) eqn:Ep; simpl; [by rewrite IH|].
  destruct (q x) eqn:Eq; [by rewrite Hpq in Ep|done].
Qed.
Lemma find_within {R} (p q : R -> bool) t :
  (forall x, q x = true -> p x = true) -> List.find q (List.filter p t) = List.find q t.
Proof.
  intros Hpq. induction t as [|x t IH]; simpl; [done|]. destruct (p x) eqn:Ep; simpl.
  - by destruct (q x).
  - destruct (q x) eqn:Eq; [by rewrite Hpq in Ep|done].
Qed.

Lemma eqb_other (l l' : string) : l' <> l -> String.eqb l' l = false.
Proof. by apply String.eqb_neq. Qed.

(** ** Confined statements *)

Definition confined {A} (l : string) (s : stmt A) : Prop := forall now d a d', s now d = inr (a, d') -> others_kept l d d'.

Section Confined.
Context (l : string).

Lemma confined_select {A} (f : Z -> DB -> A) : confined l (fun now d => inr (f now d, d)).
Proof. by intros now d a d' [= _ <-]. Qed.

Ltac other_rows := intros l' Hne; unfold view; simpl; f_equal.

(** An inserted row of [l] is no row of another ledger. *)
Lemma kept_append {R} (proj : R -> string) (t : list R) x l' :
  proj x = l -> l' <> l -> List.filter (fun r => String.eqb l' (proj r)) (t ++ [x]) = List.filter (fun r => String.eqb l' (proj r)) t.
Proof. intros <- Hne. by apply filter_append_other, eqb_other. Qed.
(** An update of rows of [l] leaves the others. *)
Lemma kept_update {R} (proj : R -> string) (p : R -> bool) (f : R -> R) (t : list R) l' :
  (forall x, p x = true -> proj x = l) -> (forall x, p x = true -> proj (f x) = proj x) -> l' <> l ->
  List.filter (fun r => String.eqb l' (proj r)) (map (fun r => if p r then f r else r) t) =
  List.filter (fun r => String.eqb l' (proj r)) t.
Proof.
  intros Hp Hf Hne. apply filter_map_other.
  - intros x. destruct (p x) eqn:Ex; [by rewrite Hf|done].
  - intros x Hx%String.eqb_eq. destruct (p x) eqn:Ex; [|done]. by destruct Hne; rewrite Hx, Hp.
Qed.

Lemma confined_insert {R} (c : R -> R -> bool) (proj : R -> string) (x : R) (get : DB -> list R) (set : list R -> DB -> DB) :
  proj x = l ->
  (forall t d l', List.filter (fun r => String.eqb l' (proj r)) t = List.filter (fun r => String.eqb l' (proj r)) (get d) ->
     view l' (set t d) = view l' d) ->
  confined l (fun _ d => with_table (insert_row c x (get d)) (fun t => set t d)).
Proof.
  intros Hx Hset now d a d' Hs. unfold with_table, insert_row in Hs. destruct (existsb _ _); [done|].
  injection Hs as _ <-. intros l' Hne. apply Hset. by apply kept_append.
Qed.
Ltac confined_insert proj get set := apply (confined_insert _ proj _ get set); [done|]; intros t d l' Ht; unfold view; simpl; by rewrite Ht.

Lemma confined_insert_delta r : vd_LedgerID r = l -> confined l (sql_insert_delta r).
Proof. intros Hl. unfold sql_insert_delta. confined_insert vd_LedgerID volumes_delta set_volumes_delta. Qed.
Lemma confined_insert_tx r : tx_LedgerID r = l -> confined l (sql_insert_tx r).
Proof. intros Hl. unfold sql_insert_tx. confined_insert (fun r : tx_row => tx_LedgerID r) transactions set_transactions. Qed.
Lemma confined_insert_hold r : ho_LedgerID r = l -> confined l (sql_insert_hold r).
Proof. intros Hl. unfold sql_insert_hold. confined_insert ho_LedgerID holds set_holds. Qed.
Lemma confined_insert_rel r : rel_LedgerID r = l -> confined l (sql_insert_relationship r).
Proof. intros Hl. unfold sql_insert_relationship. confined_insert rel_LedgerID relationships set_relationships. Qed.
Lemma confined_insert_history r : mh_LedgerID r = l -> confined l (sql_insert_metadata_history r).
Proof. intros Hl. unfold sql_insert_metadata_history. confined_insert (fun r : metadata_row => mh_LedgerID r) metadata_history set_metadata_history. Qed.
Lemma confined_insert_log r : ev_LedgerID r = l -> confined l (sql_insert_log_event r).
Proof.
  intros Hl now d a d' Hs. unfold sql_insert_log_event in Hs. destruct (ev_Payload r); [|done]. revert now d a d' Hs.
  change (confined l (fun _ d => with_table (insert_row log_conflict (log_row r) (log_events d)) (fun t => set_log_events t d))).
  confined_insert ev_LedgerID log_events set_log_events.
Qed.
Lemma confined_insert_ik r : ik_LedgerID r = l -> confined l (sql_insert_ik r).
Proof.
  intros Hl now d a d' Hs. unfold sql_insert_ik in Hs. destruct (ik_IdempotencyHash r); [|done]. revert d a d' Hs.
  intros d a d' Hs. unfold with_table, insert_row in Hs. destruct (existsb _ _); [done|]. injection Hs as _ <-.
  other_rows. by apply kept_append.
Qed.
Lemma confined_insert_schema v doc e : confined l (sql_insert_schema l v doc e).
Proof.
  intros now d a d' Hs. unfold sql_insert_schema, with_table, insert_row in Hs. destruct (existsb _ _); [done|].
  injection Hs as _ <-. other_rows. by apply kept_append.
Qed.
Lemma confined_insert_batch b : ba_LedgerID b = l -> confined l (sql_insert_batch b).
Proof.
  intros Hl now d a d' Hs. unfold sql_insert_batch in Hs. destruct (existsb _ _); [done|]. destruct (_ && _); [done|].
  injection Hs as _ <-. other_rows. by apply kept_append.
Qed.
Lemma confined_insert_approval a : pa_LedgerID a = l -> confined l (sql_insert_approval a).
Proof.
  intros Hl now d x d' Hs. unfold sql_insert_approval in Hs. repeat (case_match; try done).
  unfold with_table, insert_row in Hs. destruct (existsb _ _); [done|]. injection Hs as _ <-. other_rows. by apply kept_append.
Qed.
Lemma confined_insert_ledger b meta : confined l (sql_insert_ledger l b meta).
Proof.
  intros now d a d' Hs. unfold sql_insert_ledger in Hs. destruct (existsb _ _); [done|]. destruct (negb _); [done|].
  injection Hs as _ <-. other_rows. by apply kept_append.
Qed.
Lemma confined_ensure_bucket b : confined l (sql_ensure_bucket b).
Proof. intros now d a d' [= _ <-] l' _. by destruct (existsb _ _). Qed.
Lemma confined_seal : confined l (sql_seal_ledger l).
Proof.
  intros now d a d' [= _ <-]. other_rows. apply kept_update; [|done|done]. by intros x [->%String.eqb_eq _]%andb_prop.
Qed.
Lemma confined_upsert a : ac_LedgerID a = l -> confined l (sql_upsert_account a).
Proof.
  intros Hl now d x d' [= _ <-]. other_rows. destruct (existsb _ _); [|by apply kept_append].
  apply kept_update; [|done|done]. by intros y [<-%String.eqb_eq _]%andb_prop.
Qed.
Lemma confined_update_metadata id m : confined l (sql_update_tx_metadata l id m).
Proof.
  intros now d a d' [= _ <-]. other_rows. apply kept_update; [|done|done]. by intros x [->%String.eqb_eq _]%andb_prop.
Qed.
Lemma confined_delete_key id k : confined l (sql_delete_tx_key l id k).
Proof.
  intros now d a d' Hs. unfold sql_delete_tx_key in Hs. destruct (existsb _ _); [done|]. injection Hs as _ <-.
  other_rows. apply kept_update; [|done|done]. by intros x [->%String.eqb_eq _]%andb_prop.
Qed.
Lemma confined_update_hold id f : (forall h, ho_LedgerID (f h) = ho_LedgerID h) -> confined l (sql_update_live_hold l id f).
Proof.
  intros Hf now d a d' [= _ <-]. other_rows. apply kept_update; [|done|done].
  intros x [[->%String.eqb_eq _]%andb_prop _]%andb_prop. done.
Qed.
Lemma confined_update_approval p f :
  (forall a, p a = true -> pa_LedgerID a = l) -> (forall now a, pa_LedgerID (f now a) = pa_LedgerID a) ->
  confined l (sql_update_approval p f).
Proof.
  intros Hp Hf now d a d' Hs. unfold sql_update_approval, update_rows in Hs. destruct (forallb _ _); [|done].
  injection Hs as _ <-. other_rows. by apply kept_update.
Qed.
End Confined.

(** ** Programs that stay within a ledger *)

(** The replies a statement can give. *)
Definition answers {A} (s : stmt A) (r : result A) : Prop := forall a, r = Ok a -> exists now d d', s now d = inr (a, d').
Definition possible {X} (e : ev X) : X -> Prop :=
  match e in ev X return X -> Prop with Sql _ s | SqlLock _ s => answers s | _ => fun _ => True end.
Definition ev_within {X} (l : string) (e : ev X) : Prop := match e with Sql _ s | SqlLock _ s => confined l s | _ => True end.

(** [m] performs statements confined to [l] only, and ends with a result in [Q]. *)
Fixpoint inside {A} (l : string) (m : prog A) (Q : A -> Prop) : Prop :=
  match m with
  | Ret a => Q a
  | Vis e k => ev_within l e /\ forall x, possible e x -> inside l (k x) Q
  end.
Definition stays {A} (l : string) (m : prog A) : Prop := inside l m (fun _ => True).
Definition yields {A} (l : string) (m : M A) (P : A -> Prop) : Prop := inside l m (fun r => forall a, r = Ok a -> P a).

Lemma step_possible {X} E (e : ev X) (w : World) : possible e (fst (Prog.step E e w)).
Proof.
  destruct e as [| | |? [] s| | | | | | | | | | | | | | |? rk s]; try done; intros a Ha; cbn [Prog.step] in Ha.
  - unfold sql_pool in Ha. destruct (e_fault E _) as [[]|]; simpl in Ha; try done;
      destruct (s _ (w_db w)) as [c|[x d']] eqn:Es; simpl in Ha; try done. injection Ha as <-. by eauto.
  - unfold sql_tx in Ha. destruct (w_tx w) as [|t0 d|]; simpl in Ha; try done. destruct (e_fault E _); simpl in Ha; [done|].
    destruct (s t0 d) as [c|[x d']] eqn:Es; simpl in Ha; [done|]. injection Ha as <-. by eauto.
  - unfold sql_tx in Ha. destruct (w_tx w) as [|t0 d|]; simpl in Ha; try done. destruct (e_fault E _); simpl in Ha; [done|].
    destruct (s t0 d) as [c|[x d']] eqn:Es; simpl in Ha; [done|]. injection Ha as <-. by eauto.
Qed.

(** The database, and what an open transaction sees of it. *)
Definition kept (l : string) (d0 : DB) (w : World) : Prop :=
  others_kept l d0 (w_db w) /\ match w_tx w with TxOpen _ d => others_kept l d0 d | _ => True end.

Lemma step_kept {X} E (e : ev X) l d0 (w : World) :
  ev_within l e -> kept l d0 w -> kept l d0 (snd (Prog.step E e w)).
Proof.
  intros He [Hd Ht]. unfold kept.
  destruct e as [| | |? [] s| | | | | | | | | | | | | | |? rk s]; cbn [Prog.step]; try done.
  - unfold sql_pool. destruct (e_fault E _) as [[]|]; try done;
      (destruct (s _ (w_db w)) as [c|[x d']] eqn:Es; [done|]; cbn; split; [by etransitivity; [exact Hd|eapply He]|];
       destruct (w_tx w) as [|t0 d1|]; cbn; [done| |done];
       destruct (s _ d1) as [c|[x1 d1']] eqn:Es1; [done|]; by etransitivity; [exact Ht|eapply He]).
  - unfold sql_tx. destruct (w_tx w) as [|t0 d|] eqn:Et; cbn; [by rewrite Et| |by rewrite Et]. destruct (e_fault E (w_tick w)); [done|].
    destruct (s t0 d) as [c|[x d']] eqn:Es; [done|]. split; [done|]. cbn. by etransitivity; [exact Ht|eapply He].
  - by destruct (e_fault E _).
  - unfold commit. destruct (w_tx w) as [|t0 d|] eqn:Et; cbn; [by rewrite Et| |done]. by destruct (e_fault E (w_tick w)) as [[]|].
  - by destruct (e_evicted E _).
  - by destruct (e_fault E _) as [[]|].
  - by destruct (e_fault E _) as [[]|].
  - by destruct (f (w_mgr w)).
  - by destruct (e_fault E _) as [[]|].
  - unfold sql_tx. destruct (w_tx w) as [|t0 d|] eqn:Et; cbn; [by rewrite Et| |by rewrite Et]. destruct (e_fault E (w_tick w)); [done|].
    destruct (s t0 d) as [c|[x d']] eqn:Es; [done|]. split; [done|]. cbn. by etransitivity; [exact Ht|eapply He].
Qed.

Lemma inside_run {A} E l d0 (m : prog A) Q (w : World) :
  inside l m Q -> kept l d0 w -> wp E m w (fun a w' => Q a /\ kept l d0 w').
Proof.
  unfold wp. revert w. induction m as [a|X e k IH]; intros w; cbn [inside run]; [done|]. intros [He Hk] Hw.
  pose proof (step_kept E e l d0 w He Hw) as Hw1. pose proof (step_possible E e w) as Hx.
  destruct (Prog.step E e w) as [x w1]. by apply IH; [apply Hk|].
Qed.

Lemma stays_kept {A} E l (m : prog A) (w : World) :
  stays l m -> w_tx w = TxNone -> wp E m w (fun _ w' => others_kept l (w_db w) (w_db w')).
Proof.
  intros Hm Ht. eapply wp_mono; [apply (inside_run E l (w_db w)); [exact Hm|]|by intros a w' [_ [H _]]].
  split; [done|]. by rewrite Ht.
Qed.

(** *** Rules *)

Section Rules.
Context (l : string).

Lemma inside_mono {A} (m : prog A) (P Q : A -> Prop) : inside l m P -> (forall a, P a -> Q a) -> inside l m Q.
Proof.
  intros Hm HPQ. induction m as [a|X e k IH]; [by apply HPQ|]. destruct Hm as [He Hk]. split; [done|]. intros x Hx. by apply IH, Hk.
Qed.
Lemma inside_pbind {A B} (m : prog A) (f : A -> prog B) P Q :
  inside l m P -> (forall a, P a -> inside l (f a) Q) -> inside l (pbind m f) Q.
Proof.
  intros Hm Hf. induction m as [a|X e k IH]; [by apply Hf|]. destruct Hm as [He Hk]. split; [done|]. intros x Hx. by apply IH, Hk.
Qed.

Lemma stays_ret {A} (a : A) : stays l (Ret a).
Proof. done. Qed.
Lemma stays_trigger {X} (e : ev X) : ev_within l e -> stays l (trigger e).
Proof. by split. Qed.
Lemma stays_exec {A} c (s : stmt A) : confined l s -> stays l (exec c s).
Proof. intros Hs. by apply stays_trigger. Qed.
Lemma stays_lock {A} k (s : stmt A) : confined l s -> stays l (lock_rows k s).
Proof. intros Hs. by apply stays_trigger. Qed.
Lemma stays_pbind {A B} (m : prog A) (f : A -> prog B) : stays l m -> (forall a, stays l (f a)) -> stays l (pbind m f).
Proof. intros Hm Hf. eapply inside_pbind; [exact Hm|]. intros a _. apply Hf. Qed.
Lemma stays_mbind {A B} (m : M A) (f : A -> M B) : stays l m -> (forall a, stays l (f a)) -> stays l (mbind m f).
Proof. intros Hm Hf. apply stays_pbind; [done|]. intros [a|e]; [apply Hf|done]. Qed.
Lemma stays_query {A} c (s : stmt (option A)) : confined l s -> stays l (query_row c s).
Proof. intros Hs. apply stays_mbind; [by apply stays_exec|]. by intros []. Qed.
Lemma stays_query_locked {A} c k (s : stmt (option A)) : confined l s -> stays l (query_locked c k s).
Proof. intros Hs. apply stays_mbind; [destruct c; [by apply stays_exec|by apply stays_lock]|]. by intros []. Qed.
Lemma yields_stays {A} (m : M A) P : yields l m P -> stays l m.
Proof. intros Hm. by eapply inside_mono. Qed.
Lemma stays_yields {A B} (m : M A) (P : A -> Prop) (f : A -> M B) :
  yields l m P -> (forall a, P a -> stays l (f a)) -> stays l (mbind m f).
Proof. intros Hm Hf. eapply inside_pbind; [exact Hm|]. intros [a|e] Ha; [by apply Hf, Ha|done]. Qed.
Lemma yields_mbind {A B} (m : M A) (P : A -> Prop) (f : A -> M B) Q :
  yields l m P -> (forall a, P a -> yields l (f a) Q) -> yields l (mbind m f) Q.
Proof. intros Hm Hf. eapply inside_pbind; [exact Hm|]. intros [a|e] Ha; [by apply Hf, Ha|by intros ? [=]]. Qed.
Lemma yields_on_err {A} (m : M A) f P : yields l m P -> yields l (on_err m f) P.
Proof. intros Hm. eapply inside_pbind; [exact Hm|]. intros [a|e] Ha; [exact Ha|by intros ? [=]]. Qed.
Lemma yields_wrap {A} s (m : M A) P : yields l m P -> yields l (wrap s m) P.
Proof. intros Hm. eapply inside_pbind; [exact Hm|]. intros [a|e] Ha; [exact Ha|by intros ? [=]]. Qed.
Lemma yields_lift {A} (r : result A) (P : A -> Prop) : (forall a, r = Ok a -> P a) -> yields l (lift r) P.
Proof. done. Qed.
(** The row of a query is one its select can find. *)
Lemma yields_row {A} c (f : Z -> DB -> option A) (P : A -> Prop) :
  (forall now d a, f now d = Some a -> P a) -> yields l (query_row c (fun now d => inr (f now d, d))) P.
Proof.
  intros HP. eapply (inside_pbind _ _ (answers (fun now d => inr (f now d, d)))).
  - split; [apply confined_select|]. by intros x Hx.
  - intros [[a|]|e] Ha; try by intros ? [=]. intros a' [= <-]. destruct (Ha _ eq_refl) as (now & d & d' & [= Hf _]). by eapply HP.
Qed.
End Rules.
