(* ===== verification/Confinement.v ===== *)
(** * Operations of a ledger touch its rows only

    Every operation of the planner, statement by statement, is confined to the ledger it
    is called for. *)
From S2P Require Import Prelude GoStd Regex Accounts Assets Policy Sha256 Json Storage Db Prog.
From S2P Require Import Logic Postgres BatchManager Redis Chart Planner Cores Operations IntentJson Approval Views.

Create HintDb confined.
#[export] Hint Resolve confined_insert_delta confined_insert_tx confined_insert_hold confined_insert_rel
  confined_insert_history confined_insert_log confined_insert_ik confined_insert_schema confined_insert_batch
  confined_insert_approval confined_insert_ledger confined_ensure_bucket confined_seal confined_upsert
  confined_update_metadata confined_delete_key confined_update_hold : confined.
#[export] Hint Extern 0 (_ = _) => reflexivity : confined.

Section Rules.
Context (l : string).
Lemma stays_on_err {A} (m : M A) f : stays l m -> stays l (on_err m f).
Proof. intros. by apply stays_pbind. Qed.
Lemma stays_wrap {A} s (m : M A) : stays l m -> stays l (wrap s m).
Proof. intros. by apply stays_pbind. Qed.
Lemma stays_when b (m : M unit) : stays l m -> stays l (when b m).
Proof. by destruct b. Qed.
Lemma stays_for_each {A} (f : A -> M unit) xs : (forall x, stays l (f x)) -> stays l (for_each f xs).
Proof. intros Hf. induction xs as [|x xs IH]; cbn [for_each]; [done|]. by apply stays_mbind. Qed.
Lemma stays_with_rollback {A} (m : M A) : stays l m -> stays l (with_rollback m).
Proof. intros Hm. apply stays_pbind; [done|]. intros r. by apply stays_pbind; [by split|]. Qed.
Lemma stays_retry {A} p mb left backoff (fn : M A) : stays l fn -> stays l (retry p mb left backoff fn).
Proof.
  intros Hf. revert backoff. induction left as [|left IH]; intros backoff; cbn [retry];
    (apply stays_pbind; [done|]; intros [a|e]; [done|]; destruct (negb (p e)); [done|]); [done|].
  apply stays_pbind; [by split|]. intros j. apply stays_pbind; [by split|]. intros []; cbn [negb]; [apply IH|done].
Qed.
End Rules.

Create HintDb stays.

(** One step into a program: binds, guards, then the head unfolded. *)
Ltac head_of t := lazymatch t with ?f _ => head_of f | _ => t end.
Ltac stays_step :=
  match goal with
  | |- stays _ (exec _ (fun _ _ => _)) => apply stays_exec, (confined_select _ (fun _ d => _))
  | |- stays _ (exec _ ?s) => let h := head_of s in
      apply stays_exec; first [solve [auto with confined] | unfold h; apply (confined_select _ (fun _ d => _))]
  | |- stays _ (query_row _ ?s) => let h := head_of s in
      apply stays_query; first [solve [auto with confined] | unfold h; apply (confined_select _ (fun _ d => _))]
  | |- stays _ (lock_rows _ ?s) => let h := head_of s in apply stays_lock; unfold h; apply (confined_select _ (fun _ d => _))
  | |- stays _ (query_locked _ _ ?s) => let h := head_of s in
      apply stays_query_locked; unfold h; apply (confined_select _ (fun _ d => _))
  | |- stays _ (mbind _ _) => apply stays_mbind; [|intros ?]
  | |- stays _ (pbind _ _) => apply stays_pbind; [|intros ?]
  | |- stays _ (on_err _ _) => apply stays_on_err
  | |- stays _ (wrap _ _) => apply stays_wrap
  | |- stays _ (when _ _) => apply stays_when
  | |- stays _ (for_each _ _) => apply stays_for_each; intros ?
  | |- stays _ (with_rollback _) => apply stays_with_rollback
  | |- stays _ (retry _ _ _ _ _) => apply stays_retry
  | |- stays _ (trigger _) => by split
  | |- stays _ time_Now => by split
  | |- stays _ ulid_Make => by split
  | |- stays _ TxRollback => by split
  | |- stays _ TxCommit => by split
  | |- stays _ BeginTx => apply stays_on_err; by split
  | |- stays _ (Ret _) => done
  | |- stays _ (ok _) => done
  | |- stays _ (fail _) => done
  | |- stays _ (lift _) => done
  | |- stays _ (match ?x with _ => _ end) => destruct x
  end.
Ltac stays_walk := repeat (first [solve [auto with stays]|stays_step]).

(** The store methods and helpers, unfolded. *)
Ltac stays_open := repeat (first [solve [auto with stays] | stays_step | match goal with |- stays _ ?m => let h := head_of m in unfold h end]).

Section Planner.
Context `{Deps} (l : string).

Lemma yields_GetLedger c : yields l (GetLedger c l) (fun r => lr_ID r = l).
Proof.
  apply yields_on_err. apply (yields_row _ _ (fun _ d => find_ledger l d)). intros now d a Hf.
  apply List.find_some in Hf as [_ He%String.eqb_eq]. done.
Qed.
Lemma yields_checkLedger : yields l (checkLedgerNotSealed l) (fun r => lr_ID r = l).
Proof.
  eapply yields_mbind; [apply yields_wrap, yields_GetLedger|]. intros r Hr. destruct (String.eqb _ _); [by intros ? [=]|].
  by intros ? [= <-].
Qed.
Lemma yields_GetAccount c a : yields l (GetAccount c l a) (fun r => ac_LedgerID r = l).
Proof.
  eapply (yields_mbind _ _ (fun row : account_row => ac_LedgerID row = l)).
  - apply yields_on_err. apply (yields_row _ _ (fun _ d => find_account l a d)). intros now d x Hf.
    apply List.find_some in Hf as [_ [He%String.eqb_eq _]%andb_prop]. done.
  - intros row Hr. intros x. unfold account_of_row. destruct (unmarshal_map _); intros [= <-]. done.
Qed.
Lemma yields_found {A} (m : M A) (P : A -> Prop) :
  yields l m P -> yields l (found_or_nil m) (fun o => forall a, o = Some a -> P a).
Proof.
  intros Hm. eapply inside_pbind; [exact Hm|]. intros [a|e] Ha; [|by destruct (errors_is e _); intros ? [= <-]].
  intros o [= <-] x [= <-]. by apply Ha.
Qed.

Lemma stays_CurrentBatchID x y : stays l (CurrentBatchID x y l).
Proof. unfold CurrentBatchID, CreateBatch. stays_walk. Qed.
Lemma stays_AppendLogEvent c ev : ev_LedgerID ev = l -> stays l (AppendLogEvent c ev).
Proof. intros Hl. apply stays_on_err, stays_exec. by apply confined_insert_log. Qed.
Hint Resolve stays_CurrentBatchID stays_AppendLogEvent : stays.
Lemma stays_appendEvent ty p key ikh vt now : stays l (appendEvent l ty p key ikh vt now).
Proof. unfold appendEvent, NextLedgerSeq. stays_open. Qed.
Lemma stays_record key e ikh : stays l (record_if_keyed l key e ikh).
Proof. unfold record_if_keyed, recordIdempotency, InsertIdempotencyKey. stays_walk. Qed.
Lemma stays_upsert addr now : stays l (account_upsert l addr now).
Proof. unfold account_upsert, UpsertAccount. stays_walk. Qed.
Lemma stays_insert_posting e vt now p : stays l (insert_posting l e vt now p).
Proof. unfold insert_posting, InsertVolumeDelta. stays_walk. Qed.
Lemma stays_availableBalance l' a s : stays l (availableBalance l' a s).
Proof. unfold availableBalance, GetBalance, GetActiveHoldsTotal. stays_walk. Qed.
Lemma stays_history c r : mh_LedgerID r = l -> stays l (InsertMetadataHistory c r).
Proof. intros Hl. by apply stays_wrap, stays_exec, confined_insert_history. Qed.
Lemma stays_InsertTx c t : tx_LedgerID t = l -> stays l (InsertTransaction c t).
Proof. intros Hl. by apply stays_on_err, stays_exec, confined_insert_tx. Qed.
Lemma stays_UpsertAccount c a : ac_LedgerID a = l -> stays l (UpsertAccount c a).
Proof. intros Hl. by apply stays_wrap, stays_exec, confined_upsert. Qed.
Lemma stays_InsertHold c h : ho_LedgerID h = l -> stays l (InsertHold c h).
Proof. intros Hl. by apply stays_exec, confined_insert_hold. Qed.
Lemma stays_InsertRel c r : rel_LedgerID r = l -> stays l (InsertRelationship c r).
Proof. intros Hl. by apply stays_exec, confined_insert_rel. Qed.
Lemma stays_InsertDelta c r : vd_LedgerID r = l -> stays l (InsertVolumeDelta c r).
Proof. intros Hl. by apply stays_exec, confined_insert_delta. Qed.
Lemma stays_UpdateTx id m : stays l (UpdateTransactionMetadata Tx l id m).
Proof. unfold UpdateTransactionMetadata, affected. stays_walk. Qed.
Lemma stays_DeleteKey id k : stays l (DeleteTransactionMetadataKey Tx l id k).
Proof. unfold DeleteTransactionMetadataKey, affected. stays_walk. Qed.
Lemma stays_UpdateHold c id a : stays l (UpdateHoldCaptured c l id a).
Proof. unfold UpdateHoldCaptured, affected. stays_walk. Qed.
Lemma stays_VoidHold c id : stays l (VoidHold c l id).
Proof. unfold VoidHold, affected. stays_walk. Qed.
Lemma stays_GetHold c l' id : stays l (GetHold c l' id).
Proof. unfold GetHold. stays_walk. Qed.
Lemma stays_GetTransaction c l' id : stays l (GetTransaction c l' id).
Proof. unfold GetTransaction. stays_walk. Qed.
Lemma stays_GetRelationships c l' id n : stays l (GetRelationships c l' id n).
Proof. unfold GetRelationships. cbv zeta. stays_walk. Qed.
Lemma stays_matchNode validate last node : (forall nodes, stays l (validate nodes)) -> stays l (matchNode validate last node).
Proof. intros Hv. unfold matchNode. repeat case_match; auto; done. Qed.
Lemma stays_validateSegments segs nodes : stays l (validateSegments segs nodes).
Proof.
  revert nodes. induction segs as [|seg segs IH]; intros nodes; cbn [validateSegments]; cbv zeta; [done|].
  destruct (find_node seg nodes); [by apply stays_matchNode|].
  apply stays_pbind; [by split|]. intros r. destruct (List.find _ r) as [[? ?]|]; [by apply stays_matchNode|done].
Qed.
Lemma stays_ValidateAccount c a : stays l (ValidateAccount c a).
Proof. destruct c; [done|]. apply stays_validateSegments. Qed.
Lemma stays_validate_chart coa mode ps : stays l (validate_chart coa mode ps).
Proof.
  induction ps as [|p ps IH]; cbn [validate_chart]; [done|]. apply stays_pbind.
  - apply stays_mbind; intros; apply stays_wrap, stays_ValidateAccount.
  - intros []; [apply IH|]. by case_match.
Qed.
Hint Resolve stays_validate_chart : stays.
Lemma stays_enforce ledger ps : stays l (enforce_schema ledger ps).
Proof. unfold enforce_schema, validatePostingsAgainstSchema, GetSchema. stays_walk. Qed.
Lemma stays_check ledger ins outs : stays l (checkSourceBalances ledger outs ins).
Proof.
  unfold checkSourceBalances, check_source. pose proof stays_availableBalance. stays_walk.
Qed.
Hint Resolve stays_appendEvent stays_record stays_upsert stays_insert_posting stays_availableBalance stays_history
  stays_InsertTx stays_UpsertAccount stays_InsertHold stays_InsertRel stays_InsertDelta stays_UpdateTx stays_DeleteKey
  stays_UpdateHold stays_VoidHold stays_GetHold stays_GetTransaction stays_GetRelationships stays_enforce stays_check : stays.
End Planner.
#[export] Hint Resolve stays_CurrentBatchID stays_AppendLogEvent stays_appendEvent stays_record stays_upsert
  stays_insert_posting stays_availableBalance stays_history stays_InsertTx stays_UpsertAccount stays_InsertHold
  stays_InsertRel stays_InsertDelta stays_UpdateTx stays_DeleteKey stays_UpdateHold stays_VoidHold stays_GetHold
  stays_GetTransaction stays_GetRelationships stays_enforce stays_check : stays.
#[export] Hint Extern 0 (_ = _) => reflexivity : stays.

Section Cores.
Context `{Deps}.

(** On the row of a ledger, the cores of posts, conversions and holds. *)
Lemma stays_doPost ledger ps ref meta key ikh vt now dry :
  stays (lr_ID ledger) (doPostInTx ledger ps ref meta key ikh vt now dry).
Proof. unfold doPostInTx. cbv zeta. stays_walk. Qed.
Lemma stays_legs l params e vt now : stays l (for_each (InsertVolumeDelta Tx) (convert_legs l e vt now params)).
Proof. unfold convert_legs. destruct (hasSlippage params); cbn [app for_each]; stays_walk. Qed.
Hint Resolve stays_legs : stays.
Lemma stays_doConvert ledger params key ikh vt now : stays (lr_ID ledger) (doConvertInTx ledger params key ikh vt now).
Proof. unfold doConvertInTx. stays_walk. Qed.
Lemma stays_doAuthorize ledger src hint asset amt exp key ikh now :
  stays (lr_ID ledger) (doAuthorizeInTx ledger src hint asset amt exp key ikh now).
Proof. unfold doAuthorizeInTx. stays_walk. Qed.

Context (l : string).

Lemma stays_doCapture id amt dest key ikh now : stays l (doCaptureInTx l id amt dest key ikh now).
Proof. unfold doCaptureInTx, hold_open. cbv zeta. stays_walk. Qed.
Lemma stays_doVoid id key ikh now : stays l (doVoidInTx l id key ikh now).
Proof. unfold doVoidInTx, hold_open. stays_walk. Qed.
Lemma stays_GetLedger c l' : stays l (GetLedger c l').
Proof. unfold GetLedger. stays_walk. Qed.
Lemma stays_check_revert ledger p : stays l (check_revert ledger l p).
Proof. unfold check_revert. stays_walk. Qed.
Hint Resolve stays_GetLedger stays_check_revert : stays.
Lemma stays_doRevert id force eff reason key ikh now : stays l (doRevertInTx l id force eff reason key ikh now).
Proof. unfold doRevertInTx. cbv zeta. stays_walk. Qed.
Lemma stays_doAmend id m key ikh now : stays l (doAmendInTx l id m key ikh now).
Proof. unfold doAmendInTx. stays_walk. Qed.
Lemma stays_doSet ty id m key ikh now : stays l (doSetMetadataInTx l ty id m key ikh now).
Proof. unfold doSetMetadataInTx. stays_walk. Qed.
Lemma stays_found {A} (m : M A) : stays l m -> stays l (found_or_nil m).
Proof. intros Hm. apply stays_pbind; [done|]. intros [a|e]; [done|]. by destruct (errors_is e _). Qed.
Hint Resolve stays_found : stays.
Lemma stays_GetAccount c l' a : stays l (GetAccount c l' a).
Proof. unfold GetAccount. stays_walk. Qed.
Hint Resolve stays_GetAccount : stays.
(** The account the deletion of a key writes back is the one it read. *)
Lemma stays_strip target key now :
  stays l (let* acct := found_or_nil (GetAccount Tx l target) in
           match acct with
           | None => ok tt
           | Some a => UpsertAccount Tx
               {| ac_LedgerID := ac_LedgerID a; ac_Address := ac_Address a; ac_FirstUsage := ac_FirstUsage a;
                  ac_UpdatedAt := now; ac_Metadata := delete_key key (ac_Metadata a) |}
           end).
Proof.
  eapply stays_yields; [apply yields_found, yields_GetAccount|]. intros [a|] Ha; [|done].
  apply stays_UpsertAccount. exact (Ha a eq_refl).
Qed.
Hint Resolve stays_strip : stays.
Lemma stays_doDelete ty id k key ikh now : stays l (doDeleteMetadataInTx l ty id k key ikh now).
Proof. unfold doDeleteMetadataInTx. stays_walk. Qed.
Lemma stays_doInsertSchema b v key ikh now : stays l (doInsertSchemaInTx l b v key ikh now).
Proof. unfold doInsertSchemaInTx, InsertSchema. stays_walk. Qed.

(** ** The operations *)

Lemma stays_publish e ty : stays l (publishEvent l e ty).
Proof. unfold publishEvent, Publish, Redis_Publish. stays_walk. Qed.
Lemma stays_checkIdempotency key ikh : stays l (checkIdempotency l key ikh).
Proof.
  unfold checkIdempotency, Redis_GetIdempotencyKey, GetIdempotencyKey, SetIdempotencyKey. stays_walk.
Qed.
Lemma stays_submit key ikh ty dry work : stays l work -> stays l (submitWithIdempotency l key ikh ty dry work).
Proof.
  intros Hw. unfold submitWithIdempotency, withDeadlockRetry, submit_attempt, postCommitIdempotency, SetIdempotencyKey,
    resolveIdempotencyConflict, GetIdempotencyKey.
  pose proof stays_publish. pose proof stays_checkIdempotency. stays_walk.
Qed.

(** A request that looks up its ledger first. *)
Lemma stays_go key ikh ty dry (work : LedgerRecord -> Z -> M SubmitResult) :
  (forall ledger now, lr_ID ledger = l -> stays l (work ledger now)) ->
  stays l (let* ledger := checkLedgerNotSealed l in let+ now := time_Now in submitWithIdempotency l key ikh ty dry (work ledger now)).
Proof.
  intros Hw. eapply stays_yields; [apply yields_checkLedger|]. intros ledger Hl. apply stays_pbind; [by split|]. intros now.
  by apply stays_submit, Hw.
Qed.
End Cores.
#[export] Hint Resolve stays_doPost stays_doConvert stays_doAuthorize stays_doCapture stays_doVoid stays_GetLedger
  stays_doRevert stays_doAmend stays_doSet stays_doDelete stays_doInsertSchema stays_publish stays_submit : stays.

Section Operations.
Context `{Deps} (l : string).

Ltac going := apply stays_go; intros ledger now <-; auto with stays.

Lemma stays_SubmitPost ps ref meta key vt dry : stays l (SubmitPost l ps ref meta key vt dry).
Proof. unfold SubmitPost. apply stays_mbind; [done|]. intros _. cbv zeta. going. Qed.
Lemma stays_SubmitAuthorize src hint asset amt exp key : stays l (SubmitAuthorize l src hint asset amt exp key).
Proof. unfold SubmitAuthorize. destruct amt as [a|]; [|done]. destruct (a <=? 0); [done|]. cbv zeta. going. Qed.
Lemma stays_SubmitCapture id amt dest key : stays l (SubmitCapture l id amt dest key).
Proof. unfold SubmitCapture. destruct amt as [a|]; [|done]. destruct (a <=? 0); [done|]. cbv zeta. going. Qed.
Lemma stays_SubmitVoid id key : stays l (SubmitVoid l id key).
Proof. unfold SubmitVoid. cbv zeta. going. Qed.
Lemma stays_SubmitConvert params key : stays l (SubmitConvert l params key).
Proof. unfold SubmitConvert. apply stays_mbind; [done|]. intros _. cbv zeta. going. Qed.
Lemma stays_SubmitRevert id force eff reason key : stays l (SubmitRevert l id force eff reason key).
Proof. unfold SubmitRevert. cbv zeta. going. Qed.
Lemma stays_SubmitAmend id m key : stays l (SubmitAmend l id m key).
Proof. unfold SubmitAmend. cbv zeta. going. Qed.
Lemma stays_SubmitSet ty id m key : stays l (SubmitSetMetadata l ty id m key).
Proof. unfold SubmitSetMetadata. cbv zeta. going. Qed.
Lemma stays_SubmitDelete ty id k key : stays l (SubmitDeleteMetadata l ty id k key).
Proof. unfold SubmitDeleteMetadata. cbv zeta. going. Qed.
Lemma stays_SubmitSchema b v key : stays l (SubmitInsertSchema l b v key).
Proof. unfold SubmitInsertSchema. cbv zeta. going. Qed.
Hint Resolve stays_SubmitPost stays_SubmitAuthorize stays_SubmitCapture stays_SubmitVoid stays_SubmitConvert
  stays_SubmitRevert stays_SubmitAmend stays_SubmitSet stays_SubmitDelete stays_SubmitSchema : stays.

Lemma stays_executeIntent i : stays l (executeIntent l i).
Proof. unfold executeIntent. cbv zeta. stays_walk. Qed.
Lemma stays_on_ledger {A} (f : LedgerRecord -> Z -> M A) :
  (forall ledger now, lr_ID ledger = l -> stays l (f ledger now)) ->
  stays l (let* ledger := GetLedger Tx l in let+ now := time_Now in f ledger now).
Proof.
  intros Hf. eapply stays_yields; [apply yields_GetLedger|]. intros ledger Hl. apply stays_pbind; [by split|]. intros now. by apply Hf.
Qed.
Lemma stays_executeIntentInTx i : stays l (executeIntentInTx l i).
Proof.
  unfold executeIntentInTx, executePostInTx, executeSetMetadataInTx, executeDeleteMetadataInTx, executeAuthorizeInTx,
    executeCaptureInTx, executeVoidInTx, executeRevertInTx, executeAmendInTx, executeConvertInTx. cbv zeta.
  repeat match goal with
         | |- stays _ (if ?b then _ else _) => destruct b
         | |- stays _ (match bi_ConvertParams ?i with _ => _ end) => destruct (bi_ConvertParams i)
         | |- stays _ (mbind (GetLedger Tx l) _) => apply stays_on_ledger; intros ledger now <-
         end; stays_walk.
Qed.
Hint Resolve stays_executeIntent stays_executeIntentInTx : stays.
Lemma stays_batch_in_tx is_ done : stays l (batch_in_tx l is_ done).
Proof. revert done. induction is_ as [|i is_ IH]; intros done; cbn [batch_in_tx]; stays_walk. Qed.
Lemma stays_best_effort is_ : stays l (batch_best_effort l is_).
Proof. induction is_ as [|i is_ IH]; cbn [batch_best_effort]; stays_walk. Qed.
Lemma stays_checkLedger : stays l (checkLedgerNotSealed l).
Proof. eapply yields_stays, yields_checkLedger. Qed.
Hint Resolve stays_batch_in_tx stays_best_effort stays_checkLedger : stays.
Lemma stays_SubmitBatch is_ mode : stays l (SubmitBatch l is_ mode).
Proof. unfold SubmitBatch. cbv zeta. stays_walk. Qed.

Lemma stays_Deny p r : stays l (WritePolicyDenialEvent l p r).
Proof. unfold WritePolicyDenialEvent, writePolicyDenialEvent. stays_walk. Qed.
Lemma stays_Create params : cl_ID params = l -> stays l (CreateLedger Pool params).
Proof. intros <-. unfold CreateLedger. cbv zeta. stays_walk. Qed.
Lemma stays_Seal : stays l (SealLedger Pool l).
Proof. unfold SealLedger. stays_walk. Qed.
Lemma stays_EvaluatePolicy p op accounts : stays l (EvaluatePolicy l p op accounts).
Proof. unfold EvaluatePolicy, checkPolicy, GetActivePolicy. stays_walk. Qed.

(** ** Approvals *)

Lemma stays_ForApproval payload approvers by_ expires : stays l (SubmitForApproval l payload approvers by_ expires).
Proof. unfold SubmitForApproval, InsertPendingApproval. cbv zeta. stays_walk. Qed.

Lemma approval_is_ledger id a : approval_is l id a = true -> pa_LedgerID a = l.
Proof. by intros [->%String.eqb_eq _]%andb_prop. Qed.
Lemma stays_UpdateApproval c p f :
  (forall a, p a = true -> pa_LedgerID a = l) -> (forall now a, pa_LedgerID (f now a) = pa_LedgerID a) ->
  stays l (exec c (sql_update_approval p f)).
Proof. intros Hp Hf. by apply stays_exec, confined_update_approval. Qed.
Lemma stays_UpdateState c id s : stays l (UpdateApprovalState c l id s).
Proof. apply stays_mbind; [|done]. apply stays_UpdateApproval; [apply approval_is_ledger|done]. Qed.
Lemma stays_MarkExecuting c id : stays l (MarkApprovalExecuting c l id).
Proof. apply stays_mbind; [|done]. apply stays_UpdateApproval; [apply approval_is_ledger|done]. Qed.
Lemma stays_UpdateStateIf c id s s' : stays l (UpdateApprovalStateIf c l id s s').
Proof. apply stays_mbind; [|done]. apply stays_UpdateApproval; [|done]. intros a [Ha _]%andb_prop. by eapply approval_is_ledger. Qed.
Lemma stays_AddApproval c id p sg : stays l (AddApproval c l id p sg).
Proof.
  unfold AddApproval. apply stays_pbind; [by split|]. intros now. cbv zeta. apply stays_mbind; [|intros n; unfold affected; by destruct (n =? 0)].
  apply stays_UpdateApproval; [|done]. intros a [Ha _]%andb_prop. by eapply approval_is_ledger.
Qed.
Lemma stays_GetPending c l' id : stays l (GetPendingApproval c l' id).
Proof. unfold GetPendingApproval. stays_walk. Qed.
Hint Resolve stays_UpdateState stays_MarkExecuting stays_UpdateStateIf stays_AddApproval stays_GetPending : stays.
Lemma stays_audit id payload : stays l (recordApprovalAuditEvent l id payload).
Proof. unfold recordApprovalAuditEvent, withBackoffRetry, writeOnce, NextLedgerSeq. stays_walk. Qed.
Hint Resolve stays_audit : stays.
Lemma stays_Approve id p sg : stays l (Approve l id p sg).
Proof. unfold Approve, approve_tx, execute_approved. stays_walk. Qed.
End Operations.
#[export] Hint Resolve stays_SubmitPost stays_SubmitAuthorize stays_SubmitCapture stays_SubmitVoid stays_SubmitConvert
  stays_SubmitRevert stays_SubmitAmend stays_SubmitSet stays_SubmitDelete stays_SubmitSchema stays_SubmitBatch stays_Deny
  stays_Create stays_Seal stays_EvaluatePolicy stays_ForApproval stays_Approve : stays.
