(* ===== verification/Effects.v ===== *)
(** * The effect of each core on the database

    For every core of Cores.v: it stays inside the transaction discipline ([tx_ok]), and
    whenever it succeeds the view of the transaction has changed by exactly the rows of
    its [effect] (accounts, metadata history and batches aside). The invariants of the
    ledger are proved from these effects. *)
From S2P Require Import Prelude GoStd Regex Accounts Assets Policy Sha256 Json Storage Db Prog.
From S2P Require Import Logic Postgres BatchManager Redis Chart Planner Cores Bodies StoreRules.

(** Rows whose keys are new, inserted in order. *)
Fixpoint fresh_rows (ds t : list VolumeDeltaRecord) : Prop :=
  match ds with
  | [] => True
  | r :: ds' => existsb (delta_conflict r) t = false /\ fresh_rows ds' (t ++ [r])
  end.

(** The codes of the events. *)
Definition known_type (ty : Z) : Prop := EventTypeTransactionPosted <= ty <= EventTypeApprovalRecorded.

Record effect (l key : string) (ikh : option string) (t0 : Z) (ty : Z) (ev : LogEventRecord)
    (ds : list VolumeDeltaRecord) (hs : list HoldRecord -> list HoldRecord)
    (ts : list tx_row -> list tx_row) (rs : list RelationshipRecord) (d d' : DB) : Prop := {
  ef_event : exists id payload vt now batch,
      payload <> None /\ ev = log_row (log_event id l (next_seq l d) ty payload key ikh vt now batch);
  ef_type : known_type ty;
  ef_log : log_events d' = log_events d ++ [ev];
  ef_log_fresh : existsb (log_conflict ev) (log_events d) = false;
  ef_keys : idempotency_keys d' = idempotency_keys d ++ key_rows t0 l key (ev_EventID ev) ikh;
  ef_keys_fresh : forall r, In r (key_rows t0 l key (ev_EventID ev) ikh) ->
      existsb (ik_conflict r) (idempotency_keys d) = false;
  ef_deltas : volumes_delta d' = volumes_delta d ++ ds;
  ef_deltas_fresh : fresh_rows ds (volumes_delta d);
  ef_holds : holds d' = hs (holds d);
  ef_txs : transactions d' = ts (transactions d);
  ef_rels : relationships d' = relationships d ++ rs;
  ef_ledgers : ledgers d' = ledgers d;
  ef_policies : policies d' = policies d;
  ef_approvals : pending_approvals d' = pending_approvals d
}.

(** ** Rules of the loops *)

Definition posting_rows (l event : string) (vt now : Z) (postings : list PostingInput) : list VolumeDeltaRecord :=
  flat_map (fun p => if amount p =? 0 then [] else
     [delta_row (volume_delta l (pi_Source p) (pi_Asset p) event vt now 0 (amount p));
      delta_row (volume_delta l (pi_Destination p) (pi_Asset p) event vt now (amount p) 0)]) postings.

(** The source buckets of a post cover its net outputs, by the balances [seen]. *)
Definition covered_as (seen : DB -> DB -> Prop) (ledger : LedgerRecord) (ins : buckets_map) (d : DB) (x : (string * string) * Z) : Prop :=
  IsIssuer (fst (fst x)) (lr_IssuerAccounts ledger) = true \/
  exists av, assessed seen (lr_ID ledger) (fst (fst x)) (snd (fst x)) d av /\ snd x <= av + default 0 (ins !! fst x).
Definition covered (ledger : LedgerRecord) (ins : buckets_map) (d : DB) (x : (string * string) * Z) : Prop :=
  IsIssuer (fst (fst x)) (lr_IssuerAccounts ledger) = true \/
  snd x <= available (lr_ID ledger) (fst (fst x)) (snd (fst x)) d + default 0 (ins !! fst x).
Lemma covered_now ledger ins d x : covered_as eq ledger ins d x -> covered ledger ins d x.
Proof. intros [Hi|(av & ->%assessed_now & Hx)]; [by left|by right]. Qed.

(** The source of a debit is an issuer, or has the amount available. *)
Definition funded_as (seen : DB -> DB -> Prop) (ledger : LedgerRecord) (account asset : string) (amt : Z) (d : DB) : Prop :=
  IsIssuer account (lr_IssuerAccounts ledger) = true \/ exists av, assessed seen (lr_ID ledger) account asset d av /\ amt <= av.
Definition funded (ledger : LedgerRecord) (account asset : string) (amt : Z) (d : DB) : Prop :=
  IsIssuer account (lr_IssuerAccounts ledger) = true \/ amt <= available (lr_ID ledger) account asset d.
Lemma funded_now ledger account asset amt d : funded_as eq ledger account asset amt d -> funded ledger account asset amt d.
Proof. intros [Hi|(av & ->%assessed_now & Hx)]; [by left|by right]. Qed.

Section Loops.
Context `{Deps} {t0 : Z} {W : forall A, prog A -> DB -> (A -> DB -> Prop) -> Prop} {seen : DB -> DB -> Prop} `{!TxLogic t0 W seen}.
Arguments W {A}.
Implicit Types d : DB.

Lemma tl_for_each_check {A} (f : A -> M unit) (P : A -> Prop) l d (Q : result unit -> DB -> Prop) :
  (forall x (Q' : result unit -> DB -> Prop),
     (P x -> Q' (Ok tt) d) -> (forall e, Q' (Err e) d) -> W (f x) d Q') ->
  ((forall x, x ∈ l -> P x) -> Q (Ok tt) d) -> (forall e, Q (Err e) d) ->
  W (for_each f l) d Q.
Proof.
  intros Hf HQ HE. induction l as [|x l IH]; simpl.
  - apply tl_ok, HQ. intros x Hx. by apply not_elem_of_nil in Hx.
  - apply tl_mbind, Hf; [|auto]. intros Hx. apply IH. intros Hl. apply HQ.
    intros y Hy. apply elem_of_cons in Hy as [->|Hy]; auto.
Qed.

Lemma tl_insert_deltas rows d (Q : result unit -> DB -> Prop) :
  (fresh_rows (map delta_row rows) (volumes_delta d) ->
     Q (Ok tt) (set_volumes_delta (volumes_delta d ++ map delta_row rows) d)) ->
  W (for_each (InsertVolumeDelta Tx) rows) d Q.
Proof.
  revert d. induction rows as [|r rows IH]; intros d HQ; simpl.
  - rewrite app_nil_r in HQ. destruct d. by apply tl_ok, HQ.
  - apply tl_mbind, tl_InsertVolumeDelta. intros Hc. apply IH. simpl. intros Hf.
    rewrite <- app_assoc. apply HQ. by split.
Qed.

Lemma tl_insert_postings l event vt now postings d (Q : result unit -> DB -> Prop) :
  (fresh_rows (posting_rows l event vt now postings) (volumes_delta d) ->
     Q (Ok tt) (set_volumes_delta (volumes_delta d ++ posting_rows l event vt now postings) d)) ->
  W (for_each (insert_posting l event vt now) postings) d Q.
Proof.
  revert d. induction postings as [|p ps IH]; intros d HQ; simpl.
  - simpl in HQ. rewrite app_nil_r in HQ. destruct d. by apply tl_ok, HQ.
  - apply tl_mbind. unfold insert_posting. simpl in HQ. destruct (amount p =? 0); simpl in *; [by apply tl_ok, IH|].
    apply tl_mbind, tl_wrap, tl_InsertVolumeDelta. intros Hc1. simpl.
    apply tl_wrap, tl_InsertVolumeDelta. simpl. intros Hc2. apply IH. simpl. intros Hf.
    rewrite <- !app_assoc. apply HQ. rewrite <- !app_assoc in Hf. simpl in Hf. by rewrite <- app_assoc.
Qed.

Lemma tl_upserts msg l now addrs d (Q : result unit -> DB -> Prop) :
  (forall t, Q (Ok tt) (set_accounts t d)) ->
  W (for_each (fun addr => wrap msg (account_upsert l addr now)) addrs) d Q.
Proof.
  revert d. induction addrs as [|a addrs IH]; intros d HQ; simpl.
  - specialize (HQ (accounts d)). destruct d. by apply tl_ok.
  - apply tl_mbind, tl_wrap, tl_UpsertAccount. intros t. simpl. apply IH. intros t'. apply HQ.
Qed.

(** The balance checks of a post. *)
Lemma tl_checkSourceBalances ledger outs ins d (Q : result unit -> DB -> Prop) :
  ((forall x, x ∈ map_to_list outs -> covered_as seen ledger ins d x) -> Q (Ok tt) d) -> (forall e, Q (Err e) d) ->
  W (checkSourceBalances ledger outs ins) d Q.
Proof.
  intros HQ HE. apply tl_bind, tl_range. intros l Hl.
  apply (tl_for_each_check _ (covered_as seen ledger ins d)); [|intros Hx; apply HQ|done].
  - intros [[account asset] output] Q' HQ' HE'. unfold check_source.
    destruct (IsIssuer account _) eqn:Ei; [apply tl_ok, HQ'; by left|].
    apply tl_mbind, tl_availableBalance. intros av Hav.
    destruct (_ <? output) eqn:El; [apply tl_fail, HE'|]. apply tl_ok, HQ'. right. exists av. split; [done|]. simpl.
    apply Z.ltb_ge in El. destruct (ins !! _); simpl in *; lia.
  - intros x. rewrite <- Hl. apply Hx.
Qed.

Lemma tl_validateSegments segs nodes d (Q : result unit -> DB -> Prop) :
  (forall r, Q r d) -> W (validateSegments segs nodes) d Q.
Proof.
  intros HQ. revert nodes. induction segs as [|seg segs IH]; intros nodes; simpl; [apply tl_fail, HQ|].
  assert (Hm : forall node, W (matchNode (validateSegments segs)
      (match segs with [] => true | _ => false end) node) d Q).
  { intros node. unfold matchNode. repeat case_match; try (apply tl_ret, HQ). apply IH. }
  destruct (find_node seg nodes); [apply Hm|].
  apply tl_bind, tl_range. intros l _. destruct (List.find _ l) as [[? ?]|]; [apply Hm|apply tl_fail, HQ].
Qed.

Lemma tl_ValidateAccount c a d (Q : result unit -> DB -> Prop) :
  (forall r, Q r d) -> W (ValidateAccount c a) d Q.
Proof. intros HQ. destruct c; [apply tl_ret, HQ|]. by apply tl_validateSegments. Qed.

Lemma tl_validate_chart coa mode ps d (Q : result unit -> DB -> Prop) :
  (forall r, Q r d) -> W (validate_chart coa mode ps) d Q.
Proof.
  intros HQ. induction ps as [|p ps IH]; simpl; [apply tl_ret, HQ|].
  apply tl_bind. unfold ValidatePosting.
  apply tl_mbind, tl_wrap, tl_ValidateAccount. intros [u|e]; simpl.
  - apply tl_wrap, tl_ValidateAccount. intros [v|e]; simpl; [apply IH|]. case_match; [apply tl_ret, HQ|apply IH].
  - case_match; [apply tl_ret, HQ|apply IH].
Qed.

Lemma tl_enforce_schema ledger ps d (Q : result unit -> DB -> Prop) :
  (forall r b, Q r (set_log_batches b d)) -> W (enforce_schema ledger ps) d Q.
Proof.
  intros HQ. assert (H0 : forall r, Q r d).
  { intros r. specialize (HQ r (log_batches d)). by destruct d. }
  unfold enforce_schema. destruct (_ || _); [|apply tl_ret, H0].
  unfold validatePostingsAgainstSchema. destruct (String.eqb _ _); [apply tl_ret, H0|].
  apply tl_bind. unfold GetSchema. apply tl_mbind, tl_on_err.
  apply (tl_pool_row (fun _ d => _)). intros [r|e] b; simpl; [|apply tl_ret, HQ].
  apply tl_ret. simpl. case_match; apply tl_ret, HQ.
Qed.
End Loops.

(** The buckets of the delta rows of a post, in order. *)
Definition buckets_of (ps : list PostingInput) : list (string * string) :=
  flat_map (fun p => [(pi_Source p, pi_Asset p); (pi_Destination p, pi_Asset p)]) ps.
Definition bucket_of (r : VolumeDeltaRecord) : string * string := (vd_Account r, vd_Asset r).

Lemma posting_rows_buckets l e vt now ps :
  Forall (fun p => 0 < amount p) ps -> map bucket_of (posting_rows l e vt now ps) = buckets_of ps.
Proof.
  induction 1 as [|p ps Hp _ IH]; [done|]. simpl. destruct (amount p =? 0) eqn:E; [apply Z.eqb_eq in E; lia|].
  simpl. by rewrite IH.
Qed.

(** ** The discipline *)

Section Discipline.
Context `{Deps}.

Lemma tx_ok_matchNode validate last node :
  (forall nodes, tx_ok (validate nodes)) -> tx_ok (matchNode validate last node).
Proof. intros Hv. unfold matchNode. repeat case_match; auto; done. Qed.
Lemma tx_ok_validateSegments segs nodes : tx_ok (validateSegments segs nodes).
Proof.
  revert nodes. induction segs as [|seg segs IH]; intros nodes; simpl; [done|].
  destruct (find_node seg nodes); [by apply tx_ok_matchNode|].
  apply tx_ok_pbind; [by split|]. intros l. destruct (List.find _ l) as [[? ?]|]; [by apply tx_ok_matchNode|done].
Qed.
Lemma tx_ok_ValidateAccount c a : tx_ok (ValidateAccount c a).
Proof. destruct c; [done|]. apply tx_ok_validateSegments. Qed.
Lemma tx_ok_validate_chart coa mode ps : tx_ok (validate_chart coa mode ps).
Proof.
  induction ps as [|p ps IH]; simpl; [done|]. apply tx_ok_pbind.
  - apply tx_ok_mbind; intros; apply tx_ok_wrap, tx_ok_ValidateAccount.
  - intros []; [apply IH|]. by case_match.
Qed.
Hint Resolve tx_ok_validate_chart : tx_ok.

Ltac tx_ok_core := tx_ok_store; auto with tx_ok.

Lemma tx_ok_enforce_schema ledger ps : tx_ok (enforce_schema ledger ps).
Proof.
  unfold enforce_schema. destruct (_ || _); [|done].
  unfold validatePostingsAgainstSchema. destruct (String.eqb _ _); [done|].
  apply tx_ok_pbind; [apply tx_ok_GetSchema_pool|]. intros [r|e]; [|done].
  destruct (sc_Document r); [|by case_match].
  destruct (ParseChartOfAccounts _ _); [apply tx_ok_validate_chart|by case_match].
Qed.
Lemma tx_ok_appendEvent l ty p key ikh vt now : tx_ok (appendEvent l ty p key ikh vt now).
Proof. tx_ok_core. Qed.
Lemma tx_ok_availableBalance l a s : tx_ok (availableBalance l a s).
Proof. tx_ok_core. Qed.
Lemma tx_ok_record_if_keyed l key event ikh : tx_ok (record_if_keyed l key event ikh).
Proof. tx_ok_core. Qed.
Lemma tx_ok_checkSourceBalances ledger outs ins : tx_ok (checkSourceBalances ledger outs ins).
Proof. tx_ok_core. Qed.
Lemma tx_ok_postings l e vt now ps : tx_ok (for_each (insert_posting l e vt now) ps).
Proof. tx_ok_core. Qed.
Lemma tx_ok_upserts msg l now addrs : tx_ok (for_each (fun a => wrap msg (account_upsert l a now)) addrs).
Proof. tx_ok_core. Qed.
Lemma tx_ok_found_or_nil {A} (m : M A) : tx_ok m -> tx_ok (found_or_nil m).
Proof. intros Hm. apply tx_ok_pbind; [done|]. intros [a|e]; [done|]. by case_match. Qed.
Hint Resolve tx_ok_enforce_schema tx_ok_appendEvent tx_ok_availableBalance tx_ok_record_if_keyed
  tx_ok_checkSourceBalances tx_ok_postings tx_ok_upserts : tx_ok.

Hint Resolve tx_ok_found_or_nil : tx_ok.

(** The cores, statement by statement. *)
Ltac tx_ok_body :=
  repeat first
    [ apply tx_ok_mbind; [solve [tx_ok_core]|intros ?]
    | apply tx_ok_pbind; [solve [tx_ok_core]|intros ?]
    | apply tx_ok_ok | apply tx_ok_fail
    | case_match ].

Lemma tx_ok_doPostInTx ledger ps ref meta key ikh vt now dry : tx_ok (doPostInTx ledger ps ref meta key ikh vt now dry).
Proof. unfold doPostInTx. tx_ok_body. Qed.
Lemma tx_ok_doConvertInTx ledger params key ikh vt now : tx_ok (doConvertInTx ledger params key ikh vt now).
Proof. unfold doConvertInTx. tx_ok_body. Qed.
Lemma tx_ok_doAuthorizeInTx ledger src hint asset amt exp key ikh now :
  tx_ok (doAuthorizeInTx ledger src hint asset amt exp key ikh now).
Proof. unfold doAuthorizeInTx. tx_ok_body. Qed.
Lemma tx_ok_doCaptureInTx l id amt dest key ikh now : tx_ok (doCaptureInTx l id amt dest key ikh now).
Proof. unfold doCaptureInTx. tx_ok_body. Qed.
Lemma tx_ok_doVoidInTx l id key ikh now : tx_ok (doVoidInTx l id key ikh now).
Proof. unfold doVoidInTx. tx_ok_body. Qed.
Lemma tx_ok_doRevertInTx l id force eff reason key ikh now : tx_ok (doRevertInTx l id force eff reason key ikh now).
Proof. unfold doRevertInTx. tx_ok_body. Qed.
Lemma tx_ok_doAmendInTx l id m key ikh now : tx_ok (doAmendInTx l id m key ikh now).
Proof. unfold doAmendInTx. tx_ok_body. Qed.
Lemma tx_ok_doSetMetadataInTx l ty id m key ikh now : tx_ok (doSetMetadataInTx l ty id m key ikh now).
Proof. unfold doSetMetadataInTx. tx_ok_body. Qed.
Lemma tx_ok_doDeleteMetadataInTx l ty id k key ikh now : tx_ok (doDeleteMetadataInTx l ty id k key ikh now).
Proof. unfold doDeleteMetadataInTx. tx_ok_body. Qed.
Lemma tx_ok_doInsertSchemaInTx l b v key ikh now : tx_ok (doInsertSchemaInTx l b v key ikh now).
Proof. unfold doInsertSchemaInTx. tx_ok_body. Qed.
End Discipline.

#[export] Hint Resolve tx_ok_doPostInTx tx_ok_doConvertInTx tx_ok_doAuthorizeInTx tx_ok_doCaptureInTx tx_ok_doVoidInTx
  tx_ok_doRevertInTx tx_ok_doAmendInTx tx_ok_doSetMetadataInTx tx_ok_doDeleteMetadataInTx tx_ok_doInsertSchemaInTx : tx_ok.

(** ** The effects *)

Definition on_ok {A} (S : A -> DB -> Prop) (r : result A) (d : DB) : Prop :=
  match r with Ok a => S a d | Err _ => True end.

(** The metadata of one transaction, or of none, changes. *)
Definition update_tx_metadata (l id : string) (f : json -> json) (ts : list tx_row) : list tx_row :=
  map (fun r => if tx_is l id r then with_tx_metadata (f (tx_Metadata r)) r else r) ts.

(** What each core has done when it succeeds. *)
Section Done.
Context (t0 : Z).
Implicit Types d : DB.

Definition post_tx (ledger : LedgerRecord) (txID event : string) (vt now : Z) (reference : string)
    (postings : list PostingInput) (metadata : gomap) : TransactionRecord :=
  {| tx_LedgerID := lr_ID ledger; tx_TransactionID := txID; tx_EventID := event; tx_ValidTime := vt;
     tx_SystemTime := now; tx_Reference := reference; tx_Postings := map posting_record postings;
     tx_Metadata := metadata |}.

(** A post appends its event, its transaction and the two deltas of each posting, its
    source buckets having been [checked]. *)
Definition post_done_if (checked : Prop) (ledger : LedgerRecord) (ps : list PostingInput) (ref : string) (meta : gomap)
    (key : string) (ikh : option string) (vt now : Z) (d : DB) (r : SubmitResult) (d' : DB) : Prop :=
  exists ev txID,
    let tx := post_tx ledger txID (ev_EventID ev) vt now ref ps meta in
    effect (lr_ID ledger) key ikh t0 EventTypeTransactionPosted ev
      (posting_rows (lr_ID ledger) (ev_EventID ev) vt now ps) id (fun ts => ts ++ [row_of_tx tx]) [] d d' /\
    existsb (tx_conflict (row_of_tx tx)) (transactions d) = false /\
    validatePostings ps = Ok tt /\ checked /\
    r = {| sr_EventID := ev_EventID ev; sr_IdempotentHit := false; sr_Transaction := Some tx; sr_HoldID := "";
           sr_ConversionID := "" |}.
(** Alone: every source bucket covers its net output. *)
Definition post_done (ledger : LedgerRecord) (ps : list PostingInput) (ref : string) (meta : gomap) (key : string)
    (ikh : option string) (vt now : Z) (d : DB) (r : SubmitResult) (d' : DB) : Prop :=
  post_done_if (forall x, x ∈ map_to_list (net_outputs ps) -> covered ledger (net_inputs ps) d x)
    ledger ps ref meta key ikh vt now d r d'.

Definition convert_done_if (checked : Prop) (ledger : LedgerRecord) (params : ConvertParams) (key : string) (ikh : option string)
    (vt now : Z) (d : DB) (r : SubmitResult) (d' : DB) : Prop :=
  exists ev tx,
    effect (lr_ID ledger) key ikh t0 EventTypeConversionCreated ev
      (map delta_row (convert_legs (lr_ID ledger) (ev_EventID ev) vt now params)) id (fun ts => ts ++ [tx]) [] d d' /\
    tx_LedgerID tx = lr_ID ledger /\ tx_Postings tx = convert_postings params /\
    existsb (tx_conflict tx) (transactions d) = false /\
    validateConvertParams params = Ok tt /\
    checked /\
    sr_EventID r = ev_EventID ev /\ sr_IdempotentHit r = false.
Definition convert_done (ledger : LedgerRecord) (params : ConvertParams) (key : string) (ikh : option string)
    (vt now : Z) (d : DB) (r : SubmitResult) (d' : DB) : Prop :=
  convert_done_if (funded ledger (cv_Source params) (cv_SourceAsset params) (totalSourceOutput params) d)
    ledger params key ikh vt now d r d'.

Definition new_hold (ledger : LedgerRecord) (holdID source hint asset event : string) (amt exp now : Z) : HoldRecord :=
  hold_row {| ho_LedgerID := lr_ID ledger; ho_HoldID := holdID; ho_Source := source; ho_DestinationHint := hint;
     ho_Asset := asset; ho_AuthorizedAmount := amt; ho_CapturedAmount := 0; ho_Voided := false; ho_Expired := false;
     ho_ExpiresAt := exp; ho_AuthorizedEventID := event; ho_ValidTime := now; ho_SystemTime := now |}.

Definition authorize_done_if (checked : Z -> Prop) (ledger : LedgerRecord) (source hint asset : string) (amt : option Z) (exp : Z)
    (key : string) (ikh : option string) (now : Z) (d : DB) (r : SubmitResult) (d' : DB) : Prop :=
  exists ev holdID a,
    let h := new_hold ledger holdID source hint asset (ev_EventID ev) a exp now in
    amt = Some a /\ 0 < a /\
    effect (lr_ID ledger) key ikh t0 EventTypeHoldCreated ev [] (fun hs => hs ++ [h]) id [] d d' /\
    existsb (hold_is (lr_ID ledger) holdID) (holds d) = false /\
    checked a /\
    r = {| sr_EventID := ev_EventID ev; sr_IdempotentHit := false; sr_Transaction := None; sr_HoldID := holdID;
           sr_ConversionID := "" |}.
Definition authorize_done (ledger : LedgerRecord) (source hint asset : string) (amt : option Z) (exp : Z)
    (key : string) (ikh : option string) (now : Z) (d : DB) (r : SubmitResult) (d' : DB) : Prop :=
  authorize_done_if (fun a => funded ledger source asset a d) ledger source hint asset amt exp key ikh now d r d'.

(** A hold that a capture or a void found: of this ledger and id, and still live. *)
Definition live_hold (l id : string) (h : HoldRecord) (d : DB) : Prop :=
  find_hold l id d = Some h /\ ho_Voided h = false /\ ho_Expired h = false.

Definition capture_dest (destination : string) (h : HoldRecord) : string :=
  if String.eqb destination EmptyString then ho_DestinationHint h else destination.

Definition capture_done (l id : string) (amt : option Z) (destination key : string) (ikh : option string) (now : Z)
    (d : DB) (r : SubmitResult) (d' : DB) : Prop :=
  exists ev h a,
    amt = Some a /\ 0 < a <= ho_AuthorizedAmount h - ho_CapturedAmount h /\ live_hold l id h d /\
    capture_dest destination h <> "" /\
    effect l key ikh t0 EventTypeHoldConfirmed ev
      [delta_row (volume_delta l (ho_Source h) (ho_Asset h) (ev_EventID ev) now now 0 a);
       delta_row (volume_delta l (capture_dest destination h) (ho_Asset h) (ev_EventID ev) now now a 0)]
      (update_hold l id (capture_hold a)) Datatypes.id [] d d' /\
    r = event_result (ev_EventID ev).

Definition void_done (l id key : string) (ikh : option string) (d : DB) (r : SubmitResult) (d' : DB) : Prop :=
  exists ev h, live_hold l id h d /\
    effect l key ikh t0 EventTypeHoldVoided ev [] (update_hold l id void_hold) Datatypes.id [] d d' /\
    r = event_result (ev_EventID ev).

Lemma find_ledger_id l d r : find_ledger l d = Some r -> lr_ID r = l.
Proof. intros H1. apply List.find_some in H1 as [_ H1]. by apply String.eqb_eq in H1. Qed.

Lemma not_reverted l id d :
  existsb (is_revert_of id) (order_by rel_SystemTime (List.filter (touches l id) (relationships d))) = false ->
  forall r, r ∈ relationships d -> rel_LedgerID r = l -> rel_RelationshipType r = RelationshipTypeReverts ->
  rel_ParentTxID r <> id.
Proof.
  intros Hn r Hin Hl Hty Hp.
  assert (Ht : existsb (is_revert_of id) (order_by rel_SystemTime (List.filter (touches l id) (relationships d))) = true).
  { apply existsb_exists. exists r. split.
    - apply list_elem_of_In. unfold order_by. rewrite merge_sort_Permutation. apply list_elem_of_In, List.filter_In.
      split; [by apply list_elem_of_In|]. unfold touches. by rewrite Hl, Hp, !String.eqb_refl.
    - unfold is_revert_of. by rewrite Hty, Hp, String.eqb_refl. }
  congruence.
Qed.

Definition revert_rel (l parent child event : string) (now : Z) : RelationshipRecord :=
  rel_row {| rel_LedgerID := l; rel_ParentTxID := parent; rel_ChildTxID := child;
             rel_RelationshipType := RelationshipTypeReverts; rel_EventID := event; rel_SystemTime := now |}.

Definition revert_done_if (found : (DB -> Prop) -> Prop) (checked : LedgerRecord -> PostingInput -> Prop) (l id : string) (force eff : bool) (reason key : string) (ikh : option string) (now : Z)
    (d : DB) (r : SubmitResult) (d' : DB) : Prop :=
  exists ev txID orig reversed ledger tx,
    let vt := if eff then tx_ValidTime orig else now in
    found (fun dr => find_tx l id dr = Some orig) /\ reversePostings (tx_Postings orig) = Ok reversed /\
    found (fun dr => find_ledger l dr = Some ledger) /\
    found (fun dr => forall r, r ∈ relationships dr -> rel_LedgerID r = l -> rel_RelationshipType r = RelationshipTypeReverts ->
       rel_ParentTxID r <> id) /\
    (force = false -> forall p, p ∈ reversed -> checked ledger p) /\
    effect l key ikh t0 EventTypeTransactionReverted ev
      (posting_rows l (ev_EventID ev) vt now reversed) Datatypes.id (fun ts => ts ++ [tx])
      [revert_rel l id txID (ev_EventID ev) now] d d' /\
    tx_LedgerID tx = l /\ tx_TransactionID tx = txID /\ tx_Postings tx = map posting_record reversed /\
    existsb (tx_conflict tx) (transactions d) = false /\
    sr_EventID r = ev_EventID ev /\ sr_IdempotentHit r = false.
Definition revert_done (l id : string) (force eff : bool) (reason key : string) (ikh : option string) (now : Z)
    (d : DB) (r : SubmitResult) (d' : DB) : Prop := Eval cbv beta delta [revert_done_if] in
  revert_done_if (fun P => P d) (fun ledger p => funded ledger (pi_Source p) (pi_Asset p) (amount p) d)
    l id force eff reason key ikh now d r d'.

(** The operations that change metadata only. *)
Definition metadata_done (ty : Z) (l key : string) (ikh : option string) (rs : string -> list RelationshipRecord)
    (d : DB) (r : SubmitResult) (d' : DB) : Prop :=
  exists ev id f,
    effect l key ikh t0 ty ev [] Datatypes.id (update_tx_metadata l id f) (rs (ev_EventID ev)) d d' /\
    r = event_result (ev_EventID ev).

Lemma update_tx_metadata_id l id ts : update_tx_metadata l id (fun j => j) ts = ts.
Proof.
  unfold update_tx_metadata. rewrite <- (map_id ts) at 2. apply map_ext. intros r.
  destruct (tx_is l id r); [|done]. by destruct r.
Qed.

(** The event of a metadata operation, then a part that touches the accounts and the
    metadata of at most one transaction, then the history row and the key. *)
Definition metadata_steps (l id : string) (d1 d2 : DB) : Prop :=
  exists f ta, d2 = set_accounts ta (set_transactions (update_tx_metadata l id f (transactions d1)) d1).

Lemma metadata_steps_same l id d : metadata_steps l id d d.
Proof. exists (fun j => j), (accounts d). rewrite update_tx_metadata_id. by destruct d. Qed.

Lemma metadata_steps_account l id d ta : metadata_steps l id d (set_accounts ta d).
Proof. exists (fun j => j), ta. by rewrite update_tx_metadata_id. Qed.

Lemma metadata_steps_tx l id f d : metadata_steps l id d (set_transactions (update_tx_metadata l id f (transactions d)) d).
Proof. by exists f, (accounts d). Qed.

End Done.

Section Specs.
Context `{Deps} {t0 : Z} {W : forall A, prog A -> DB -> (A -> DB -> Prop) -> Prop} {seen : DB -> DB -> Prop} `{!TxLogic t0 W seen}.
Arguments W {A}.
Implicit Types d : DB.

Lemma tl_any_affected what n d (Q : result unit -> DB -> Prop) : (forall r, Q r d) -> W (affected what n) d Q.
Proof. intros HQ. by apply tl_affected. Qed.

(** Metadata that some function changed may have stayed as it was. *)
Lemma updated_or_not l id d (Q : result unit -> DB -> Prop) :
  (forall r f, Q r (set_transactions (update_tx_metadata l id f (transactions d)) d)) -> forall r, Q r d.
Proof. intros HQ r. specialize (HQ r (fun j => j)). rewrite update_tx_metadata_id in HQ. by destruct d. Qed.

Lemma tl_UpdateTransactionMetadata l id m d (Q : result unit -> DB -> Prop) :
  (forall r f, Q r (set_transactions (update_tx_metadata l id f (transactions d)) d)) ->
  W (UpdateTransactionMetadata Tx l id m) d Q.
Proof.
  intros HQ. apply tl_mbind, tl_write; [auto with gentle| |intros n d' [= <- <-]; apply tl_any_affected; intros r;
    apply (HQ r (fun j => jsonb_concat j (to_column (json_of_gomap m))))].
  intros dr n _ _. apply tl_any_affected, (updated_or_not l id), HQ.
Qed.

Lemma tl_DeleteTransactionMetadataKey l id k d (Q : result unit -> DB -> Prop) :
  (forall r f, Q r (set_transactions (update_tx_metadata l id f (transactions d)) d)) ->
  W (DeleteTransactionMetadataKey Tx l id k) d Q.
Proof.
  intros HQ. apply tl_mbind, tl_write; [auto with gentle|intros dr n _ _; apply tl_any_affected, (updated_or_not l id), HQ|].
  intros n d'. unfold sql_delete_tx_key. destruct (existsb _ _); [done|].
  intros [= <- <-]. apply tl_any_affected. intros r. apply (HQ r (fun j => jsonb_delete j k)).
Qed.

Lemma tl_GetAccount l a d (Q : result AccountRecord -> DB -> Prop) :
  (forall r, Q r d) -> W (GetAccount Tx l a) d Q.
Proof.
  intros HQ. apply tl_mbind, tl_on_err, (tl_row (fun _ d => find_account l a d)); [|apply HQ].
  intros r _. apply tl_lift, HQ.
Qed.

Lemma tl_found_or_nil {A} (m : M A) d (Q : result (option A) -> DB -> Prop) :
  W m d (fun _ d' => forall r, Q r d') -> W (found_or_nil m) d Q.
Proof.
  intros Hm. apply tl_bind. eapply tl_mono; [exact Hm|]. intros [a|e] d' HQ; [apply tl_ok, HQ|].
  case_match; apply tl_ret, HQ.
Qed.

Lemma doPostInTx_body d ledger ps ref meta key ikh vt now :
  W (doPostInTx ledger ps ref meta key ikh vt now false) d
    (on_ok (post_done_if t0 (exists b, forall x, x ∈ map_to_list (net_outputs ps) -> covered_as seen ledger (net_inputs ps) (set_log_batches b d) x)
      ledger ps ref meta key ikh vt now d)).
Proof.
  unfold doPostInTx. apply tl_mbind, tl_lift. destruct (validatePostings ps) as [[]|e] eqn:Hv; [|done].
  apply tl_mbind, tl_enforce_schema. intros [[]|e] b; [|done].
  apply tl_mbind, tl_checkSourceBalances; [intros Hcov|done]. simpl.
  apply tl_bind, tl_ulid. intros txID.
  apply tl_mbind, tl_appendEvent; [done|]. intros id batch b2 ev Hfresh Hpay.
  set (txRec := {| tx_LedgerID := lr_ID ledger |}). change id with (ev_EventID ev).
  apply tl_mbind, tl_on_err, tl_InsertTransaction. simpl. intros Htx.
  assert (Hrest : forall h, W (let* _ := for_each (insert_posting (lr_ID ledger) id vt now) ps in
      let+ addrs := trigger (Range (touchedAccounts ps)) in
      let* _ := for_each (fun addr => wrap "upserting account" (account_upsert (lr_ID ledger) addr now)) addrs in
      let* _ := record_if_keyed (lr_ID ledger) key id ikh in
      ok {| sr_EventID := id; sr_IdempotentHit := false; sr_Transaction := Some txRec; sr_HoldID := "";
            sr_ConversionID := "" |})
      (set_metadata_history h (set_transactions (transactions d ++ [row_of_tx txRec])
         (set_log_events (log_events d ++ [ev]) (set_log_batches b2 d))))
      (on_ok (post_done_if t0 (exists b, forall x, x ∈ map_to_list (net_outputs ps) -> covered_as seen ledger (net_inputs ps) (set_log_batches b d) x)
      ledger ps ref meta key ikh vt now d))).
  { intros h. apply tl_mbind, tl_insert_postings. intros Hds. simpl in Hds.
    apply tl_bind, tl_range. intros addrs _. apply tl_mbind, tl_upserts. intros ta.
    apply tl_mbind, tl_record_if_keyed. simpl. intros Hk. apply tl_ok.
    exists ev, txID. split; [|split_and!; [done|done|by exists b|done]]. split; simpl; try done; [|by rewrite app_nil_r].
    by exists id, (Some (marshal (post_payload txID ps meta ref))), vt, now, batch. }
  apply tl_mbind, tl_when.
  - intros _. apply tl_wrap, tl_InsertMetadataHistory. intros t. apply Hrest.
  - intros _. simpl. specialize (Hrest (metadata_history d)). exact Hrest.
Qed.

Lemma doPostInTx_dry_spec d ledger ps ref meta key ikh vt now :
  W (doPostInTx ledger ps ref meta key ikh vt now true) d
    (on_ok (fun r d' => same_but_batches d d' /\ r = event_result "dry-run")).
Proof.
  unfold doPostInTx. apply tl_mbind, tl_lift. destruct (validatePostings ps) as [[]|e] eqn:Hv; [|done].
  apply tl_mbind, tl_enforce_schema. intros [[]|e] b; [|done].
  apply tl_mbind, tl_checkSourceBalances; [intros Hcov|done]. apply tl_ok. by split.
Qed.

Lemma tl_check_funds ledger account asset amt msg d (Q : result unit -> DB -> Prop) :
  (funded_as seen ledger account asset amt d -> Q (Ok tt) d) -> (forall e, Q (Err e) d) ->
  W (when (negb (IsIssuer account (lr_IssuerAccounts ledger)))
     (let* available := availableBalance (lr_ID ledger) account asset in
      if available <? amt then fail (EWrap msg (ESent ErrInsufficientFunds)) else ok tt)) d Q.
Proof.
  intros HQ HE. apply tl_when; intros Hi.
  - apply tl_mbind, tl_availableBalance. intros av Hav. destruct (_ <? amt) eqn:El; [apply tl_fail, HE|].
    apply tl_ok, HQ. right. exists av. split; [done|]. by apply Z.ltb_ge.
  - apply HQ. left. by apply negb_false_iff in Hi.
Qed.

Lemma doConvertInTx_body d ledger params key ikh vt now :
  W (doConvertInTx ledger params key ikh vt now) d 
    (on_ok (convert_done_if t0 (funded_as seen ledger (cv_Source params) (cv_SourceAsset params) (totalSourceOutput params) d)
       ledger params key ikh vt now d)).
Proof.
  unfold doConvertInTx. apply tl_mbind, tl_lift. destruct (validateConvertParams params) as [[]|e] eqn:Hv; [|done].
  apply tl_bind, tl_ulid. intros cid. apply tl_bind, tl_ulid. intros txID.
  apply tl_mbind, tl_check_funds; [intros Hf|done].
  apply tl_mbind, tl_appendEvent; [done|]. intros id batch b ev Hfresh Hpay. change id with (ev_EventID ev).
  apply tl_mbind, tl_insert_deltas. intros Hds.
  apply tl_mbind, tl_upserts. intros ta.
  apply tl_mbind, tl_wrap, tl_InsertTransaction. intros Htx.
  set (row := row_of_tx _) in *. cbn [rmap_err].
  apply tl_mbind, tl_record_if_keyed. intros Hk.
  apply tl_ok. exists ev, row. split; [|by split_and!].
  split; simpl; try done; [|by rewrite app_nil_r].
  by exists id, (Some (marshal (convert_payload cid params))), vt, now, batch.
Qed.

Lemma doAuthorizeInTx_body d ledger src hint asset amt exp key ikh now :
  W (doAuthorizeInTx ledger src hint asset amt exp key ikh now) d
    (on_ok (authorize_done_if t0 (fun a => funded_as seen ledger src asset a d) ledger src hint asset amt exp key ikh now d)).
Proof.
  unfold doAuthorizeInTx. destruct amt as [a|]; [|by apply tl_fail]. destruct (a <=? 0) eqn:Ha; [by apply tl_fail|]. apply Z.leb_gt in Ha.
  apply tl_bind, tl_ulid. intros hid. apply tl_mbind, tl_check_funds; [intros Hf|done].
  apply tl_mbind, tl_appendEvent; [done|]. intros id batch b ev Hfresh Hpay. change id with (ev_EventID ev).
  apply tl_mbind, tl_InsertHold. simpl. intros Hh.
  apply tl_mbind, tl_wrap, tl_UpsertAccount. intros ta. simpl.
  apply tl_mbind, tl_record_if_keyed. simpl. intros Hk.
  apply tl_ok. exists ev, hid, a. split_and!; try done. split; simpl; try done; [|by rewrite app_nil_r..].
  by exists id, (Some (marshal (authorize_payload hid src hint asset a exp))), now, now, batch.
Qed.

Lemma tl_hold_open h d (Q : result unit -> DB -> Prop) :
  (ho_Voided h = false -> ho_Expired h = false -> Q (Ok tt) d) -> (forall e, Q (Err e) d) ->
  W (hold_open h) d Q.
Proof. intros HQ HE. unfold hold_open. repeat case_match; try (apply tl_fail, HE). by apply tl_ok, HQ. Qed.

Lemma doCaptureInTx_body d l id amt dest key ikh now :
  W (doCaptureInTx l id amt dest key ikh now) d (on_ok (capture_done t0 l id amt dest key ikh now d)).
Proof.
  unfold doCaptureInTx. destruct amt as [a|]; [|by apply tl_fail]. destruct (a <=? 0) eqn:Ha; [by apply tl_fail|]. apply Z.leb_gt in Ha.
  apply tl_mbind, tl_GetHold; [|done]. intros h Hh.
  apply tl_mbind, tl_hold_open; [intros Hv He|done].
  destruct (_ <? a) eqn:Hr; [by apply tl_fail|]. apply Z.ltb_ge in Hr.
  fold (capture_dest dest h). destruct (String.eqb_spec (capture_dest dest h) EmptyString) as [|Hd]; [by apply tl_fail|].
  apply tl_mbind, tl_appendEvent; [done|]. intros eid batch b ev Hfresh Hpay. change eid with (ev_EventID ev).
  apply tl_mbind, tl_update_hold; [|done|done|]. 2: { intros x _ E%(f_equal ho_CapturedAmount). simpl in E. lia. }
  apply tl_mbind, tl_InsertVolumeDelta. intros H1. simpl in H1.
  apply tl_mbind, tl_InsertVolumeDelta. intros H2. simpl in H2. simpl.
  apply tl_mbind, tl_wrap, tl_UpsertAccount. intros ta. simpl.
  apply tl_mbind, tl_record_if_keyed. simpl. intros Hk.
  apply tl_ok. exists ev, h, a. split_and!; try done. split; simpl; try done; [|by rewrite <- app_assoc|by rewrite app_nil_r].
  by exists eid, (Some (marshal (capture_payload id (capture_dest dest h) a))), now, now, batch.
Qed.

Lemma doVoidInTx_body d l id key ikh now :
  W (doVoidInTx l id key ikh now) d (on_ok (void_done t0 l id key ikh d)).
Proof.
  unfold doVoidInTx. apply tl_mbind, tl_GetHold; [|done]. intros h Hh.
  apply tl_mbind, tl_hold_open; [intros Hv He|done].
  apply tl_mbind, tl_appendEvent; [done|]. intros eid batch b ev Hfresh Hpay. change eid with (ev_EventID ev).
  apply tl_mbind, tl_update_hold; [|done|done|]. 2: { intros x Hx E%(f_equal ho_Voided). unfold hold_live in Hx. simpl in E. by rewrite <- E in Hx. }
  apply tl_mbind, tl_record_if_keyed. simpl. intros Hk.
  apply tl_ok. exists ev, h. split_and!; try done. split; simpl; try done; [|by rewrite app_nil_r..].
  by eexists eid, _, now, now, batch.
Qed.

Lemma tl_check_reverts ledger l d ps (Q : result unit -> DB -> Prop) :
  lr_ID ledger = l ->
  ((forall p, p ∈ ps -> funded_as seen ledger (pi_Source p) (pi_Asset p) (amount p) d) -> Q (Ok tt) d) ->
  (forall e, Q (Err e) d) -> W (for_each (check_revert ledger l) ps) d Q.
Proof.
  intros Hl HQ HE. apply (tl_for_each_check _ (fun p => funded_as seen ledger (pi_Source p) (pi_Asset p) (amount p) d)); try done.
  intros p Q' HQ' HE'. unfold check_revert. destruct (IsIssuer _ _) eqn:Ei; [apply tl_ok, HQ'; by left|].
  apply tl_mbind, tl_availableBalance. intros av Hav. destruct (_ <? amount p) eqn:El; [apply tl_fail, HE'|].
  apply tl_ok, HQ'. right. exists av. rewrite Hl. split; [done|]. by apply Z.ltb_ge.
Qed.

Lemma doRevertInTx_body d l id force eff reason key ikh now :
  W (doRevertInTx l id force eff reason key ikh now) d
    (on_ok (revert_done_if t0 (saw seen d) (fun ledger p => funded_as seen ledger (pi_Source p) (pi_Asset p) (amount p) d) l id force eff reason key ikh now d)).
Proof.
  unfold doRevertInTx. apply tl_bind, tl_ulid. intros txID.
  apply tl_mbind, tl_GetTransaction; [|done]. intros orig t Ho Ht.
  apply tl_mbind, tl_GetRelationships1. intros rs Hrs. destruct (existsb (is_revert_of id) rs) eqn:Er; [by apply tl_fail|].
  assert (Htx : tx_Postings t = tx_Postings orig /\ tx_ValidTime t = tx_ValidTime orig).
  { unfold tx_of_row in Ht. destruct (unmarshal_map _); [|done]. by injection Ht as <-. }
  destruct Htx as [-> ->].
  apply tl_mbind, tl_lift. destruct (reversePostings _) as [reversed|e] eqn:Hrev; [|done].
  apply tl_mbind, tl_wrap, tl_GetLedger; [|done]. intros ledger Hl. simpl.
  set (vt := if eff then tx_ValidTime orig else now).
  assert (Hrest : (force = false -> forall p, p ∈ reversed -> funded_as seen ledger (pi_Source p) (pi_Asset p) (amount p) d) ->
    W (let* (eventID, _) := wrap "appending log event" (appendEvent l EventTypeTransactionReverted
        (Some (marshal (revert_payload txID reversed (revert_metadata id reason)))) key ikh vt now) in
    let txRec := {| tx_LedgerID := l; tx_TransactionID := txID; tx_EventID := eventID; tx_ValidTime := vt;
                    tx_SystemTime := now; tx_Reference := ""; tx_Postings := map posting_record reversed;
                    tx_Metadata := Some (revert_metadata id reason) |} in
    let* _ := wrap "inserting reverting transaction" (InsertTransaction Tx txRec) in
    let* _ := for_each (insert_posting l eventID vt now) reversed in
    let+ addrs := trigger (Range (touchedAccounts reversed)) in
    let* _ := for_each (fun addr => wrap "upserting account" (account_upsert l addr now)) addrs in
    let* _ := wrap "inserting revert relationship" (InsertRelationship Tx
        {| rel_LedgerID := l; rel_ParentTxID := id; rel_ChildTxID := txID;
           rel_RelationshipType := RelationshipTypeReverts; rel_EventID := eventID; rel_SystemTime := now |}) in
    let* _ := record_if_keyed l key eventID ikh in
    ok {| sr_EventID := eventID; sr_IdempotentHit := false; sr_Transaction := Some txRec; sr_HoldID := "";
          sr_ConversionID := "" |}) d (on_ok (revert_done_if t0 (saw seen d) (fun ledger p => funded_as seen ledger (pi_Source p) (pi_Asset p) (amount p) d) l id force eff reason key ikh now d))).
  { intros Hfund. apply tl_mbind, tl_wrap, tl_appendEvent; [done|]. intros eid batch b ev Hfresh Hpay.
    cbn [rmap_err]. change eid with (ev_EventID ev).
    apply tl_mbind, tl_wrap, tl_InsertTransaction. intros Hc. set (row := row_of_tx _) in *. cbn [rmap_err].
    apply tl_mbind, tl_insert_postings. intros Hds. apply tl_bind, tl_range. intros addrs _.
    apply tl_mbind, tl_upserts. intros ta. apply tl_mbind, tl_wrap, tl_InsertRelationship.
    intros _. cbn [rmap_err]. apply tl_mbind, tl_record_if_keyed. intros Hk.
    apply tl_ok. exists ev, txID, orig, reversed, ledger, row.
    split_and!; try done; [destruct Hrs as (dr & Hdr & <-); exists dr; split; [done|]; by eapply not_reverted|].
    split; simpl; try done. by eexists eid, _, vt, now, batch. }
  apply tl_mbind, tl_when; intros Hf; [|by apply Hrest; destruct force].
  apply tl_check_reverts; [destruct Hl as (dr & _ & Hl); by eapply find_ledger_id|intros Hp; by apply Hrest|done].
Qed.

Lemma doAmendInTx_body d l id m key ikh now :
  W (doAmendInTx l id m key ikh now) d
    (on_ok (metadata_done t0 EventTypeTransactionAmended l key ikh
       (fun event => [rel_row {| rel_LedgerID := l; rel_ParentTxID := id; rel_ChildTxID := event;
          rel_RelationshipType := RelationshipTypeAmends; rel_EventID := event; rel_SystemTime := now |}]) d)).
Proof.
  unfold doAmendInTx. apply tl_mbind, tl_GetTransaction; [|done]. intros _ _ _ _.
  apply tl_mbind, tl_appendEvent; [done|]. intros eid batch b ev Hfresh Hpay. change eid with (ev_EventID ev).
  apply tl_mbind, tl_wrap, tl_UpdateTransactionMetadata. intros [[]|e] f; [|done]. cbn [rmap_err].
  apply tl_mbind, tl_InsertMetadataHistory. intros th. apply tl_mbind, tl_InsertRelationship. intros _.
  apply tl_mbind, tl_record_if_keyed. intros Hk.
  apply tl_ok. eexists ev, id, _. split; [|done]. split; simpl; try done; [|by rewrite app_nil_r]. by eexists eid, _, now, now, batch.
Qed.

Lemma metadata_finish ty l id key ikh eid p vt now batch b d d2 rec :
  let ev := log_row (log_event eid l (next_seq l d) ty p key ikh vt now batch) in
  existsb (log_conflict ev) (log_events d) = false -> known_type ty -> p <> None ->
  metadata_steps l id (set_log_events (log_events d ++ [ev]) (set_log_batches b d)) d2 ->
  W (let* _ := InsertMetadataHistory Tx rec in
           let* _ := record_if_keyed l key eid ikh in ok (event_result eid)) d2
    (on_ok (metadata_done t0 ty l key ikh (fun _ => []) d)).
Proof.
  intros ev Hfresh Hty Hpay (f & ta & ->). change eid with (ev_EventID ev).
  apply tl_mbind, tl_InsertMetadataHistory. intros th.
  apply tl_mbind, tl_record_if_keyed. intros Hk.
  apply tl_ok. exists ev, id, f. split; [|done]. split; simpl; try done; [|by rewrite app_nil_r..].
  by exists eid, p, vt, now, batch.
Qed.

Lemma doSetMetadataInTx_body d l ty id m key ikh now :
  W (doSetMetadataInTx l ty id m key ikh now) d
    (on_ok (metadata_done t0 EventTypeMetadataSet l key ikh (fun _ => []) d)).
Proof.
  unfold doSetMetadataInTx.
  apply tl_mbind, tl_appendEvent; [done|]. intros eid batch b ev Hfresh Hpay.
  apply tl_mbind, tl_when; intros H0; [apply tl_UpsertAccount; intros ta|];
    (apply tl_mbind, tl_when; intros H1; [apply tl_wrap, tl_UpdateTransactionMetadata; intros [[]|e] f; [|done]|]).
  - apply Z.eqb_eq in H0, H1. lia.
  - eapply (metadata_finish _ _ id _ _ _ _ _ _ batch b); [exact Hfresh|done|done|]. apply metadata_steps_account.
  - eapply (metadata_finish _ _ id _ _ _ _ _ _ batch b); [exact Hfresh|done|done|]. apply metadata_steps_tx.
  - eapply (metadata_finish _ _ id _ _ _ _ _ _ batch b); [exact Hfresh|done|done|]. apply metadata_steps_same.
Qed.

Lemma tl_current_metadata l ty id d (Q : result gomap -> DB -> Prop) :
  (forall r, Q r d) ->
  W (if ty =? 0 then
         let* a := found_or_nil (GetAccount Tx l id) in
         ok (match a with Some a => ac_Metadata a | None => None end)
       else if ty =? 1 then
         let* t := found_or_nil (GetTransaction Tx l id) in
         ok (match t with Some t => tx_Metadata t | None => None end)
       else ok None) d Q.
Proof.
  intros HQ. destruct (ty =? 0); [|destruct (ty =? 1); [|apply tl_ret, HQ]].
  - apply tl_mbind, tl_found_or_nil, tl_GetAccount. intros _ [a|e]; [apply tl_ok|]; apply HQ.
  - apply tl_mbind, tl_found_or_nil, tl_GetTransaction; intros; case_match; try apply tl_ok; apply HQ.
Qed.

Lemma doDeleteMetadataInTx_body d l ty id k key ikh now :
  W (doDeleteMetadataInTx l ty id k key ikh now) d
    (on_ok (metadata_done t0 EventTypeMetadataDeleted l key ikh (fun _ => []) d)).
Proof.
  unfold doDeleteMetadataInTx.
  apply tl_mbind, tl_appendEvent; [done|]. intros eid batch b ev Hfresh Hpay.
  set (d1 := set_log_events _ _).
  assert (Hfin : forall d2, metadata_steps l id d1 d2 ->
    W (let* current :=
      (if ty =? 0 then
         let* a := found_or_nil (GetAccount Tx l id) in
         ok (match a with Some a => ac_Metadata a | None => None end)
       else if ty =? 1 then
         let* t := found_or_nil (GetTransaction Tx l id) in
         ok (match t with Some t => tx_Metadata t | None => None end)
       else ok None) in
      let* _ := InsertMetadataHistory Tx
          {| mh_LedgerID := l; mh_TargetType := ty; mh_TargetID := id; mh_Revision := next_seq l d;
             mh_Metadata := match current with None => Some ∅ | m => m end;
             mh_EventID := eid; mh_SystemTime := now |} in
      let* _ := record_if_keyed l key eid ikh in ok (event_result eid)) d2
    (on_ok (metadata_done t0 EventTypeMetadataDeleted l key ikh (fun _ => []) d))).
  { intros d2 H2. apply tl_mbind, tl_current_metadata. intros [m|e]; [|done]. eapply (metadata_finish _ _ id _ _ _ _ _ _ batch b); [exact Hfresh|done|done|exact H2]. }
  apply tl_mbind, tl_when; intros H0.
  - apply tl_mbind, tl_found_or_nil, tl_GetAccount. intros _ [[a|]|e]; [|..|done].
    + apply tl_UpsertAccount. intros ta. apply tl_mbind, tl_when; intros H1.
      { apply Z.eqb_eq in H0, H1. lia. }
      apply Hfin, metadata_steps_account.
    + apply tl_ok, tl_mbind, tl_when; intros H1.
      { apply Z.eqb_eq in H0, H1. lia. }
      apply Hfin, metadata_steps_same.
  - apply tl_mbind, tl_when; intros H1; [|apply Hfin, metadata_steps_same].
    apply tl_mbind, tl_on_err, tl_found_or_nil, tl_DeleteTransactionMetadataKey.
    intros _ f [o|e]; [|done]. cbn [rmap_err]. apply tl_ok, Hfin, metadata_steps_tx.
Qed.

Lemma doInsertSchemaInTx_body d l bytes v key ikh now :
  W (doInsertSchemaInTx l bytes v key ikh now) d
    (on_ok (metadata_done t0 EventTypeSchemaInserted l key ikh (fun _ => []) d)).
Proof.
  unfold doInsertSchemaInTx.
  apply tl_mbind, tl_appendEvent; [done|]. intros eid batch b ev Hfresh Hpay. change eid with (ev_EventID ev).
  apply tl_mbind, tl_wrap. eapply tl_insert; [auto with gentle|reflexivity|done|]. intros _. cbn [rmap_err].
  apply tl_mbind, tl_record_if_keyed. intros Hk.
  apply tl_ok. exists ev, EmptyString, (fun j => j). split; [|done].
  split; simpl; try done; [|by rewrite app_nil_r|by rewrite update_tx_metadata_id|by rewrite app_nil_r].
  by eexists eid, _, now, now, batch.
Qed.
End Specs.

(** ** The cores of a request that runs alone *)

Section Alone.
Context `{Deps} (t0 : Z).
Implicit Types d : DB.

Lemma on_ok_mono {A} (P Q : A -> DB -> Prop) : (forall a d, P a d -> Q a d) -> forall r d, on_ok P r d -> on_ok Q r d.
Proof. intros HPQ [a|e] d; simpl; auto. Qed.

Lemma doPostInTx_spec d ledger ps ref meta key ikh vt now :
  txwp t0 (doPostInTx ledger ps ref meta key ikh vt now false) d
    (on_ok (post_done t0 ledger ps ref meta key ikh vt now d)).
Proof.
  eapply txwp_mono; [apply doPostInTx_body|]. apply on_ok_mono. intros r d' (ev & txID & H1 & H2 & H3 & (b & H4) & H5).
  exists ev, txID. split_and!; try done. intros x Hx. by apply H4, covered_now in Hx.
Qed.
Lemma doConvertInTx_spec d ledger params key ikh vt now :
  txwp t0 (doConvertInTx ledger params key ikh vt now) d (on_ok (convert_done t0 ledger params key ikh vt now d)).
Proof.
  eapply txwp_mono; [apply doConvertInTx_body|]. apply on_ok_mono.
  intros r d' (ev & tx & H1 & H2 & H3 & H4 & H5 & H6 & H7 & H8). exists ev, tx. split_and!; try done. by apply funded_now.
Qed.
Lemma doAuthorizeInTx_spec d ledger src hint asset amt exp key ikh now :
  txwp t0 (doAuthorizeInTx ledger src hint asset amt exp key ikh now) d
    (on_ok (authorize_done t0 ledger src hint asset amt exp key ikh now d)).
Proof.
  eapply txwp_mono; [apply doAuthorizeInTx_body|]. apply on_ok_mono.
  intros r d' (ev & hid & a & H1 & H2 & H3 & H4 & H5 & H6). exists ev, hid, a. split_and!; try done. by apply funded_now.
Qed.
Lemma doRevertInTx_spec d l id force eff reason key ikh now :
  txwp t0 (doRevertInTx l id force eff reason key ikh now) d
    (on_ok (revert_done t0 l id force eff reason key ikh now d)).
Proof.
  eapply txwp_mono; [apply doRevertInTx_body|]. apply on_ok_mono.
  intros r d' (ev & txID & orig & rev & ledger & tx & (d1 & -> & H1) & H2 & (d2 & -> & H3) & (d3 & -> & H4) & H5 & H6).
  exists ev, txID, orig, rev, ledger, tx. split_and!; try done; try apply H6. intros Hf p Hp. by apply funded_now, H5.
Qed.
Lemma doCaptureInTx_spec d l id amt dest key ikh now :
  txwp t0 (doCaptureInTx l id amt dest key ikh now) d (on_ok (capture_done t0 l id amt dest key ikh now d)).
Proof. apply doCaptureInTx_body. Qed.
Lemma doVoidInTx_spec d l id key ikh now :
  txwp t0 (doVoidInTx l id key ikh now) d (on_ok (void_done t0 l id key ikh d)).
Proof. apply doVoidInTx_body. Qed.
End Alone.
