(* ===== verification/ApprovalSteps.v ===== *)
(** * The life of an approval

    The abstract specification of pending_approvals: a row is submitted, signed, and
    moved between its states by the transitions of [approval_move]. The invariant is
    dual control: whatever was executed had been signed by every approver it names, each
    once, and never by its submitter. Approvals.v proves that the code only makes these
    steps. *)
From S2P Require Import Prelude GoStd Json Storage Db.

(** The principals whose signature the row carries, and those it asks for. *)
Definition signed_by (a : approval_row) : list string :=
  omap (fun e => option_map ae_Principal e) (default [] (pa_ReceivedApprovals a)).
Definition named (a : approval_row) : list string := default [] (pa_RequiredApprovers a).

(** Every approver signed. An empty name counts as signed, since the column starts as a
    JSON null, which the first signature turns into a list with a null entry. *)
Definition complete (a : approval_row) : Prop := forall p, p ∈ named a -> p = "" \/ p ∈ signed_by a.

(** Who may sign a row. *)
Definition may_sign (p : string) (a : approval_row) : Prop :=
  p ∈ named a /\ p <> pa_SubmittedBy a /\ p ∉ signed_by a.

Definition sign (e : ApprovalEntry) (a : approval_row) : approval_row :=
  with_approval (push_approval e (pa_ReceivedApprovals a)) (pa_State a) (pa_ExecutingAt a) a.
Definition to_state (s : string) (x : option Z) (a : approval_row) : approval_row :=
  with_approval (pa_ReceivedApprovals a) s x a.

(** The transitions of a row. *)
Inductive approval_move : approval_row -> approval_row -> Prop :=
| move_sign e a : pa_State a = "pending" -> may_sign (ae_Principal e) a -> approval_move a (sign e a)
| move_expire x a : pa_State a = "pending" -> approval_move a (to_state "expired" x a)
| move_start x a : pa_State a = "pending" -> complete a -> approval_move a (to_state "executing" x a)
| move_finish s x a : pa_State a = "executing" -> s ∈ ["executed"; "rejected"; "expired"] -> approval_move a (to_state s x a).

(** The steps of the table. *)
Inductive approval_step : list approval_row -> list approval_row -> Prop :=
| approval_submit a t :
    existsb (approval_is (pa_LedgerID a) (pa_IntentID a)) t = false -> pa_State a = "pending" -> signed_by a = [] ->
    approval_step t (t ++ [a])
| approval_update p f t :
    (forall a, a ∈ t -> p a = true -> approval_move a (f a)) ->
    approval_step t (map (fun a => if p a then f a else a) t).

Definition approval_key (a : approval_row) : string * string := (pa_LedgerID a, pa_IntentID a).

Record approval_ok (a : approval_row) : Prop := {
  ap_once : NoDup (signed_by a);
  ap_signers : forall p, p ∈ signed_by a -> p ∈ named a /\ p <> pa_SubmittedBy a;
  ap_complete : pa_State a ∈ ["executing"; "executed"; "rejected"] -> complete a
}.

Definition approvals_inv (t : list approval_row) : Prop :=
  NoDup (map approval_key t) /\ Forall approval_ok t.

Lemma signed_by_sign e a : signed_by (sign e a) = signed_by a ++ [ae_Principal e].
Proof.
  unfold signed_by, sign, push_approval. simpl. destruct (pa_ReceivedApprovals a) as [l|]; simpl; [|done].
  by rewrite omap_app.
Qed.

Lemma approval_is_key a b : approval_is (pa_LedgerID a) (pa_IntentID a) b = true <-> approval_key a = approval_key b.
Proof.
  unfold approval_is, approval_key. rewrite andb_true_iff, !String.eqb_eq. split; [by intros [-> ->]|].
  by intros [= -> ->].
Qed.

Lemma approval_move_key a b : approval_move a b -> approval_key b = approval_key a.
Proof. by destruct 1. Qed.

Lemma approval_move_ok a b : approval_ok a -> approval_move a b -> approval_ok b.
Proof.
  intros [Ho Hs Hc]. destruct 1 as [e a Hp (Hn & Hsub & Hnew)|x a Hp|x a Hp Hcm|s x a He Hst].
  - assert (Hnd : NoDup (signed_by a ++ [ae_Principal e])).
    { apply NoDup_app. split_and!; [done|by intros x Hx ->%list_elem_of_singleton|apply NoDup_singleton]. }
    split; [by rewrite signed_by_sign|..].
    + intros p. rewrite signed_by_sign, elem_of_app, list_elem_of_singleton. intros [Hp2| ->]; [by apply Hs|done].
    + simpl. rewrite Hp. set_solver.
  - split; [done..|]. simpl. set_solver.
  - by split.
  - split; [done..|]. intros _. apply Hc. rewrite He. set_solver.
Qed.

Lemma approval_step_inv t t' : approvals_inv t -> approval_step t t' -> approvals_inv t'.
Proof.
  intros [Hk Ho]. destruct 1 as [a t Hf Hp Hs|p f t Hm].
  - split.
    + rewrite map_app. apply NoDup_app. split_and!; [done| |apply NoDup_singleton].
      intros k Hk2 ->%list_elem_of_singleton. apply list_elem_of_fmap in Hk2 as (b & Hb & Hin).
      apply Bool.not_true_iff_false in Hf. apply Hf, existsb_exists. exists b. split; [by apply list_elem_of_In|].
      by apply approval_is_key.
    + apply Forall_app. split; [done|]. apply Forall_singleton. split; rewrite ?Hs, ?Hp; [constructor|set_solver..].
  - split.
    + rewrite map_map. erewrite map_ext_in; [exact Hk|]. intros a Ha. simpl. destruct (p a) eqn:Ep; [|done].
      by apply approval_move_key, Hm; [apply list_elem_of_In|].
    + apply Forall_forall. intros b (a & -> & Ha)%list_elem_of_fmap. rewrite Forall_forall in Ho.
      destruct (p a) eqn:Ep; [eapply approval_move_ok; eauto|by apply Ho].
Qed.

(** Final states are final: no move leaves them. *)
Definition final (s : string) : Prop := s ∈ ["executed"; "rejected"; "expired"].
Lemma final_stays a b : final (pa_State a) -> ~ approval_move a b.
Proof. unfold final. destruct 2 as [e a Hp|x a Hp|x a Hp|s x a Hp]; rewrite Hp in *; set_solver. Qed.
