(* ===== verification/Ledger.v ===== *)
(** * The ledger as a transition system, and its invariants

    [step] is the abstract specification of the service: one committed operation changes
    the database by its effect (Effects.v), a ledger is created or sealed, an approval
    moves (ApprovalSteps.v), an event is imported, a checkpoint is written, or nothing
    but the batches changes. The invariants are proved by induction on the steps; Requests.v
    proves that every request refines a sequence of steps. *)
From S2P Require Import Prelude GoStd Regex Accounts Assets Policy Sha256 Json Storage Db Prog.
From S2P Require Import Logic Postgres BatchManager Redis Chart Planner Cores Bodies StoreRules Effects.
From S2P Require Import ApprovalSteps.

(** A relationship that records a revert. *)
Definition is_revert (r : RelationshipRecord) : bool := rel_RelationshipType r =? RelationshipTypeReverts.

(** A committed operation on ledger [l]. [safe] is false for the operations that may
    overdraw an account by design: a forced revert, and a conversion whose destination
    cannot pay its leg. *)
Inductive op_done (l : string) : bool -> DB -> DB -> Prop :=
| done_post t0 ledger ps ref meta key ikh vt now d r d' :
    find_ledger l d = Some ledger -> post_done t0 ledger ps ref meta key ikh vt now d r d' ->
    op_done l true d d'
| done_convert t0 ledger params key ikh vt now d r d' :
    find_ledger l d = Some ledger -> convert_done t0 ledger params key ikh vt now d r d' ->
    op_done l (bool_decide (IsIssuer (cv_Destination params) (lr_IssuerAccounts ledger) = true \/
                            dest_amount params <= available l (cv_Destination params) (cv_DestAsset params) d)) d d'
| done_authorize t0 ledger src hint asset amt exp key ikh now d r d' :
    find_ledger l d = Some ledger -> authorize_done t0 ledger src hint asset amt exp key ikh now d r d' ->
    op_done l true d d'
| done_capture t0 ledger id amt dest key ikh now d r d' :
    find_ledger l d = Some ledger -> capture_done t0 l id amt dest key ikh now d r d' -> op_done l true d d'
| done_release t0 f ty ev id key ikh h d d' :
    f = void_hold \/ f = expire_hold -> live_hold l id h d ->
    effect l key ikh t0 ty ev [] (update_hold l id f) Datatypes.id [] d d' -> op_done l true d d'
| done_revert t0 id force eff reason key ikh now d r d' :
    revert_done t0 l id force eff reason key ikh now d r d' -> op_done l (negb force) d d'
| done_metadata t0 ty key ikh rs d r d' :
    (forall event, Forall (fun x => is_revert x = false) (rs event)) ->
    metadata_done t0 ty l key ikh rs d r d' -> op_done l true d d'.

(** A ledger is created, or sealed. *)
Definition new_ledger (r : LedgerRecord) (d : DB) : Prop :=
  find_ledger (lr_ID r) d = None /\ lr_State r = "in-use" /\ lr_IssuerAccounts r = ["_world"].
Definition seal_rows (now : Z) (id : string) (t : list LedgerRecord) : list LedgerRecord :=
  map (fun x => if String.eqb id (lr_ID x) && String.eqb (lr_State x) "in-use" then seal now x else x) t.

(** A well-typed row of log_events: a payload, a known code, times of the database's
    resolution, and an int64 version. *)
Record well_typed (ev : LogEventRecord) : Prop := {
  wt_payload : ev_Payload ev <> None;
  wt_type : known_type (ev_Type ev);
  wt_system : pg_ts (ev_SystemTime ev) = ev_SystemTime ev;
  wt_valid : pg_ts (ev_ValidTime ev) = ev_ValidTime ev;
  wt_version : - 2 ^ 63 <= ev_SchemaVersion ev < 2 ^ 63
}.

(** The next event of its ledger, which conflicts with none of the log. *)
Definition appendable (ev : LogEventRecord) (d : DB) : Prop :=
  ev_LedgerSeq ev = next_seq (ev_LedgerID ev) d /\ existsb (log_conflict ev) (log_events d) = false /\ well_typed ev.

Inductive step (safe : bool) : DB -> DB -> Prop :=
| step_batches d d' : same_but_batches d d' -> step safe d d'
| step_op l d d' : op_done l safe d d' -> step safe d d'
| step_unsafe l d d' : safe = false -> op_done l true d d' -> step safe d d'
| step_bucket b d : step safe d (set_buckets b d)
| step_create r d : new_ledger r d -> step safe d (set_ledgers (ledgers d ++ [r]) d)
| step_seal now id d : step safe d (set_ledgers (seal_rows now id (ledgers d)) d)
| step_approval t d : approval_step (pending_approvals d) t -> step safe d (set_pending_approvals t d)
| step_import ev d : appendable ev d -> step safe d (set_log_events (log_events d ++ [ev]) d)
| step_checkpoint t d : step safe d (set_volumes_checkpoint t d).

Definition steps (safe : bool) : DB -> DB -> Prop := rtc (step safe).
(** The databases the service can reach, and those it reaches without an unsafe operation. *)
Definition reachable (d : DB) : Prop := steps false empty_db d.
Definition reachable_safely (d : DB) : Prop := steps true empty_db d.

(** ** Sums over the rows of an event *)

Definition trial (l asset : string) (ds : list VolumeDeltaRecord) : Z :=
  sum_by (fun r => if String.eqb l (vd_LedgerID r) && String.eqb asset (vd_Asset r)
                   then vd_InputDelta r - vd_OutputDelta r else 0) ds.

Lemma trial_app l a d1 d2 : trial l a (d1 ++ d2) = trial l a d1 + trial l a d2.
Proof. apply sum_by_app. Qed.
Lemma posted_app l a s d1 d2 : posted l a s (d1 ++ d2) = posted l a s d1 + posted l a s d2.
Proof. apply sum_by_app. Qed.

Lemma trial_pair l asset x y rest :
  vd_LedgerID x = vd_LedgerID y -> vd_Asset x = vd_Asset y ->
  vd_InputDelta x = vd_OutputDelta y -> vd_OutputDelta x = vd_InputDelta y ->
  trial l asset (x :: y :: rest) = trial l asset rest.
Proof. intros H1 H2 H3 H4. unfold trial. simpl. rewrite H1, H2, H3, H4. destruct (_ && _); lia. Qed.

Lemma trial_postings l asset l' e vt now ps : trial l asset (posting_rows l' e vt now ps) = 0.
Proof.
  induction ps as [|p ps IH]; [done|]. simpl. destruct (amount p =? 0); [done|].
  simpl. by rewrite trial_pair.
Qed.

Lemma trial_convert l asset l' e vt now params :
  trial l asset (map delta_row (convert_legs l' e vt now params)) = 0.
Proof.
  unfold convert_legs. simpl. rewrite !trial_pair by done. destruct (hasSlippage params); [|done].
  simpl. by rewrite trial_pair.
Qed.

(** The nets a post computes are the sums of its rows. *)
Lemma add_to_lookup m k k' x :
  default 0 (add_to m k x !! k') = default 0 (m !! k') + (if bool_decide (k = k') then x else 0).
Proof.
  unfold add_to. case_bool_decide as Hk; [subst; by rewrite lookup_insert_eq|].
  rewrite lookup_insert_ne by done. lia.
Qed.

Lemma net_fold (key : PostingInput -> string * string) ps m k :
  default 0 (fold_left (fun m p => if amount p =? 0 then m else add_to m (key p) (amount p)) ps m !! k) =
  default 0 (m !! k) + sum_by (fun p => if bool_decide (key p = k) then amount p else 0) ps.
Proof.
  revert m. induction ps as [|p ps IH]; intros m; simpl; [lia|]. rewrite IH.
  destruct (amount p =? 0) eqn:E; [apply Z.eqb_eq in E; rewrite E; case_bool_decide; lia|].
  rewrite add_to_lookup. lia.
Qed.

Definition out_of (account asset : string) (ps : list PostingInput) : Z :=
  sum_by (fun p => if bool_decide ((pi_Source p, pi_Asset p) = (account, asset)) then amount p else 0) ps.
Definition into (account asset : string) (ps : list PostingInput) : Z :=
  sum_by (fun p => if bool_decide ((pi_Destination p, pi_Asset p) = (account, asset)) then amount p else 0) ps.

Lemma net_outputs_sum ps account asset : default 0 (net_outputs ps !! (account, asset)) = out_of account asset ps.
Proof. unfold net_outputs. rewrite (net_fold (fun p => (pi_Source p, pi_Asset p))). by rewrite lookup_empty. Qed.
Lemma net_inputs_sum ps account asset : default 0 (net_inputs ps !! (account, asset)) = into account asset ps.
Proof. unfold net_inputs. rewrite (net_fold (fun p => (pi_Destination p, pi_Asset p))). by rewrite lookup_empty. Qed.

Lemma bucket_eq account asset a s :
  String.eqb account a && String.eqb asset s = bool_decide ((a, s) = (account, asset)).
Proof.
  destruct (String.eqb_spec account a), (String.eqb_spec asset s); simpl; symmetry;
    [apply bool_decide_eq_true|apply bool_decide_eq_false..]; congruence.
Qed.

Lemma posted_postings l e vt now ps account asset :
  posted l account asset (posting_rows l e vt now ps) = into account asset ps - out_of account asset ps.
Proof.
  induction ps as [|p ps IH]; [done|]. simpl. unfold into, out_of in *. simpl.
  destruct (amount p =? 0) eqn:E; simpl.
  - apply Z.eqb_eq in E. rewrite IH, E. repeat case_bool_decide; lia.
  - unfold posted in *. simpl. rewrite IH. unfold bucket_is, delta_row, volume_delta. simpl.
    rewrite !String.eqb_refl. simpl. rewrite !bucket_eq. repeat case_bool_decide; lia.
Qed.

Lemma posted_other l l' account asset ds :
  Forall (fun r => vd_LedgerID r = l') ds -> l <> l' -> posted l account asset ds = 0.
Proof.
  intros Hl Hne. unfold posted. apply sum_by_zero. intros r Hr. rewrite Forall_forall in Hl.
  unfold bucket_is. rewrite (Hl _ Hr). by rewrite (proj2 (String.eqb_neq l l') Hne).
Qed.

(** ** Amounts are positive *)

Lemma validate_each_ok ps : validate_each ps = Ok tt -> Forall (fun p => 0 < amount p) ps.
Proof.
  induction ps as [|p ps IH]; simpl; [constructor|]. rewrite !rbind_Ok.
  intros (_ & _ & H). rewrite rbind_Ok in H. destruct H as (_ & _ & H). rewrite rbind_Ok in H.
  destruct H as (_ & _ & H). unfold positive in H. destruct (pi_Amount p) as [z|] eqn:Ep; simpl in H; [|done].
  destruct (0 <? z) eqn:E; simpl in H; [|done]. constructor; [|by apply IH].
  unfold amount. rewrite Ep. by apply Z.ltb_lt.
Qed.

Lemma validatePostings_ok ps : validatePostings ps = Ok tt -> Forall (fun p => 0 < amount p) ps.
Proof. destruct ps; [done|]. apply validate_each_ok. Qed.

Lemma sums_nonneg account asset ps :
  Forall (fun p => 0 < amount p) ps -> 0 <= into account asset ps /\ 0 <= out_of account asset ps.
Proof.
  rewrite Forall_forall. intros Hp. split; apply sum_by_nonneg; intros p Hin; case_bool_decide; try lia;
    specialize (Hp p Hin); lia.
Qed.

Definition positive_posting (p : PostingRecord) : Prop := exists z, 0 < z /\ Z_of_dec (po_Amount p) = Some z.

Lemma posting_record_positive ps :
  Forall (fun p => 0 < amount p) ps -> Forall positive_posting (map posting_record ps).
Proof.
  induction 1 as [|p ps Hp _ IH]; simpl; constructor; [|done].
  exists (amount p). split; [done|]. apply Z_of_dec_of_Z.
Qed.

Lemma reverse_each_positive ps rs :
  Forall positive_posting ps -> reverse_each ps = Ok rs -> Forall (fun p => 0 < amount p) rs.
Proof.
  revert rs. induction ps as [|p ps IH]; simpl; intros rs Hp Hr; [by injection Hr as <-; constructor|].
  inversion Hp as [|? ? (z & Hz & Ez) Hps]; subst. rewrite Ez in Hr.
  apply rbind_Ok in Hr as (rs' & Hr' & [= <-]). constructor; [done|]. by apply IH.
Qed.

Lemma reversePostings_positive ps rs :
  Forall positive_posting ps -> reversePostings ps = Ok rs -> Forall (fun p => 0 < amount p) rs.
Proof. intros Hp Hr. destruct ps; [done|]. by eapply reverse_each_positive. Qed.

Lemma validateConvert_positive params :
  validateConvertParams params = Ok tt ->
  0 < source_amount params /\ 0 < dest_amount params /\ cv_SourceAsset params <> cv_DestAsset params.
Proof.
  unfold validateConvertParams. rewrite rbind_Ok. intros (_ & _ & H). do 4 (apply rbind_Ok in H as (_ & _ & H)).
  unfold positive, source_amount, dest_amount in *.
  destruct (cv_SourceAmount params) as [x|]; simpl in *; [|done]. destruct (0 <? x) eqn:E1; simpl in H; [|done].
  destruct (cv_DestAmount params) as [y|]; simpl in *; [|done]. destruct (0 <? y) eqn:E2; simpl in H; [|done].
  destruct (String.eqb_spec (cv_SourceAsset params) (cv_DestAsset params)) as [|Ha]; [done|].
  apply Z.ltb_lt in E1, E2. by split_and!.
Qed.

Lemma convert_postings_positive params :
  validateConvertParams params = Ok tt -> Forall positive_posting (convert_postings params).
Proof.
  intros Hv. apply validateConvert_positive in Hv as (H1 & H2 & _). unfold convert_postings. simpl.
  repeat constructor; [exists (source_amount params)|exists (dest_amount params)|];
    try (split; [done|apply Z_of_dec_of_Z]).
  destruct (hasSlippage params) eqn:Hs; repeat constructor. exists (slippage_amount params).
  split; [|apply Z_of_dec_of_Z]. unfold hasSlippage, positive, slippage_amount in *.
  apply andb_prop in Hs as [Hs _]. destruct (cv_SlippageAmount params); [|done]. simpl. by apply Z.ltb_lt.
Qed.

(** ** The invariant *)

Definition hold_ok (h : HoldRecord) : Prop :=
  0 < ho_AuthorizedAmount h /\ 0 <= ho_CapturedAmount h <= ho_AuthorizedAmount h.
Definition hold_key (h : HoldRecord) : string * string := (ho_LedgerID h, ho_HoldID h).
Definition ik_key (r : IdempotencyKeyRecord) : string * string := (ik_LedgerID r, ik_IdempotencyKey r).

(** The transactions that were reverted, with their ledgers. *)
Definition revert_key (r : RelationshipRecord) : string * string := (rel_LedgerID r, rel_ParentTxID r).
Definition reverted (d : DB) : list (string * string) := map revert_key (List.filter is_revert (relationships d)).

(** The event an idempotency record was written with. *)
Definition recorded_by (r : IdempotencyKeyRecord) (ev : LogEventRecord) : Prop :=
  ev_EventID ev = ik_EventID r /\ ev_LedgerID ev = ik_LedgerID r /\
  ev_IdempotencyKey ev = ik_IdempotencyKey r /\ ev_IdempotencyHash ev = ik_IdempotencyHash r.

Lemma pg_ts_idem t : pg_ts (pg_ts t) = pg_ts t.
Proof. unfold pg_ts. by rewrite Z.div_mul. Qed.
Lemma effect_typed l key ikh t0 ty ev ds hs ts rs d d' :
  effect l key ikh t0 ty ev ds hs ts rs d d' -> well_typed ev.
Proof.
  intros He. pose proof (ef_type _ _ _ _ _ _ _ _ _ _ _ _ He) as Ht.
  destruct (ef_event _ _ _ _ _ _ _ _ _ _ _ _ He) as (id & p & vt & now & b & Hp & ->).
  split; simpl; [done|done|apply pg_ts_idem|apply pg_ts_idem|unfold schemaVersionV1; lia].
Qed.

(** What every committed operation keeps, whatever it read before (Concurrent.v). *)
Record journal_inv (d : DB) : Prop := {
  i_seq : forall l, map ev_LedgerSeq (ledger_log l d) = seqZ 1 (Z.of_nat (length (ledger_log l d)));
  i_ids : NoDup (map ev_EventID (log_events d));
  i_typed : Forall well_typed (log_events d);
  i_keys : NoDup (map ik_key (idempotency_keys d));
  i_recorded : forall r, r ∈ idempotency_keys d -> exists ev, ev ∈ log_events d /\ recorded_by r ev;
  i_trial : forall l a, trial l a (volumes_delta d) = 0;
  i_holds : Forall hold_ok (holds d);
  i_hold_keys : NoDup (map hold_key (holds d));
  i_ledgers : NoDup (map lr_ID (ledgers d))
}.

(** And what the operations keep that run one after the other. *)
Record ledger_inv (d : DB) : Prop := {
  i_journal :> journal_inv d;
  i_txs : Forall (fun t => Forall positive_posting (tx_Postings t)) (transactions d);
  i_reverts : NoDup (reverted d);
  i_known_deltas : Forall (fun r => is_Some (find_ledger (vd_LedgerID r) d)) (volumes_delta d);
  i_known_holds : Forall (fun h => is_Some (find_ledger (ho_LedgerID h) d)) (holds d)
}.

(** *** The log *)

Lemma max_seq_run l k :
  map ev_LedgerSeq l = seqZ k (Z.of_nat (length l)) -> l <> [] -> max_seq l = Some (k + Z.of_nat (length l) - 1).
Proof.
  revert k. induction l as [|r l IH]; intros k Hs Hne; [done|].
  simpl length in *. rewrite seqZ_cons in Hs by lia. simpl in Hs. injection Hs as Hr Hs.
  replace (Z.pred (Z.of_nat (S (length l)))) with (Z.of_nat (length l)) in Hs by lia.
  simpl. destruct l as [|x l]; [simpl; f_equal; lia|].
  rewrite (IH (Z.succ k) Hs) by done. f_equal. simpl length. lia.
Qed.

Lemma next_seq_run l d :
  map ev_LedgerSeq (ledger_log l d) = seqZ 1 (Z.of_nat (length (ledger_log l d))) ->
  next_seq l d = Z.of_nat (length (ledger_log l d)) + 1.
Proof.
  intros Hs. unfold next_seq. destruct (ledger_log l d) as [|r t] eqn:E; [done|].
  rewrite (max_seq_run _ 1 Hs) by done. simpl. lia.
Qed.

Lemma ledger_log_app l d d' ev :
  log_events d' = log_events d ++ [ev] ->
  ledger_log l d' = ledger_log l d ++ (if String.eqb l (ev_LedgerID ev) then [ev] else []).
Proof. intros Hl. unfold ledger_log. rewrite Hl, List.filter_app. simpl. by destruct (String.eqb _ _). Qed.

Lemma NoDup_snoc {A B} (f : A -> B) l x :
  NoDup (map f l) -> (forall y, y ∈ l -> f y <> f x) -> NoDup (map f (l ++ [x])).
Proof.
  intros Hn Hx. rewrite map_app. apply NoDup_app. split; [done|]. split; [|apply NoDup_singleton].
  intros z Hz Hz'. simpl in Hz'. apply list_elem_of_singleton in Hz' as ->.
  apply list_elem_of_In, in_map_iff in Hz as (y & Hy & Hin). apply (Hx y); [by apply list_elem_of_In|done].
Qed.

Lemma existsb_false {A} (p : A -> bool) l x : existsb p l = false -> x ∈ l -> p x = false.
Proof.
  intros Hp Hx. destruct (p x) eqn:E; [|done]. exfalso.
  assert (existsb p l = true); [|congruence]. apply existsb_exists. exists x. split; [by apply list_elem_of_In|done].
Qed.

(** *** Holds *)

Lemma update_hold_keys l id f t :
  (forall h, hold_key (f h) = hold_key h) -> map hold_key (update_hold l id f t) = map hold_key t.
Proof. intros Hf. unfold update_hold. rewrite map_map. apply map_ext. intros h. by case_match. Qed.

Lemma update_hold_ok l id f t :
  Forall hold_ok t -> (forall h, h ∈ t -> hold_is l id h = true -> hold_ok h -> hold_ok (f h)) ->
  Forall hold_ok (update_hold l id f t).
Proof.
  rewrite !Forall_forall. intros Ht Hf h Hin. apply list_elem_of_In, in_map_iff in Hin as (x & <- & Hx).
  apply list_elem_of_In in Hx. destruct (hold_is l id x && hold_live x) eqn:E; [|by apply Ht].
  apply andb_prop in E as [E _]. by apply Hf, Ht.
Qed.

Lemma hold_is_key l id h : hold_is l id h = true <-> hold_key h = (l, id).
Proof.
  unfold hold_is, hold_key. rewrite andb_true_iff, !String.eqb_eq. intuition congruence.
Qed.

Lemma find_hold_in l id d h : find_hold l id d = Some h -> h ∈ holds d /\ hold_key h = (l, id).
Proof.
  intros Hf. apply List.find_some in Hf as [Hin Hk]. split; [by apply list_elem_of_In|by apply hold_is_key].
Qed.

Lemma NoDup_key_eq {A B} (f : A -> B) l x y : NoDup (map f l) -> x ∈ l -> y ∈ l -> f x = f y -> x = y.
Proof.
  induction l as [|z l IH]; simpl; intros Hn Hx Hy Hf; [by apply not_elem_of_nil in Hx|].
  apply NoDup_cons in Hn as [Hz Hn]. apply elem_of_cons in Hx as [->|Hx], Hy as [->|Hy]; auto.
  - exfalso. apply Hz. rewrite Hf. apply list_elem_of_In, in_map, list_elem_of_In, Hy.
  - exfalso. apply Hz. rewrite <- Hf. apply list_elem_of_In, in_map, list_elem_of_In, Hx.
Qed.

Lemma capture_holds_ok l id a d h :
  journal_inv d -> find_hold l id d = Some h -> 0 < a <= ho_AuthorizedAmount h - ho_CapturedAmount h ->
  Forall hold_ok (update_hold l id (capture_hold a) (holds d)).
Proof.
  intros Hi Hf Ha. apply find_hold_in in Hf as [Hin Hk]. apply update_hold_ok; [apply Hi|].
  intros x Hx Hkx Hok. apply hold_is_key in Hkx. assert (x = h) as ->.
  { eapply (NoDup_key_eq hold_key); [apply Hi|done..|congruence]. }
  unfold hold_ok in *. simpl. lia.
Qed.

(** *** One operation *)

Definition known_hold (d : DB) (h : HoldRecord) : Prop := is_Some (find_ledger (ho_LedgerID h) d).
Definition positive_tx (t : tx_row) : Prop := Forall positive_posting (tx_Postings t).

(** The rows of an operation that the journal depends on. *)
Definition op_rows (l : string) (d d' : DB) : Prop :=
  exists key ikh t0 ty ev ds hs ts rs,
    effect l key ikh t0 ty ev ds hs ts rs d d' /\
    (forall l' a, trial l' a ds = 0) /\
    Forall hold_ok (hs (holds d)) /\ NoDup (map hold_key (hs (holds d))).

(** What all operations have in common. *)
Definition op_shape (l : string) (d d' : DB) : Prop :=
  exists key ikh t0 ty ev ds hs ts rs,
    effect l key ikh t0 ty ev ds hs ts rs d d' /\
    (forall l' a, trial l' a ds = 0) /\
    Forall (fun r => vd_LedgerID r = l) ds /\
    (ds = [] \/ is_Some (find_ledger l d)) /\
    Forall hold_ok (hs (holds d)) /\ NoDup (map hold_key (hs (holds d))) /\
    Forall (known_hold d) (hs (holds d)) /\
    Forall positive_tx (ts (transactions d)) /\
    NoDup (map revert_key (List.filter is_revert (relationships d ++ rs))).

Lemma reverts_kept rs d : ledger_inv d -> Forall (fun x => is_revert x = false) rs ->
  NoDup (map revert_key (List.filter is_revert (relationships d ++ rs))).
Proof.
  intros Hi Hr. rewrite List.filter_app. replace (List.filter is_revert rs) with (@nil RelationshipRecord).
  - rewrite app_nil_r. apply Hi.
  - induction Hr as [|x rs Hx _ IH]; simpl; [done|]. by rewrite Hx.
Qed.

Lemma reverts_once l id child e now d :
  ledger_inv d ->
  (forall r, r ∈ relationships d -> rel_LedgerID r = l -> rel_RelationshipType r = RelationshipTypeReverts ->
     rel_ParentTxID r <> id) ->
  NoDup (map revert_key (List.filter is_revert (relationships d ++ [revert_rel l id child e now]))).
Proof.
  intros Hi Hn. rewrite List.filter_app. apply NoDup_snoc; [apply Hi|].
  intros y Hy [= H1 H2]. apply list_elem_of_In, List.filter_In in Hy as [Hy Hr].
  apply (Hn y); [by apply list_elem_of_In|done|by apply Z.eqb_eq|done].
Qed.

Lemma posting_rows_ledger l e vt now ps : Forall (fun r => vd_LedgerID r = l) (posting_rows l e vt now ps).
Proof. induction ps as [|p ps IH]; simpl; [constructor|]. destruct (_ =? 0); simpl; auto. Qed.

Lemma convert_rows_ledger l e vt now params :
  Forall (fun r => vd_LedgerID r = l) (map delta_row (convert_legs l e vt now params)).
Proof. unfold convert_legs. destruct (hasSlippage params); repeat constructor. Qed.

Lemma update_hold_known l id f d :
  (forall h, hold_key (f h) = hold_key h) -> Forall (known_hold d) (holds d) ->
  Forall (known_hold d) (update_hold l id f (holds d)).
Proof.
  intros Hf. rewrite !Forall_forall. intros Hk h Hin. apply list_elem_of_In, in_map_iff in Hin as (x & <- & Hx).
  apply list_elem_of_In in Hx. specialize (Hk x Hx). destruct (_ && _); [|done].
  unfold known_hold in *. specialize (Hf x). unfold hold_key in Hf. by injection Hf as -> _.
Qed.

Lemma update_metadata_positive l id f ts : Forall positive_tx ts -> Forall positive_tx (update_tx_metadata l id f ts).
Proof.
  rewrite !Forall_forall. intros Ht t Hin. apply list_elem_of_In, in_map_iff in Hin as (x & <- & Hx).
  apply list_elem_of_In in Hx. specialize (Ht x Hx). by destruct (tx_is l id x).
Qed.

Lemma op_done_shape l safe d d' : ledger_inv d -> op_done l safe d d' -> op_shape l d d'.
Proof.
  intros Hi. pose proof (i_holds _ Hi) as Hh. pose proof (i_hold_keys _ Hi) as Hk.
  pose proof (i_known_holds _ Hi) as Hn. pose proof (i_txs _ Hi) as Ht.
  destruct 1 as
    [t0 ledger ps ref meta key ikh vt now d r d' Hl (ev & txID & He & _ & Hv & _)
    |t0 ledger params key ikh vt now d r d' Hl (ev & tx & He & _ & Hp & _ & Hv & _)
    |t0 ledger src hint asset amt exp key ikh now d r d' Hl (ev & hid & a & _ & Ha & He & Hu & _)
    |t0 ledger id amt dest key ikh now d r d' Hl (ev & h & a & _ & Ha & [Hf _] & _ & He & _)
    |t0 f ty ev id key ikh h d d' Hf _ He
    |t0 id force eff reason key ikh now d r d' (ev & txID & orig & rev & ledger & tx & Ho & Hr & Hl & Hnr & _ & He & _ & _ & Hp & _)
    |t0 ty key ikh rs d r d' Hrs (ev & id & f & He & _)];
    try (rewrite (find_ledger_id _ _ _ Hl) in * ); do 9 eexists; (split; [exact He|]).
  - split_and!; eauto using trial_postings, posting_rows_ledger, reverts_kept, reverts_once.
    apply Forall_app. split; [done|]. repeat constructor. by apply posting_record_positive, validatePostings_ok.
  - split_and!; eauto using trial_convert, convert_rows_ledger, reverts_kept.
    apply Forall_app. split; [done|]. repeat constructor. unfold positive_tx. rewrite Hp.
    by apply convert_postings_positive.
  - split_and!; eauto using reverts_kept; [apply Forall_app|apply NoDup_snoc|apply Forall_app]; try done.
    + split; [done|]. repeat constructor; simpl; lia.
    + intros y Hy Hky. assert (hold_is l hid y = true) by (apply hold_is_key; rewrite Hky; unfold hold_key; simpl;
        by rewrite (find_ledger_id _ _ _ Hl)). by rewrite (existsb_false _ _ _ Hu Hy) in *.
    + split; [done|]. repeat constructor. unfold known_hold. simpl. by rewrite (find_ledger_id _ _ _ Hl).
  - split_and!; eauto using reverts_kept.
    + intros l' s. by apply (trial_pair l' s).
    + eapply capture_holds_ok; [apply Hi|done..].
    + by rewrite update_hold_keys.
    + by apply update_hold_known.
  - assert (Hkf : forall h, hold_key (f h) = hold_key h) by (destruct Hf as [-> | ->]; done).
    split_and!; eauto using reverts_kept.
    + apply update_hold_ok; [done|]. intros x _ _ Hx. by destruct Hf as [-> | ->].
    + by rewrite update_hold_keys.
    + by apply update_hold_known.
  - split_and!; eauto using trial_postings, posting_rows_ledger, reverts_kept, reverts_once.
    apply Forall_app. split; [done|]. repeat constructor. unfold positive_tx. rewrite Hp.
    apply posting_record_positive. eapply reversePostings_positive; [|exact Hr].
    apply List.find_some in Ho as [Hin _]. rewrite Forall_forall in Ht. apply Ht. by apply list_elem_of_In.
  - split_and!; eauto using update_metadata_positive, reverts_kept.
Qed.

Lemma ledger_log_event l key ikh t0 ty ev ds hs ts rs d d' :
  effect l key ikh t0 ty ev ds hs ts rs d d' -> ev_LedgerID ev = l /\ ev_LedgerSeq ev = next_seq l d /\
  ev_IdempotencyKey ev = key /\ (key <> "" -> ev_IdempotencyHash ev = ikh).
Proof.
  intros He. destruct (ef_event _ _ _ _ _ _ _ _ _ _ _ _ He) as (id & p & vt & now & b & _ & ->).
  split_and!; try done. intros Hk. simpl. by rewrite (proj2 (String.eqb_neq _ _) Hk).
Qed.

Lemma key_rows_in t0 l key e ikh r :
  r ∈ key_rows t0 l key e ikh ->
  ik_LedgerID r = l /\ ik_IdempotencyKey r = key /\ ik_EventID r = e /\ ik_IdempotencyHash r = ikh /\ key <> "".
Proof.
  unfold key_rows. destruct (String.eqb_spec key EmptyString) as [|Hk]; simpl; [by intros ?%not_elem_of_nil|].
  destruct (bool_decide _); [|by intros ?%not_elem_of_nil]. by intros ->%list_elem_of_singleton.
Qed.

(** Appending the next event of a ledger keeps the numbering and the ids. *)
Lemma log_seq_append d ev l :
  journal_inv d -> ev_LedgerSeq ev = next_seq (ev_LedgerID ev) d ->
  let log := ledger_log l d ++ (if String.eqb l (ev_LedgerID ev) then [ev] else []) in
  map ev_LedgerSeq log = seqZ 1 (Z.of_nat (length log)).
Proof.
  intros Hi Hs. cbv zeta. pose proof (i_seq _ Hi l) as Hq. rewrite map_app, length_app, Hq.
  destruct (String.eqb_spec l (ev_LedgerID ev)) as [E|_]; simpl.
  - rewrite Nat2Z.inj_add, seqZ_app by lia. f_equal. subst l.
    rewrite Hs, (next_seq_run _ _ Hq). simpl. unfold seqZ. simpl. f_equal. lia.
  - by rewrite app_nil_r, Nat.add_0_r.
Qed.

Lemma log_ids_append d ev :
  journal_inv d -> existsb (log_conflict ev) (log_events d) = false -> NoDup (map ev_EventID (log_events d ++ [ev])).
Proof.
  intros Hi Hf. apply NoDup_snoc; [apply Hi|]. intros y Hy Hid. pose proof (existsb_false _ _ y Hf Hy) as Hc.
  unfold log_conflict in Hc. by rewrite Hid, String.eqb_refl in Hc.
Qed.

Lemma log_seq_step l d d' l' :
  journal_inv d -> op_rows l d d' ->
  map ev_LedgerSeq (ledger_log l' d') = seqZ 1 (Z.of_nat (length (ledger_log l' d'))).
Proof.
  intros Hi (key & ikh & t0 & ty & ev & ds & hs & ts & rs & He & _).
  destruct (ledger_log_event _ _ _ _ _ _ _ _ _ _ _ _ He) as (Hl & Hs & _).
  rewrite (ledger_log_app l' _ _ _ (ef_log _ _ _ _ _ _ _ _ _ _ _ _ He)).
  apply log_seq_append; [done|by rewrite Hl].
Qed.

Lemma keys_step l d d' :
  journal_inv d -> op_rows l d d' ->
  NoDup (map ik_key (idempotency_keys d')) /\
  (forall r, r ∈ idempotency_keys d' -> exists ev, ev ∈ log_events d' /\ recorded_by r ev).
Proof.
  intros Hi (key & ikh & t0 & ty & ev & ds & hs & ts & rs & He & _).
  destruct (ledger_log_event _ _ _ _ _ _ _ _ _ _ _ _ He) as (Hl & _ & Hk & Hh).
  pose proof (ef_keys_fresh _ _ _ _ _ _ _ _ _ _ _ _ He) as Hf.
  rewrite (ef_keys _ _ _ _ _ _ _ _ _ _ _ _ He), (ef_log _ _ _ _ _ _ _ _ _ _ _ _ He). split.
  - assert (Hone : key_rows t0 l key (ev_EventID ev) ikh = [] \/ exists r, key_rows t0 l key (ev_EventID ev) ikh = [r]).
    { unfold key_rows. case_match; eauto. }
    destruct Hone as [E|[r E]]; rewrite E in *; [rewrite app_nil_r; apply Hi|].
    apply NoDup_snoc; [apply Hi|]. intros y Hy Hky. specialize (Hf r (or_introl eq_refl)).
    apply (existsb_false _ _ y) in Hf; [|done]. unfold ik_conflict in Hf.
    injection Hky as H1 H2. by rewrite H1, H2, !String.eqb_refl in Hf.
  - intros r Hr. apply elem_of_app in Hr as [Hr|Hr].
    + destruct (i_recorded _ Hi r Hr) as (x & Hx & Hrec). exists x. split; [apply elem_of_app; by left|done].
    + apply key_rows_in in Hr as (H1 & H2 & H3 & H4 & H5). exists ev.
      split; [apply elem_of_app; right; by apply list_elem_of_singleton|]. unfold recorded_by.
      rewrite H1, H2, H3, H4. split_and!; auto.
Qed.

Lemma op_shape_rows l d d' : op_shape l d d' -> op_rows l d d'.
Proof.
  intros (key & ikh & t0 & ty & ev & ds & hs & ts & rs & He & Htr & _ & _ & Hh1 & Hh2 & _).
  by exists key, ikh, t0, ty, ev, ds, hs, ts, rs.
Qed.

Lemma journal_inv_op l d d' : journal_inv d -> op_rows l d d' -> journal_inv d'.
Proof.
  intros Hi Hs. pose proof (fun l' => log_seq_step l d d' l' Hi Hs) as Hseq. pose proof (keys_step l d d' Hi Hs) as [Hk1 Hk2].
  destruct Hs as (key & ikh & t0 & ty & ev & ds & hs & ts & rs & He & Htr & Hh1 & Hh2).
  split; auto.
  - rewrite (ef_log _ _ _ _ _ _ _ _ _ _ _ _ He). by apply log_ids_append, (ef_log_fresh _ _ _ _ _ _ _ _ _ _ _ _ He).
  - rewrite (ef_log _ _ _ _ _ _ _ _ _ _ _ _ He). apply Forall_app. split; [apply Hi|]. constructor; [by eapply effect_typed|done].
  - intros l' a. rewrite (ef_deltas _ _ _ _ _ _ _ _ _ _ _ _ He), trial_app, Htr, (i_trial _ Hi). done.
  - by rewrite (ef_holds _ _ _ _ _ _ _ _ _ _ _ _ He).
  - by rewrite (ef_holds _ _ _ _ _ _ _ _ _ _ _ _ He).
  - rewrite (ef_ledgers _ _ _ _ _ _ _ _ _ _ _ _ He). apply Hi.
Qed.

Lemma ledger_inv_op l d d' : ledger_inv d -> op_shape l d d' -> ledger_inv d'.
Proof.
  intros Hi Hs. pose proof (journal_inv_op l d d' Hi (op_shape_rows _ _ _ Hs)) as Hj.
  destruct Hs as (key & ikh & t0 & ty & ev & ds & hs & ts & rs & He & Htr & Hlg & Hkn & Hh1 & Hh2 & Hh3 & Ht & Hrv).
  pose proof (ef_ledgers _ _ _ _ _ _ _ _ _ _ _ _ He) as Hled.
  assert (Hfl : forall x, find_ledger x d' = find_ledger x d) by (intros; unfold find_ledger; by rewrite Hled).
  split; auto.
  - by rewrite (ef_txs _ _ _ _ _ _ _ _ _ _ _ _ He).
  - unfold reverted. by rewrite (ef_rels _ _ _ _ _ _ _ _ _ _ _ _ He).
  - rewrite (ef_deltas _ _ _ _ _ _ _ _ _ _ _ _ He). apply Forall_app. split.
    + eapply Forall_impl; [apply (i_known_deltas _ Hi)|]. intros r. by rewrite Hfl.
    + destruct Hkn as [->|Hkn]; [constructor|]. eapply Forall_impl; [exact Hlg|]. intros r ->. by rewrite Hfl.
  - rewrite (ef_holds _ _ _ _ _ _ _ _ _ _ _ _ He). eapply Forall_impl; [exact Hh3|]. intros h. by rewrite Hfl.
Qed.

Lemma find_ledger_app l d r :
  is_Some (find_ledger l d) -> is_Some (find_ledger l (set_ledgers (ledgers d ++ [r]) d)).
Proof.
  unfold find_ledger. simpl. induction (ledgers d) as [|x ls IH]; simpl; [by intros [? ?]|].
  by destruct (String.eqb l (lr_ID x)).
Qed.

Lemma find_ledger_seal now id l d :
  is_Some (find_ledger l (set_ledgers (seal_rows now id (ledgers d)) d)) <-> is_Some (find_ledger l d).
Proof.
  unfold find_ledger, seal_rows. simpl. induction (ledgers d) as [|x ls IH]; simpl; [done|].
  destruct (String.eqb id (lr_ID x) && _); simpl; destruct (String.eqb l (lr_ID x)); try done; naive_solver.
Qed.

(** The steps that are not operations. *)
Inductive admin_step : DB -> DB -> Prop :=
| admin_batches d d' : same_but_batches d d' -> admin_step d d'
| admin_bucket b d : admin_step d (set_buckets b d)
| admin_create r d : new_ledger r d -> admin_step d (set_ledgers (ledgers d ++ [r]) d)
| admin_seal now id d : admin_step d (set_ledgers (seal_rows now id (ledgers d)) d)
| admin_approval t d : approval_step (pending_approvals d) t -> admin_step d (set_pending_approvals t d)
| admin_import ev d : appendable ev d -> admin_step d (set_log_events (log_events d ++ [ev]) d)
| admin_checkpoint t d : admin_step d (set_volumes_checkpoint t d).

Lemma step_cases safe d d' : step safe d d' -> (exists l b, op_done l b d d') \/ admin_step d d'.
Proof. destruct 1; eauto using admin_step. Qed.

Lemma journal_inv_admin d d' : journal_inv d -> admin_step d d' -> journal_inv d'.
Proof.
  intros Hi. destruct 1 as [d d' Hb|b d|r d [Hn _]|now id d|t d _|ev d (Hseq & Hfr & Hty)|t d].
  - rewrite Hb. destruct Hi. by split.
  - destruct Hi. by split.
  - destruct Hi. split; simpl; try done. apply NoDup_snoc; [done|]. intros y Hy Hid. unfold find_ledger in Hn.
    pose proof (List.find_none _ _ Hn y (proj1 (list_elem_of_In _ _) Hy)) as Hx. simpl in Hx. by rewrite Hid, String.eqb_refl in Hx.
  - destruct Hi. split; simpl; try done.
    replace (map lr_ID (seal_rows now id (ledgers d))) with (map lr_ID (ledgers d)); [done|].
    unfold seal_rows. rewrite map_map. apply map_ext. intros x. by case_match.
  - destruct Hi. by split.
  - pose proof (log_ids_append _ _ Hi Hfr) as Hids.
    pose proof (fun l => log_seq_append d ev l Hi Hseq) as Hlog. destruct Hi. split; simpl; try done.
    + intros l. rewrite (ledger_log_app l d _ ev) by done. apply Hlog.
    + apply Forall_app. split; [done|by constructor].
    + intros r Hr. destruct (i_recorded0 r Hr) as (x & Hx & Hrec). exists x. split; [apply elem_of_app; by left|done].
  - destruct Hi. by split.
Qed.

Lemma ledger_inv_admin d d' : ledger_inv d -> admin_step d d' -> ledger_inv d'.
Proof.
  intros Hi Hs. pose proof (journal_inv_admin d d' Hi Hs) as Hj. destruct Hi as [_ H1 H2 H3 H4].
  assert (Hk : forall l, is_Some (find_ledger l d) -> is_Some (find_ledger l d')).
  { intros l. destruct Hs as [d d' Hb|b d|r d _|now id d|t d _|ev d _|t d]; try done; [by rewrite Hb|apply find_ledger_app|apply find_ledger_seal]. }
  split; [done|..].
  - destruct Hs as [d d' Hb|b d|r d _|now id d|t d _|ev d _|t d]; try done. by rewrite Hb.
  - destruct Hs as [d d' Hb|b d|r d _|now id d|t d _|ev d _|t d]; try done. by rewrite Hb.
  - assert (E : volumes_delta d' = volumes_delta d) by (destruct Hs as [d d' ->|b d|r d _|now id d|t d _|ev d _|t d]; done).
    rewrite E. eapply Forall_impl; [exact H3|]. intros x. apply Hk.
  - assert (E : holds d' = holds d) by (destruct Hs as [d d' ->|b d|r d _|now id d|t d _|ev d _|t d]; done).
    rewrite E. eapply Forall_impl; [exact H4|]. intros x. apply Hk.
Qed.

Lemma ledger_inv_step safe d d' : ledger_inv d -> step safe d d' -> ledger_inv d'.
Proof.
  intros Hi [(l & b & Ho)|Ha]%step_cases; [|by eapply ledger_inv_admin]. eauto using ledger_inv_op, op_done_shape.
Qed.

Lemma ledger_inv_empty : ledger_inv empty_db.
Proof. split; [split|..]; simpl; try done; try constructor. by intros r ?%not_elem_of_nil. Qed.

Lemma steps_inv safe d d' : ledger_inv d -> steps safe d d' -> ledger_inv d'.
Proof. intros Hi Hs. induction Hs; eauto using ledger_inv_step. Qed.

(** A step without an unsafe operation is a step. *)
Lemma step_weaken c d d' : step c d d' -> step false d d'.
Proof.
  destruct 1 as [d d' Hb|l d d' Ho|l d d' _ Ho|b d|r d Hn|now id d|t d Ha|ev d Ha|t d];
    [by apply step_batches| |by eapply step_unsafe|apply step_bucket|by apply step_create|apply step_seal
    |by apply step_approval|by apply step_import|apply step_checkpoint].
  destruct c; [by eapply step_unsafe|by eapply step_op].
Qed.
Lemma reachable_steps c d d' : reachable d -> steps c d d' -> reachable d'.
Proof.
  intros Hr Hs. unfold reachable. etransitivity; [exact Hr|]. clear Hr.
  induction Hs; [constructor|]. eapply rtc_l; [by eapply step_weaken|done].
Qed.
Lemma reachable_safely_reachable d : reachable_safely d -> reachable d.
Proof. apply (reachable_steps true). constructor. Qed.

Lemma reachable_inv d : reachable d -> ledger_inv d.
Proof. apply steps_inv, ledger_inv_empty. Qed.

(** *** Approvals *)

(** Every operation is an effect. *)
Lemma op_done_effect l safe d d' :
  op_done l safe d d' -> exists l' key ikh t0 ty ev ds hs ts rs, effect l' key ikh t0 ty ev ds hs ts rs d d'.
Proof.
  destruct 1 as
    [t0 ledger ps ref meta key ikh vt now d r d' _ (ev & txID & He & _)
    |t0 ledger params key ikh vt now d r d' _ (ev & tx & He & _)
    |t0 ledger src hint asset amt exp key ikh now d r d' _ (ev & hid & a & _ & _ & He & _)
    |t0 ledger id amt dest key ikh now d r d' _ (ev & h & a & _ & _ & _ & _ & He & _)
    |t0 f ty ev id key ikh h d d' _ _ He
    |t0 id force eff reason key ikh now d r d' (ev & txID & orig & rev & ledger & tx & _ & _ & _ & _ & _ & He & _)
    |t0 ty key ikh rs d r d' _ (ev & id & f & He & _)]; do 10 eexists; exact He.
Qed.

Lemma op_done_ledgers l safe d d' : op_done l safe d d' -> ledgers d' = ledgers d.
Proof. intros (?&?&?&?&?&?&?&?&?&?& He)%op_done_effect. apply He. Qed.
Lemma op_done_approvals l safe d d' : op_done l safe d d' -> pending_approvals d' = pending_approvals d.
Proof. intros (?&?&?&?&?&?&?&?&?&?& He)%op_done_effect. apply He. Qed.

Lemma approvals_inv_step safe d d' :
  approvals_inv (pending_approvals d) -> step safe d d' -> approvals_inv (pending_approvals d').
Proof.
  intros Hi. destruct 1 as [d d' Hb|l d d' Ho|l d d' _ Ho|b d|r d _|now id d|t d Ha|ev d _|t d]; try done.
  - by rewrite Hb.
  - by rewrite (op_done_approvals _ _ _ _ Ho).
  - by rewrite (op_done_approvals _ _ _ _ Ho).
  - by eapply approval_step_inv.
Qed.

Lemma reachable_approvals d : reachable d -> approvals_inv (pending_approvals d).
Proof.
  assert (H0 : approvals_inv (pending_approvals empty_db)) by (by split; constructor).
  unfold reachable, steps. revert H0. generalize empty_db as d0. intros d0 H0 Hs.
  induction Hs; eauto using approvals_inv_step.
Qed.
