(* ===== verification/Raced.v ===== *)
(** * The ledger as a transition system whose operations race

    [raced] is what Ledger.v becomes when requests interleave (Interleaving.v): an
    operation commits the same rows, but whatever it checked with a SELECT it checked on
    some other database. The journal keeps its invariant: the books balance, the logs are
    numbered without gaps, a key is recorded once, no hold is captured beyond its amount;
    and an approval that is executed had all its signatures. *)
From S2P Require Import Prelude GoStd Regex Accounts Assets Policy Sha256 Json Storage Db Prog.
From S2P Require Import Logic Postgres BatchManager Redis Chart Planner Cores Bodies StoreRules Effects.
From S2P Require Import ApprovalSteps Ledger.

(** ** Operations *)

(** An operation, whatever was [checked] or [found] before its rows were written. *)
Inductive op_raced (d d' : DB) : Prop :=
| raced_post t0 checked ledger ps ref meta key ikh vt now r :
    post_done_if t0 checked ledger ps ref meta key ikh vt now d r d' -> op_raced d d'
| raced_convert t0 checked ledger params key ikh vt now r :
    convert_done_if t0 checked ledger params key ikh vt now d r d' -> op_raced d d'
| raced_authorize t0 checked ledger src hint asset amt exp key ikh now r :
    authorize_done_if t0 checked ledger src hint asset amt exp key ikh now d r d' -> op_raced d d'
| raced_capture t0 l id amt dest key ikh now r :
    capture_done t0 l id amt dest key ikh now d r d' -> op_raced d d'
| raced_release l t0 f ty ev id key ikh h :
    f = void_hold \/ f = expire_hold -> live_hold l id h d ->
    effect l key ikh t0 ty ev [] (update_hold l id f) Datatypes.id [] d d' -> op_raced d d'
| raced_revert t0 found checked l id force eff reason key ikh now r :
    revert_done_if t0 found checked l id force eff reason key ikh now d r d' -> op_raced d d'
| raced_metadata t0 ty l key ikh rs r : metadata_done t0 ty l key ikh rs d r d' -> op_raced d d'.

Lemma void_raced t0 l id key ikh d r d' : void_done t0 l id key ikh d r d' -> op_raced d d'.
Proof. intros (ev & h & Hh & He & _). eapply (raced_release d d' l t0 void_hold); eauto. Qed.

(** Its rows keep the journal. *)
Lemma op_raced_rows d d' : journal_inv d -> op_raced d d' -> exists l, op_rows l d d'.
Proof.
  intros Hi. pose proof (i_holds _ Hi) as Hh. pose proof (i_hold_keys _ Hi) as Hk.
  destruct 1 as
    [t0 checked ledger ps ref meta key ikh vt now r (ev & txID & He & _)
    |t0 checked ledger params key ikh vt now r (ev & tx & He & _)
    |t0 checked ledger src hint asset amt exp key ikh now r (ev & hid & a & _ & Ha & He & Hu & _)
    |t0 l id amt dest key ikh now r (ev & h & a & _ & Ha & [Hf _] & _ & He & _)
    |l t0 f ty ev id key ikh h Hf _ He
    |t0 found checked l id force eff reason key ikh now r (ev & txID & orig & rev & ledger & tx & _ & _ & _ & _ & _ & He & _)
    |t0 ty l key ikh rs r (ev & id & f & He & _)]; do 10 eexists; (split; [exact He|]).
  - split_and!; [intros; apply trial_postings|done..].
  - split_and!; [intros; apply trial_convert|done..].
  - split_and!; [done|apply Forall_app; split; [done|]|apply NoDup_snoc; [done|]].
    + repeat constructor; simpl; lia.
    + intros y Hy Hky. assert (hold_is (lr_ID ledger) hid y = true) by (apply hold_is_key; by rewrite Hky).
      by rewrite (existsb_false _ _ _ Hu Hy) in *.
  - split_and!; [intros l' s; by apply (trial_pair l' s)|by eapply capture_holds_ok|by rewrite update_hold_keys].
  - assert (Hkf : forall h, hold_key (f h) = hold_key h) by (destruct Hf as [-> | ->]; done).
    split_and!; [done| |by rewrite update_hold_keys].
    apply update_hold_ok; [done|]. intros x _ _ Hx. by destruct Hf as [-> | ->].
  - split_and!; [intros; apply trial_postings|done..].
  - by split_and!.
Qed.

(** ** Approvals *)

(** Where nothing locks the row, a sweep may expire it and an execution that failed may
    reject it, whatever its state. *)
Inductive raced_move (a : approval_row) : approval_row -> Prop :=
| raced_life b : approval_move a b -> raced_move a b
| raced_overwrite s x : s ∈ ["expired"; "rejected"] -> raced_move a (to_state s x a).

(** The update of a row, which its key finds first. *)
Inductive raced_approvals (t : list approval_row) : list approval_row -> Prop :=
| raced_submit a :
    existsb (approval_is (pa_LedgerID a) (pa_IntentID a)) t = false -> pa_State a = "pending" -> signed_by a = [] ->
    raced_approvals t (t ++ [a])
| raced_update l id (p : approval_row -> bool) f :
    (forall a, p a = true -> approval_is l id a = true) ->
    (forall a, List.find (approval_is l id) t = Some a -> p a = true -> raced_move a (f a)) ->
    raced_approvals t (map (fun a => if p a then f a else a) t).

(** Dual control: each signer signed once and had the right to, and all of them before
    the execution. *)
Record dual_control (a : approval_row) : Prop := {
  dc_once : NoDup (signed_by a);
  dc_signers : forall p, p ∈ signed_by a -> p ∈ named a /\ p <> pa_SubmittedBy a;
  dc_complete : pa_State a ∈ ["executing"; "executed"] -> complete a
}.
Definition approvals_raced_inv (t : list approval_row) : Prop := NoDup (map approval_key t) /\ Forall dual_control t.

Lemma raced_move_key a b : raced_move a b -> approval_key b = approval_key a.
Proof. destruct 1 as [b Hm|]; [by apply approval_move_key|done]. Qed.

Lemma raced_move_dual a b : dual_control a -> raced_move a b -> dual_control b.
Proof.
  intros [Ho Hs Hc]. destruct 1 as [b Hm|s x Hst].
  - destruct Hm as [e a Hp (Hn & Hsub & Hnew)|x a Hp|x a Hp Hcm|s x a He Hst].
    + split; [rewrite signed_by_sign|intros p; rewrite signed_by_sign|simpl; rewrite Hp; set_solver].
      * apply NoDup_app. split_and!; [done|by intros x Hx ->%list_elem_of_singleton|apply NoDup_singleton].
      * rewrite elem_of_app, list_elem_of_singleton. intros [Hp2| ->]; [by apply Hs|done].
    + split; [done..|]. simpl. set_solver.
    + by split.
    + split; [done..|]. intros _. apply Hc. rewrite He. set_solver.
  - split; [done..|]. simpl. set_solver.
Qed.

Lemma find_unique l id t a b : NoDup (map approval_key t) -> a ∈ t -> approval_is l id a = true ->
  List.find (approval_is l id) t = Some b -> a = b.
Proof.
  intros Hn Ha Hka [Hb Hkb]%List.find_some. apply list_elem_of_In in Hb.
  apply (NoDup_key_eq approval_key t); [done..|]. unfold approval_is, approval_key in *.
  apply andb_prop in Hka as [->%String.eqb_eq ->%String.eqb_eq]. by apply andb_prop in Hkb as [->%String.eqb_eq ->%String.eqb_eq].
Qed.

Lemma raced_approvals_inv t t' : approvals_raced_inv t -> raced_approvals t t' -> approvals_raced_inv t'.
Proof.
  intros [Hk Ho]. destruct 1 as [a Hf Hp Hs|l id p f Hp Hm].
  - split.
    + apply NoDup_snoc; [done|]. intros b Hb Heq. apply existsb_false with (x := b) in Hf; [|done].
      apply Bool.not_true_iff_false in Hf. apply Hf. by apply approval_is_key.
    + apply Forall_app. split; [done|]. apply Forall_singleton. split; rewrite ?Hs, ?Hp; [constructor|set_solver..].
  - assert (Hmove : forall a, a ∈ t -> p a = true -> raced_move a (f a)).
    { intros a Ha Hpa. destruct (List.find (approval_is l id) t) as [b|] eqn:Ef.
      - rewrite (find_unique l id t a b); auto. intros. apply (Hm b); [done|]. by rewrite <- (find_unique l id t a b); auto.
      - pose proof (List.find_none _ _ Ef a (proj1 (list_elem_of_In _ _) Ha)) as Hn. by rewrite Hp in Hn. }
    split.
    + rewrite map_map. erewrite map_ext_in; [exact Hk|]. intros a Ha. simpl. destruct (p a) eqn:Ep; [|done].
      by apply raced_move_key, Hmove; [apply list_elem_of_In|].
    + apply Forall_forall. intros b (a & -> & Ha)%list_elem_of_fmap. rewrite Forall_forall in Ho.
      destruct (p a) eqn:Ep; [eapply raced_move_dual; eauto|by apply Ho].
Qed.

(** ** Steps *)

Inductive raced_step (d : DB) : DB -> Prop :=
| raced_op d' : op_raced d d' -> raced_step d d'
| raced_admin d' : admin_step d d' -> pending_approvals d' = pending_approvals d -> raced_step d d'
| raced_approval t : raced_approvals (pending_approvals d) t -> raced_step d (set_pending_approvals t d).

Definition raced : DB -> DB -> Prop := rtc raced_step.

Record raced_inv (d : DB) : Prop := {
  ri_journal :> journal_inv d;
  ri_approvals : approvals_raced_inv (pending_approvals d)
}.

Lemma raced_step_inv d d' : raced_inv d -> raced_step d d' -> raced_inv d'.
Proof.
  intros [Hj Ha]. destruct 1 as [d' Ho|d' Hs Hp|t Ht].
  - destruct (op_raced_rows d d' Hj Ho) as [l Hr]. split; [by eapply journal_inv_op|].
    destruct Hr as (key & ikh & t0 & ty & ev & ds & hs & ts & rs & He & _).
    by rewrite (ef_approvals _ _ _ _ _ _ _ _ _ _ _ _ He).
  - split; [by eapply journal_inv_admin|by rewrite Hp].
  - split; [|by eapply raced_approvals_inv]. destruct Hj. by split.
Qed.
Lemma raced_keeps d d' : raced_inv d -> raced d d' -> raced_inv d'.
Proof. intros Hi Hs. induction Hs; eauto using raced_step_inv. Qed.

Lemma raced_once d d' : raced_step d d' -> raced d d'.
Proof. apply rtc_once. Qed.
Lemma raced_batches d d' : same_but_batches d d' -> raced d d'.
Proof. intros Hs. apply raced_once, raced_admin; [by apply admin_batches|by rewrite Hs]. Qed.
Lemma raced_rtc d d' : rtc raced d d' -> raced d d'.
Proof. induction 1; [done|]. by etransitivity. Qed.
