(* ===== verification/Solvency.v ===== *)
(** * No overdraft

    Executed one after the other, the operations keep the available balance of every
    account that is not an issuer of its ledger at or above zero, the forced reverts and
    the conversions whose destination cannot pay aside. *)
From S2P Require Import Prelude GoStd Regex Accounts Assets Policy Sha256 Json Storage Db Prog.
From S2P Require Import Logic Postgres BatchManager Redis Chart Planner Cores Bodies StoreRules Effects.
From S2P Require Import Ledger.

(** [account] is not an issuer of ledger [l]. *)
Definition not_issuer (l account : string) (d : DB) : Prop :=
  forall ledger, find_ledger l d = Some ledger -> IsIssuer account (lr_IssuerAccounts ledger) = false.

Definition solvent (d : DB) : Prop :=
  forall l account asset, not_issuer l account d -> 0 <= available l account asset d.

(** ** Sums *)

Lemma sum_by_le {A} (f g : A -> Z) l : (forall x, x ∈ l -> f x <= g x) -> sum_by f l <= sum_by g l.
Proof.
  induction l as [|x l IH]; simpl; intros Hfg; [lia|].
  pose proof (Hfg x ltac:(set_solver)). assert (sum_by f l <= sum_by g l) by (apply IH; intros; apply Hfg; set_solver). lia.
Qed.

Lemma sum_by_le_one {A} (f g : A -> Z) l y k :
  (forall x, x ∈ l -> f x <= g x) -> y ∈ l -> f y <= g y - k -> sum_by f l <= sum_by g l - k.
Proof.
  induction l as [|x l IH]; simpl; intros Hfg Hy Hk; [by apply not_elem_of_nil in Hy|].
  assert (Hl : forall z, z ∈ l -> f z <= g z) by (intros; apply Hfg; set_solver).
  apply elem_of_cons in Hy as [->|Hy].
  - pose proof (sum_by_le f g l Hl). lia.
  - pose proof (Hfg x ltac:(set_solver)). specialize (IH Hl Hy Hk). lia.
Qed.

Definition reserve (l account asset : string) (h : HoldRecord) : Z :=
  if hold_on l account asset h && hold_live h then ho_AuthorizedAmount h - ho_CapturedAmount h else 0.

Lemma reserved_update l' id f l account asset t :
  reserved l account asset (update_hold l' id f t) =
  sum_by (fun h => reserve l account asset (if hold_is l' id h && hold_live h then f h else h)) t.
Proof. unfold reserved, update_hold. by rewrite sum_by_map. Qed.

(** A capture, a void or an expiry releases reserve, never adds any. *)
Definition releases (f : HoldRecord -> HoldRecord) : Prop :=
  forall l account asset h, hold_ok h -> hold_live h = true ->
    reserve l account asset (f h) <= reserve l account asset h.

Lemma void_releases : releases void_hold.
Proof.
  intros l a s h [? ?] Hl. unfold reserve. rewrite Hl.
  change (hold_on l a s (void_hold h)) with (hold_on l a s h). change (hold_live (void_hold h)) with false.
  rewrite andb_false_r. destruct (hold_on l a s h); simpl; lia.
Qed.
Lemma expire_releases : releases expire_hold.
Proof.
  intros l a s h [? ?] Hl. unfold reserve. rewrite Hl.
  change (hold_on l a s (expire_hold h)) with (hold_on l a s h).
  replace (hold_live (expire_hold h)) with false by (unfold hold_live; simpl; by rewrite andb_false_r).
  rewrite andb_false_r. destruct (hold_on l a s h); simpl; lia.
Qed.
Lemma capture_releases k : 0 < k -> releases (capture_hold k).
Proof.
  intros Hk l a s h [? ?] Hl. unfold reserve.
  change (hold_on l a s (capture_hold k h)) with (hold_on l a s h).
  change (hold_live (capture_hold k h)) with (hold_live h). rewrite Hl.
  destruct (hold_on l a s h); simpl; lia.
Qed.

Lemma reserved_update_le l' id f l account asset t :
  releases f -> Forall hold_ok t -> reserved l account asset (update_hold l' id f t) <= reserved l account asset t.
Proof.
  intros Hf Ht. rewrite reserved_update. apply sum_by_le. intros h Hin. rewrite Forall_forall in Ht.
  destruct (hold_is l' id h && hold_live h) eqn:E; [|done]. apply andb_prop in E as [_ E]. by apply Hf; [apply Ht|].
Qed.

(** ** The rows of one event touch a bucket once *)

Lemma fresh_single l e account asset ds t :
  fresh_rows ds t -> Forall (fun r => vd_LedgerID r = l /\ vd_Shard r = 0 /\ vd_EventID r = e) ds ->
  posted l account asset ds = 0 \/
  exists r, r ∈ ds /\ bucket_is l account asset r = true /\ posted l account asset ds = vd_InputDelta r - vd_OutputDelta r.
Proof.
  intros Hf Ha. revert t Hf. induction Ha as [|r ds (Hl & Hs & He) Ha IH]; intros t; [by left|].
  intros [_ Hf]. change (posted l account asset (r :: ds)) with
    ((if bucket_is l account asset r then vd_InputDelta r - vd_OutputDelta r else 0) + posted l account asset ds).
  destruct (bucket_is l account asset r) eqn:Eb.
  - right. exists r. split_and!; [set_solver|done|].
    assert (Hz : posted l account asset ds = 0); [|lia].
    assert (Hin : r ∈ t ++ [r]) by set_solver. revert Hf Hin. generalize (t ++ [r]). clear IH.
    induction Ha as [|x ds (Hlx & Hsx & Hex) Ha IH]; intros t' Hf Hin; [done|]. destruct Hf as [Hc Hf].
    unfold posted in *. simpl. rewrite (IH (t' ++ [x])); [|done|set_solver].
    destruct (bucket_is l account asset x) eqn:Ex; [|done].
    apply (existsb_false _ _ _ Hc) in Hin. enough (delta_conflict x r = true) by congruence.
    unfold bucket_is in Eb, Ex. apply andb_prop in Eb as [[H1 H2]%andb_prop H3], Ex as [[H4 H5]%andb_prop H6].
    rewrite String.eqb_eq in H2, H3, H5, H6. unfold delta_conflict.
    rewrite Hlx, Hl, Hsx, Hs, Hex, He, <- H2, <- H3, <- H5, <- H6. by rewrite !String.eqb_refl.
  - destruct (IH _ Hf) as [Hz|(x & Hx & Hb & Hp)]; [left; lia|]. right. exists x. split_and!; [set_solver|done|lia].
Qed.

Lemma posting_rows_shape l e vt now ps :
  Forall (fun r => vd_LedgerID r = l /\ vd_Shard r = 0 /\ vd_EventID r = e) (posting_rows l e vt now ps).
Proof. induction ps as [|p ps IH]; simpl; [constructor|]. destruct (_ =? 0); simpl; repeat constructor; auto. Qed.

Lemma posting_rows_in l e vt now ps r :
  r ∈ posting_rows l e vt now ps ->
  exists p, p ∈ ps /\
    ((vd_Account r = pi_Source p /\ vd_Asset r = pi_Asset p /\ vd_InputDelta r = 0 /\ vd_OutputDelta r = amount p) \/
     (vd_Account r = pi_Destination p /\ vd_InputDelta r = amount p /\ vd_OutputDelta r = 0)).
Proof.
  induction ps as [|p ps IH]; simpl; [by intros ?%not_elem_of_nil|]. intros Hr. apply elem_of_app in Hr as [Hr|Hr].
  - exists p. split; [set_solver|]. destruct (amount p =? 0); [by apply not_elem_of_nil in Hr|].
    apply elem_of_cons in Hr as [->|Hr]; [by left|]. apply list_elem_of_singleton in Hr as ->. by right.
  - destruct (IH Hr) as (q & Hq & Hd). exists q. split; [set_solver|done].
Qed.

(** ** The legs of a conversion *)

Lemma posted_leg l account asset a s e vt now i o rest :
  posted l account asset (delta_row (volume_delta l a s e vt now i o) :: rest) =
  (if bool_decide ((a, s) = (account, asset)) then i - o else 0) + posted l account asset rest.
Proof. unfold posted, bucket_is. simpl. by rewrite String.eqb_refl; simpl; rewrite bucket_eq. Qed.

(** What the slippage legs can take from a bucket, on top of the source amount. *)
Lemma slippage_bound l account asset e vt now params :
  exists s, 0 <= s /\ source_amount params + s <= totalSourceOutput params /\
    - (if bool_decide ((cv_Source params, cv_SourceAsset params) = (account, asset)) then s else 0) <=
    posted l account asset (map delta_row (if hasSlippage params then
        [volume_delta l (cv_Source params) (cv_SourceAsset params) e vt now 0 (slippage_amount params);
         volume_delta l (cv_SlippageAccount params) (cv_SourceAsset params) e vt now (slippage_amount params) 0]
        else [])).
Proof.
  unfold totalSourceOutput, hasSlippage. destruct (positive (cv_SlippageAmount params)) eqn:Ep; simpl.
  2:{ exists 0. split_and!; [lia..|]. simpl. case_bool_decide; done. }
  assert (0 < slippage_amount params).
  { unfold positive, slippage_amount in *. destruct (cv_SlippageAmount params); [|done]. by apply Z.ltb_lt. }
  exists (slippage_amount params). split_and!; [lia..|]. destruct (String.eqb _ _); simpl.
  - unfold posted. simpl. case_bool_decide; lia.
  - rewrite !posted_leg. unfold posted. simpl. repeat case_bool_decide; lia.
Qed.

(** ** Each operation *)

Section Op.
Context (l : string) (d d' : DB) (Hi : ledger_inv d) (Hs : solvent d).

Lemma available_effect key ikh t0 ty ev ds hs ts rs l' account asset :
  effect l key ikh t0 ty ev ds hs ts rs d d' ->
  available l' account asset d' =
  available l' account asset d + posted l' account asset ds +
  (reserved l' account asset (holds d) - reserved l' account asset (hs (holds d))).
Proof.
  intros He. unfold available.
  rewrite (ef_deltas _ _ _ _ _ _ _ _ _ _ _ _ He), (ef_holds _ _ _ _ _ _ _ _ _ _ _ _ He), posted_app. lia.
Qed.

Lemma solvent_post t0 ledger ps ref meta key ikh vt now r :
  find_ledger l d = Some ledger -> post_done t0 ledger ps ref meta key ikh vt now d r d' ->
  forall l' account asset, not_issuer l' account d -> 0 <= available l' account asset d'.
Proof.
  intros Hl (ev & txID & He & _ & Hv & Hcov & _) l' account asset Hn. pose proof (find_ledger_id _ _ _ Hl) as Hid.
  rewrite Hid in He. rewrite (available_effect _ _ _ _ _ _ _ _ _ _ _ _ He). pose proof (Hs l' account asset Hn) as H0.
  destruct (decide (l' = l)) as [->|Hne].
  2:{ rewrite (posted_other _ l) by (try apply posting_rows_ledger; done). simpl. lia. }
  rewrite posted_postings. simpl. pose proof (sums_nonneg account asset ps (validatePostings_ok _ Hv)) as [Hin Hout].
  destruct (net_outputs ps !! (account, asset)) as [o|] eqn:Eo.
  - specialize (Hcov ((account, asset), o)). unfold covered in Hcov. simpl in Hcov.
    destruct Hcov as [Hc|Hc]; [by apply elem_of_map_to_list|by rewrite (Hn _ Hl) in Hc|].
    rewrite net_inputs_sum, Hid in Hc. pose proof (net_outputs_sum ps account asset) as Ho.
    rewrite Eo in Ho. simpl in Ho. lia.
  - pose proof (net_outputs_sum ps account asset) as Ho. rewrite Eo in Ho. simpl in Ho. lia.
Qed.

Lemma solvent_convert t0 ledger params key ikh vt now r :
  find_ledger l d = Some ledger -> convert_done t0 ledger params key ikh vt now d r d' ->
  IsIssuer (cv_Destination params) (lr_IssuerAccounts ledger) = true \/
    dest_amount params <= available l (cv_Destination params) (cv_DestAsset params) d ->
  forall l' account asset, not_issuer l' account d -> 0 <= available l' account asset d'.
Proof.
  intros Hl (ev & tx & He & _ & _ & _ & Hv & Hf & _) Hd l' account asset Hn. pose proof (find_ledger_id _ _ _ Hl) as Hid.
  unfold funded in Hf. rewrite Hid in He, Hf. rewrite (available_effect _ _ _ _ _ _ _ _ _ _ _ _ He).
  pose proof (Hs l' account asset Hn) as H0.
  destruct (decide (l' = l)) as [->|Hnl].
  2:{ rewrite (posted_other _ l) by (try apply convert_rows_ledger; done). simpl. lia. }
  pose proof (validateConvert_positive _ Hv) as (Hsa & Hda & Hne). unfold totalSourceOutput in Hf.
  assert (Hsrc : account = cv_Source params -> IsIssuer (cv_Source params) (lr_IssuerAccounts ledger) = false)
    by (intros <-; by apply Hn).
  assert (Hdst : account = cv_Destination params -> IsIssuer (cv_Destination params) (lr_IssuerAccounts ledger) = false)
    by (intros <-; by apply Hn).
  destruct (slippage_bound l account asset (ev_EventID ev) vt now params) as (s & Hs0 & Hst & Hsum).
  unfold convert_legs. rewrite map_app. simpl map at 1. cbn [app]. rewrite !posted_leg. unfold totalSourceOutput in Hst.
  simpl Datatypes.id. destruct (decide (cv_Source params = cv_Destination params)) as [E|E]; [rewrite E in *|];
  repeat case_bool_decide; simplify_eq;
    repeat match goal with
      | H : ?x = ?x -> _ |- _ => specialize (H eq_refl)
      | H : _ \/ _ |- _ => destruct H as [H|H]; [congruence|]
      end; first [congruence|lia].
Qed.

Lemma reserved_snoc l' account asset h t :
  reserved l' account asset (t ++ [h]) = reserved l' account asset t + reserve l' account asset h.
Proof. unfold reserved. rewrite sum_by_app. simpl. unfold reserve. lia. Qed.

Lemma solvent_authorize t0 ledger src hint asset amt exp key ikh now r :
  find_ledger l d = Some ledger -> authorize_done t0 ledger src hint asset amt exp key ikh now d r d' ->
  forall l' account s, not_issuer l' account d -> 0 <= available l' account s d'.
Proof.
  intros Hl (ev & hid & a & _ & Ha & He & _ & Hf & _) l' account s Hn. pose proof (find_ledger_id _ _ _ Hl) as Hid.
  unfold funded in Hf. rewrite Hid in He, Hf. rewrite (available_effect _ _ _ _ _ _ _ _ _ _ _ _ He).
  pose proof (Hs l' account s Hn) as H0. rewrite reserved_snoc. unfold reserve, hold_on, posted. simpl.
  rewrite Hid. destruct (String.eqb_spec l' l) as [->|]; simpl; [|lia].
  destruct (String.eqb_spec account src) as [->|]; simpl; [|lia].
  destruct (String.eqb_spec s asset) as [->|]; simpl; [|lia].
  destruct Hf as [Hf|Hf]; [by rewrite (Hn _ Hl) in Hf|lia].
Qed.

Lemma solvent_capture t0 id amt dest key ikh now r :
  capture_done t0 l id amt dest key ikh now d r d' ->
  forall l' account s, not_issuer l' account d -> 0 <= available l' account s d'.
Proof.
  intros (ev & h & a & _ & Ha & (Hf & Hv & Hx) & _ & He & _) l' account s Hn.
  rewrite (available_effect _ _ _ _ _ _ _ _ _ _ _ _ He). pose proof (Hs l' account s Hn) as H0.
  pose proof (reserved_update_le l id (capture_hold a) l' account s (holds d) (capture_releases a ltac:(lia)) (i_holds _ Hi)) as Hle.
  apply find_hold_in in Hf as [Hin Hk]. pose proof Hk as Hk'. apply hold_is_key in Hk. injection Hk' as Hhl Hhi.
  destruct (decide (l' = l)) as [->|Hne].
  2:{ rewrite (posted_other _ l); [lia| |done]. repeat constructor. }
  rewrite !posted_leg. unfold posted at 1. simpl.
  destruct (bool_decide ((ho_Source h, ho_Asset h) = (account, s))) eqn:Eb.
  2:{ apply bool_decide_eq_false in Eb. repeat case_bool_decide; first [done|lia]. }
  apply bool_decide_eq_true in Eb. injection Eb as <- <-.
  assert (Hrel : reserved l (ho_Source h) (ho_Asset h) (update_hold l id (capture_hold a) (holds d)) <=
                 reserved l (ho_Source h) (ho_Asset h) (holds d) - a).
  { rewrite reserved_update. apply (sum_by_le_one _ _ _ h).
    - intros x Hx'. destruct (hold_is l id x && hold_live x) eqn:E; [|done]. apply andb_prop in E as [_ E].
      apply (capture_releases a ltac:(lia)); [|done]. pose proof (i_holds _ Hi) as Hok. rewrite Forall_forall in Hok. auto.
    - done.
    - assert (Hlive : hold_live h = true) by (unfold hold_live; by rewrite Hv, Hx).
      rewrite Hk, Hlive. simpl. unfold reserve.
      change (hold_live (capture_hold a h)) with (hold_live h).
      change (hold_on l (ho_Source h) (ho_Asset h) (capture_hold a h)) with (hold_on l (ho_Source h) (ho_Asset h) h).
      rewrite Hlive. unfold hold_on. rewrite Hhl, !String.eqb_refl. simpl. lia. }
  case_bool_decide; lia.
Qed.

Lemma solvent_release t0 f ty ev id key ikh :
  f = void_hold \/ f = expire_hold ->
  effect l key ikh t0 ty ev [] (update_hold l id f) Datatypes.id [] d d' ->
  forall l' account s, not_issuer l' account d -> 0 <= available l' account s d'.
Proof.
  intros Hf He l' account s Hn. rewrite (available_effect _ _ _ _ _ _ _ _ _ _ _ _ He).
  pose proof (Hs l' account s Hn) as H0.
  assert (Hr : releases f) by (destruct Hf as [-> | ->]; [apply void_releases|apply expire_releases]).
  pose proof (reserved_update_le l id f l' account s (holds d) Hr (i_holds _ Hi)). unfold posted. simpl. lia.
Qed.

Lemma solvent_revert t0 id eff reason key ikh now r :
  revert_done t0 l id false eff reason key ikh now d r d' ->
  forall l' account s, not_issuer l' account d -> 0 <= available l' account s d'.
Proof.
  intros (ev & txID & orig & rev & ledger & tx & Ho & Hr & Hl & _ & Hf & He & _) l' account s Hn.
  pose proof (find_ledger_id _ _ _ Hl) as Hid.
  rewrite (available_effect _ _ _ _ _ _ _ _ _ _ _ _ He). pose proof (Hs l' account s Hn) as H0. simpl.
  destruct (decide (l' = l)) as [->|Hne].
  2:{ rewrite (posted_other _ l) by (try apply posting_rows_ledger; done). lia. }
  assert (Hpos : Forall (fun p => 0 < amount p) rev).
  { eapply reversePostings_positive; [|exact Hr]. pose proof (i_txs _ Hi) as Ht. rewrite Forall_forall in Ht.
    apply Ht. apply List.find_some in Ho as [Hin _]. by apply list_elem_of_In. }
  pose proof (ef_deltas_fresh _ _ _ _ _ _ _ _ _ _ _ _ He) as Hfresh.
  destruct (fresh_single l (ev_EventID ev) account s _ _ Hfresh (posting_rows_shape _ _ _ _ _)) as [Hz|(x & Hx & Hb & Hp)]; [lia|].
  apply posting_rows_in in Hx as (p & Hin & Hd). rewrite Forall_forall in Hpos. pose proof (Hpos p Hin).
  unfold bucket_is in Hb. apply andb_prop in Hb as [[_ Hb1]%andb_prop Hb2]. rewrite String.eqb_eq in Hb1, Hb2.
  destruct Hd as [(H1 & H2 & H3 & H4)|(H1 & H3 & H4)]; [|lia].
  destruct (Hf eq_refl p Hin) as [Hiss|Hav]; rewrite <- H1, <- Hb1 in *.
  - by rewrite (Hn _ Hl) in Hiss.
  - rewrite Hid, <- H2, <- Hb2 in Hav. lia.
Qed.
End Op.

Lemma solvent_op l d d' : ledger_inv d -> op_done l true d d' -> solvent d -> solvent d'.
Proof.
  intros Hi Ho Hs.
  assert (Hled : ledgers d' = ledgers d).
  { destruct (op_done_shape _ _ _ _ Hi Ho) as (? & ? & ? & ? & ? & ? & ? & ? & ? & He & _). apply He. }
  intros l' account s Hn. assert (Hn' : not_issuer l' account d).
  { intros ledger Hl. apply Hn. unfold find_ledger in *. by rewrite Hled. }
  clear Hn. revert l' account s Hn'. remember true as safe eqn:Hsafe.
  destruct Ho; subst; try discriminate; intros l' account s Hn'.
  - eapply solvent_post; eauto.
  - apply bool_decide_eq_true in Hsafe. eapply solvent_convert; eauto.
  - eapply solvent_authorize; eauto.
  - eapply solvent_capture; eauto.
  - eapply solvent_release; eauto.
  - destruct force; [done|]. eapply solvent_revert; eauto.
  - match goal with Hm : metadata_done _ _ _ _ _ _ _ _ _ |- _ => destruct Hm as (ev & id & f & He & _) end. rewrite (available_effect _ _ _ _ _ _ _ _ _ _ _ _ _ _ _ He).
    specialize (Hs l' account s Hn'). unfold posted. simpl. lia.
Qed.

Lemma solvent_step d d' : ledger_inv d -> step true d d' -> solvent d -> solvent d'.
Proof.
  intros Hi. destruct 1 as [d d' Hb|l d d' Ho|l d d' Hf Ho|b d|r d [Hn _]|now id d|t d _|ev d _|t d]; intros Hs.
  - rewrite Hb. exact Hs.
  - eauto using solvent_op.
  - done.
  - exact Hs.
  - intros l' account s Hn'. apply (Hs l' account s). intros ledger Hl. apply Hn'.
    unfold find_ledger in *. simpl. revert Hl. generalize (ledgers d) as ls.
    induction ls as [|x ls IH]; simpl; [done|]. by destruct (String.eqb l' (lr_ID x)).
  - intros l' account s Hn'. apply (Hs l' account s). intros ledger Hl.
    assert (Hx : exists x, find_ledger l' (set_ledgers (seal_rows now id (ledgers d)) d) = Some x /\
                           lr_IssuerAccounts x = lr_IssuerAccounts ledger).
    { unfold find_ledger in *. simpl. revert Hl. generalize (ledgers d) as ls. unfold seal_rows.
      induction ls as [|x ls IH]; simpl; [done|].
      destruct (String.eqb id (lr_ID x) && _); simpl; destruct (String.eqb l' (lr_ID x)); try exact IH;
        intros [= ->]; eauto. }
    destruct Hx as (x & Hx & <-). by apply Hn'.
  - exact Hs.
  - exact Hs.
  - exact Hs.
Qed.

(** In every database the service reaches without a forced revert and without a
    conversion whose destination cannot pay its leg, the available balance (posted input
    minus posted output minus the active holds) of every account that is not an issuer
    of its ledger is not negative. *)
Lemma reachable_solvent d l account asset :
  reachable_safely d -> not_issuer l account d -> 0 <= available l account asset d.
Proof.
  intros Hr. revert l account asset. change (solvent d).
  assert (Hg : ledger_inv d /\ solvent d); [|apply Hg].
  unfold reachable_safely, steps in Hr. revert Hr.
  assert (H0 : ledger_inv empty_db /\ solvent empty_db) by (split; [apply ledger_inv_empty|intros l a s _; done]).
  revert H0. generalize empty_db as d0. intros d0 H0 Hr. induction Hr as [|d1 d2 d3 Hs _ IH]; [done|].
  apply IH. destruct H0. split; [by eapply ledger_inv_step|by eapply solvent_step].
Qed.
