(* ===== verification/Requests.v ===== *)
(** * Requests refine the ledger

    Every operation of the planner, under every environment (any statement may fail, a
    commit may lose its reply, Redis may fail or forget), either leaves the database as
    it was but for the batches, or commits exactly one operation of Ledger.v. *)
From S2P Require Import Prelude GoStd Regex Accounts Assets Policy Sha256 Json Storage Db Prog.
From S2P Require Import Logic Postgres BatchManager Redis Chart Planner Cores Operations Bodies StoreRules.
From S2P Require Import Effects Ledger Solvency.

(** ** Requests that only read *)

Definition ev_reads {X} (e : ev X) : Prop :=
  match e with
  | Sql Pool s => read_stmt s
  | Sql Tx _ | SqlLock _ _ | Begin | Commit | Rollback | PublishMsg _ _ => False
  | _ => True
  end.
Fixpoint reads {A} (m : prog A) : Prop :=
  match m with Ret _ => True | Vis e k => ev_reads e /\ forall x, reads (k x) end.

(** No transaction is open, the database is the same, and no message was published. *)
Definition idle (w w' : World) : Prop :=
  w_tx w' = TxNone /\ w_db w' = w_db w /\ messages (w_out w') = messages (w_out w).

Lemma idle_refl w : w_tx w = TxNone -> idle w w.
Proof. done. Qed.
Lemma idle_trans w1 w2 w3 : idle w1 w2 -> idle w2 w3 -> idle w1 w3.
Proof. unfold idle. intuition congruence. Qed.

Lemma step_reads {X} (E : Env) (e : ev X) (w : World) :
  ev_reads e -> w_tx w = TxNone -> let '(_, w') := Prog.step E e w in idle w (tick w').
Proof.
  intros He Ht. unfold idle. destruct e as [| | |? [] s| | | | | | | | | | | | | | |? rk s]; simpl in *; try done.
  - unfold sql_pool. destruct (e_fault E (w_tick w)) as [[]|]; try done.
    all: destruct (s _ (w_db w)) as [c|[a d']] eqn:Es; simpl; try done.
    all: apply He in Es; subst d'; rewrite Ht; done.
  - destruct (e_evicted E (w_tick w)); done.
  - destruct (e_fault E (w_tick w)) as [[]|]; done.
  - by destruct (f (w_mgr w)).
  - split_and!; try done. unfold messages. rewrite omap_app. simpl. by rewrite app_nil_r.
  - by destruct (e_fault E (w_tick w)) as [[]|].
Qed.

Lemma reads_idle {A} E (m : prog A) (w : World) : reads m -> w_tx w = TxNone -> wp E m w (fun _ w' => idle w w').
Proof.
  unfold wp. revert w. induction m as [a|X e k IH]; intros w; simpl; [done|]. intros [He Hk] Ht.
  pose proof (step_reads E e w He Ht) as Hs. destruct (Prog.step E e w) as [x w1].
  specialize (IH x (tick w1) (Hk x) (proj1 Hs)). destruct (run E (k x) (tick w1)). by eapply idle_trans.
Qed.

Lemma reads_pbind {A B} (m : prog A) (f : A -> prog B) : reads m -> (forall a, reads (f a)) -> reads (pbind m f).
Proof.
  intros Hm Hf. induction m as [a|X e k IH]; [apply Hf|]. destruct Hm as [He Hk]. split; [done|]. intros x. apply IH, Hk.
Qed.
Lemma reads_mbind {A B} (m : M A) (f : A -> M B) : reads m -> (forall a, reads (f a)) -> reads (mbind m f).
Proof. intros Hm Hf. apply reads_pbind; [done|]. by intros []. Qed.
Lemma reads_query_row {A} (s : stmt (option A)) : read_stmt s -> reads (query_row Pool s).
Proof. intros Hs. apply reads_mbind; [by split|]. by intros []. Qed.
Lemma reads_on_err {A} (m : M A) f : reads m -> reads (on_err m f).
Proof. intros. by apply reads_pbind. Qed.

Section Requests.
Context `{Deps}.

Lemma reads_GetLedger l : reads (GetLedger Pool l).
Proof. apply reads_on_err, reads_query_row. intros now d a d'. unfold sql_select_ledger. congruence. Qed.
Lemma reads_GetIdempotencyKey l k : reads (GetIdempotencyKey Pool l k).
Proof.
  apply reads_pbind.
  - apply reads_query_row. intros now d a d'. unfold sql_select_ik. congruence.
  - intros [a|e]; [done|]. by destruct (isNoRows e).
Qed.
Lemma reads_checkLedgerNotSealed l : reads (checkLedgerNotSealed l).
Proof.
  apply reads_mbind; [apply reads_on_err, reads_GetLedger|]. intros r. by destruct (String.eqb _ _).
Qed.
Lemma reads_checkIdempotency l k h : reads (checkIdempotency l k h).
Proof.
  apply reads_pbind.
  - apply reads_pbind; [by split|]. by intros [].
  - intros [[[id sh] found] err]. destruct found; [by destruct (negb _)|].
    apply reads_mbind; [apply reads_on_err, reads_GetIdempotencyKey|].
    intros [rec|]; [|done]. destruct (negb _); [done|]. apply reads_pbind; [by split|]. done.
Qed.
Lemma reads_resolve l k : reads (resolveIdempotencyConflict l k).
Proof. apply reads_pbind; [apply reads_GetIdempotencyKey|]. by intros [[]|]. Qed.
Lemma reads_postCommit l k e h : reads (postCommitIdempotency l k e h).
Proof. by repeat split. Qed.
Lemma wp_publishEvent E l e ty (w : World) :
  w_tx w = TxNone -> wp E (publishEvent l e ty) w (fun _ w' => w_tx w' = TxNone /\ w_db w' = w_db w).
Proof.
  unfold publishEvent, wp. destruct (negb has_subs); [done|]. simpl. by destruct (e_fault E (w_tick w)) as [[]|].
Qed.

(** The ledger a request found is the one of the database, and it is not sealed. *)
Lemma checkLedger_spec E l (w : World) :
  w_tx w = TxNone -> wp E (checkLedgerNotSealed l) w (fun r w' => idle w w' /\
    forall ledger, r = Ok ledger -> find_ledger l (w_db w) = Some ledger /\ lr_State ledger <> ledgerStateSealed).
Proof.
  intros Ht. pose proof (reads_idle E _ w (reads_checkLedgerNotSealed l) Ht) as Hi.
  unfold wp, checkLedgerNotSealed, wrap, GetLedger, on_err, query_row, exec, mbind in *.
  rewrite !run_bind in *. simpl in *. unfold sql_pool, sql_select_ledger in *.
  destruct (e_fault E (w_tick w)) as [[]|]; simpl in *; repeat (rewrite ?run_bind in *; simpl in * ); try (by split).
  destruct (find_ledger l (w_db w)) as [ledger|] eqn:Ef; simpl in *; [|by split].
  destruct (String.eqb_spec (lr_State ledger) ledgerStateSealed); simpl in *; (split; [done|]); [done|].
  by intros x [= <-].
Qed.

(** ** One submission *)

(** Nothing happened: at most the batches of the committed database changed, no
    transaction is left open and no message was published. *)
Definition untouched (w w' : World) : Prop :=
  w_tx w' = TxNone /\ same_but_batches (w_db w) (w_db w') /\ messages (w_out w') = messages (w_out w).

(** One operation, as [S] describes it, was committed. *)
Definition applied {A} (S : DB -> A -> DB -> Prop) (w : World) (a : A) (w' : World) : Prop :=
  w_tx w' = TxNone /\ exists d0, same_but_batches (w_db w) d0 /\ S d0 a (w_db w').

(** The reply of a commit was lost at some round trip. *)
Definition commit_lost : error := EWrap "committing transaction" (EPg PgConn).
Definition loses (E : Env) : Prop := exists n, e_fault E n = Some FLost.

(** The contract of an attempt: its operation, or nothing; or, the reply of the commit
    lost, its operation and an error. *)
Definition attempted {A} (E : Env) (S : DB -> A -> DB -> Prop) (w : World) (r : result A) (w' : World) : Prop :=
  match r with
  | Ok a => applied S w a w'
  | Err e => untouched w w' \/ (e = commit_lost /\ loses E /\ exists a, applied S w a w')
  end.

Lemma untouched_refl (w : World) : w_tx w = TxNone -> untouched w w.
Proof. done. Qed.
Lemma untouched_trans w1 w2 w3 : untouched w1 w2 -> untouched w2 w3 -> untouched w1 w3.
Proof. intros (H1 & H2 & H3) (H4 & H5 & H6). split_and!; [done|by etransitivity|congruence]. Qed.
Lemma idle_untouched w w' : idle w w' -> untouched w w'.
Proof. intros (H1 & H2 & H3). split_and!; [done|by rewrite H2|done]. Qed.
Lemma untouched_attempted {A} E S w w1 (r : result A) w' :
  untouched w w1 -> attempted E S w1 r w' -> attempted E S w r w'.
Proof.
  intros Hu. assert (Ha : forall a, applied S w1 a w' -> applied S w a w').
  { intros a (Ht & d0 & H1 & H2). split; [done|]. exists d0. split; [|done]. etransitivity; [apply Hu|done]. }
  destruct r as [a|e]; simpl; [auto|]. intros [Hn|(He & Hl & a & H1)]; [left; by eapply untouched_trans|].
  right. eauto.
Qed.

Lemma wp_reads_bind {A B} E (m : prog A) (f : A -> prog B) (w : World) Q :
  reads m -> w_tx w = TxNone -> (forall a w1, idle w w1 -> wp E (f a) w1 Q) -> wp E (pbind m f) w Q.
Proof. intros Hm Ht Hf. apply wp_bind. eapply wp_mono; [by apply reads_idle|]. auto. Qed.

(** The end of an attempt: the deferred rollback closes whatever is open. *)
Lemma wp_rollback {A} E (r : result A) (w : World) (Q : result A -> World -> Prop) :
  Q r (tick (with_tx TxNone w)) -> wp E (let+ _ := trigger Rollback in Ret r) w Q.
Proof. done. Qed.

Lemma quiet_closed w w' : quiet w w' -> untouched w (tick (with_tx TxNone w')).
Proof. intros (H1 & H2 & H3). by split_and!. Qed.

(** After a commit: the cache and the notification; the result is returned whatever they do. *)
Lemma wp_after_commit E l key event ikh ty (r : SubmitResult) (w : World) :
  w_tx w = TxNone ->
  wp E (let+ _ := (if negb (String.eqb key EmptyString) then postCommitIdempotency l key event ikh else Ret tt) in
        let+ _ := publishEvent l event ty in ok r) w
    (fun x w' => x = Ok r /\ w_tx w' = TxNone /\ w_db w' = w_db w).
Proof.
  intros Ht. apply wp_reads_bind; [by destruct (negb _)|done|]. intros _ w1 (H1 & H2 & _).
  apply wp_bind. eapply wp_mono; [by apply wp_publishEvent|]. intros _ w2 [H3 H4].
  apply wp_ret. split_and!; congruence.
Qed.

Lemma attempt_spec E S l key ikh ty (work : M SubmitResult) (w : World) :
  w_tx w = TxNone -> tx_ok work -> (forall t0, txwp t0 work (w_db w) (on_ok (S (w_db w)))) ->
  wp E (submit_attempt l key ikh ty false work) w (attempted E S w).
Proof.
  intros Ht Hok Hw. unfold submit_attempt. apply wp_mbind, wp_wrap. unfold BeginTx, on_err.
  apply wp_bind, wp_trigger. simpl.
  destruct (e_fault E (w_tick w)); simpl; [left; by split_and!|].
  set (w1 := tick _). unfold with_rollback. apply wp_bind, wp_mbind.
  eapply wp_mono; [by apply (txwp_sound E work w1 (e_now E (w_tick w)) (w_db w)); [| |apply Hw]|].
  intros r w2 [Hq Ho]. assert (Hq0 : quiet w w2) by exact Hq. clear Hq.
  destruct r as [r|e]; [|apply wp_rollback; left; by apply quiet_closed].
  apply wp_mbind, wp_wrap, wp_trigger. simpl. unfold commit.
  destruct (w_tx w2) as [|t0 d|] eqn:E2; [done| |].
  - destruct Ho as [-> Ho].
    assert (Hap : forall w3, w_db w3 = d -> applied S w r (tick (with_tx TxNone w3))).
    { intros w3 <-. split; [done|]. exists (w_db w). by split. }
    destruct (e_fault E (w_tick w2)) as [[]|] eqn:Ef; simpl;
      try (apply wp_rollback; left; by apply (quiet_closed w (tick (with_tx TxNone w2)))).
    + apply wp_rollback. right. split; [done|]. split; [by eexists|]. exists r. by apply Hap.
    + eapply wp_mono; [by apply wp_after_commit|]. intros x w3 (-> & H3 & H4). apply wp_rollback. by apply Hap.
  - simpl. apply wp_rollback. left. by apply (quiet_closed w (tick (with_tx TxNone w2))).
Qed.

(** The retry loop: at most one attempt is committed. *)
Lemma retry_spec {A} E S p mb left backoff (fn : M A) (w : World) :
  p commit_lost = false ->
  (forall w1, untouched w w1 -> wp E fn w1 (attempted E S w1)) ->
  w_tx w = TxNone -> wp E (retry p mb left backoff fn) w (attempted E S w).
Proof.
  intros Hp. revert w backoff. induction left as [|left IH]; intros w backoff Hfn Ht; simpl.
  - apply wp_bind. eapply wp_mono; [by apply Hfn, untouched_refl|]. intros [a|e] w1 Ha; [done|].
    by destruct (negb _).
  - apply wp_bind. eapply wp_mono; [by apply Hfn, untouched_refl|]. intros [a|e] w1 Ha; [done|].
    destruct (negb (p e)) eqn:Epe; [done|]. destruct Ha as [Hu|(-> & _)]; [|by rewrite Hp in Epe].
    apply wp_reads_bind; [by split|apply Hu|]. intros j w2 H2.
    apply wp_reads_bind; [by split|apply H2|]. intros g w3 H3.
    assert (Hu3 : untouched w w3) by eauto using untouched_trans, idle_untouched.
    destruct g; simpl; [|by left]. eapply wp_mono.
    + apply IH; [|apply Hu3]. intros w4 H4. apply Hfn. by eapply untouched_trans.
    + intros r w4. by apply untouched_attempted.
Qed.

(** The contract of a submission: a hit on its idempotency key, with nothing done, is
    the other way to succeed. *)
Definition submitted (E : Env) (S : DB -> SubmitResult -> DB -> Prop) (w : World) (r : result SubmitResult)
    (w' : World) : Prop :=
  (exists a, r = Ok a /\ sr_IdempotentHit a = true /\ untouched w w') \/ attempted E S w r w'.

Lemma wp_resolve E S l key w (w1 : World) :
  untouched w w1 -> wp E (resolveIdempotencyConflict l key) w1 (submitted E S w).
Proof.
  intros Hu. apply wp_reads_bind; [apply reads_GetIdempotencyKey|apply Hu|]. intros r w2 Hi.
  assert (untouched w w2) by eauto using untouched_trans, idle_untouched.
  destruct r as [[rec|]|e]; apply wp_ret; [left; eauto|right; by left..].
Qed.

Lemma checkIdempotency_hit E l key ikh (w : World) :
  wp E (checkIdempotency l key ikh) w (fun r _ => forall a, r = Ok (Some a) -> sr_IdempotentHit a = true).
Proof.
  unfold checkIdempotency. apply wp_bind. unfold wp at 1. destruct (run _ _ _) as [[[[id sh] found] err] w1].
  destruct found; [destruct (negb _); apply wp_ret; [done|by intros a [= <-]]|].
  apply wp_mbind. unfold wp at 1. destruct (run _ _ _) as [[[rec|]|e] w2]; try done.
  destruct (negb _); [done|]. apply wp_bind. unfold wp at 1. destruct (run _ _ _) as [x w3].
  apply wp_ret. by intros a [= <-].
Qed.

Lemma wp_forall {A X : Type} (E : Env) (m : prog A) (w : World) (Q : X -> A -> World -> Prop) :
  (forall x, wp E m w (Q x)) -> wp E m w (fun a w' => forall x, Q x a w').
Proof. unfold wp. intros HQ. destruct (run E m w). intros x. apply HQ. Qed.
Lemma wp_and {A} E (m : prog A) w (P Q : A -> World -> Prop) :
  wp E m w P -> wp E m w Q -> wp E m w (fun a w' => P a w' /\ Q a w').
Proof. unfold wp. destruct (run E m w). by split. Qed.

Lemma submit_spec E S l key ikh ty (work : M SubmitResult) (w : World) :
  w_tx w = TxNone -> tx_ok work ->
  (forall t0 d, same_but_batches (w_db w) d -> txwp t0 work d (on_ok (S d))) ->
  wp E (submitWithIdempotency l key ikh ty false work) w (submitted E S w).
Proof.
  intros Ht Hok Hw. unfold submitWithIdempotency.
  assert (Hloop : forall w1, idle w w1 ->
    wp E (let+ r := withDeadlockRetry maxDeadlockRetries (submit_attempt l key ikh ty false work) in
      match r with
      | Ok result => ok result
      | Err e => if negb (String.eqb key EmptyString) && isIdempotencyConflict e
                 then resolveIdempotencyConflict l key else fail e
      end) w1 (submitted E S w)).
  { intros w1 Hi. apply wp_bind. eapply wp_mono.
    - apply (retry_spec E S); [done| |apply Hi]. intros w2 Hu. apply attempt_spec; [apply Hu|done|].
      intros t0. apply Hw. etransitivity; [|apply Hu]. apply idle_untouched in Hi. apply Hi.
    - intros r w2 Ha. apply (untouched_attempted E S w w1 r w2 (idle_untouched _ _ Hi)) in Ha.
      destruct r as [a|e]; [by right|]. destruct (_ && isIdempotencyConflict e) eqn:Ec; [|by right].
      destruct Ha as [Hu|(-> & _)]; [|by rewrite andb_false_r in Ec]. by apply wp_resolve. }
  destruct (negb (String.eqb key EmptyString)) eqn:Ek; [|by apply Hloop].
  apply wp_mbind. eapply wp_mono.
  { apply wp_and; [apply (checkIdempotency_hit E l key ikh)|apply reads_idle; [apply reads_checkIdempotency|done]]. }
  intros [[a|]|e] w1 [Hh Hi]; [|by apply Hloop|right; left; by apply idle_untouched].
  apply wp_ret. left. exists a. split_and!; [done|by apply Hh|by apply idle_untouched..].
Qed.

Lemma ev_tx_all {X} t0 (e : ev X) d (Q : X -> DB -> Prop) : (forall x d', Q x d') -> ev_tx t0 e d Q.
Proof. intros HQ. destruct e as [| | |? [] s| | | | | | | | | | | | | | |? rk s]; simpl; auto. Qed.
Lemma txwp_all {A} t0 (m : prog A) d (Q : A -> DB -> Prop) : (forall a d', Q a d') -> txwp t0 m d Q.
Proof.
  intros HQ. revert d. induction m as [a|X e k IH]; intros d; simpl; [apply HQ|]. apply ev_tx_all. intros x d'. apply IH.
Qed.

Lemma attempt_dry E l key ikh ty (work : M SubmitResult) (w : World) :
  w_tx w = TxNone -> tx_ok work ->
  wp E (submit_attempt l key ikh ty true work) w (fun _ w' => untouched w w').
Proof.
  intros Ht Hok. unfold submit_attempt. apply wp_mbind, wp_wrap. unfold BeginTx, on_err.
  apply wp_bind, wp_trigger. simpl. destruct (e_fault E (w_tick w)); simpl; [by split_and!|].
  set (w1 := tick _). unfold with_rollback. apply wp_bind, wp_mbind.
  eapply wp_mono.
  { by apply (txwp_sound E work w1 (e_now E (w_tick w)) (w_db w) (fun _ _ => True) Hok), txwp_all. }
  intros r w2 [Hq _]. assert (Hq0 : quiet w w2) by exact Hq. clear Hq. destruct r as [r|e].
  - apply wp_rollback. by apply (quiet_closed w (tick (with_tx TxNone w2))).
  - apply wp_rollback. by apply quiet_closed.
Qed.

Lemma retry_untouched {A} E p mb left backoff (fn : M A) (w : World) :
  (forall w1, w_tx w1 = TxNone -> wp E fn w1 (fun _ w' => untouched w1 w')) ->
  w_tx w = TxNone -> wp E (retry p mb left backoff fn) w (fun _ w' => untouched w w').
Proof.
  intros Hfn. revert w backoff. induction left as [|left IH]; intros w backoff Ht; simpl;
    (apply wp_bind; eapply wp_mono; [by apply Hfn|]; intros [a|e] w1 Hu; [done|]; destruct (negb (p e)); [done|]); [done|].
  apply wp_reads_bind; [by split|apply Hu|]. intros j w2 H2.
  apply wp_reads_bind; [by split|apply H2|]. intros g w3 H3.
  assert (Hu3 : untouched w w3) by eauto using untouched_trans, idle_untouched.
  destruct g; simpl; [|done]. eapply wp_mono; [apply IH, Hu3|]. intros x w4 H4. by eapply untouched_trans.
Qed.

(** A dry run leaves no trace, whatever its body found. *)
Lemma submit_dry_spec E l key ikh ty (work : M SubmitResult) (w : World) :
  w_tx w = TxNone -> tx_ok work ->
  wp E (submitWithIdempotency l key ikh ty true work) w (fun _ w' => untouched w w').
Proof.
  intros Ht Hok. unfold submitWithIdempotency. apply wp_mbind.
  apply (wp_mono _ _ _ (fun _ w' => idle w w')).
  { apply reads_idle; [|done]. destruct (negb _); [apply reads_checkIdempotency|done]. }
  intros [[a|]|e] w1 Hi%idle_untouched; try done.
  apply wp_bind. eapply wp_mono; [apply retry_untouched; [|apply Hi]|].
  { intros w2 Ht2. by apply attempt_dry. }
  intros r w2 Hu. pose proof (untouched_trans _ _ _ Hi Hu). destruct r as [r|e]; [done|].
  destruct (_ && isIdempotencyConflict e); [|done].
  eapply wp_mono; [apply reads_idle; [apply reads_resolve|apply Hu]|].
  intros _ w3 H3%idle_untouched. by eapply untouched_trans.
Qed.
End Requests.

(** ** Programs of the transaction discipline, outside of any transaction *)

Lemma step_closed {X} (E : Env) (e : ev X) (w : World) :
  ev_ok e -> w_tx w = TxNone -> let '(_, w') := Prog.step E e w in untouched w (tick w').
Proof.
  intros He Hw. destruct e as [| | |? [] s| | | | | | | | | | | | | | |? rk s]; simpl in *; try done.
  - unfold sql_pool. destruct (e_fault E (w_tick w)) as [[]|]; simpl; try done.
    all: destruct (s _ (w_db w)) as [c|[a d']] eqn:Es; simpl; try done.
    all: unfold untouched; simpl; rewrite Hw; simpl; split_and!; try done; by apply (pool_batch_stmt _ He) in Es.
  - unfold sql_tx. by rewrite Hw.
  - by destruct (f (w_mgr w)).
  - split_and!; simpl; try done. unfold messages. rewrite omap_app. simpl. by rewrite app_nil_r.
  - unfold sql_tx. by rewrite Hw.
Qed.

Lemma run_closed {A} E (m : prog A) (w : World) :
  tx_ok m -> w_tx w = TxNone -> wp E m w (fun _ w' => untouched w w').
Proof.
  unfold wp. revert w. induction m as [a|X e k IH]; intros w; simpl; [done|].
  intros [He Hk] Hw. pose proof (step_closed E e w He Hw) as H.
  destruct (Prog.step E e w) as [x w1]. specialize (IH x (tick w1) (Hk x) (proj1 H)).
  destruct (run E (k x) (tick w1)) as [a w2]. by eapply untouched_trans.
Qed.

(** A statement on the pool: not executed, or executed with its reply or without. *)
Lemma wp_exec_pool {A} E (s : stmt A) (w : World) :
  w_tx w = TxNone ->
  wp E (exec Pool s) w (fun r w' => (untouched w w' /\ is_ok r = false) \/
    (w_tx w' = TxNone /\ exists now a, s now (w_db w) = inr (a, w_db w') /\ (r = Ok a \/ is_ok r = false))).
Proof.
  intros Ht. apply wp_trigger. simpl. unfold sql_pool.
  destruct (e_fault E (w_tick w)) as [[]|]; try (by left).
  all: destruct (s _ (w_db w)) as [c|[a d']] eqn:Es; try (by left).
  all: right; simpl; rewrite Ht; split; [done|]; eexists _, _; eauto.
Qed.

(** A request that takes the database along some steps. *)
Definition moves (c : bool) (w w' : World) : Prop := w_tx w' = TxNone /\ steps c (w_db w) (w_db w').

Lemma untouched_moves c w w' : untouched w w' -> moves c w w'.
Proof. intros (H1 & H2 & _). split; [done|]. by apply rtc_once, step_batches. Qed.
