(* ===== verification/Intents.v ===== *)
(** * Every intent is one operation of the ledger, or nothing

    The refinement of Ledger.v by the planner's Submit* functions: whatever fails around
    it, a request leaves the committed database as it was (but for the batches), or
    commits exactly one operation on a ledger that is not sealed. *)
From S2P Require Import Prelude GoStd Regex Accounts Assets Policy Sha256 Json Storage Db Prog.
From S2P Require Import Logic Postgres BatchManager Redis Chart Planner Cores Operations Bodies Interleaving StoreRules.
From S2P Require Import Effects Ledger Raced Requests.

(** An intent was executed on ledger [l], with the event its result names; [c] promises
    that the operation was a safe one. *)
Record intent_done (c : bool) (l key : string) (ikh : option string) (d : DB) (r : SubmitResult) (d' : DB) : Prop := {
  it_ledger : exists ledger, find_ledger l d = Some ledger /\ lr_State ledger <> ledgerStateSealed;
  it_op : exists safe, op_done l safe d d' /\ (c = true -> safe = true);
  it_event : exists ev, log_events d' = log_events d ++ [ev] /\ ev_EventID ev = sr_EventID r /\ ev_LedgerID ev = l /\
      ev_IdempotencyKey ev = key;
  it_keys : exists t0, let ks := key_rows t0 l key (sr_EventID r) ikh in
      idempotency_keys d' = idempotency_keys d ++ ks /\
      forall k, In k ks -> existsb (ik_conflict k) (idempotency_keys d) = false;
  it_hit : sr_IdempotentHit r = false
}.

Lemma intent_of_effect c l safe key ikh t0 ty ev ds hs ts rs d r d' ledger :
  find_ledger l d = Some ledger -> lr_State ledger <> ledgerStateSealed ->
  effect l key ikh t0 ty ev ds hs ts rs d d' -> op_done l safe d d' -> (c = true -> safe = true) ->
  sr_EventID r = ev_EventID ev -> sr_IdempotentHit r = false -> intent_done c l key ikh d r d'.
Proof.
  intros Hl Hs He Ho Hc Hr Hh. split; eauto; [|exists t0; rewrite Hr; split; apply He]. exists ev.
  destruct (ledger_log_event _ _ _ _ _ _ _ _ _ _ _ _ He) as (H1 & _ & H2 & _).
  split_and!; try done. apply He.
Qed.


Section Intents.
Context `{Deps}.

(** A core among others: whatever it read, what it commits is an operation that raced. *)
Record races (work : M SubmitResult) : Prop := {
  races_ok : tx_ok work;
  races_steps t0 d : rcs t0 work d (on_ok (fun _ => raced d))
}.
(** A core alone, on the ledger [ledger] that is not sealed, does what its request asks. *)
Record does (c : bool) (l key : string) (ikh : option string) (ledger : LedgerRecord) (work : M SubmitResult) : Prop := {
  does_races :> races work;
  does_alone t0 d : find_ledger l d = Some ledger -> txwp t0 work d (on_ok (intent_done c l key ikh d))
}.

Lemma raced_core t0 (work : M SubmitResult) (S : SubmitResult -> DB -> Prop) d :
  rcs t0 work d (on_ok S) -> (forall a d', S a d' -> op_raced d d') -> rcs t0 work d (on_ok (fun _ => raced d)).
Proof. intros Hw HS. eapply tl_mono; [exact Hw|]. apply on_ok_mono. intros a d' Hd. by eapply raced_once, raced_op, HS. Qed.

Tactic Notation "racing" uconstr(body) :=
  split; [auto with tx_ok|intros t0 d; eapply raced_core; [apply body|intros a d' Hd; first [by eapply void_raced|econstructor; exact Hd]]].

Lemma post_races ledger ps ref meta key ikh vt now : races (doPostInTx ledger ps ref meta key ikh vt now false).
Proof. racing doPostInTx_body. Qed.
Lemma convert_races ledger params key ikh vt now : races (doConvertInTx ledger params key ikh vt now).
Proof. racing doConvertInTx_body. Qed.
Lemma authorize_races ledger src hint asset amt exp key ikh now : races (doAuthorizeInTx ledger src hint asset amt exp key ikh now).
Proof. racing doAuthorizeInTx_body. Qed.
Lemma capture_races l id amt dest key ikh now : races (doCaptureInTx l id amt dest key ikh now).
Proof. racing doCaptureInTx_body. Qed.
Lemma void_races l id key ikh now : races (doVoidInTx l id key ikh now).
Proof. racing doVoidInTx_body. Qed.
Lemma revert_races l id force eff reason key ikh now : races (doRevertInTx l id force eff reason key ikh now).
Proof. racing doRevertInTx_body. Qed.
Lemma amend_races l id m key ikh now : races (doAmendInTx l id m key ikh now).
Proof. racing doAmendInTx_body. Qed.
Lemma set_races l ty id m key ikh now : races (doSetMetadataInTx l ty id m key ikh now).
Proof. racing doSetMetadataInTx_body. Qed.
Lemma delete_races l ty id k key ikh now : races (doDeleteMetadataInTx l ty id k key ikh now).
Proof. racing doDeleteMetadataInTx_body. Qed.
Lemma schema_races l b v key ikh now : races (doInsertSchemaInTx l b v key ikh now).
Proof. racing doInsertSchemaInTx_body. Qed.
Hint Resolve post_races convert_races authorize_races capture_races void_races revert_races
  amend_races set_races delete_races schema_races : core.

Section Cores.
Context (l : string) (ledger : LedgerRecord) (Hs : lr_State ledger <> ledgerStateSealed).

Ltac by_effect core :=
  split; [auto|]; intros t0 d Hl; eapply txwp_mono; [apply core|]; apply on_ok_mono; intros r d' Hd;
  pose proof (find_ledger_id _ _ _ Hl) as Hid.

Lemma post_does ps ref meta key ikh vt now : lr_ID ledger = l ->
  does true l key ikh ledger (doPostInTx ledger ps ref meta key ikh vt now false).
Proof.
  intros _. by_effect doPostInTx_spec. pose proof Hd as (ev & txID & He & Hr). rewrite Hid in He.
  eapply intent_of_effect with (ledger := ledger); try done; [eapply done_post; eauto|by rewrite (proj2 (proj2 (proj2 Hr)))..].
Qed.
Lemma convert_does params key ikh vt now : does false l key ikh ledger (doConvertInTx ledger params key ikh vt now).
Proof.
  by_effect doConvertInTx_spec. pose proof Hd as (ev & tx & He & Hr). rewrite Hid in He.
  eapply intent_of_effect with (ledger := ledger);
    [done|done|exact He|eapply done_convert; eauto|done|apply Hr..].
Qed.
Lemma authorize_does src hint asset amt exp key ikh now :
  does true l key ikh ledger (doAuthorizeInTx ledger src hint asset amt exp key ikh now).
Proof.
  by_effect doAuthorizeInTx_spec. pose proof Hd as (ev & hid & a & Ha & Hpos & He & Hr). rewrite Hid in He.
  eapply intent_of_effect with (ledger := ledger); try done; [eapply done_authorize; eauto|by rewrite (proj2 (proj2 Hr))..].
Qed.
Lemma capture_does id amt dest key ikh now : does true l key ikh ledger (doCaptureInTx l id amt dest key ikh now).
Proof.
  by_effect doCaptureInTx_spec. pose proof Hd as (ev & h & a & _ & _ & _ & _ & He & Hr).
  eapply intent_of_effect with (ledger := ledger); try done; [eapply done_capture; eauto|by rewrite Hr..].
Qed.
Lemma void_does id key ikh now : does true l key ikh ledger (doVoidInTx l id key ikh now).
Proof.
  by_effect doVoidInTx_spec. destruct Hd as (ev & h & Hh & He & Hr).
  eapply intent_of_effect with (ledger := ledger); try done; [eapply (done_release l t0 void_hold); eauto|by rewrite Hr..].
Qed.
Lemma revert_does id force eff reason key ikh now : does (negb force) l key ikh ledger (doRevertInTx l id force eff reason key ikh now).
Proof.
  by_effect doRevertInTx_spec.
  pose proof Hd as (ev & txID & orig & rev & led & tx & H1 & H2 & H3 & H4 & H5 & He & H6 & H7 & H8 & H9 & Hr & Hh).
  eapply intent_of_effect with (ledger := ledger);
    [done|done|exact He|eapply done_revert; eauto|done|done..].
Qed.

Lemma metadata_does ty key ikh rs (work : M SubmitResult) :
  (forall event, Forall (fun x => is_revert x = false) (rs event)) ->
  races work -> (forall t0 d, txwp t0 work d (on_ok (metadata_done t0 ty l key ikh rs d))) -> does true l key ikh ledger work.
Proof.
  intros Hrs Hok Hw. split; [done|]. intros t0 d Hl. eapply txwp_mono; [apply Hw|]. apply on_ok_mono. intros r d' Hd.
  pose proof Hd as (ev & id & f & He & Hr).
  eapply intent_of_effect with (ledger := ledger); try done; [eapply done_metadata; eauto|by rewrite Hr..].
Qed.
End Cores.

(** The same, with the idempotency record a keyed request leaves. *)
Definition request_done (c : bool) (l key : string) (d : DB) (r : SubmitResult) (d' : DB) : Prop :=
  exists ikh, (key <> "" -> ikh <> None) /\ intent_done c l key ikh d r d'.

(** The shape all the Submit* functions share. *)
Lemma untouched_submitted E S w w1 r w' : untouched w w1 -> submitted E S w1 r w' -> submitted E S w r w'.
Proof.
  intros Hu [(a & Hr & Hh & H1)|Ha]; [left|right; by eapply untouched_attempted].
  exists a. split_and!; try done. all: by destruct (untouched_trans _ _ _ Hu H1) as (?&?&?).
Qed.

Lemma failed_submitted E S (w : World) e w' : untouched w w' -> submitted E S w (Err e) w'.
Proof. intros Hu. right. by left. Qed.

(** The shape all the Submit* functions share: a validation failure, or the check of
    the ledger's state, then the submission of a core. *)
Inductive submission (c : bool) (l key : string) : M SubmitResult -> Prop :=
| sub_fail e : submission c l key (fail e)
| sub_go ikh ty (work : LedgerRecord -> Z -> M SubmitResult) :
    (key <> "" -> ikh <> None) -> (forall ledger now, races (work ledger now)) ->
    (forall ledger now, lr_ID ledger = l -> lr_State ledger <> ledgerStateSealed -> does c l key ikh ledger (work ledger now)) ->
    submission c l key (let* ledger := checkLedgerNotSealed l in
                      let+ now := time_Now in
                      submitWithIdempotency l key ikh ty false (work ledger now)).

(** What a submission does, for any description [S] of the work. *)
Lemma guarded_submitted E S l key ikh ty (work : LedgerRecord -> Z -> M SubmitResult) (w : World) :
  w_tx w = TxNone ->
  (forall ledger now, lr_ID ledger = l -> lr_State ledger <> ledgerStateSealed -> tx_ok (work ledger now) /\
     forall t0 d, find_ledger l d = Some ledger -> txwp t0 (work ledger now) d (on_ok (S d))) ->
  wp E (let* ledger := checkLedgerNotSealed l in
        let+ now := time_Now in
        submitWithIdempotency l key ikh ty false (work ledger now)) w (submitted E S w).
Proof.
  intros Ht Hw. apply wp_mbind. eapply wp_mono; [by apply checkLedger_spec|].
  intros [ledger|e] w1 [Hi Hl]; [|by apply failed_submitted, idle_untouched].
  destruct (Hl ledger eq_refl) as [Hf Hs]. apply wp_reads_bind; [by split|apply Hi|]. intros now w2 Hi2.
  pose proof (find_ledger_id _ _ _ Hf) as Hid.
  pose proof (idle_trans _ _ _ Hi Hi2) as (Ht2 & Hd2 & Hm2).
  destruct (Hw ledger now Hid Hs) as [Hok Hspec].
  eapply wp_mono; [apply (submit_spec E S); [done|done|]|].
  - intros t0 d Hd. apply Hspec. rewrite Hd2 in Hd. unfold find_ledger in *. by rewrite Hd.
  - intros r w3. apply untouched_submitted, idle_untouched. done.
Qed.

Lemma submission_submitted E c l key m (w : World) :
  submission c l key m -> w_tx w = TxNone -> wp E m w (submitted E (request_done c l key) w).
Proof.
  intros Hm Ht. destruct Hm as [e|ikh ty work Hikh _ Hw]; [by apply failed_submitted|].
  apply guarded_submitted; [done|]. intros ledger now Hid Hs. destruct (Hw ledger now Hid Hs) as [[Hok _] Hd].
  split; [done|]. intros t0 d Hf. eapply txwp_mono; [by apply Hd|]. apply on_ok_mono. intros r d'. by exists ikh.
Qed.

(** Without an open ledger every submission fails, and nothing happened. *)
Lemma submission_closed E c l key m (w : World) :
  submission c l key m -> w_tx w = TxNone ->
  (forall ledger, find_ledger l (w_db w) = Some ledger -> lr_State ledger = ledgerStateSealed) ->
  wp E m w (fun r w' => untouched w w' /\ exists e, r = Err e).
Proof.
  intros Hm Ht Hc. destruct Hm as [e|ikh ty work Hikh _ Hw]; [apply wp_ret; split; eauto using untouched_refl|].
  apply wp_mbind. eapply wp_mono; [by apply checkLedger_spec|].
  intros [ledger|e] w1 [Hi Hl]; [|split; eauto using idle_untouched].
  destruct (Hl ledger eq_refl) as [Hf Hs]. by apply Hc in Hf.
Qed.

(** The cache holds nothing for a key, or the event and the hash of its record. *)
Definition entry_of (event : string) (hash : option string) (fields : gmap string string) : Prop :=
  fields !! "event_id" = Some event /\ fields !! "hash" = Some (default EmptyString hash).
Definition cached (l key event : string) (hash : option string) (w : World) : Prop :=
  forall fields, w_redis w !! idempotencyKey l key = Some fields -> entry_of event hash fields.
Definition cached_record (l key : string) (rec : IdempotencyKeyRecord) : World -> Prop :=
  cached l key (ik_EventID rec) (ik_IdempotencyHash rec).

Lemma GetIdempotencyKey_result E l key (w : World) :
  wp E (GetIdempotencyKey Pool l key) w (fun r _ => (exists e, r = Err e) \/ r = Ok (find_ik l key (w_db w))).
Proof.
  unfold GetIdempotencyKey, query_row, exec, on_err, wp, mbind. repeat (rewrite ?run_bind; simpl).
  unfold sql_pool, sql_select_ik.
  destruct (e_fault E (w_tick w)) as [[]|]; simpl; repeat (rewrite ?run_bind; simpl); eauto.
  all: destruct (find_ik l key (w_db w)); simpl; eauto.
Qed.

Lemma checkLedger_keeps_redis E l (w : World) :
  wp E (checkLedgerNotSealed l) w (fun _ w' => w_redis w' = w_redis w).
Proof.
  unfold wp, checkLedgerNotSealed, wrap, GetLedger, on_err, query_row, exec, mbind. repeat (rewrite ?run_bind; simpl).
  unfold sql_pool, sql_select_ledger.
  destruct (e_fault E (w_tick w)) as [[]|]; simpl; repeat (rewrite ?run_bind; simpl); try done.
  all: destruct (find_ledger l (w_db w)); simpl; repeat (rewrite ?run_bind; simpl); try done.
  by destruct (String.eqb _ _).
Qed.

Lemma checkLedger_open E l (w : World) :
  wp E (checkLedgerNotSealed l) w (fun r _ => (forall n, e_fault E n = None) ->
    (exists ledger, find_ledger l (w_db w) = Some ledger /\ lr_State ledger <> ledgerStateSealed) -> exists ledger, r = Ok ledger).
Proof.
  apply wp_forall. intros Hh. apply wp_forall. intros (ledger & Hf & Hs).
  unfold wp, checkLedgerNotSealed, wrap, GetLedger, on_err, query_row, exec, mbind. repeat (rewrite ?run_bind; simpl).
  unfold sql_pool, sql_select_ledger. rewrite Hh, Hf. repeat (rewrite ?run_bind; simpl).
  rewrite (proj2 (String.eqb_neq _ _) Hs). by eexists.
Qed.

Lemma GetIdempotencyKey_healthy E l key (w : World) :
  (forall n, e_fault E n = None) -> wp E (GetIdempotencyKey Pool l key) w (fun r _ => r = Ok (find_ik l key (w_db w))).
Proof.
  intros Hh. unfold GetIdempotencyKey, query_row, exec, on_err, wp, mbind. repeat (rewrite ?run_bind; simpl).
  unfold sql_pool, sql_select_ik. rewrite Hh. by destruct (find_ik l key (w_db w)).
Qed.

(** A known key is a hit on its event, or an error; a hit for the request it was recorded
    with, when nothing fails. *)
Definition known_answer (E : Env) (l key : string) (ikh : option string) (rec : IdempotencyKeyRecord) (w : World)
    (r : result (option SubmitResult)) : Prop :=
  ((exists e, r = Err e) \/ exists event, r = Ok (Some (hit_result event)) /\ (cached_record l key rec w -> event = ik_EventID rec)) /\
  (cached_record l key rec w -> ik_IdempotencyHash rec = ikh -> (forall n, e_fault E n = None) ->
     r = Ok (Some (hit_result (ik_EventID rec)))).

Lemma same_hash_refl h : same_hash h h = true.
Proof. apply String.eqb_refl. Qed.

Lemma checkIdempotency_known E l key ikh rec (w : World) :
  w_tx w = TxNone -> find_ik l key (w_db w) = Some rec ->
  wp E (checkIdempotency l key ikh) w (fun r w' => idle w w' /\ known_answer E l key ikh rec w r).
Proof.
  intros Ht Hk. apply wp_and; [by apply reads_idle, Ht; apply reads_checkIdempotency|].
  assert (Hpg : forall w1, w_db w1 = w_db w ->
    wp E (let* ikRecord := wrap "checking idempotency key in PG" (GetIdempotencyKey Pool l key) in
    match ikRecord with
    | Some rec =>
        if negb (same_hash (ik_IdempotencyHash rec) ikh) then fail (ESent ErrInvalidIdempotencyInput)
        else
          let+ _ := SetIdempotencyKey l key (ik_EventID rec) (ik_IdempotencyHash rec) in
          ok (Some (hit_result (ik_EventID rec)))
    | None => ok None
    end) w1 (fun r _ => known_answer E l key ikh rec w r)).
  { intros w1 Hd. apply wp_and.
    - apply wp_mbind, wp_wrap. eapply wp_mono; [apply GetIdempotencyKey_result|]. rewrite Hd, Hk.
      intros r w2 [[e ->]| ->]; [left; by eexists|]. simpl. destruct (negb _); [left; by eexists|].
      apply wp_bind. unfold wp at 1. destruct (run _ _ _) as [x w3]. apply wp_ret. right. by eexists.
    - apply wp_forall. intros Hc. apply wp_forall. intros <-. apply wp_forall. intros Hh.
      apply wp_mbind, wp_wrap. eapply wp_mono; [by apply GetIdempotencyKey_healthy|]. rewrite Hd, Hk. intros r w2 ->. simpl.
      rewrite same_hash_refl. cbn [negb]. apply wp_bind. unfold wp at 1. destruct (run _ _ _) as [x w3]. by apply wp_ret. }
  unfold checkIdempotency, Redis_GetIdempotencyKey. apply wp_bind, wp_bind, wp_trigger. simpl.
  destruct (e_fault E (w_tick w)); simpl; [apply wp_ret, Hpg; by destruct (e_evicted _ _)|].
  assert (Hr : forall fields, w_redis (if e_evicted E (w_tick w) then with_redis (delete (idempotencyKey l key) (w_redis w)) w
      else w) !! idempotencyKey l key = Some fields -> w_redis w !! idempotencyKey l key = Some fields).
  { intros fields. destruct (e_evicted E (w_tick w)); simpl; [|done]. by rewrite lookup_delete_eq. }
  apply wp_ret. case_bool_decide as Hs; [apply Hpg; by destruct (e_evicted _ _)|].
  destruct (_ !! idempotencyKey l key) as [fields|] eqn:Ef; [|by destruct Hs].
  specialize (Hr fields eq_refl). simpl. apply wp_and.
  - destruct (negb _); apply wp_ret; [left; by eexists|right]. eexists. split; [done|]. intros Hc. by destruct (Hc _ Hr) as [-> _].
  - apply wp_forall. intros Hc. apply wp_forall. intros <-. destruct (Hc _ Hr) as [-> ->]. simpl. unfold same_hash. simpl.
    rewrite String.eqb_refl. by apply wp_ret.
Qed.

(** What a submission does once its ledger was found open. *)
Lemma sub_go_known E l key ikh ty (work : LedgerRecord -> Z -> M SubmitResult) rec (w : World) :
  w_tx w = TxNone -> key <> "" -> find_ik l key (w_db w) = Some rec ->
  wp E (let* ledger := checkLedgerNotSealed l in
        let+ now := time_Now in
        submitWithIdempotency l key ikh ty false (work ledger now)) w (fun r w' =>
    untouched w w' /\ (forall a, r = Ok a -> sr_IdempotentHit a = true /\
      (cached_record l key rec w -> sr_EventID a = ik_EventID rec)) /\
    (cached_record l key rec w -> ik_IdempotencyHash rec = ikh -> (forall n, e_fault E n = None) ->
     (exists ledger, find_ledger l (w_db w) = Some ledger /\ lr_State ledger <> ledgerStateSealed) ->
     r = Ok (hit_result (ik_EventID rec)))).
Proof.
  intros Ht Hne Hk. apply wp_mbind.
  eapply wp_mono; [by apply wp_and; [apply wp_and; [apply reads_idle; [apply reads_checkLedgerNotSealed|]|apply checkLedger_keeps_redis]|apply checkLedger_open]|].
  intros [ledger|e] w1 [[Hi Hc1] Hop]; [|split_and!; [by apply idle_untouched|done|]].
  2: { intros _ _ Hh Hex. by destruct (Hop Hh Hex). }
  apply wp_bind, wp_trigger. simpl. set (w2 := tick w1).
  assert (Hi2 : idle w w2) by exact Hi. unfold submitWithIdempotency.
  rewrite (proj2 (String.eqb_neq _ _) Hne). simpl. apply wp_mbind.
  eapply wp_mono; [apply (checkIdempotency_known E l key ikh rec); [apply Hi2|by rewrite (proj1 (proj2 Hi2))]|].
  intros r w3 [Hi3 [Hr Hhit]]. pose proof (idle_untouched _ _ (idle_trans _ _ _ Hi2 Hi3)) as Hu.
  assert (Hc2 : cached_record l key rec w -> cached_record l key rec w2) by (intros Hc fields Hf; apply Hc; by rewrite <- Hc1).
  destruct Hr as [[e ->]|(event & -> & He)].
  - split_and!; [done..|]. intros Hc Hik Hh _. by specialize (Hhit (Hc2 Hc) Hik Hh).
  - split_and!; [done|intros a [= <-]; split; [done|intros Hc; by apply He, Hc2]|].
    intros Hc Hik Hh _. specialize (Hhit (Hc2 Hc) Hik Hh). by injection Hhit as ->.
Qed.

(** A submission under a key that is recorded does nothing: it is a hit, or fails. *)
Lemma submission_known E c l key m rec (w : World) :
  submission c l key m -> w_tx w = TxNone -> key <> "" -> find_ik l key (w_db w) = Some rec ->
  wp E m w (fun r w' => untouched w w' /\ forall a, r = Ok a -> sr_IdempotentHit a = true /\
    (cached_record l key rec w -> sr_EventID a = ik_EventID rec)).
Proof.
  intros Hm Ht Hne Hk. destruct Hm as [e|ikh ty work Hikh _ Hw]; [apply wp_ret; by split|].
  eapply wp_mono; [by apply sub_go_known|]. naive_solver.
Qed.

Lemma hash_if_keyed_some key (h : string) :
  key <> "" -> (if negb (String.eqb key EmptyString) then Some h else None) <> None.
Proof. intros Hk. by rewrite (proj2 (String.eqb_neq _ _) Hk). Qed.

Ltac submitting core :=
  cbv zeta; apply sub_go; [by apply hash_if_keyed_some|auto|]; intros ledger now Hid Hs; first [by apply core|eapply core].

Lemma SubmitPost_submission l ps ref meta key vt :
  submission true l key (SubmitPost l ps ref meta key vt false).
Proof.
  unfold SubmitPost. destruct (validatePostings ps) as [[]|e]; [|apply sub_fail].
  submitting post_does.
Qed.
Lemma SubmitAuthorize_submission l src hint asset amt exp key :
  submission true l key (SubmitAuthorize l src hint asset amt exp key).
Proof.
  unfold SubmitAuthorize. destruct amt as [a|]; [|apply sub_fail].
  destruct (a <=? 0); [apply sub_fail|]. submitting authorize_does.
Qed.
Lemma SubmitCapture_submission l id amt dest key :
  submission true l key (SubmitCapture l id amt dest key).
Proof.
  unfold SubmitCapture. destruct amt as [a|]; [|apply sub_fail].
  destruct (a <=? 0); [apply sub_fail|]. submitting capture_does.
Qed.
Lemma SubmitVoid_submission l id key :
  submission true l key (SubmitVoid l id key).
Proof. unfold SubmitVoid. submitting void_does. Qed.
Lemma SubmitConvert_submission l params key :
  submission false l key (SubmitConvert l params key).
Proof.
  unfold SubmitConvert. destruct (validateConvertParams params) as [[]|e]; [|apply sub_fail].
  submitting convert_does.
Qed.
Lemma SubmitRevert_submission l id force eff reason key :
  submission (negb force) l key (SubmitRevert l id force eff reason key).
Proof. unfold SubmitRevert. submitting revert_does. Qed.
Lemma SubmitAmend_submission l id m key :
  submission true l key (SubmitAmend l id m key).
Proof.
  unfold SubmitAmend. submitting metadata_does; [done| |auto|intros; apply doAmendInTx_body]; by repeat constructor.
Qed.
Lemma SubmitSetMetadata_submission l ty id m key :
  submission true l key (SubmitSetMetadata l ty id m key).
Proof.
  unfold SubmitSetMetadata. submitting metadata_does; [done| |auto|intros; apply doSetMetadataInTx_body]; by repeat constructor.
Qed.
Lemma SubmitDeleteMetadata_submission l ty id k key :
  submission true l key (SubmitDeleteMetadata l ty id k key).
Proof.
  unfold SubmitDeleteMetadata. submitting metadata_does; [done| |auto|intros; apply doDeleteMetadataInTx_body]; by repeat constructor.
Qed.
Lemma SubmitInsertSchema_submission l b v key :
  submission true l key (SubmitInsertSchema l b v key).
Proof.
  unfold SubmitInsertSchema. submitting metadata_does; [done| |auto|intros; apply doInsertSchemaInTx_body]; by repeat constructor.
Qed.

(** The intents that cannot overdraw: not a forced revert, not a conversion. *)
Definition safe_intent (intent : BatchIntent) : bool :=
  let t := bi_Type intent in
  negb (String.eqb t "convert") && negb (String.eqb t "revert" && bi_Force intent).

Lemma executeIntent_submission l intent :
  submission (safe_intent intent) l (bi_IdempotencyKey intent) (executeIntent l intent).
Proof.
  unfold executeIntent, safe_intent. cbv zeta.
  destruct (String.eqb_spec (bi_Type intent) "post") as [->|_]; [apply SubmitPost_submission|].
  destruct (String.eqb_spec (bi_Type intent) "authorize") as [->|_]; [apply SubmitAuthorize_submission|].
  destruct (String.eqb_spec (bi_Type intent) "capture") as [->|_]; [apply SubmitCapture_submission|].
  destruct (String.eqb_spec (bi_Type intent) "void") as [->|_]; [apply SubmitVoid_submission|].
  destruct (String.eqb_spec (bi_Type intent) "revert") as [->|_]; [apply SubmitRevert_submission|].
  destruct (String.eqb_spec (bi_Type intent) "amend") as [->|_]; [apply SubmitAmend_submission|].
  destruct (String.eqb_spec (bi_Type intent) "convert") as [_|_].
  { destruct (bi_ConvertParams intent); [apply SubmitConvert_submission|apply sub_fail]. }
  destruct (String.eqb_spec (bi_Type intent) "set_metadata") as [_|_]; [apply SubmitSetMetadata_submission|].
  destruct (String.eqb_spec (bi_Type intent) "delete_metadata") as [_|_]; [apply SubmitDeleteMetadata_submission|].
  apply sub_fail.
Qed.
End Intents.

#[export] Hint Resolve post_races convert_races authorize_races capture_races void_races revert_races
  amend_races set_races delete_races schema_races : core.

(** ** What a successful submission did *)

(** A success that is not a hit on the key did what [S] says, on a ledger that is not sealed. *)
Definition on_open (l : string) (S : LedgerRecord -> DB -> SubmitResult -> DB -> Prop) (d : DB) (r : SubmitResult) (d' : DB) : Prop :=
  exists ledger, find_ledger l d = Some ledger /\ lr_State ledger <> ledgerStateSealed /\ S ledger d r d'.

Lemma on_open_spec `{Deps} E l (S : LedgerRecord -> DB -> SubmitResult -> DB -> Prop) key ikh ty
    (work : LedgerRecord -> Z -> M SubmitResult) (w : World) :
  w_tx w = TxNone -> (forall ledger now, tx_ok (work ledger now)) ->
  (forall ledger now t0 d, lr_ID ledger = l -> txwp t0 (work ledger now) d (on_ok (S ledger d))) ->
  wp E (let* ledger := checkLedgerNotSealed l in
        let+ now := time_Now in
        submitWithIdempotency l key ikh ty false (work ledger now)) w (submitted E (on_open l S) w).
Proof.
  intros Ht Hok Hw. apply guarded_submitted; [done|]. intros ledger now Hid Hs. split; [apply Hok|]. intros t0 d Hf.
  eapply txwp_mono; [by apply Hw|]. apply on_ok_mono. intros r d' HS. by exists ledger.
Qed.

Ltac on_open core :=
  cbv zeta; apply on_open_spec; [done|intros; auto with tx_ok|]; intros ledger now t0 d Hid;
  eapply txwp_mono; [apply core|]; apply on_ok_mono; intros r d' Hd; first [do 3 eexists; exact Hd|do 2 eexists; exact Hd].

(** A post: the postings are valid and covered, and its rows are added. *)
Definition posted_by (l : string) (ps : list PostingInput) (ref : string) (meta : gomap) (key : string) (vt : option Z) :
    DB -> SubmitResult -> DB -> Prop :=
  on_open l (fun ledger d r d' => exists t0 ikh now, post_done t0 ledger ps ref meta key ikh (default now vt) now d r d').
Lemma SubmitPost_posted `{Deps} E l ps ref meta key vt (w : World) :
  w_tx w = TxNone -> wp E (SubmitPost l ps ref meta key vt false) w (submitted E (posted_by l ps ref meta key vt) w).
Proof.
  intros Ht. unfold SubmitPost. destruct (validatePostings ps) as [[]|e]; [|by apply failed_submitted].
  on_open doPostInTx_spec.
Qed.
