(* ===== verification/Progress.v ===== *)
(** * Progress: what a healthy service does succeeds

    The other files say what may have happened whatever fails. Here nothing fails: no
    statement is refused or lost and the ULIDs are new. A post that is valid and covered
    is then recorded. *)
From S2P Require Import Prelude GoStd Regex Accounts Assets Policy Sha256 Json Storage Db Prog.
From S2P Require Import Logic Postgres BatchManager Redis Chart Planner Cores Operations Bodies StoreRules.
From S2P Require Import Effects Ledger Solvency Requests Intents.

(** ** Identifiers that no row has *)

Record fresh_id (id : string) (d : DB) : Prop := {
  fi_event : forall x, x ∈ log_events d -> ev_EventID x <> id;
  fi_delta : forall x, x ∈ volumes_delta d -> vd_EventID x <> id;
  fi_tx : forall x, x ∈ transactions d -> tx_TransactionID x <> id;
  fi_batch : forall x, x ∈ log_batches d -> ba_BatchID x <> id
}.

(** The batch the manager has open for [l], if any, has its row. *)
Definition manager_ok (l : string) (m : mgr) (d : DB) : Prop :=
  forall st, openBatch m !! l = Some st -> exists x, x ∈ log_batches d /\ ba_BatchID x = ob_batchID st.

Lemma existsb_none {A} (p : A -> bool) l : (forall x, x ∈ l -> p x = false) -> existsb p l = false.
Proof.
  intros Hp. destruct (existsb p l) eqn:Ep; [|done]. apply existsb_exists in Ep as (x & Hx & Hpx).
  rewrite Hp in Hpx; [done|by apply list_elem_of_In].
Qed.

Lemma max_seq_ge l x : x ∈ l -> exists m, max_seq l = Some m /\ ev_LedgerSeq x <= m.
Proof.
  induction l as [|y l IH]; [by intros ?%not_elem_of_nil|]. intros [->|Hx]%elem_of_cons; simpl; fold (max_seq l).
  - eexists. split; [done|]. destruct (max_seq l); lia.
  - destruct (IH Hx) as (m & -> & Hm). eexists. split; [done|lia].
Qed.

(** The next number of a ledger is a new one. *)
Lemma next_seq_new l d x : x ∈ log_events d -> ev_LedgerID x = l -> ev_LedgerSeq x <> next_seq l d.
Proof.
  intros Hx Hl. destruct (max_seq_ge (ledger_log l d) x) as (m & Hm & Hle).
  - apply list_elem_of_In, List.filter_In. split; [by apply list_elem_of_In|]. by rewrite Hl, String.eqb_refl.
  - unfold next_seq. rewrite Hm. simpl. lia.
Qed.

Lemma fresh_rows_new l event vt now ps t :
  Forall (fun p => 0 < amount p) ps -> (forall x, x ∈ t -> vd_EventID x <> event) -> NoDup (buckets_of ps) ->
  fresh_rows (posting_rows l event vt now ps) t.
Proof.
  intros Hpos Hev Hnd. rewrite <- (posting_rows_buckets l event vt now ps Hpos) in Hnd.
  assert (Ht : forall x, x ∈ t -> vd_EventID x = event -> bucket_of x ∉ map bucket_of (posting_rows l event vt now ps)).
  { intros x Hx He. by destruct (Hev x Hx). }
  assert (Hrows : Forall (fun x => vd_EventID x = event) (posting_rows l event vt now ps)).
  { unfold posting_rows. clear. induction ps as [|p ps IH]; [done|]. cbn [flat_map]. apply Forall_app. split; [|done].
    destruct (amount p =? 0); by repeat constructor. }
  clear Hev. revert t Ht. induction (posting_rows l event vt now ps) as [|r rows IH]; intros t Ht; [done|].
  cbn [map] in Ht, Hnd. apply NoDup_cons in Hnd as [Hr Hnd]. apply Forall_cons in Hrows as [He Hrows]. split.
  - apply existsb_none. intros x Hx. unfold delta_conflict.
    destruct (String.eqb_spec (vd_EventID r) (vd_EventID x)) as [Hid|]; [|by rewrite andb_false_r].
    destruct (String.eqb_spec (vd_Account r) (vd_Account x)) as [Ha|]; [|by rewrite !andb_false_r].
    destruct (String.eqb_spec (vd_Asset r) (vd_Asset x)) as [Hs|]; [|by rewrite !andb_false_r].
    exfalso. apply (Ht x Hx); [congruence|]. unfold bucket_of at 1. rewrite <- Ha, <- Hs. by left.
  - apply IH; [done|done|]. intros x [Hx|Hx]%elem_of_app He' Hin; [by apply (Ht x Hx He'); right|].
    by apply list_elem_of_singleton in Hx as ->.
Qed.

(** ** Runs without faults *)

Section Healthy.
Context `{Deps} (E : Env) (healthy : forall n, e_fault E n = None) (t0 : Z).
Implicit Types w : World.

(** A transaction is open on [d]; outside it are the database [D] and the manager [m]. *)
Definition inside_tx (D : DB) (m : mgr) (d : DB) (w : World) : Prop :=
  w_tx w = TxOpen t0 d /\ w_db w = D /\ w_mgr w = m.

Section Rules.
Context (D : DB) (m : mgr).

Lemma go_exec {A} (s : stmt A) d a d' w (Q : result A -> World -> Prop) :
  inside_tx D m d w -> s t0 d = inr (a, d') ->
  (forall w', inside_tx D m d' w' -> Q (Ok a) w') -> wp E (exec Tx s) w Q.
Proof.
  intros (Ht & Hd & Hm) Hs HQ. apply wp_trigger. cbn [Prog.step]. unfold sql_tx. rewrite Ht, healthy, Hs. by apply HQ.
Qed.
Lemma go_lock {A} k (s : stmt A) d a d' w (Q : result A -> World -> Prop) :
  inside_tx D m d w -> s t0 d = inr (a, d') ->
  (forall w', inside_tx D m d' w' -> Q (Ok a) w') -> wp E (lock_rows k s) w Q.
Proof.
  intros (Ht & Hd & Hm) Hs HQ. apply wp_trigger. cbn [Prog.step]. unfold sql_tx. rewrite Ht, healthy, Hs. by apply HQ.
Qed.

Lemma go_on_err {A} (p : M A) f w (Q : result A -> World -> Prop) :
  wp E p w (fun r w' => Q (rmap_err f r) w') -> wp E (on_err p f) w Q.
Proof. intros Hp. apply wp_bind. eapply wp_mono; [exact Hp|]. done. Qed.

Lemma go_idle {X} (e : ev X) d w (Q : X -> World -> Prop) :
  match e with Now | MakeUlid | LockLedger _ | UnlockLedger _ | SpawnClose _ _ | Range _ => True | _ => False end ->
  inside_tx D m d w -> (forall w', inside_tx D m d w' -> Q (fst (Prog.step E e w)) w') -> wp E (trigger e) w Q.
Proof. intros He Hw HQ. apply wp_trigger. destruct e; try done; by apply HQ. Qed.

Lemma go_availableBalance l account asset d w (Q : result Z -> World -> Prop) :
  inside_tx D m d w -> (forall w', inside_tx D m d w' -> Q (Ok (available l account asset d)) w') ->
  wp E (availableBalance l account asset) w Q.
Proof.
  intros Hw HQ. unfold availableBalance, GetBalance, GetActiveHoldsTotal.
  apply wp_mbind, wp_wrap, wp_mbind, wp_wrap. eapply go_exec; [exact Hw|done|]. intros w1 Hw1. cbn [rmap_err].
  apply wp_mbind. unfold lift. rewrite parseBigInt_dec. apply wp_ret, wp_mbind. rewrite parseBigInt_dec. apply wp_ret, wp_ret.
  cbn [rmap_err br_Input br_Output]. apply wp_mbind, wp_wrap, wp_mbind. eapply go_exec; [exact Hw1|done|]. intros w2 Hw2.
  rewrite parseBigInt_dec. apply wp_ret. cbn [rmap_err]. apply wp_ret. rewrite balance_posted, sum_by_filter. by apply HQ.
Qed.

Lemma go_checks ledger ins d l w (Q : result unit -> World -> Prop) :
  inside_tx D m d w -> (forall x, x ∈ l -> covered ledger ins d x) ->
  (forall w', inside_tx D m d w' -> Q (Ok tt) w') -> wp E (for_each (check_source ledger ins) l) w Q.
Proof.
  intros Hw Hc HQ. revert w Hw. induction l as [|[[account asset] output] l IH]; intros w Hw; cbn [for_each]; [by apply wp_ret, HQ|].
  assert (Hl : forall x, x ∈ l -> covered ledger ins d x) by (intros x Hx; apply Hc; by right).
  apply wp_mbind. unfold check_source. specialize (Hc ((account, asset), output) ltac:(by left)). unfold covered in Hc. cbn [fst snd] in Hc.
  destruct (IsIssuer account _); [by apply wp_ret, IH|].
  apply wp_mbind. eapply go_availableBalance; [exact Hw|]. intros w1 Hw1. destruct Hc as [|Hc]; [done|].
  match goal with |- context [?a <? output] => assert (Ha : (a <? output) = false); [|rewrite Ha] end.
  { apply Z.ltb_ge. destruct (ins !! (account, asset)); simpl in *; lia. }
  by apply wp_ret, IH.
Qed.

Lemma go_postings l event vt now ps d w (Q : result unit -> World -> Prop) :
  inside_tx D m d w -> fresh_rows (posting_rows l event vt now ps) (volumes_delta d) ->
  (forall w', inside_tx D m (set_volumes_delta (volumes_delta d ++ posting_rows l event vt now ps) d) w' -> Q (Ok tt) w') ->
  wp E (for_each (insert_posting l event vt now) ps) w Q.
Proof.
  revert d w. induction ps as [|p ps IH]; intros d w Hw Hf HQ; cbn [for_each].
  { apply wp_ret, HQ. cbn [posting_rows flat_map]. rewrite app_nil_r. by destruct d. }
  unfold posting_rows in Hf, HQ. cbn [flat_map] in Hf, HQ. fold (posting_rows l event vt now ps) in Hf, HQ.
  apply wp_mbind. unfold insert_posting. destruct (amount p =? 0); cbn [app] in Hf, HQ; [by apply wp_ret, (IH d)|].
  destruct Hf as (Hc1 & Hc2 & Hf). unfold InsertVolumeDelta. apply wp_mbind, wp_wrap.
  eapply go_exec; [exact Hw| |]; [unfold sql_insert_delta, insert_row; by rewrite Hc1|]. intros w1 Hw1. apply wp_wrap.
  eapply go_exec; [exact Hw1| |]; [unfold sql_insert_delta, insert_row; cbn [volumes_delta set_volumes_delta]; by rewrite Hc2|].
  intros w2 Hw2. cbn [rmap_err]. eapply IH; [exact Hw2|exact Hf|]. intros w3 Hw3. apply HQ.
  cbn [volumes_delta set_volumes_delta] in Hw3. rewrite <- !app_assoc in Hw3. exact Hw3.
Qed.

Lemma go_upserts msg l now addrs d w (Q : result unit -> World -> Prop) :
  inside_tx D m d w -> (forall t w', inside_tx D m (set_accounts t d) w' -> Q (Ok tt) w') ->
  wp E (for_each (fun addr => wrap msg (account_upsert l addr now)) addrs) w Q.
Proof.
  revert d w. induction addrs as [|a addrs IH]; intros d w Hw HQ; cbn [for_each].
  { apply wp_ret. apply (HQ (accounts d)). by destruct d. }
  apply wp_mbind, wp_wrap. unfold account_upsert, UpsertAccount. apply wp_wrap.
  eapply go_exec; [exact Hw|done|]. intros w1 Hw1. cbn [rmap_err]. eapply IH; [exact Hw1|]. intros t w2. apply (HQ t).
Qed.
End Rules.

(** The batch of an event: the open one, or a new one. *)
Lemma go_CurrentBatchID D m l d w (Q : result string -> World -> Prop) :
  inside_tx D m d w -> manager_ok l m D -> (forall n x, x ∈ log_batches D -> ba_BatchID x <> e_ulid E n) ->
  (forall b bs D' m' w', inside_tx D' m' (set_log_batches bs d) w' -> Q (Ok b) w') ->
  wp E (CurrentBatchID DefaultMaxEvents DefaultMaxAge l) w Q.
Proof.
  intros (Ht & Hd & Hm) Hok Hfr HQ.
  assert (Hsame : forall b D' m' w', inside_tx D' m' d w' -> Q (Ok b) w').
  { intros b D' m' w' Hw'. apply (HQ b (log_batches d) D' m' w'). by destruct d. }
  unfold CurrentBatchID. apply wp_bind, wp_trigger. cbn [Prog.step]. apply wp_bind.
  apply wp_bind, wp_trigger. cbn [Prog.step]. apply wp_bind, wp_trigger. cbn [Prog.step w_mgr tick]. rewrite Hm.
  destruct (take_open _ _ _ _ m) as [[[b|] old] m1] eqn:Et.
  { apply wp_ret, wp_bind, wp_trigger. cbn [Prog.step]. apply wp_ret. by apply (Hsame b D m1). }
  apply wp_bind, wp_trigger. cbn [Prog.step]. apply wp_bind, wp_trigger. cbn [Prog.step].
  apply wp_mbind, wp_wrap. unfold CreateBatch. apply wp_wrap. unfold exec. apply wp_trigger. cbn [Prog.step].
  unfold sql_pool. rewrite healthy. cbn [w_db w_tx tick with_mgr]. rewrite Hd, Ht.
  set (n := _ : nat) at 1. set (rec := {| ba_BatchID := _ |}).
  assert (Hins : forall now, exists bs, sql_insert_batch rec now D = inr (tt, set_log_batches bs D)).
  { intros now. unfold sql_insert_batch. rewrite existsb_none.
    2:{ intros x Hx. apply String.eqb_neq. intros Hx'. eapply Hfr; [exact Hx|]. by rewrite <- Hx'. }
    assert (Hold : old = EmptyString \/ exists x, x ∈ log_batches D /\ ba_BatchID x = old).
    { unfold take_open in Et. destruct (openBatch m !! l) as [st|] eqn:Eo; [|left; by injection Et].
      destruct (_ && _); [done|]. injection Et as <- _. right. by apply Hok. }
    assert (Hp : negb (String.eqb (ba_PrevBatchID rec) EmptyString) && negb (String.eqb (ba_PrevBatchID rec) (ba_BatchID rec)) &&
                 negb (existsb (fun x => String.eqb (ba_PrevBatchID rec) (ba_BatchID x)) (log_batches D)) = false).
    { destruct Hold as [-> |(x & Hx & Hxo)]; [done|].
      assert (He : existsb (fun x => String.eqb (ba_PrevBatchID rec) (ba_BatchID x)) (log_batches D) = true).
      { apply existsb_exists. exists x. split; [by apply list_elem_of_In|]. rewrite Hxo. apply String.eqb_refl. }
      by rewrite He, andb_false_r. }
    rewrite Hp. by eexists. }
  match goal with |- context [sql_insert_batch rec ?t D] => generalize t end. intros now.
  destruct (Hins now) as (bs & ->). cbn [rmap_err].
  assert (Hview : exists bs', see (sql_insert_batch rec) now (TxOpen t0 d) = TxOpen t0 (set_log_batches bs' d)).
  { unfold see. destruct (sql_insert_batch rec now d) as [c|[u d']] eqn:Es; [exists (log_batches d); by destruct d|].
    apply batch_stmt_insert_batch in Es. exists (log_batches d'). by rewrite <- Es. }
  destruct Hview as (bs' & ->).
  apply wp_bind, wp_trigger. cbn [Prog.step]. destruct (put_open _ _ _ _) as [u m2]. apply wp_bind.
  destruct (String.eqb old EmptyString); [apply wp_ret|apply wp_trigger; cbn [Prog.step]];
    apply wp_ret, wp_bind, wp_trigger; cbn [Prog.step]; apply wp_ret; by apply (HQ _ bs' (set_log_batches bs D) m2).
Qed.

Lemma go_appendEvent D m l ty payload vt now d w (Q : result (string * Z) -> World -> Prop) :
  inside_tx D m d w -> manager_ok l m D -> (forall n x, x ∈ log_batches D -> ba_BatchID x <> e_ulid E n) ->
  (forall n x, x ∈ log_events d -> ev_EventID x <> e_ulid E n) -> payload <> None ->
  (forall n bs ev D' m' w', inside_tx D' m' (set_log_events (log_events d ++ [ev]) (set_log_batches bs d)) w' ->
     Q (Ok (e_ulid E n, next_seq l d)) w') ->
  wp E (appendEvent l ty payload "" None vt now) w Q.
Proof.
  intros Hw Hok Hb Hev Hp HQ. unfold appendEvent. apply wp_bind. eapply go_idle; [exact I|exact Hw|]. intros w1 Hw1. cbn [fst Prog.step].
  set (n := w_tick w) in *. apply wp_mbind, wp_wrap. eapply go_CurrentBatchID; [exact Hw1|done|exact Hb|]. intros b bs D' m' w2 Hw2. cbn [rmap_err].
  apply wp_mbind, wp_wrap. unfold NextLedgerSeq. apply wp_mbind, go_on_err. eapply go_lock; [exact Hw2|done|]. intros w3 Hw3. cbn [rmap_err].
  eapply go_exec; [exact Hw3|done|]. intros w4 Hw4. cbn [rmap_err]. fold (next_seq l (set_log_batches bs d)).
  change (next_seq l (set_log_batches bs d)) with (next_seq l d).
  apply wp_mbind. unfold AppendLogEvent. set (ev := log_event _ _ _ _ _ _ _ _ _ _). apply go_on_err.
  eapply go_exec; [exact Hw4| |].
  - unfold sql_insert_log_event, insert_row. destruct (ev_Payload ev) eqn:Ep; [|by destruct Hp].
    rewrite existsb_none; [done|]. intros x Hx. cbn [log_events set_log_batches] in Hx. unfold log_conflict.
    replace (String.eqb (ev_EventID (log_row ev)) (ev_EventID x)) with false
      by (symmetry; apply String.eqb_neq; intros He; by apply (Hev n x Hx)).
    destruct (String.eqb_spec (ev_LedgerID (log_row ev)) (ev_LedgerID x)) as [Hl|]; [|done]. cbn.
    rewrite orb_false_r. apply Z.eqb_neq. intros Hs. by apply (next_seq_new l d x Hx).
  - intros w5 Hw5. cbn [rmap_err]. apply wp_ret. eapply HQ. exact Hw5.
Qed.

(** ** A post *)

Definition unused_reference (l ref : string) (d : DB) : Prop :=
  ref = EmptyString \/ forall x, x ∈ transactions d -> tx_LedgerID x = l -> tx_Reference x <> ref.

(** The ledger checks no schema. *)
Definition schemaless (ledger : LedgerRecord) : Prop :=
  feature ledger featureSchemaEnforcement <> SchemaStrict /\ feature ledger featureSchemaEnforcement <> SchemaBestEffort.
Lemma schemaless_passes ledger ps : schemaless ledger -> enforce_schema ledger ps = ok tt.
Proof. intros [H1%String.eqb_neq H2%String.eqb_neq]. unfold enforce_schema. by rewrite H1, H2. Qed.

Lemma go_post D m ledger ps ref vt now w (Q : result SubmitResult -> World -> Prop) :
  inside_tx D m D w -> (forall n, fresh_id (e_ulid E n) D) -> manager_ok (lr_ID ledger) m D ->
  schemaless ledger -> validatePostings ps = Ok tt -> NoDup (buckets_of ps) -> unused_reference (lr_ID ledger) ref D ->
  (forall x, x ∈ map_to_list (net_outputs ps) -> covered ledger (net_inputs ps) D x) ->
  (forall r d' D' m' w', inside_tx D' m' d' w' ->
     volumes_delta d' = volumes_delta D ++ posting_rows (lr_ID ledger) (sr_EventID r) vt now ps ->
     sr_IdempotentHit r = false -> Q (Ok r) w') ->
  wp E (doPostInTx ledger ps ref None "" None vt now false) w Q.
Proof.
  intros Hw Hfr Hok Hsch Hv Hnd Href Hcov HQ. unfold doPostInTx. rewrite Hv, schemaless_passes by done.
  apply wp_mbind, wp_ret, wp_mbind, wp_ret, wp_mbind. unfold checkSourceBalances. apply wp_bind, wp_trigger. cbn [Prog.step].
  eapply (go_checks D m ledger (net_inputs ps) D); [exact Hw| |].
  { intros x Hx. apply Hcov. by rewrite reorder_perm in Hx. }
  intros w1 Hw1. apply wp_bind. eapply go_idle; [exact I|exact Hw1|]. intros w2 Hw2. cbn [fst Prog.step].
  set (txID := e_ulid E _). apply wp_mbind.
  eapply go_appendEvent; [exact Hw2|exact Hok|intros n; apply Hfr|intros n; apply Hfr|done|].
  intros n bs ev D1 m1 w3 Hw3. cbn [fst]. set (txRec := {| tx_LedgerID := lr_ID ledger |}).
  apply wp_mbind. unfold InsertTransaction. do 2 apply go_on_err. eapply go_exec; [exact Hw3| |].
  { unfold sql_insert_tx, insert_row. rewrite existsb_none; [done|]. intros x Hx. cbn [transactions set_log_events set_log_batches] in Hx.
    unfold tx_conflict. cbn [tx_LedgerID tx_TransactionID tx_Reference row_of_tx txRec].
    destruct (String.eqb_spec (lr_ID ledger) (tx_LedgerID x)) as [Hl|]; [|done]. cbn [andb].
    replace (String.eqb txID (tx_TransactionID x)) with false
      by (symmetry; apply String.eqb_neq; intros He; by destruct (fi_tx _ _ (Hfr (w_tick w1)) x Hx)).
    destruct Href as [-> |Href]; [done|]. destruct (String.eqb_spec ref (tx_Reference x)) as [->|]; [by edestruct Href|].
    by rewrite andb_false_r. }
  intros w4 Hw4. cbn [rmap_err]. apply wp_mbind. cbn [has_metadata when]. apply wp_ret, wp_mbind.
  eapply go_postings; [exact Hw4| |].
  { apply fresh_rows_new; [by apply validatePostings_ok| |done]. intros x Hx. by apply (fi_delta _ _ (Hfr n)). }
  intros w5 Hw5. apply wp_bind, wp_trigger. cbn [Prog.step]. apply wp_mbind. eapply go_upserts; [exact Hw5|].
  intros ta w6 Hw6. apply wp_mbind. unfold record_if_keyed. cbn [String.eqb negb andb]. apply wp_ret, wp_ret.
  eapply HQ; [exact Hw6|done|done].
Qed.
End Healthy.

(** The attempt commits, and its deltas are those of the body. *)
Lemma go_attempt `{Deps} E (healthy : forall n, e_fault E n = None) l ty (work : M SubmitResult) (w : World)
    (P : SubmitResult -> list VolumeDeltaRecord -> Prop) :
  (forall t0 w1, inside_tx t0 (w_db w) (w_mgr w) (w_db w) w1 -> wp E work w1 (fun r w2 =>
     exists a D' m' d', r = Ok a /\ inside_tx t0 D' m' d' w2 /\ P a (volumes_delta d'))) ->
  w_tx w = TxNone ->
  wp E (submit_attempt l "" None ty false work) w (fun r w' =>
    exists a, r = Ok a /\ w_tx w' = TxNone /\ P a (volumes_delta (w_db w'))).
Proof.
  intros Hwork Ht. unfold submit_attempt. apply wp_mbind, wp_wrap. unfold BeginTx. apply go_on_err, wp_trigger. cbn [Prog.step].
  rewrite healthy. cbn [rmap_err]. unfold with_rollback. apply wp_bind, wp_mbind.
  eapply wp_mono; [by apply Hwork|]. intros r w2 (a & D' & m' & d' & -> & (Ht2 & _) & HP).
  apply wp_mbind, wp_wrap. unfold TxCommit. apply wp_trigger. cbn [Prog.step]. unfold commit. rewrite Ht2, healthy. cbn [rmap_err].
  apply wp_bind, wp_ret, wp_bind.
  assert (Hend : forall w3, w_tx w3 = TxNone -> w_db w3 = d' ->
    wp E (let+ _ := trigger Rollback in Ret (Ok a)) w3 (fun r w' => exists a, r = Ok a /\ w_tx w' = TxNone /\ P a (volumes_delta (w_db w')))).
  { intros w3 Ht3 Hd3. apply wp_bind, wp_trigger. cbn [Prog.step]. apply wp_ret. exists a. split_and!; [done|done|]. simpl. by rewrite Hd3. }
  unfold publishEvent. destruct (negb has_subs); [apply wp_ret, wp_ret; by apply Hend|]. apply wp_bind. unfold Publish, Redis_Publish.
  apply wp_trigger. cbn [Prog.step]. rewrite !healthy. apply wp_ret, wp_ret. by apply Hend.
Qed.

(** Nothing fails, and the ULIDs to come are new to the database. *)
Definition healthy_run (E : Env) (w : World) : Prop :=
  (forall n, e_fault E n = None) /\ (forall n, fresh_id (e_ulid E n) (w_db w)).
