(* ===== verification/Idempotency.v ===== *)
(** * A key is used once

    What a successful request leaves under its idempotency key, in the database and in
    the cache, and what a later request with the same key does: nothing, and it answers
    with the first event. *)
From S2P Require Import Prelude GoStd Regex Accounts Assets Policy Sha256 Json Storage Db Prog.
From S2P Require Import Logic Postgres BatchManager Redis Chart Planner Cores Operations Bodies StoreRules.
From S2P Require Import Effects Ledger Requests Intents.

(** ** Programs that do not write the cache *)

Definition ev_nocache {X} (e : ev X) : Prop := match e with HSet _ _ => False | _ => True end.
Fixpoint nocache {A} (m : prog A) : Prop :=
  match m with Ret _ => True | Vis e k => ev_nocache e /\ forall x, nocache (k x) end.

Definition uncached (key : string) (w : World) : Prop := w_redis w !! key = None.

(** They only lose entries of it. *)
Lemma step_redis {X} (E : Env) (e : ev X) (w : World) :
  ev_nocache e -> let '(_, w') := Prog.step E e w in w_redis (tick w') ⊆ w_redis w.
Proof.
  intros He. destruct e as [| | |? [] s| | | | | | | | | | | | | | |? rk s]; simpl in *; try done.
  - unfold sql_pool. destruct (e_fault E (w_tick w)) as [[]|]; try done.
    all: by destruct (s _ (w_db w)) as [c|[a d']].
  - unfold sql_tx. destruct (w_tx w); try done. destruct (e_fault E (w_tick w)); [done|].
    by destruct (s start d) as [c|[a d']].
  - by destruct (e_fault E (w_tick w)).
  - unfold commit. destruct (w_tx w); try done. by destruct (e_fault E (w_tick w)) as [[]|].
  - destruct (e_evicted E (w_tick w)); [|done]. apply delete_subseteq.
  - by destruct (e_fault E (w_tick w)) as [[]|].
  - by destruct (f (w_mgr w)).
  - by destruct (e_fault E (w_tick w)) as [[]|].
  - unfold sql_tx. destruct (w_tx w); try done. destruct (e_fault E (w_tick w)); [done|].
    by destruct (s start d) as [c|[a d']].
Qed.

Lemma nocache_run {A} E (m : prog A) (w : World) : nocache m -> wp E m w (fun _ w' => w_redis w' ⊆ w_redis w).
Proof.
  unfold wp. revert w. induction m as [a|X e k IH]; intros w; simpl; [done|]. intros [He Hk].
  pose proof (step_redis E e w He) as Hs. destruct (Prog.step E e w) as [x w1].
  specialize (IH x (tick w1) (Hk x)). destruct (run E (k x) (tick w1)). by etransitivity.
Qed.

Lemma nocache_uncached {A} E (m : prog A) (w : World) key :
  nocache m -> uncached key w -> wp E m w (fun _ w' => uncached key w').
Proof.
  intros Hm Hu. eapply wp_mono; [by apply nocache_run|]. intros x w' Hs. by eapply lookup_weaken_None.
Qed.

Lemma nocache_pbind {A B} (m : prog A) (f : A -> prog B) : nocache m -> (forall a, nocache (f a)) -> nocache (pbind m f).
Proof.
  intros Hm Hf. induction m as [a|X e k IH]; [apply Hf|]. destruct Hm as [He Hk]. split; [done|]. intros x. apply IH, Hk.
Qed.
Lemma nocache_mbind {A B} (m : M A) (f : A -> M B) : nocache m -> (forall a, nocache (f a)) -> nocache (mbind m f).
Proof. intros Hm Hf. apply nocache_pbind; [done|]. by intros []. Qed.
Lemma nocache_on_err {A} (m : M A) f : nocache m -> nocache (on_err m f).
Proof. intros. by apply nocache_pbind. Qed.
Lemma tx_ok_nocache {A} (m : prog A) : tx_ok m -> nocache m.
Proof. induction m as [a|X e k IH]; [done|]. intros [He Hk]. split; [by destruct e|]. intros x. apply IH, Hk. Qed.
Lemma nocache_query_row {A} q (s : stmt (option A)) : nocache (query_row q s).
Proof. apply nocache_mbind; [by split|]. by intros []. Qed.

Lemma wp_nocache_bind {A B} E (m : prog A) (f : A -> prog B) (w : World) key Q :
  nocache m -> uncached key w -> (forall a w1, uncached key w1 -> wp E (f a) w1 Q) -> wp E (pbind m f) w Q.
Proof. intros Hm Hu Hf. apply wp_bind. eapply wp_mono; [by apply nocache_uncached|]. auto. Qed.

Section Idempotency.
Context `{Deps}.

Lemma nocache_GetIdempotencyKey l k : nocache (GetIdempotencyKey Pool l k).
Proof. apply nocache_pbind; [apply nocache_query_row|]. intros [a|e]; [done|]. by destruct (isNoRows e). Qed.
Lemma nocache_checkLedger l : nocache (checkLedgerNotSealed l).
Proof.
  apply nocache_mbind; [apply nocache_on_err, nocache_on_err, nocache_query_row|]. intros r. by destruct (String.eqb _ _).
Qed.
Lemma nocache_publishEvent l e ty : nocache (publishEvent l e ty).
Proof. unfold publishEvent. destruct (negb has_subs); [done|]. by repeat split. Qed.

Lemma uncached_cached l key event hash (w : World) : uncached (idempotencyKey l key) w -> cached l key event hash w.
Proof. unfold uncached, cached. intros ->. done. Qed.

(** Writing an entry that was not there. *)
Lemma wp_SetIdempotencyKey E l key event hash (w : World) :
  uncached (idempotencyKey l key) w -> wp E (SetIdempotencyKey l key event hash) w (fun _ w' => cached l key event hash w').
Proof.
  intros Hu. apply wp_trigger. simpl. unfold uncached in Hu. rewrite Hu. unfold cached.
  destruct (e_fault E (w_tick w)) as [[]|]; simpl; rewrite ?Hu; try done.
  all: intros fields Hf; rewrite lookup_insert_eq in Hf; apply (inj Some) in Hf; subst fields.
  all: rewrite (right_id_L ∅ (∪)); split; [apply lookup_insert_eq|].
  all: by rewrite lookup_insert_ne, lookup_singleton_eq.
Qed.

(** The cache after a result: the event and the hash of a success under its key, else nothing. *)
Definition left_cached (l key : string) (ikh : option string) (r : result SubmitResult) (w : World) : Prop :=
  match r with
  | Ok a => cached l key (sr_EventID a) ikh w
  | Err _ => uncached (idempotencyKey l key) w
  end.

Lemma cached_nocache {A} E (m : prog A) l key event hash (w : World) :
  nocache m -> cached l key event hash w -> wp E m w (fun _ w' => cached l key event hash w').
Proof.
  intros Hm Hc. eapply wp_mono; [by apply nocache_run|]. intros x w' Hs fields Hf. apply Hc. by eapply lookup_weaken.
Qed.

Lemma attempt_cached E l key ikh ty (work : M SubmitResult) (w : World) :
  key <> "" -> tx_ok work -> uncached (idempotencyKey l key) w ->
  wp E (submit_attempt l key ikh ty false work) w (left_cached l key ikh).
Proof.
  intros Hne Hok Hu. unfold submit_attempt. apply wp_mbind. unfold wrap, BeginTx, on_err.
  eapply wp_mono; [apply (nocache_uncached _ _ _ (idempotencyKey l key)); [by repeat split|done]|].
  intros [[]|e] w1 H1; [|done]. unfold with_rollback.
  assert (Hend : forall r w2, left_cached l key ikh r w2 -> wp E (let+ _ := trigger Rollback in Ret r) w2 (left_cached l key ikh)).
  { intros r w2 Hr. by apply wp_rollback. }
  apply wp_bind, wp_mbind. eapply wp_mono; [by apply nocache_uncached; [apply tx_ok_nocache|]|].
  intros [r|e] w2 H2; [|by apply Hend].
  apply wp_mbind. eapply wp_mono; [by apply (nocache_uncached _ (wrap "committing transaction" TxCommit))|].
  intros [[]|e] w3 H3; [|by apply Hend]. rewrite (proj2 (String.eqb_neq _ _) Hne). cbn [negb].
  apply wp_bind, wp_bind. eapply wp_mono; [apply wp_SetIdempotencyKey, H3|]. intros x w4 H4. apply wp_ret.
  apply wp_bind. eapply wp_mono; [apply cached_nocache, H4; apply nocache_publishEvent|].
  intros [] w5 H5. apply wp_ret, Hend, H5.
Qed.

Lemma retry_cached E p mb left backoff l key ikh (fn : M SubmitResult) (w : World) :
  (forall w1, uncached (idempotencyKey l key) w1 -> wp E fn w1 (left_cached l key ikh)) ->
  uncached (idempotencyKey l key) w -> wp E (retry p mb left backoff fn) w (left_cached l key ikh).
Proof.
  intros Hfn. revert w backoff. induction left as [|left IH]; intros w backoff Hu; simpl;
    (apply wp_bind; eapply wp_mono; [by apply Hfn|]; intros [a|e] w1 H1; [done|]; destruct (negb (p e)); [done|]); [done|].
  eapply wp_nocache_bind; [by split|exact H1|]. intros j w2 H2.
  eapply wp_nocache_bind; [by split|exact H2|]. intros g w3 H3. destruct g; simpl; [by apply IH|done].
Qed.

(** What a lookup of a key that is not cached answers. *)
Lemma checkIdempotency_uncached E l key ikh (w : World) :
  w_tx w = TxNone -> uncached (idempotencyKey l key) w ->
  wp E (checkIdempotency l key ikh) w (fun r w' =>
    match r with
    | Ok (Some a) => sr_IdempotentHit a = true /\
        exists rec, find_ik l key (w_db w) = Some rec /\ ik_EventID rec = sr_EventID a /\ cached_record l key rec w'
    | _ => uncached (idempotencyKey l key) w'
    end).
Proof.
  intros Ht Hu. unfold checkIdempotency, Redis_GetIdempotencyKey. apply wp_bind, wp_bind, wp_trigger. simpl.
  set (w1 := tick _). assert (Hu1 : uncached (idempotencyKey l key) w1 /\ w_db w1 = w_db w).
  { split; [|unfold w1; by destruct (e_evicted _ _)]. unfold uncached, w1 in *.
    destruct (e_evicted E (w_tick w)); simpl; [|done]. by rewrite lookup_delete_None; right. }
  clearbody w1. destruct Hu1 as [Hu1 Hd1].
  set (q := redis_reply _ _). assert (Hq : q = Ok ∅ \/ exists e, q = Err e).
  { unfold q, redis_reply. destruct (e_fault E (w_tick w)); [by right; eexists|left].
    destruct (e_evicted E (w_tick w)); simpl; unfold uncached in Hu; [by rewrite lookup_delete_eq|by rewrite Hu]. }
  assert (Hpg : wp E (let* ikRecord := wrap "checking idempotency key in PG" (GetIdempotencyKey Pool l key) in
    match ikRecord with
    | Some rec =>
        if negb (same_hash (ik_IdempotencyHash rec) ikh) then fail (ESent ErrInvalidIdempotencyInput)
        else
          let+ _ := SetIdempotencyKey l key (ik_EventID rec) (ik_IdempotencyHash rec) in
          ok (Some (hit_result (ik_EventID rec)))
    | None => ok None
    end) w1 (fun r w' =>
    match r with
    | Ok (Some a) => sr_IdempotentHit a = true /\
        exists rec, find_ik l key (w_db w) = Some rec /\ ik_EventID rec = sr_EventID a /\ cached_record l key rec w'
    | _ => uncached (idempotencyKey l key) w'
    end)).
  { apply wp_mbind, wp_wrap. eapply wp_mono; [apply wp_and;
      [apply (GetIdempotencyKey_result E l key w1)|apply (nocache_uncached E _ w1 (idempotencyKey l key)); [apply nocache_GetIdempotencyKey|done]]|].
    intros r w2 [[[e ->]| ->] Hu2]; simpl; [done|]. rewrite Hd1.
    destruct (find_ik l key (w_db w)) as [rec|] eqn:Ek; [|done]. destruct (negb _); [done|].
    apply wp_bind. eapply wp_mono; [by apply (wp_SetIdempotencyKey E l key (ik_EventID rec) (ik_IdempotencyHash rec))|].
    intros x w3 H3. apply wp_ret. split; [done|]. by exists rec. }
  apply wp_ret. destruct Hq as [-> | [e ->]]; simpl; exact Hpg.
Qed.

(** What a success leaves under its key: a record of its event (with its own hash, when the
    request was executed), and in the cache nothing else than that record. *)
Definition known (l key : string) (ikh : option string) (a : SubmitResult) (w : World) : Prop :=
  w_tx w = TxNone /\ exists rec, find_ik l key (w_db w) = Some rec /\ ik_EventID rec = sr_EventID a /\
  cached_record l key rec w /\ (sr_IdempotentHit a = false -> ik_IdempotencyHash rec = ikh).

Lemma find_ik_same l key d d' : same_but_batches d d' -> find_ik l key d' = find_ik l key d.
Proof. intros Hs. unfold find_ik. by rewrite Hs. Qed.

Lemma resolve_known E l key ikh (w : World) :
  w_tx w = TxNone -> uncached (idempotencyKey l key) w ->
  wp E (resolveIdempotencyConflict l key) w (fun r w' => forall a, r = Ok a -> known l key ikh a w').
Proof.
  intros Ht Hu. apply wp_bind. eapply wp_mono.
  { apply wp_and; [apply GetIdempotencyKey_result|apply wp_and;
      [apply reads_idle; [apply reads_GetIdempotencyKey|done]
      |apply (nocache_uncached E _ w (idempotencyKey l key)); [apply nocache_GetIdempotencyKey|done]]]. }
  intros r w1 (Hr & (Ht1 & Hd1 & _) & Hu1). destruct Hr as [[e ->]| ->]; [done|].
  destruct (find_ik l key (w_db w)) as [rec|] eqn:Ek; [|done]. apply wp_ret. intros a [= <-].
  split; [done|]. exists rec. rewrite Hd1. split; [exact Ek|]. split; [reflexivity|].
  split; [exact (uncached_cached l key _ _ w1 Hu1)|]. intros Hh. discriminate Hh.
Qed.

(** The record an operation leaves under its key. *)
Lemma intent_done_known c l key ikh d r d' :
  key <> "" -> ikh <> None -> intent_done c l key ikh d r d' ->
  exists rec, find_ik l key d' = Some rec /\ ik_EventID rec = sr_EventID r /\ ik_IdempotencyHash rec = ikh.
Proof.
  intros Hne Hikh Hd. destruct (it_keys _ _ _ _ _ _ _ Hd) as (t0 & Hk & Hf). unfold key_rows in *.
  rewrite (proj2 (String.eqb_neq _ _) Hne), bool_decide_eq_true_2 in * by auto. simpl in *.
  set (row := ik_row _ _) in *. exists row. split; [|done]. unfold find_ik. rewrite Hk.
  specialize (Hf row (or_introl eq_refl)).
  assert (Hn : List.find (fun r => String.eqb l (ik_LedgerID r) && String.eqb key (ik_IdempotencyKey r)) (idempotency_keys d) = None).
  { revert Hf. generalize (idempotency_keys d) as ks. induction ks as [|x ks IH]; simpl; [done|].
    intros [H1 H2]%orb_false_iff. unfold ik_conflict in H1. simpl in H1. rewrite H1. auto. }
  revert Hn. generalize (idempotency_keys d) as ks. induction ks as [|x ks IH]; simpl.
  - intros _. by rewrite !String.eqb_refl.
  - destruct (_ && _); [done|]. exact IH.
Qed.

Lemma submit_known E c l key ikh ty (work : M SubmitResult) (w : World) :
  key <> "" -> ikh <> None -> w_tx w = TxNone -> uncached (idempotencyKey l key) w -> tx_ok work ->
  (forall t0 d, same_but_batches (w_db w) d -> txwp t0 work d (on_ok (intent_done c l key ikh d))) ->
  wp E (submitWithIdempotency l key ikh ty false work) w
    (fun r w' => forall a, r = Ok a -> known l key ikh a w').
Proof.
  intros Hne Hikh Ht Hu Hok Hw. unfold submitWithIdempotency. rewrite (proj2 (String.eqb_neq _ _) Hne). cbn [negb andb].
  apply wp_mbind. eapply wp_mono.
  { apply wp_and; [by apply (checkIdempotency_uncached E l key ikh)|by apply reads_idle; [apply reads_checkIdempotency|]]. }
  intros [[a|]|e] w1 [H1 Hi]; [|..|done].
  { destruct H1 as (Hh & rec & H2 & H3 & H4). apply wp_ret. intros b [= <-].
    destruct Hi as (Ht1 & Hd1 & _). split; [done|]. exists rec. rewrite Hd1. split_and!; [done..|congruence]. }
  apply wp_bind. eapply wp_mono.
  { apply wp_and; [apply (retry_cached E _ _ _ _ l key ikh); [|exact H1]|
                   apply (retry_spec E (intent_done c l key ikh)); [done| |apply Hi]].
    - intros w2 Hu2. by apply attempt_cached.
    - intros w2 Hu2. apply attempt_spec; [apply Hu2|done|]. intros t0. apply Hw.
      etransitivity; [apply (idle_untouched _ _ Hi)|apply Hu2]. }
  intros [a|e] w2 [Hc Ha]; simpl in *.
  - apply wp_ret. intros b [= <-]. destruct Ha as (Ht2 & d0 & _ & Hd).
    destruct (intent_done_known _ _ _ _ _ _ _ Hne Hikh Hd) as (rec & Hk & He & Hr).
    split; [done|]. exists rec. unfold cached_record. by rewrite He, Hr.
  - destruct (isIdempotencyConflict e); [|done]. apply resolve_known; [|done].
    destruct Ha as [Hn|(_ & _ & a & Ha)]; [apply Hn|apply Ha].
Qed.

Lemma sub_go_leaves E c l key ikh ty (work : LedgerRecord -> Z -> M SubmitResult) (w : World) :
  key <> "" -> ikh <> None -> w_tx w = TxNone -> uncached (idempotencyKey l key) w ->
  (forall ledger now, lr_ID ledger = l -> lr_State ledger <> ledgerStateSealed -> does c l key ikh ledger (work ledger now)) ->
  wp E (let* ledger := checkLedgerNotSealed l in
        let+ now := time_Now in
        submitWithIdempotency l key ikh ty false (work ledger now)) w (fun r w' => forall a, r = Ok a -> known l key ikh a w').
Proof.
  intros Hne Hikh Ht Hu Hw. apply wp_mbind. eapply wp_mono.
  { apply wp_and; [by apply checkLedger_spec|apply (nocache_uncached E _ w (idempotencyKey l key)); [apply nocache_checkLedger|done]]. }
  intros [ledger|e] w1 [[Hi Hl] Hu1]; [|done]. destruct (Hl ledger eq_refl) as [Hf Hs].
  apply wp_bind, wp_trigger. simpl. pose proof (find_ledger_id _ _ _ Hf) as Hid. destruct Hi as (Ht1 & Hd1 & _).
  apply (submit_known E c); [done..|by apply Hw|]. intros t0 d Hd. simpl in Hd. rewrite Hd1 in Hd.
  apply Hw; try done; unfold find_ledger in *; by rewrite Hd.
Qed.

(** Whatever happens to the database, a recorded key stays what it is. *)
Lemma find_ik_app l key rec rows d d' :
  idempotency_keys d' = idempotency_keys d ++ rows -> find_ik l key d = Some rec -> find_ik l key d' = Some rec.
Proof.
  unfold find_ik. intros ->. induction (idempotency_keys d) as [|x ks IH]; simpl; [done|]. by destruct (_ && _).
Qed.
Lemma find_ik_steps safe l key rec d d' : steps safe d d' -> find_ik l key d = Some rec -> find_ik l key d' = Some rec.
Proof.
  induction 1 as [d|d d1 d' Hs _ IH]; [done|]. intros Hk. apply IH.
  destruct (step_cases _ _ _ Hs) as [(l' & b & Ho)|Ha].
  - destruct (op_done_effect _ _ _ _ Ho) as (l1 & k & ikh & t0 & ty & ev & ds & hs & ts & rs & He).
    eapply find_ik_app; [apply (ef_keys _ _ _ _ _ _ _ _ _ _ _ _ He)|done].
  - destruct Ha; try done. by rewrite (find_ik_same l key _ _ H0).
Qed.

(** The cache entry of a key was not written between two moments; it may have been lost. *)
Definition entry_kept (l key : string) (w w' : World) : Prop :=
  forall fields, w_redis w' !! idempotencyKey l key = Some fields -> w_redis w !! idempotencyKey l key = Some fields.

(** A success under a fresh key, and what any later request under that key meets. *)
Lemma submission_leaves E c l key m (w : World) a w1 :
  submission c l key m -> key <> "" -> w_tx w = TxNone -> uncached (idempotencyKey l key) w -> run E m w = (Ok a, w1) ->
  exists ikh, known l key ikh a w1 /\
    forall E2 rec w2, ik_IdempotencyHash rec = ikh -> w_tx w2 = TxNone -> find_ik l key (w_db w2) = Some rec ->
      cached_record l key rec w2 -> (forall n, e_fault E2 n = None) ->
      (exists ledger, find_ledger l (w_db w2) = Some ledger /\ lr_State ledger <> ledgerStateSealed) ->
      wp E2 m w2 (fun r _ => r = Ok (hit_result (ik_EventID rec))).
Proof.
  intros Hm Hne Ht Hu Hr. destruct Hm as [e|ikh ty work Hikh _ Hw]; [done|]. exists ikh. split.
  - exact (wp_run _ _ _ _ (sub_go_leaves E c l key ikh ty work w Hne (Hikh Hne) Ht Hu Hw) _ _ Hr a eq_refl).
  - intros E2 rec w2 Hh Ht2 Hk Hc Hf Hl. eapply wp_mono; [by apply (sub_go_known E2 l key ikh ty work rec)|].
    intros r w3 (_ & _ & Hgo). by apply Hgo.
Qed.

(** Two requests under one key, under any two environments and whatever is done between
    them: the second changes nothing and is at most a hit on the first; and a repetition of
    an executed request is that hit, when nothing fails and the ledger is open. *)
Lemma submissions_once E1 E2 c1 c2 safe l key m1 m2 (w : World) a w1 w2 r w3 :
  submission c1 l key m1 -> submission c2 l key m2 -> key <> "" ->
  w_tx w = TxNone -> uncached (idempotencyKey l key) w -> run E1 m1 w = (Ok a, w1) ->
  w_tx w2 = TxNone -> steps safe (w_db w1) (w_db w2) -> entry_kept l key w1 w2 -> run E2 m2 w2 = (r, w3) ->
  untouched w2 w3 /\ (forall b, r = Ok b -> sr_IdempotentHit b = true /\ sr_EventID b = sr_EventID a) /\
  (m2 = m1 -> sr_IdempotentHit a = false -> (forall n, e_fault E2 n = None) ->
   (exists ledger, find_ledger l (w_db w2) = Some ledger /\ lr_State ledger <> ledgerStateSealed) ->
   r = Ok (hit_result (sr_EventID a))).
Proof.
  intros Hm1 Hm2 Hne Ht Hu H1 Ht2 Hs He H2.
  destruct (submission_leaves E1 c1 l key m1 w a w1 Hm1 Hne Ht Hu H1) as (ikh & (Ht1 & rec & Hk & Hev & Hc & Hh) & Hagain).
  pose proof (find_ik_steps _ _ _ _ _ _ Hs Hk) as Hk2.
  assert (Hc2 : cached_record l key rec w2) by (intros fields Hf; by apply Hc, He).
  pose proof (wp_run _ _ _ _ (submission_known E2 c2 l key m2 rec w2 Hm2 Ht2 Hne Hk2) _ _ H2) as [Hn Hb].
  split_and!; [done| |].
  - intros b Hr. destruct (Hb b Hr) as [Hhit Hb2]. rewrite Hev in Hb2. auto.
  - intros -> Hnh Hf Hl. rewrite <- Hev. exact (wp_run _ _ _ _ (Hagain E2 rec w2 (Hh Hnh) Ht2 Hk2 Hc2 Hf Hl) _ _ H2).
Qed.
End Idempotency.
