(* ===== verification/Batches.v ===== *)
(** * Batches of intents

    ALL_OR_NOTHING commits one operation per intent or nothing; BEST_EFFORT runs each
    intent as a request of its own. *)
From S2P Require Import Prelude GoStd Regex Accounts Assets Policy Sha256 Json Storage Db Prog.
From S2P Require Import Logic Postgres BatchManager Redis Chart Planner Cores Operations Bodies Interleaving StoreRules.
From S2P Require Import Effects Ledger Raced Requests Intents.

(** One operation on ledger [l], and [n] of them in a row, the batches aside. *)
Definition op (c : bool) (l : string) (d d' : DB) : Prop :=
  exists d0, same_but_batches d d0 /\ exists safe, op_done l safe d0 d' /\ (c = true -> safe = true).
Definition ops (c : bool) (l : string) (n : nat) (d d' : DB) : Prop :=
  exists d1, nsteps (op c l) n d d1 /\ same_but_batches d1 d'.

Lemma ops_refl c l d d' : same_but_batches d d' -> ops c l 0 d d'.
Proof. intros Hs. exists d. split; [constructor|done]. Qed.
Lemma op_same c l d d1 d2 : same_but_batches d d1 -> op c l d1 d2 -> op c l d d2.
Proof. intros Hs (d0 & H0 & Ho). exists d0. split; [by etransitivity|done]. Qed.
Lemma ops_same c l n d d1 d2 : same_but_batches d d1 -> ops c l n d1 d2 -> ops c l n d d2.
Proof.
  intros Hs (d3 & Hn & H3). destruct n as [|n].
  - inversion Hn; subst. apply ops_refl. by etransitivity.
  - inversion Hn as [|? ? y ? Ho Hn']; subst. exists d3. split; [|done]. econstructor; [by eapply op_same|done].
Qed.
Lemma ops_trans c l n m d d1 d2 : ops c l n d d1 -> ops c l m d1 d2 -> ops c l (n + m) d d2.
Proof.
  intros (d3 & Hn & H3) Hm. destruct (ops_same _ _ _ _ _ _ H3 Hm) as (d4 & Hm' & H4).
  exists d4. split; [by eapply nsteps_trans|done].
Qed.
Lemma op_weaken c c' l d d' : (c' = true -> c = true) -> op c l d d' -> op c' l d d'.
Proof. intros Hc (d0 & Hs & safe & Ho & H). exists d0. split; [done|]. exists safe. auto. Qed.
Lemma ops_weaken c c' l n d d' : (c' = true -> c = true) -> ops c l n d d' -> ops c' l n d d'.
Proof.
  intros Hc (d1 & Hn & Hs). exists d1. split; [|done]. clear Hs.
  induction Hn as [|n x y z Ho _ IH]; [constructor|]. econstructor; [by eapply op_weaken|done].
Qed.
Lemma ops_one c l d d' : op c l d d' -> ops c l 1 d d'.
Proof. intros Ho. exists d'. split; [by apply nsteps_once|done]. Qed.
Lemma op_steps c l d d' : op c l d d' -> steps c d d'.
Proof.
  intros (d0 & Hs & safe & Ho & Hc). eapply rtc_l; [by apply step_batches|]. apply rtc_once.
  destruct c; [rewrite Hc in Ho by done; by eapply step_op|].
  destruct safe; [by eapply step_unsafe|by eapply step_op].
Qed.
Lemma ops_steps c l n d d' : ops c l n d d' -> steps c d d'.
Proof.
  intros (d1 & Hn & Hs). transitivity d1; [|by apply rtc_once, step_batches].
  clear Hs. induction Hn as [|n x y z Ho _ IH]; [constructor|]. etransitivity; [by eapply op_steps|done].
Qed.

Lemma ops_approvals c l n d d' : ops c l n d d' -> pending_approvals d' = pending_approvals d.
Proof.
  intros (d1 & Hn & ->). simpl. induction Hn as [|n x y z (d0 & Hs & safe & Ho & _) _ IH]; [done|].
  by rewrite IH, (op_done_approvals _ _ _ _ Ho), Hs.
Qed.

(** What a request that followed its contract did to the database. *)
Lemma submitted_ops E c l key (w : World) r w' :
  submitted E (request_done c l key) w r w' ->
  w_tx w' = TxNone /\ exists n, (n <= 1)%nat /\ ops c l n (w_db w) (w_db w') /\
    (loses E \/ is_ok r = true \/ n = 0%nat).
Proof.
  assert (H0 : untouched w w' -> w_tx w' = TxNone /\ exists n, (n <= 1)%nat /\ ops c l n (w_db w) (w_db w') /\
    (loses E \/ is_ok r = true \/ n = 0%nat)).
  { intros (Ht & Hs & _). split; [done|]. exists 0%nat. split; [lia|]. split; [by apply ops_refl|by auto]. }
  assert (H1 : forall a, applied (request_done c l key) w a w' -> w_tx w' = TxNone /\ ops c l 1 (w_db w) (w_db w')).
  { intros a (Ht & d0 & Hs & ikh & _ & Hd). split; [done|]. eapply ops_same; [done|]. apply ops_one.
    exists d0. split; [done|]. apply (it_op _ _ _ _ _ _ _ Hd). }
  intros [(a & -> & _ & Hn)|Ha]; [by apply H0|]. destruct r as [a|e].
  - destruct (H1 a Ha). split; [done|]. exists 1%nat. auto.
  - destruct Ha as [Hn|(_ & Hl & a & Ha)]; [by apply H0|]. destruct (H1 a Ha). split; [done|]. exists 1%nat. auto.
Qed.

Section Batches.
Context `{Deps}.

(** *** ALL_OR_NOTHING *)

Lemma fail_races e : races (fail e).
Proof. by split. Qed.
Lemma bind_now_races (f : Z -> M SubmitResult) : (forall now, races (f now)) -> races (let+ now := time_Now in f now).
Proof.
  intros Hf. split; [apply tx_ok_pbind; [apply tx_ok_now|apply Hf]|].
  intros t0 d. apply tl_bind, tl_now. intros now. apply Hf.
Qed.
Lemma fail_does c l key ikh ledger e : does c l key ikh ledger (fail e).
Proof. split; [apply fail_races|done]. Qed.

Lemma bind_now_does c l key ikh ledger (f : Z -> M SubmitResult) :
  (forall now, does c l key ikh ledger (f now)) -> does c l key ikh ledger (let+ now := time_Now in f now).
Proof.
  intros Hf. split; [apply bind_now_races; intros; apply Hf|]. intros t0 d Hl. apply txwp_pbind. intros now. by apply Hf.
Qed.

(** The ledger that is found may not be the one the database has at the commit. *)
Lemma with_ledger_does c l key ikh ledger (f : LedgerRecord -> M SubmitResult) :
  (forall r, races (f r)) -> does c l key ikh ledger (f ledger) -> does c l key ikh ledger (let* r := GetLedger Tx l in f r).
Proof.
  intros Hf Hd. split; [split|].
  - apply tx_ok_mbind; [tx_ok_store|intros; apply Hf].
  - intros t0 d. apply tl_mbind, tl_GetLedger; [|done]. intros r _. apply Hf.
  - intros t0 d Hl. apply txwp_mbind, tl_GetLedger; [|done]. intros r (dr & -> & Hr). rewrite Hl in Hr.
    injection Hr as <-. by apply Hd.
Qed.

Lemma intent_does l ledger intent :
  lr_ID ledger = l -> lr_State ledger <> ledgerStateSealed ->
  exists key, does (safe_intent intent) l key None ledger (executeIntentInTx l intent).
Proof.
  intros Hid Hs. unfold executeIntentInTx, safe_intent. cbv zeta.
  destruct (String.eqb_spec (bi_Type intent) "post") as [->|_].
  { exists (bi_IdempotencyKey intent). apply with_ledger_does; [intros r; apply bind_now_races; auto|].
    by apply bind_now_does; intros; apply post_does. }
  exists "".
  destruct (String.eqb_spec (bi_Type intent) "set_metadata") as [->|_].
  { apply bind_now_does. intros now. eapply metadata_does; [done| |auto|intros; apply doSetMetadataInTx_body]; by repeat constructor. }
  destruct (String.eqb_spec (bi_Type intent) "delete_metadata") as [->|_].
  { apply bind_now_does. intros now. eapply metadata_does; [done| |auto|intros; apply doDeleteMetadataInTx_body]; by repeat constructor. }
  destruct (String.eqb_spec (bi_Type intent) "authorize") as [->|_].
  { apply with_ledger_does; [intros r; apply bind_now_races; auto|].
    apply bind_now_does. intros now. by apply authorize_does. }
  destruct (String.eqb_spec (bi_Type intent) "capture") as [->|_].
  { apply bind_now_does. intros now. by apply capture_does. }
  destruct (String.eqb_spec (bi_Type intent) "void") as [->|_].
  { apply bind_now_does. intros now. by apply void_does. }
  destruct (String.eqb_spec (bi_Type intent) "revert") as [->|_].
  { apply bind_now_does. intros now. by apply revert_does. }
  destruct (String.eqb_spec (bi_Type intent) "amend") as [->|_].
  { apply bind_now_does. intros now. eapply metadata_does; [done| |auto|intros; apply doAmendInTx_body]; by repeat constructor. }
  destruct (String.eqb_spec (bi_Type intent) "convert") as [_|_]; [|apply fail_does].
  unfold executeConvertInTx. destruct (bi_ConvertParams intent) as [params|]; [|apply fail_does].
  apply with_ledger_does; [intros r; apply bind_now_races; auto|].
  apply bind_now_does. intros now. by apply convert_does.
Qed.

Lemma intent_races l intent : races (executeIntentInTx l intent).
Proof.
  destruct (intent_does l {| lr_ID := l; lr_BucketID := ""; lr_State := ""; lr_Features := ∅; lr_Metadata := None;
    lr_CreatedAt := 0; lr_SealedAt := None; lr_IssuerAccounts := [] |} intent) as (key & Hd & _); done.
Qed.
Lemma tx_ok_intent l intent : tx_ok (executeIntentInTx l intent).
Proof. apply intent_races. Qed.

Lemma tx_ok_batch l intents done : tx_ok (batch_in_tx l intents done).
Proof.
  revert done. induction intents as [|i rest IH]; intros acc; simpl; [done|].
  apply tx_ok_pbind; [apply tx_ok_intent|]. intros [r|e]; [apply IH|done].
Qed.

(** The results the loop hands over, whatever happens to the transaction. *)
Lemma wp_any {A} E (m : prog A) (w : World) (Q : A -> World -> Prop) : (forall a w', Q a w') -> wp E m w Q.
Proof. intros HQ. unfold wp. by destruct (run E m w). Qed.

Lemma batch_shape E l intents done (w : World) :
  wp E (batch_in_tx l intents done) w (fun x _ =>
    length (fst x) = (length done + length intents)%nat /\
    match snd x with
    | None => Forall (fun r => bir_Success r = true) done -> Forall (fun r => bir_Success r = true) (fst x)
    | Some (i, e) => Z.of_nat (length done) <= i < Z.of_nat (length done + length intents)
    end).
Proof.
  revert done w. induction intents as [|i rest IH]; intros acc w; simpl.
  - apply wp_ret. split; simpl; [lia|done].
  - apply wp_bind, wp_any. intros [r|e] w1.
    + eapply wp_mono; [apply IH|]. intros [results [[j e]|]] w2; rewrite length_app; simpl; (intros [H1 H2]; split; [lia|]).
      * lia.
      * intros Hacc. apply H2, Forall_app. split; [done|]. by repeat constructor.
    + apply wp_ret. cbn [fst snd]. rewrite length_app. simpl. rewrite length_map. lia.
Qed.

(** The loop executes one operation per intent. *)
Lemma batch_spec c l ledger t0 intents done d :
  lr_State ledger <> ledgerStateSealed -> find_ledger l d = Some ledger ->
  (c = true -> forallb safe_intent intents = true) ->
  txwp t0 (batch_in_tx l intents done) d (fun x d' => snd x = None -> ops c l (length intents) d d').
Proof.
  intros Hs. revert done d. induction intents as [|i rest IH]; intros acc d Hl Hc; simpl.
  - intros _. by apply ops_refl.
  - destruct (intent_does l ledger i) as (key & Hok & Hd); [by eapply find_ledger_id|done|].
    apply txwp_pbind. eapply txwp_mono; [by apply Hd|]. intros [r|e] d1 H1; simpl in *; [|done].
    destruct (it_op _ _ _ _ _ _ _ H1) as (safe & Ho & Hsafe).
    assert (Hc2 : c = true -> safe_intent i = true /\ forallb safe_intent rest = true) by (intros ?; by apply andb_prop, Hc).
    assert (Hl1 : find_ledger l d1 = Some ledger).
    { unfold find_ledger. by rewrite (op_done_ledgers _ _ _ _ Ho). }
    eapply txwp_mono; [by apply IH; [|naive_solver]|]. intros x d2 H2 Hx. change (S (length rest)) with (1 + length rest)%nat.
    eapply ops_trans; [|by apply H2]. apply ops_one. exists d. split; [done|]. exists safe. split; [done|naive_solver].
Qed.

(** The contract of ALL_OR_NOTHING. *)
Definition all_or_nothing (E : Env) (c : bool) (l : string) (n : nat) (w : World) (x : option BatchResult * option error)
    (w' : World) : Prop :=
  match x with
  | (Some b, None) => w_tx w' = TxNone /\ ops c l n (w_db w) (w_db w') /\ br_Successes b = Z.of_nat n /\
      br_Failures b = 0 /\ length (br_Results b) = n /\ Forall (fun r => bir_Success r = true) (br_Results b)
  | (Some b, Some e) => untouched w w' /\ br_Failed b = true /\ br_Error b = Some e /\ 0 <= br_FailedAt b < Z.of_nat n
  | (None, Some e) => untouched w w' \/
      (e = EWrap "committing batch" (EPg PgConn) /\ loses E /\ w_tx w' = TxNone /\ ops c l n (w_db w) (w_db w'))
  | (None, None) => False
  end.

Lemma all_or_nothing_spec E c l intents (w : World) :
  w_tx w = TxNone -> (c = true -> forallb safe_intent intents = true) ->
  wp E (SubmitBatch l intents "ALL_OR_NOTHING") w (all_or_nothing E c l (length intents) w).
Proof.
  intros Ht Hc. unfold SubmitBatch. apply wp_bind. eapply wp_mono; [by apply checkLedger_spec|].
  intros [ledger|e] w1 [Hi Hl]; [|left; by apply idle_untouched].
  destruct (Hl ledger eq_refl) as [Hf Hs]. cbn [String.eqb Ascii.eqb Bool.eqb].
  apply wp_bind, wp_wrap. unfold BeginTx, on_err. apply wp_bind, wp_trigger. simpl.
  pose proof (idle_untouched _ _ Hi) as Hu.
  destruct (e_fault E (w_tick w1)); simpl; [left; exact Hu|].
  set (w2 := tick _). destruct Hi as (Ht1 & Hd1 & Hm1).
  apply wp_bind, wp_bind.
  eapply wp_mono.
  { apply wp_and; [apply (batch_shape E l intents [] w2)|
      eapply (txwp_sound E _ w2 (e_now E (w_tick w1)) (w_db w1)); [apply tx_ok_batch|done|]].
    apply (batch_spec c l ledger); [done| |done]. by rewrite Hd1. }
  intros [results failed] w3 [[Hlen Hf3] [Hq Ho]]. assert (Hq0 : quiet w1 w3) by exact Hq. clear Hq. simpl in *.
  assert (Hend : forall w4, w_db w4 = w_db w3 -> messages (w_out w4) = messages (w_out w3) ->
    untouched w (tick (with_tx TxNone w4))).
  { intros w4 H4 H5. eapply untouched_trans; [exact Hu|]. destruct (quiet_closed _ _ Hq0) as (H6 & H7 & H8).
    split_and!; simpl in *; [done|by rewrite H4|by rewrite H5]. }
  destruct failed as [[i e]|].
  { apply wp_ret. split; [by apply Hend|]. split_and!; simpl; try done; try apply Hf3. }
  apply wp_bind, wp_trigger. simpl. unfold commit.
  destruct (w_tx w3) as [|t d|]; [done| |left; by apply (Hend (tick (with_tx TxNone w3)))].
  destruct Ho as [_ Ho]. specialize (Ho eq_refl). rewrite Hd1 in Ho.
  destruct (e_fault E (w_tick w3)) as [[]|] eqn:Ef; simpl; try (left; by apply (Hend (tick (with_tx TxNone w3)))).
  - right. split_and!; [done|by eexists|done|exact Ho].
  - split_and!; simpl; try done. by apply Hf3.
Qed.

(** *** BEST_EFFORT *)

Definition successes (rs : list BatchIntentResult) : nat := length (List.filter bir_Success rs).
Definition failures (rs : list BatchIntentResult) : nat := length (List.filter (fun r => negb (bir_Success r)) rs).

Lemma successes_failures rs : (successes rs + failures rs)%nat = length rs.
Proof. unfold successes, failures. induction rs as [|r rs IH]; simpl; [done|]. destruct (bir_Success r); simpl; lia. Qed.

Lemma best_effort_loop E c l intents (w : World) :
  w_tx w = TxNone -> (c = true -> forallb safe_intent intents = true) ->
  wp E (batch_best_effort l intents) w (fun rs w' =>
    w_tx w' = TxNone /\ length rs = length intents /\
    exists n, (n <= length intents)%nat /\ ops c l n (w_db w) (w_db w') /\ (loses E \/ (n <= successes rs)%nat)).
Proof.
  revert w. induction intents as [|i rest IH]; intros w Ht Hc; simpl.
  - apply wp_ret. split_and!; [done..|]. exists 0%nat. split; [lia|]. split; [by apply ops_refl|right; simpl; lia].
  - apply wp_bind. eapply wp_mono; [by apply (submission_submitted E (safe_intent i) l (bi_IdempotencyKey i)), Ht; apply executeIntent_submission|].
    assert (Hc2 : c = true -> safe_intent i = true /\ forallb safe_intent rest = true) by (intros ?; by apply andb_prop, Hc).
    intros r w1 H1. apply (submitted_ops E _ l) in H1 as (Ht1 & n & Hn & Ho & Hr).
    apply (ops_weaken _ c) in Ho; [|naive_solver].
    apply wp_bind. eapply wp_mono; [by apply IH; [|naive_solver]|]. intros rs w2 (Ht2 & Hlen & m & Hm & Hom & Hsm).
    apply wp_ret. split_and!; [done|simpl; lia|]. exists (n + m)%nat. split; [lia|].
    split; [by eapply ops_trans|]. destruct Hsm as [Hl|Hsm]; [by left|]. destruct Hr as [Hl|[Hr| ->]]; [by left|right..].
    + destruct r as [a|e]; [|done]. unfold successes in *. simpl. lia.
    + unfold successes in *. simpl. destruct (bir_Success _); simpl; lia.
Qed.

(** The contract of BEST_EFFORT. *)
Definition best_effort (E : Env) (c : bool) (l : string) (n : nat) (w : World) (x : option BatchResult * option error)
    (w' : World) : Prop :=
  match x with
  | (Some b, None) => w_tx w' = TxNone /\ length (br_Results b) = n /\
      br_Successes b = Z.of_nat (successes (br_Results b)) /\ br_Successes b + br_Failures b = Z.of_nat n /\
      exists k, (k <= n)%nat /\ ops c l k (w_db w) (w_db w') /\ (loses E \/ Z.of_nat k <= br_Successes b)
  | (None, Some e) => untouched w w'
  | _ => False
  end.

Lemma best_effort_spec E c l intents (w : World) :
  w_tx w = TxNone -> (c = true -> forallb safe_intent intents = true) -> wp E (SubmitBatch l intents "BEST_EFFORT") w (best_effort E c l (length intents) w).
Proof.
  intros Ht Hc. unfold SubmitBatch. apply wp_bind. eapply wp_mono; [by apply checkLedger_spec|].
  intros [ledger|e] w1 [Hi _]; [|by apply idle_untouched]. cbn [String.eqb Ascii.eqb Bool.eqb].
  apply wp_bind. eapply wp_mono; [by apply (best_effort_loop E c); [apply Hi|]|].
  intros rs w2 (Ht2 & Hlen & n & Hn & Ho & Hr). destruct Hi as (_ & Hd & _). rewrite Hd in Ho.
  apply wp_ret. split_and!; simpl; [done..| |].
  - rewrite <- Hlen, <- (successes_failures rs). unfold successes, failures. lia.
  - exists n. split_and!; [done|done|]. destruct Hr; [by left|right]. unfold successes in *. lia.
Qed.

(** Any other mode is refused. *)
Lemma batch_mode E l intents mode (w : World) :
  w_tx w = TxNone -> mode <> "ALL_OR_NOTHING" -> mode <> "BEST_EFFORT" ->
  wp E (SubmitBatch l intents mode) w (fun x w' => untouched w w' /\ exists e, x = (None, Some e)).
Proof.
  intros Ht H1 H2. unfold SubmitBatch. apply wp_bind. eapply wp_mono; [by apply checkLedger_spec|].
  intros [ledger|e] w1 [Hi%idle_untouched _]; [|split; [done|by eexists]].
  rewrite (proj2 (String.eqb_neq _ _) H1), (proj2 (String.eqb_neq _ _) H2). apply wp_ret. split; [done|by eexists].
Qed.

Lemma SubmitBatch_steps E c l intents mode (w : World) :
  w_tx w = TxNone -> (c = true -> forallb safe_intent intents = true) -> wp E (SubmitBatch l intents mode) w (fun _ w' => w_tx w' = TxNone /\ steps c (w_db w) (w_db w')).
Proof.
  intros Ht Hc. assert (Hn : forall w', untouched w w' -> w_tx w' = TxNone /\ steps c (w_db w) (w_db w')).
  { intros w' (H1 & H2 & _). split; [done|]. by apply rtc_once, step_batches. }
  destruct (String.eqb_spec mode "ALL_OR_NOTHING") as [->|H1]; [|destruct (String.eqb_spec mode "BEST_EFFORT") as [->|H2]].
  - eapply wp_mono; [by apply (all_or_nothing_spec E c)|]. intros [[b|] [e|]] w'; simpl; try done.
    + intros [Hu _]. auto.
    + intros (H1 & H2 & _). split; [done|]. by eapply ops_steps.
    + intros [Hu|(_ & _ & H1 & H2)]; [auto|]. split; [done|]. by eapply ops_steps.
  - eapply wp_mono; [by apply (best_effort_spec E c)|]. intros [[b|] [e|]] w'; simpl; try done; auto.
    intros (H2 & _ & _ & _ & k & _ & H3 & _). split; [done|]. by eapply ops_steps.
  - eapply wp_mono; [by apply batch_mode|]. intros x w' [Hu _]. auto.
Qed.
End Batches.
