(* ===== verification/Expiry.v ===== *)
(** * The expiry sweep and the denial events

    [ExpireHolds] ends: every pass it repeats has released a live hold. *)
From S2P Require Import Prelude GoStd Regex Accounts Assets Policy Sha256 Json Storage Db Prog.
From S2P Require Import Logic Postgres BatchManager Redis Chart Planner Cores Operations Bodies StoreRules.
From S2P Require Import Effects Ledger Requests Intents.

Lemma wp_mbind_assoc {A B C} E (m : M A) (f : A -> M B) (g : B -> M C) (w : World) Q :
  wp E (mbind (mbind m f) g) w Q -> wp E (mbind m (fun a => mbind (f a) g)) w Q.
Proof.
  unfold wp, mbind. rewrite !run_bind. destruct (run E m w) as [[a|e] w1]; [|done]. by rewrite run_bind.
Qed.

Section Expiry.
Context `{Deps}.

(** The end of a transaction: [work], the commit, then [after]. *)
Lemma tx_commit_spec {A B} E (P : A -> DB -> Prop) (work : M A) (after : A -> M B) (w : World) t0 d :
  w_tx w = TxOpen t0 d -> tx_ok work -> txwp t0 work d (on_ok P) ->
  (forall a w1, w_tx w1 = TxNone -> wp E (after a) w1 (fun r w2 => w_tx w2 = TxNone /\ w_db w2 = w_db w1 /\ is_ok r = true)) ->
  wp E (with_rollback (let* a := work in let* _ := TxCommit in after a)) w (fun r w' =>
    w_tx w' = TxNone /\
    ((untouched w w' /\ is_ok r = false) \/ ((exists a, P a (w_db w')) /\ (is_ok r = true \/ loses E)))).
Proof.
  intros Ht Hok Hw Hafter. unfold with_rollback. apply wp_bind, wp_mbind.
  eapply wp_mono; [by apply (txwp_sound E work w t0 d)|]. intros r w2 [Hq Ho].
  assert (Hq0 : quiet w w2) by exact Hq. clear Hq.
  assert (Hu : forall e, wp E (let+ _ := trigger Rollback in @fail B e) w2 (fun r w' =>
    w_tx w' = TxNone /\
    ((untouched w w' /\ is_ok r = false) \/ ((exists a, P a (w_db w')) /\ (is_ok r = true \/ loses E))))).
  { intros e. apply wp_rollback. split; [done|]. left. split; [by apply quiet_closed|done]. }
  destruct r as [a|e]; [|apply Hu]. apply wp_mbind, wp_trigger. simpl. unfold commit.
  assert (Hu2 : untouched w (tick (with_tx TxNone (tick (with_tx TxNone w2))))) by (by apply (quiet_closed w (tick (with_tx TxNone w2)))).
  destruct (w_tx w2) as [|t1 d1|]; [done| |].
  - destruct Ho as [_ Ho]. destruct (e_fault E (w_tick w2)) as [[]|] eqn:Ef; simpl.
    1,2: by apply wp_rollback; split; [done|left].
    + apply wp_rollback. split; [done|]. right. split; [by exists a|right; by eexists].
    + eapply wp_mono; [by apply Hafter|]. intros r w3 (H1 & H2 & H3). apply wp_rollback. split; [done|].
      right. split; [exists a; simpl; by rewrite H2|by left].
  - apply wp_rollback. split; [done|]. by left.
Qed.

(** Holds that are live. *)
Definition live (d : DB) : nat := length (List.filter hold_live (holds d)).

Lemma live_released l id f h d :
  f = void_hold \/ f = expire_hold -> live_hold l id h d ->
  (length (List.filter hold_live (update_hold l id f (holds d))) < live d)%nat.
Proof.
  intros Hf (Hfind & Hv & He). unfold live. apply List.find_some in Hfind as [Hin Hk].
  assert (Hdead : forall x, hold_live (f x) = false).
  { intros x. destruct Hf as [-> | ->]; unfold hold_live; simpl; [done|by rewrite andb_false_r]. }
  assert (Hle : forall t, (length (List.filter hold_live (update_hold l id f t)) <= length (List.filter hold_live t))%nat).
  { induction t as [|x t IH]; simpl; [lia|].
    destruct (hold_is l id x && hold_live x) eqn:E; simpl.
    - rewrite Hdead. apply andb_prop in E as [_ ->]. simpl. lia.
    - destruct (hold_live x); simpl; lia. }
  induction (holds d) as [|x t IH]; simpl; [done|]. destruct Hin as [->|Hin].
  - assert (Hl : hold_live h = true) by (unfold hold_live; by rewrite Hv, He). rewrite Hk, Hl. simpl.
    rewrite Hdead. specialize (Hle t). lia.
  - specialize (IH Hin). destruct (hold_is l id x && hold_live x) eqn:E; simpl.
    + rewrite Hdead. apply andb_prop in E as [_ ->]. simpl. lia.
    + destruct (hold_live x); simpl; lia.
Qed.

(** An expiry of the hold a record names. *)
Definition expired_by (h : HoldRecord) (d d' : DB) : Prop :=
  exists cur t0 ev, live_hold (ho_LedgerID h) (ho_HoldID h) cur d /\
    effect (ho_LedgerID h) "" None t0 EventTypeHoldExpired ev []
      (update_hold (ho_LedgerID h) (ho_HoldID h) expire_hold) Datatypes.id [] d d'.

Lemma expired_by_op h d d' : expired_by h d d' -> op_done (ho_LedgerID h) true d d'.
Proof. intros (cur & t0 & ev & Hl & He). eapply done_release; eauto. Qed.
Lemma expired_by_live h d d' : expired_by h d d' -> (live d' < live d)%nat.
Proof.
  intros (cur & t0 & ev & Hl & He). unfold live at 1. rewrite (ef_holds _ _ _ _ _ _ _ _ _ _ _ _ He).
  eapply live_released; eauto.
Qed.

Lemma expire_core_body {t0 W seen} `{!TxLogic t0 W seen} h now d :
  (exists cur, live_hold (ho_LedgerID h) (ho_HoldID h) cur d) ->
  W _ (let* (eventID, _) := appendEvent (ho_LedgerID h) EventTypeHoldExpired (Some (marshal (expire_payload h)))
                             EmptyString None now now in
           let* _ := ExpireHold Tx (ho_LedgerID h) (ho_HoldID h) in ok eventID) d (on_ok (fun _ => expired_by h d)).
Proof.
  intros [cur Hl]. apply tl_mbind, tl_appendEvent; [done|]. intros id batch b ev Hfresh Hpay.
  apply tl_mbind, tl_update_hold; [|done|done|].
  2: { intros x Hx E%(f_equal ho_Expired). unfold hold_live in Hx. simpl in E. rewrite <- E in Hx. by rewrite andb_false_r in Hx. }
  simpl. apply tl_ok.
  exists cur, t0, ev. split; [done|]. split; simpl; try done; [|by rewrite app_nil_r..].
  by eexists id, _, now, now, batch.
Qed.

Lemma wp_GetHold_tx E l id (w : World) t0 d :
  w_tx w = TxOpen t0 d ->
  wp E (GetHold Tx l id) w (fun r w' => quiet w w' /\
    forall h, r = Ok h -> find_hold l id d = Some h /\ w_tx w' = TxOpen t0 d).
Proof.
  intros Ht. unfold GetHold, query_locked, lock_rows, on_err, wp, mbind. repeat (rewrite ?run_bind; simpl).
  unfold sql_tx. rewrite Ht. destruct (e_fault E (w_tick w)); simpl; repeat (rewrite ?run_bind; simpl); [by split|].
  unfold sql_select_hold. destruct (find_hold l id d) as [h|] eqn:Eh; simpl; repeat (rewrite ?run_bind; simpl); [|by split].
  rewrite hold_of_row_id. split; [done|]. by intros x [= <-].
Qed.

(** What the expiry of one hold may do. *)
Definition expiry (h : HoldRecord) (w : World) (r : result unit) (w' : World) : Prop :=
  w_tx w' = TxNone /\
  ((untouched w w' /\ (is_ok r = true ->
      exists cur, find_hold (ho_LedgerID h) (ho_HoldID h) (w_db w) = Some cur /\ hold_live cur = false)) \/
   expired_by h (w_db w) (w_db w')).

(** One hold: nothing happened (and a success means it was already released), or it expired. *)
Lemma expireSingleHold_spec E h (w : World) :
  w_tx w = TxNone -> wp E (expireSingleHold h) w (expiry h w).
Proof.
  intros Ht. unfold expireSingleHold. apply wp_bind, wp_trigger. simpl. set (now := e_now E _).
  apply wp_mbind. unfold BeginTx, on_err. apply wp_bind, wp_trigger. simpl.
  destruct (e_fault E _); simpl; [split; [done|]; left; by split_and!|].
  set (w1 := tick _). assert (Ht1 : exists t0, w_tx w1 = TxOpen t0 (w_db w)) by (by eexists). destruct Ht1 as [t0 Ht1].
  assert (Hq1 : w_db w1 = w_db w /\ messages (w_out w1) = messages (w_out w)) by done. clearbody w1.
  unfold with_rollback. apply wp_bind, wp_mbind. eapply wp_mono; [by apply wp_GetHold_tx|].
  intros r w2 [Hq2 Hr]. assert (Hu2 : untouched w (tick (with_tx TxNone w2))).
  { apply quiet_closed in Hq2. destruct Hq2 as (? & ? & ?), Hq1 as [Hq1 Hq3]. rewrite Hq1, Hq3 in *. by split_and!. }
  destruct r as [cur|e]; [|apply wp_rollback; by split; [|left]].
  destruct (Hr cur eq_refl) as [Hc Ht2]. destruct (ho_Expired cur || ho_Voided cur) eqn:Ed.
  { apply wp_rollback. split; [done|]. left. split; [done|]. intros _. exists cur. split; [done|].
    unfold hold_live. rewrite orb_comm in Ed. by rewrite <- negb_orb, Ed. }
  apply orb_false_iff in Ed as [He Hv].
  set (work := let* (eventID, _) := appendEvent (ho_LedgerID h) EventTypeHoldExpired (Some (marshal (expire_payload h)))
                             EmptyString None now now in
               let* _ := ExpireHold Tx (ho_LedgerID h) (ho_HoldID h) in ok eventID).
  set (after := fun eventID => let+ _ := publishEvent (ho_LedgerID h) eventID EventTypeHoldExpired in ok tt).
  assert (Hs : wp E (with_rollback (let* id := work in let* _ := TxCommit in after id)) w2 (fun r w' => w_tx w' = TxNone /\
    ((untouched w2 w' /\ is_ok r = false) \/ ((exists _ : string, expired_by h (w_db w) (w_db w')) /\ (is_ok r = true \/ loses E))))).
  { apply (tx_commit_spec E (fun _ => expired_by h (w_db w)) work after w2 t0 (w_db w) Ht2).
    - unfold work. apply tx_ok_mbind; [apply tx_ok_appendEvent|intros []; tx_ok_store].
    - apply expire_core_body. by exists cur.
    - intros id w3 Ht3. unfold after. apply wp_bind. eapply wp_mono; [by apply wp_publishEvent|].
      intros [] w4 [H4 H5]. by apply wp_ret. }
  assert (Hrun : run E (mbind work (fun id => let* _ := TxCommit in after id)) w2 =
    run E (let* (eventID, _) := appendEvent (ho_LedgerID h) EventTypeHoldExpired (Some (marshal (expire_payload h)))
                             EmptyString None now now in
           let* _ := ExpireHold Tx (ho_LedgerID h) (ho_HoldID h) in
           let* _ := TxCommit in after eventID) w2).
  { unfold work, mbind. rewrite !run_bind. destruct (run E (appendEvent _ _ _ _ _ _ _) w2) as [[[id n]|e] w3]; [|done].
    rewrite !run_bind. by destruct (run E (ExpireHold _ _ _) w3) as [[[]|e] w4]. }
  unfold wp, with_rollback in *. rewrite run_bind, Hrun in Hs. revert Hs. fold after.
  destruct (run E (mbind (appendEvent _ _ _ _ _ _ _) _) w2) as [r w3]. intros Hs.
  destruct (run E _ w3) as [r' w4]. destruct Hs as [Ht4 Hs]. split; [done|].
  destruct Hs as [[Hu Hr4]|[[_ Ho] _]]; [|by right]. left. split; [|by rewrite Hr4].
  destruct Hq1 as [Hq1 Hq3], Hq2 as (Hq4 & _ & Hq5). rewrite Hq1 in Hq4. rewrite Hq3 in Hq5.
  destruct Hu as (_ & Hu1 & Hu2'). split_and!; [done|by etransitivity|congruence].
Qed.

(** *** The sweep: safe steps only, so [c] is arbitrary *)

Lemma safe_step c l d d' : op_done l true d d' -> step c d d'.
Proof. intros Ho. destruct c; [by eapply step_op|by eapply step_unsafe]. Qed.

Lemma find_hold_listed h d :
  ledger_inv d -> h ∈ holds d -> find_hold (ho_LedgerID h) (ho_HoldID h) d = Some h.
Proof.
  intros Hi Hin. unfold find_hold. destruct (List.find _ (holds d)) as [x|] eqn:Ef.
  - apply List.find_some in Ef as [Hx Hk]. f_equal. apply (NoDup_key_eq hold_key (holds d)); try done;
      [apply Hi|by apply list_elem_of_In|by apply hold_is_key].
  - apply list_elem_of_In in Hin. pose proof (List.find_none _ _ Ef h Hin) as Hn. simpl in Hn.
    unfold hold_is in Hn. by rewrite !String.eqb_refl in Hn.
Qed.

Lemma expiry_steps c h w r w' : expiry h w r w' -> steps c (w_db w) (w_db w') /\ (live (w_db w') <= live (w_db w))%nat.
Proof.
  intros [_ [[(_ & Hs & _) _]|He]].
  - split; [by apply rtc_once, step_batches|]. unfold live. rewrite Hs. simpl. lia.
  - split; [|apply expired_by_live in He; lia]. apply rtc_once. by eapply safe_step, expired_by_op.
Qed.

(** The loop over a page listed from [d0]: it releases a hold as soon as it counts one. *)
Definition progress_from (d0 d : DB) : Prop := holds d = holds d0 \/ (live d < live d0)%nat.

Lemma expiry_progress d0 h w r w' :
  ledger_inv d0 -> h ∈ holds d0 -> hold_live h = true -> progress_from d0 (w_db w) -> expiry h w r w' ->
  progress_from d0 (w_db w') /\ (is_ok r = true -> (live (w_db w') < live d0)%nat).
Proof.
  intros Hi Hin Hl Hp He. pose proof (expiry_steps true _ _ _ _ He) as [_ Hle].
  destruct Hp as [Hp|Hp]; [|by split; [right|]; intros; lia].
  assert (Hlive : live (w_db w) = live d0) by (unfold live; by rewrite Hp).
  destruct He as [_ [[(_ & Hs & _) Hr]|He]].
  - split; [left; by rewrite Hs|]. intros Hok. destruct (Hr Hok) as (cur & Hf & Hd).
    unfold find_hold in Hf. rewrite Hp in Hf. pose proof (find_hold_listed h d0 Hi Hin) as Hf0.
    unfold find_hold in Hf0. rewrite Hf0 in Hf. injection Hf as <-. congruence.
  - apply expired_by_live in He. split; [right|]; intros; lia.
Qed.

Lemma expire_page_steps E c hs (w : World) :
  w_tx w = TxNone -> wp E (expire_page hs) w (fun _ w' => w_tx w' = TxNone /\
    steps c (w_db w) (w_db w') /\ (live (w_db w') <= live (w_db w))%nat).
Proof.
  revert w. induction hs as [|h hs IH]; intros w Ht; simpl; [by apply wp_ret|].
  apply wp_bind. eapply wp_mono; [by apply expireSingleHold_spec|]. intros r w1 He.
  pose proof (expiry_steps c _ _ _ _ He) as [Hs1 Hl1]. destruct He as [Ht1 _].
  apply wp_bind. eapply wp_mono; [by apply IH|]. intros n w2 (Ht2 & Hs2 & Hl2).
  apply wp_ret. split_and!; [done|by etransitivity|lia].
Qed.

Lemma expire_page_spec E d0 hs (w : World) :
  ledger_inv d0 -> Forall (fun h => h ∈ holds d0 /\ hold_live h = true) hs ->
  w_tx w = TxNone -> progress_from d0 (w_db w) ->
  wp E (expire_page hs) w (fun n w' =>
    progress_from d0 (w_db w') /\ 0 <= n /\ (0 < n -> (live (w_db w') < live d0)%nat)).
Proof.
  intros Hi Hhs. revert w. induction Hhs as [|h hs [Hin Hl] _ IH]; intros w Ht Hp; simpl.
  - apply wp_ret. split_and!; try done; lia.
  - apply wp_bind. eapply wp_mono; [by apply expireSingleHold_spec|]. intros r w1 He.
    pose proof (expiry_progress d0 h w r w1 Hi Hin Hl Hp He) as [Hp1 Hr]. destruct He as [Ht1 _].
    apply wp_bind. eapply wp_mono; [by apply wp_and; [by apply IH|by apply (expire_page_steps E true hs)]|].
    intros n w2 [(Hp2 & Hn & Hn2) (_ & _ & Hle)]. apply wp_ret.
    split_and!; [done|destruct (is_ok r); lia|].
    destruct (is_ok r); [|intros; apply Hn2; lia]. intros _. specialize (Hr eq_refl). lia.
Qed.

Lemma scan_holds hs : scan_rows hold_of_row hs = Ok hs.
Proof. induction hs as [|h hs IH]; simpl; [done|]. by rewrite hold_of_row_id, IH. Qed.

(** A page holds live holds of the database. *)
Lemma ListExpiredHolds_spec E (w : World) :
  w_tx w = TxNone -> wp E (ListExpiredHolds Pool) w (fun r w' => idle w w' /\
    forall hs, r = Ok hs -> Forall (fun h => h ∈ holds (w_db w) /\ hold_live h = true) hs).
Proof.
  intros Ht. apply wp_and.
  { apply reads_idle; [|done]. apply reads_mbind; [|done]. split; [|done]. intros now d a d'. unfold sql_expired_holds. congruence. }
  unfold ListExpiredHolds. apply wp_mbind, wp_trigger. simpl. unfold sql_pool, sql_expired_holds.
  assert (Hp : forall now hs, Ok (limit 1000 (order_by ho_ExpiresAt (List.filter (hold_due now) (holds (w_db w))))) = Ok hs ->
    Forall (fun h => h ∈ holds (w_db w) /\ hold_live h = true) hs).
  { intros now hs [= <-]. apply Forall_forall. intros h Hh. unfold limit in Hh.
    apply (subseteq_take _ _ h) in Hh. unfold order_by in Hh. rewrite merge_sort_Permutation in Hh.
    apply list_elem_of_In, List.filter_In in Hh as [Hin Hd]. split; [by apply list_elem_of_In|].
    unfold hold_due in Hd. by apply andb_prop in Hd as [[_ ?]%andb_prop _]. }
  destruct (e_fault E (w_tick w)) as [[]|]; simpl; try done.
  unfold lift. apply wp_ret. rewrite scan_holds. apply Hp.
Qed.

(** The sweep refines the ledger's steps, whatever fuel it is given; and more passes
    than there are live holds are enough, whatever fails. *)
Lemma ExpireHolds_steps E c fuel (w : World) :
  w_tx w = TxNone -> wp E (ExpireHolds fuel) w (fun _ w' => w_tx w' = TxNone /\ steps c (w_db w) (w_db w')).
Proof.
  revert w. induction fuel as [|fuel IH]; intros w Ht; simpl; [by apply wp_ret|].
  apply wp_bind. eapply wp_mono; [by apply ListExpiredHolds_spec|]. intros [hs|e] w1 [(Ht1 & Hd1 & _) _].
  2:{ apply wp_ret. by rewrite Hd1. }
  case_bool_decide; [apply wp_ret; by rewrite Hd1|].
  apply wp_bind. eapply wp_mono; [by apply (expire_page_steps E c)|]. intros n w2 (Ht2 & Hs2 & _). rewrite Hd1 in Hs2.
  destruct (n =? 0); [by apply wp_ret|]. destruct (_ <? expiredHoldsBatchSize); [by apply wp_ret|].
  eapply wp_mono; [by apply IH|]. intros r w3 [Ht3 Hs3]. split; [done|by etransitivity].
Qed.

Lemma ExpireHolds_ends E fuel (w : World) :
  w_tx w = TxNone -> ledger_inv (w_db w) -> (live (w_db w) < fuel)%nat ->
  wp E (ExpireHolds fuel) w (fun r _ => r <> None).
Proof.
  revert w. induction fuel as [|fuel IH]; intros w Ht Hi Hf; simpl; [lia|].
  apply wp_bind. eapply wp_mono; [by apply ListExpiredHolds_spec|]. intros [hs|e] w1 [(Ht1 & Hd1 & _) Hhs]; [|done].
  case_bool_decide; [done|]. apply wp_bind. eapply wp_mono.
  { apply wp_and; [apply (expire_page_spec E (w_db w) hs); auto|by apply (expire_page_steps E true hs)]. by left; rewrite Hd1. }
  intros n w2 [(_ & Hn & Hlt) (Ht2 & Hs2 & _)]. rewrite Hd1 in Hs2.
  destruct (n =? 0) eqn:En; [done|]. apply Z.eqb_neq in En. destruct (_ <? expiredHoldsBatchSize); [done|].
  apply IH; [done|by eapply steps_inv|]. specialize (Hlt ltac:(lia)). lia.
Qed.

(** ** The denial of a policy is an event of its own *)

Lemma wp_commit_last {A} E (work : M A) (w : World) Q :
  wp E (with_rollback (let* a := work in let* _ := TxCommit in ok tt)) w Q ->
  wp E (with_rollback (let* _ := work in TxCommit)) w Q.
Proof.
  unfold wp, with_rollback, mbind. rewrite !run_bind. destruct (run E work w) as [[a|e] w1]; simpl; [|done].
  by destruct (commit _ w1) as [[[]|e] w2].
Qed.

Lemma denial_body {t0 W seen} `{!TxLogic t0 W seen} l payload now d :
  W _ (appendEvent l EventTypePolicyDenied payload EmptyString None now now) d
    (on_ok (fun x d' => metadata_done t0 EventTypePolicyDenied l "" None (fun _ => []) d (event_result (fst x)) d')).
Proof.
  apply tl_appendEvent; [done|]. intros id batch b ev Hfresh Hpay.
  exists ev, EmptyString, (fun j => j). split; [|done].
  split; simpl; try done; [|by rewrite app_nil_r..|by rewrite update_tx_metadata_id|by rewrite app_nil_r].
  by eexists id, _, now, now, batch.
Qed.

(** The denial was recorded, or nothing happened. *)
Lemma writePolicyDenialEvent_spec E l principal reason (w : World) :
  w_tx w = TxNone -> wp E (WritePolicyDenialEvent l principal reason) w (fun r w' => w_tx w' = TxNone /\
    ((untouched w w' /\ is_ok r = false) \/
     ((exists t0 x, metadata_done t0 EventTypePolicyDenied l "" None (fun _ => []) (w_db w) x (w_db w')) /\
      (is_ok r = true \/ loses E)))).
Proof.
  intros Ht. unfold WritePolicyDenialEvent, writePolicyDenialEvent. apply wp_bind, wp_trigger. simpl.
  set (now := e_now E _). apply wp_mbind. unfold BeginTx, on_err. apply wp_bind, wp_trigger. simpl.
  destruct (e_fault E _); simpl; [split; [done|]; left; by split_and!|].
  set (w1 := tick _). assert (Ht1 : exists t0, w_tx w1 = TxOpen t0 (w_db w)) by (by eexists). destruct Ht1 as [t0 Ht1].
  assert (Hq1 : w_db w1 = w_db w /\ messages (w_out w1) = messages (w_out w)) by done. clearbody w1.
  pose proof (tx_commit_spec E (fun x => metadata_done t0 EventTypePolicyDenied l "" None (fun _ => []) (w_db w) (event_result (fst x)))
    (appendEvent l EventTypePolicyDenied (Some (marshal (json_of_strings [("principal", principal); ("reason", reason)])))
       EmptyString None now now) (fun _ => ok tt) w1 t0 (w_db w) Ht1 (tx_ok_appendEvent _ _ _ _ _ _ _)
    (denial_body _ _ _ _) (fun _ _ Ht => conj Ht (conj eq_refl eq_refl))) as Hs.
  apply wp_commit_last. eapply wp_mono; [exact Hs|]. destruct Hq1 as [Hq1 Hq3].
  intros r w' [Ht' [[(_ & Hu1 & Hu2) Hr]|[[a Ha] Hr]]]; (split; [done|]).
  - left. split; [|done]. split_and!; [done|by rewrite <- Hq1|congruence].
  - right. split; [eauto|done].
Qed.
End Expiry.
