(* ===== verification/Checkpoint.v ===== *)
(** * internal/projection/volumes/checkpoint.go: roll-ups of the volume deltas

    A checkpoint row holds the totals of the deltas of a bucket (ledger, account, asset,
    shard) up to a valid time and a system time. [BuildCheckpoints] sums the deltas no
    checkpoint covers, for the buckets with more than 100 of them, and writes one row
    each. What the checkpoints of a bucket count and what they do not cover always add up
    to the same totals, whatever statement fails. *)
From S2P Require Import Prelude GoStd Json Storage Db Prog Logic Postgres Requests.

(** ** The statements *)

Definition bucket : Type := string * string * string * Z.
Definition delta_bucket (r : VolumeDeltaRecord) : bucket := (vd_LedgerID r, vd_Account r, vd_Asset r, vd_Shard r).
Definition cp_bucket (c : checkpoint_row) : bucket := (cp_LedgerID c, cp_Account c, cp_Asset c, cp_Shard c).

(** The condition of the join, and the deltas no row joins with. *)
Definition covers (c : checkpoint_row) (r : VolumeDeltaRecord) : bool :=
  bool_decide (delta_bucket r = cp_bucket c) && (vd_ValidTime r <=? cp_ValidTimeUpper c) &&
  (vd_SystemTime r <=? cp_SystemTimeUpper c).
Definition uncheckpointed (cs : list checkpoint_row) (ds : list VolumeDeltaRecord) : list VolumeDeltaRecord :=
  List.filter (fun r => negb (existsb (fun c => covers c r) cs)) ds.

(** The maximum over a group, which has a row. *)
Fixpoint maximum (l : list Z) : Z :=
  match l with
  | [] => 0
  | [x] => x
  | x :: l' => Z.max x (maximum l')
  end.
Definition text_max (x y : string) : string := if string_lt x y then y else x.

Record group_row := {
  gr_bucket : bucket;
  gr_count : Z;
  gr_total_input : string;
  gr_total_output : string;
  gr_max_valid_time : Z;
  gr_max_system_time : Z;
  gr_last_event_id : string
}.

Definition in_bucket (b : bucket) (rs : list VolumeDeltaRecord) : list VolumeDeltaRecord :=
  List.filter (fun r => bool_decide (delta_bucket r = b)) rs.
Definition group_of (rs : list VolumeDeltaRecord) (b : bucket) : group_row :=
  let g := in_bucket b rs in
  {| gr_bucket := b;
     gr_count := Z.of_nat (length g);
     gr_total_input := dec_of_Z (sum_by vd_InputDelta g);
     gr_total_output := dec_of_Z (sum_by vd_OutputDelta g);
     gr_max_valid_time := maximum (map vd_ValidTime g);
     gr_max_system_time := maximum (map vd_SystemTime g);
     gr_last_event_id := fold_right text_max EmptyString (map vd_EventID g) |}.

(** The groups with more than 100 rows. The query has no ORDER BY: which 1000 of them it
    returns, and in which order, is PostgreSQL's choice (below). *)
Definition open_rows (d : DB) : list VolumeDeltaRecord := uncheckpointed (volumes_checkpoint d) (volumes_delta d).
Definition groups (d : DB) : list group_row :=
  List.filter (fun g => 100 <? gr_count g) (map (group_of (open_rows d)) (remove_dups (map delta_bucket (open_rows d)))).
Definition sql_uncheckpointed : stmt (list group_row) := fun _ d => inr (groups d, d).

Definition same_checkpoint (c x : checkpoint_row) : bool :=
  bool_decide (cp_bucket c = cp_bucket x) && (cp_ValidTimeUpper c =? cp_ValidTimeUpper x) &&
  (cp_SystemTimeUpper c =? cp_SystemTimeUpper x).
Definition with_totals (c x : checkpoint_row) : checkpoint_row :=
  {| cp_LedgerID := cp_LedgerID x; cp_Account := cp_Account x; cp_Asset := cp_Asset x; cp_Shard := cp_Shard x;
     cp_ValidTimeUpper := cp_ValidTimeUpper x; cp_SystemTimeUpper := cp_SystemTimeUpper x;
     cp_TotalInput := cp_TotalInput c; cp_TotalOutput := cp_TotalOutput c; cp_LastEventID := cp_LastEventID c |}.
Definition sql_upsert_checkpoint (c : checkpoint_row) : stmt unit := fun _ d =>
  let t := volumes_checkpoint d in
  inr (tt, set_volumes_checkpoint
             (if existsb (same_checkpoint c) t then snd (update_rows (same_checkpoint c) (with_totals c) t) else t ++ [c]) d).

(** ** The builder *)

Definition checkpoint_of (g : group_row) (totalInput totalOutput : Z) : checkpoint_row :=
  let '(ledgerID, account, asset, shard) := gr_bucket g in
  {| cp_LedgerID := ledgerID; cp_Account := account; cp_Asset := asset; cp_Shard := shard;
     cp_ValidTimeUpper := gr_max_valid_time g; cp_SystemTimeUpper := gr_max_system_time g;
     cp_TotalInput := totalInput; cp_TotalOutput := totalOutput; cp_LastEventID := gr_last_event_id g |}.

Fixpoint build_rows (rows : list group_row) (built failed : Z) : M (Z * Z) :=
  match rows with
  | [] => ok (built, failed)
  | g :: rest =>
      match Z_of_dec (gr_total_input g) with
      | None => fail (EMsg "parsing total_input: invalid integer")
      | Some totalInput =>
          match Z_of_dec (gr_total_output g) with
          | None => fail (EMsg "parsing total_output: invalid integer")
          | Some totalOutput =>
              let+ r := exec Pool (sql_upsert_checkpoint (checkpoint_of g totalInput totalOutput)) in
              match r with
              | Err _ => build_rows rest built (failed + 1)
              | Ok _ => build_rows rest (built + 1) failed
              end
          end
      end
  end.

Definition BuildCheckpoints : M unit :=
  let* groups := wrap "querying uncheckpointed volumes" (exec Pool sql_uncheckpointed) in
  let+ rows := trigger (Range groups) in
  let* r := build_rows (limit 1000 rows) 0 0 in
  if 0 <? snd r then fail (EMsg "failed to write checkpoints") else ok tt.

(** ** What the roll-ups preserve *)

(** The totals of a bucket: what its checkpoints count, and the deltas they leave open. *)
Definition counted (fc : checkpoint_row -> Z) (b : bucket) (cs : list checkpoint_row) : Z :=
  sum_by (fun c => if bool_decide (cp_bucket c = b) then fc c else 0) cs.
Definition open_sum (fd : VolumeDeltaRecord -> Z) (b : bucket) (cs : list checkpoint_row) (ds : list VolumeDeltaRecord) : Z :=
  sum_by fd (in_bucket b (uncheckpointed cs ds)).
Definition rolled_input (b : bucket) (d : DB) : Z :=
  counted cp_TotalInput b (volumes_checkpoint d) + open_sum vd_InputDelta b (volumes_checkpoint d) (volumes_delta d).
Definition rolled_output (b : bucket) (d : DB) : Z :=
  counted cp_TotalOutput b (volumes_checkpoint d) + open_sum vd_OutputDelta b (volumes_checkpoint d) (volumes_delta d).

Lemma maximum_ge l x : x ∈ l -> x <= maximum l.
Proof.
  induction l as [|y l IH]; [by intros ?%not_elem_of_nil|]. intros [->|Hx]%elem_of_cons; destruct l as [|z l]; simpl in *; try lia.
  - by apply not_elem_of_nil in Hx.
  - specialize (IH Hx). lia.
Qed.

Lemma filter_filter {A} (p q : A -> bool) l : List.filter p (List.filter q l) = List.filter (fun x => q x && p x) l.
Proof. induction l as [|x l IH]; simpl; [done|]. destruct (q x); simpl; [|done]. by destruct (p x); rewrite IH. Qed.
Lemma filter_nil {A} (p : A -> bool) l : (forall x, In x l -> p x = false) -> List.filter p l = [].
Proof. induction l as [|x l IH]; simpl; intros H; [done|]. rewrite H by auto. apply IH. auto. Qed.

Lemma uncheckpointed_snoc cs c ds :
  uncheckpointed (cs ++ [c]) ds = List.filter (fun r => negb (covers c r)) (uncheckpointed cs ds).
Proof.
  unfold uncheckpointed. rewrite filter_filter. apply List.filter_ext. intros r. rewrite existsb_app. simpl.
  by rewrite orb_false_r, negb_orb.
Qed.

Section Roll.
Context (ds : list VolumeDeltaRecord) (cs : list checkpoint_row) (b : bucket) (i o : Z).
Local Abbreviation rs := (uncheckpointed cs ds).
Local Abbreviation new := (checkpoint_of (group_of rs b) i o).

Lemma new_bucket : cp_bucket new = b.
Proof. unfold checkpoint_of. simpl. by destruct b as [[[]]]. Qed.
Lemma new_uppers :
  cp_ValidTimeUpper new = maximum (map vd_ValidTime (in_bucket b rs)) /\
  cp_SystemTimeUpper new = maximum (map vd_SystemTime (in_bucket b rs)).
Proof. unfold checkpoint_of. simpl. by destruct b as [[[]]]. Qed.

(** The new row covers every open delta of its bucket. *)
Lemma new_covers r : In r (in_bucket b rs) -> covers new r = true.
Proof.
  intros Hr. unfold covers. rewrite new_bucket, (proj1 new_uppers), (proj2 new_uppers).
  assert (Hb : delta_bucket r = b) by (apply List.filter_In in Hr as [_ Hr]; by apply bool_decide_eq_true in Hr).
  rewrite bool_decide_eq_true_2 by done. simpl. apply andb_true_intro. apply list_elem_of_In in Hr.
  split; apply Z.leb_le, maximum_ge; by apply list_elem_of_fmap_2.
Qed.

(** No row has its key, as that row would cover the open deltas too. *)
Lemma new_fresh : in_bucket b rs <> [] -> existsb (same_checkpoint new) cs = false.
Proof.
  intros Hne. apply Bool.not_true_iff_false. intros (x & Hx & Hsame)%existsb_exists.
  destruct (in_bucket b rs) as [|r l] eqn:E; [done|]. assert (Hr : In r (in_bucket b rs)) by (rewrite E; by left).
  pose proof (new_covers r Hr) as Hc. apply List.filter_In in Hr as [Hr _]. apply List.filter_In in Hr as [_ Hr].
  apply negb_true_iff in Hr. pose proof (existsb_exists (fun c => covers c r) cs) as [_ Hex]. rewrite Hex in Hr; [done|].
  exists x. split; [done|]. unfold same_checkpoint, covers in *. bool_to_prop.
  apply andb_true_intro; split; [apply andb_true_intro; split|].
  - apply bool_decide_eq_true. congruence.
  - apply Z.leb_le. lia.
  - apply Z.leb_le. lia.
Qed.

Lemma open_after b' :
  in_bucket b' (uncheckpointed (cs ++ [new]) ds) = if bool_decide (b' = b) then [] else in_bucket b' rs.
Proof.
  rewrite uncheckpointed_snoc. unfold in_bucket at 1. rewrite filter_filter. case_bool_decide as Hb.
  - subst b'. apply filter_nil. intros r Hr. case_bool_decide as Hk; [|by rewrite andb_false_r].
    rewrite new_covers; [done|]. apply List.filter_In. split; [done|]. by apply bool_decide_eq_true.
  - unfold in_bucket. apply List.filter_ext_in. intros r _. destruct (bool_decide (delta_bucket r = b')) eqn:E; [|by rewrite andb_false_r].
    apply bool_decide_eq_true in E. rewrite andb_true_r. apply negb_true_iff. unfold covers. rewrite new_bucket.
    rewrite bool_decide_eq_false_2; [done|congruence].
Qed.

Lemma counted_after fc b' :
  counted fc b' (cs ++ [new]) = counted fc b' cs + (if bool_decide (b' = b) then fc new else 0).
Proof.
  unfold counted. rewrite sum_by_app. simpl. rewrite new_bucket, Z.add_0_r. by repeat case_bool_decide; subst.
Qed.
End Roll.

Lemma new_totals rs b i o :
  cp_TotalInput (checkpoint_of (group_of rs b) i o) = i /\ cp_TotalOutput (checkpoint_of (group_of rs b) i o) = o.
Proof. unfold checkpoint_of. simpl. by destruct b as [[[]]]. Qed.

(** Two databases that differ (batches aside) in checkpoints which roll up to the same. *)
Definition rolled (d d' : DB) : Prop :=
  same_but_batches (set_volumes_checkpoint (volumes_checkpoint d') d) d' /\
  forall b, rolled_input b d' = rolled_input b d /\ rolled_output b d' = rolled_output b d.

Lemma rolled_same d d' : same_but_batches d d' -> rolled d d'.
Proof. intros ->. split; [by destruct d|done]. Qed.
Lemma rolled_refl d : rolled d d.
Proof. by apply rolled_same. Qed.
Lemma rolled_trans d1 d2 d3 : rolled d1 d2 -> rolled d2 d3 -> rolled d1 d3.
Proof.
  intros [E1 H1] [E2 H2]. split.
  - unfold same_but_batches in *. rewrite E2, E1. reflexivity.
  - intros b. by rewrite (proj1 (H2 b)), (proj2 (H2 b)), (proj1 (H1 b)), (proj2 (H1 b)).
Qed.

(** One row: the bucket has no open delta any more, the others are as they were. *)
Lemma upsert_rolled d b now d' :
  let rs := uncheckpointed (volumes_checkpoint d) (volumes_delta d) in
  in_bucket b rs <> [] ->
  sql_upsert_checkpoint (checkpoint_of (group_of rs b) (sum_by vd_InputDelta (in_bucket b rs)) (sum_by vd_OutputDelta (in_bucket b rs)))
    now d = inr (tt, d') ->
  rolled d d' /\ forall b', in_bucket b' (uncheckpointed (volumes_checkpoint d') (volumes_delta d')) =
                   if bool_decide (b' = b) then [] else in_bucket b' rs.
Proof.
  intros rs Hne. subst rs. unfold sql_upsert_checkpoint. rewrite new_fresh by done. intros [= <-]. simpl.
  split; [|intros b'; apply open_after]. split; [done|]. intros b'.
  unfold rolled_input, rolled_output, open_sum. simpl. rewrite !open_after, !counted_after.
  rewrite (proj1 (new_totals _ _ _ _)), (proj2 (new_totals _ _ _ _)).
  case_bool_decide as Hb; [subst b'; simpl; lia|]. lia.
Qed.

(** ** The builder preserves them *)

(** The rows the builder was given are groups of the database. *)
Definition pending_groups (d : DB) (gs : list group_row) : Prop :=
  NoDup (map gr_bucket gs) /\
  Forall (fun g => g = group_of (open_rows d) (gr_bucket g) /\ in_bucket (gr_bucket g) (open_rows d) <> []) gs.

Lemma group_of_ext rs rs' b : in_bucket b rs = in_bucket b rs' -> group_of rs b = group_of rs' b.
Proof. unfold group_of. by intros ->. Qed.

(** [d'] rolls up to the same, and the buckets of [gs] have no open delta if [all]. *)
Definition built_on (d d' : DB) (gs : list group_row) (all : bool) : Prop :=
  rolled d d' /\
  (forall b, in_bucket b (open_rows d') = in_bucket b (open_rows d) \/ in_bucket b (open_rows d') = []) /\
  (all = true -> forall g, g ∈ gs -> in_bucket (gr_bucket g) (open_rows d') = []).

Lemma build_rows_spec E gs built failed (w : World) :
  w_tx w = TxNone -> pending_groups (w_db w) gs ->
  wp E (build_rows gs built failed) w (fun r w' => w_tx w' = TxNone /\
    exists built' failed', r = Ok (built', failed') /\ failed <= failed' /\
      built_on (w_db w) (w_db w') gs (failed' =? failed)).
Proof.
  revert w built failed. induction gs as [|g gs IH]; intros w built failed Ht [Hnd Hall]; cbn [build_rows].
  { apply wp_ret. split; [done|]. exists built, failed. split_and!; [done|lia|]. split_and!; [apply rolled_refl|by left|].
    by intros _ g ?%not_elem_of_nil. }
  cbn [map] in Hnd. apply NoDup_cons in Hnd as [Hng Hnd]. apply Forall_cons in Hall as [[Hg Hne] Hall].
  set (rs := open_rows (w_db w)) in *. rewrite Hg. cbn [gr_total_input gr_total_output group_of].
  rewrite !Z_of_dec_of_Z. rewrite <- Hg. apply wp_bind. eapply wp_mono; [by apply wp_exec_pool|].
  intros r w1 Hr. assert (Hstep : w_tx w1 = TxNone /\ rolled (w_db w) (w_db w1) /\
    (is_ok r = true -> in_bucket (gr_bucket g) (open_rows (w_db w1)) = []) /\
    forall b, in_bucket b (open_rows (w_db w1)) = in_bucket b rs \/
              (b = gr_bucket g /\ in_bucket b (open_rows (w_db w1)) = [])).
  { destruct Hr as [[Hu Hf]|(Ht1 & now & [] & Hs & _)].
    - destruct Hu as (H1 & H2 & _). split_and!; [done|by apply rolled_same|by rewrite Hf|].
      rewrite H2. by left.
    - rewrite Hg in Hs. apply upsert_rolled in Hs as [Hro Hop]; [|exact Hne]. split_and!; [done|exact Hro| |].
      + intros _. unfold open_rows. rewrite Hop. by rewrite bool_decide_eq_true_2.
      + intros b. unfold open_rows. rewrite Hop. case_bool_decide; [by right|by left]. }
  destruct Hstep as (Ht1 & Hro & Hdone & Hop).
  assert (Hp : pending_groups (w_db w1) gs).
  { split; [done|]. rewrite Forall_forall in *. intros x Hx. destruct (Hall x Hx) as [Hx1 Hx2].
    destruct (Hop (gr_bucket x)) as [He|[Hb _]].
    - split; [|by rewrite He]. rewrite Hx1 at 1. by apply group_of_ext.
    - exfalso. apply Hng. rewrite <- Hb. by apply list_elem_of_fmap_2. }
  assert (Hback : forall b, in_bucket b (open_rows (w_db w1)) = in_bucket b rs \/ in_bucket b (open_rows (w_db w1)) = [])
    by (intros b; destruct (Hop b) as [|[_ ?]]; auto).
  assert (Hend : forall d' (all all' : bool), built_on (w_db w1) d' gs all -> (all' = true -> all = true /\ is_ok r = true) ->
    built_on (w_db w) d' (g :: gs) all').
  { intros d' all all' (H1 & H2 & H3) Hc. split_and!; [by eapply rolled_trans| |].
    - intros b. destruct (H2 b) as [->|]; [apply Hback|by right].
    - intros Ha x Hx. destruct (Hc Ha) as [-> Hok]. apply elem_of_cons in Hx as [->|Hx]; [|by apply H3].
      destruct (H2 (gr_bucket g)) as [->|]; [by apply Hdone|done]. }
  destruct r as [[]|e]; (eapply wp_mono; [by apply IH|]); intros r w2 (Ht2 & b2 & f2 & -> & Hle & Hb2);
    (split; [done|]); exists b2, f2; (split_and!; [done|lia|]).
  - eapply Hend; [exact Hb2|]. done.
  - eapply Hend; [exact Hb2|]. intros ?%Z.eqb_eq. lia.
Qed.

Lemma NoDup_map_filter {A B} (f : A -> B) (p : A -> bool) l : NoDup (map f l) -> NoDup (map f (List.filter p l)).
Proof.
  induction l as [|x l IH]; simpl; [done|]. intros [Hx Hl]%NoDup_cons. destruct (p x); [|by apply IH].
  simpl. apply NoDup_cons. split; [|by apply IH]. intros (y & Hy & Hin)%list_elem_of_fmap.
  apply Hx. rewrite Hy. apply list_elem_of_fmap_2. by apply list_elem_of_In, List.filter_In, proj1, list_elem_of_In in Hin.
Qed.

Lemma groups_pending d : pending_groups d (groups d).
Proof.
  assert (Hid : map gr_bucket (map (group_of (open_rows d)) (remove_dups (map delta_bucket (open_rows d)))) =
                remove_dups (map delta_bucket (open_rows d))) by (rewrite map_map; apply map_id).
  split.
  - apply (NoDup_map_filter gr_bucket). rewrite Hid. apply NoDup_remove_dups.
  - apply Forall_forall. intros g Hg. apply list_elem_of_In, List.filter_In in Hg as [Hg _].
    apply in_map_iff in Hg as (b & <- & Hb). split; [done|]. simpl.
    apply list_elem_of_In, elem_of_remove_dups, list_elem_of_In, in_map_iff in Hb as (r & <- & Hr).
    intros Hn. assert (Hin : In r (in_bucket (delta_bucket r) (open_rows d))); [|by rewrite Hn in Hin].
    apply List.filter_In. split; [done|]. by apply bool_decide_eq_true.
Qed.

Lemma pending_groups_sub d gs gs' n : gs' ≡ₚ gs -> pending_groups d gs -> pending_groups d (limit n gs').
Proof.
  intros Hp [Hnd Hall]. split.
  - assert (Hnd' : NoDup (map gr_bucket gs')) by (by rewrite Hp). unfold limit. rewrite <- firstn_map.
    rewrite <- (take_drop (Z.to_nat n) (map _ _)) in Hnd'. by apply NoDup_app in Hnd' as [? _].
  - rewrite <- Hp in Hall. by apply Forall_take.
Qed.

Definition buckets_of (d : DB) : list bucket := remove_dups (map delta_bucket (volumes_delta d)).

(** A bucket with more than 100 open deltas has its group. *)
Lemma busy_group d b :
  (100 < length (in_bucket b (open_rows d)))%nat ->
  group_of (open_rows d) b ∈ groups d.
Proof.
  intros Hl. apply list_elem_of_In, List.filter_In. split; [|apply Z.ltb_lt; simpl; lia].
  apply in_map, list_elem_of_In, elem_of_remove_dups, list_elem_of_In. destruct (in_bucket b (open_rows d)) as [|r l] eqn:E; [simpl in Hl; lia|].
  assert (Hr : In r (in_bucket b (open_rows d))) by (rewrite E; by left). apply List.filter_In in Hr as [Hr Hb].
  apply bool_decide_eq_true in Hb as <-. by apply in_map.
Qed.

Lemma groups_few d : (length (groups d) <= length (buckets_of d))%nat.
Proof.
  etransitivity; [apply List.filter_length_le|]. rewrite length_map. apply submseteq_length, NoDup_submseteq.
  - apply NoDup_remove_dups.
  - intros b Hb. apply elem_of_remove_dups, list_elem_of_fmap in Hb as (r & -> & Hr).
    apply elem_of_remove_dups, list_elem_of_fmap. exists r. split; [done|].
    by apply list_elem_of_In, List.filter_In, proj1, list_elem_of_In in Hr.
Qed.

(** The contract of a run: the totals of every bucket are what they were; and when it
    succeeds on at most 1000 buckets, none keeps more than 100 open deltas. *)
Lemma BuildCheckpoints_spec E (w : World) :
  w_tx w = TxNone ->
  wp E BuildCheckpoints w (fun r w' => w_tx w' = TxNone /\ rolled (w_db w) (w_db w') /\
    (r = Ok tt -> (length (buckets_of (w_db w)) <= 1000)%nat -> forall b, (length (in_bucket b (open_rows (w_db w'))) <= 100)%nat)).
Proof.
  intros Ht. unfold BuildCheckpoints. apply wp_mbind, wp_wrap.
  eapply wp_mono; [apply wp_and; [by apply wp_exec_pool|by apply reads_idle; [by split; [apply (read_stmt_select (fun _ d => _))|]|]]|].
  intros r w1 [Hr (Ht1 & Hd1 & _)]. destruct r as [gs|e]; simpl; [|split_and!; [done|rewrite Hd1; apply rolled_refl|done]].
  assert (Hgs : gs = groups (w_db w1)).
  { destruct Hr as [[_ Hf]|(_ & now & a & Hs & [Hf|Hf])]; try done. injection Hf as ->. rewrite Hd1. by injection Hs. }
  clear Hr. apply wp_bind, wp_trigger. simpl. set (gs' := reorder _ gs). set (w2 := tick w1).
  assert (Hp : gs' ≡ₚ gs) by apply reorder_perm. clearbody gs'.
  apply wp_mbind. eapply wp_mono; [apply build_rows_spec; [exact Ht1|]|].
  { eapply pending_groups_sub; [exact Hp|]. rewrite Hgs. apply groups_pending. }
  intros r w3 (Ht3 & built & failed & -> & Hf & Hb). change (w_db w2) with (w_db w1) in *. destruct Hb as (Hro & Hop & Hall).
  rewrite Hd1 in Hro. simpl. assert (Hgoal : failed = 0 -> (length (buckets_of (w_db w)) <= 1000)%nat ->
    forall b, (length (in_bucket b (open_rows (w_db w3))) <= 100)%nat).
  { intros -> Hk b. specialize (Hall eq_refl). destruct (Hop b) as [Heq|Heq]; [|rewrite Heq; simpl; lia].
    destruct (decide (length (in_bucket b (open_rows (w_db w3))) <= 100)%nat) as [|Hgt]; [done|]. exfalso.
    rewrite Heq in Hgt. pose proof (busy_group (w_db w1) b) as Hg. rewrite <- Hgs, <- Hp in Hg.
    specialize (Hg ltac:(lia)). pose proof (groups_few (w_db w1)) as Hlen. rewrite <- Hgs, <- Hp in Hlen.
    rewrite <- Hd1 in Hk. specialize (Hall (group_of (open_rows (w_db w1)) b)). simpl in Hall.
    rewrite <- Heq, Hall in Hgt; [simpl in Hgt; lia|]. unfold limit. rewrite take_ge; [done|]. lia. }
  destruct (Z.ltb_spec 0 failed); apply wp_ret; (split; [done|]); (split; [done|]); [done|].
  intros _. apply Hgoal. lia.
Qed.
