(* ===== verification/Approvals.v ===== *)
(** * Approvals refine their life

    Whatever fails, the functions of Approval.v change pending_approvals by the moves of
    ApprovalSteps.v only, execute an intent only after its row was found complete, and
    append at most one audit event for it. *)
From S2P Require Import Prelude GoStd Regex Accounts Assets Policy Sha256 Json Storage Db Prog.
From S2P Require Import Logic Postgres BatchManager Redis Chart Planner Cores Operations IntentJson Approval.
From S2P Require Import Bodies StoreRules Effects ApprovalSteps Ledger Requests Intents Batches Expiry.

Definition update_approval (p : approval_row -> bool) (f : approval_row -> approval_row) (d : DB) : DB :=
  set_pending_approvals (map (fun a => if p a then f a else a) (pending_approvals d)) d.


(** The guards of the two guarded updates, and the clock argument of [set_state]. *)
Definition is_in (l id s : string) (a : approval_row) : bool := approval_is l id a && String.eqb (pa_State a) s.

(** ** What [Approve] decides in its transaction *)

Section Decided.
Context (t0 : Z) (l id principal signature : string) (d : DB).

Definition open_row (row : approval_row) : Prop := find_approval l id d = Some row /\ pa_State row = "pending".

(** The row is signed by [principal], who has the right to. *)
Definition signed (row : approval_row) (e : ApprovalEntry) (d1 : DB) (row1 : approval_row) : Prop :=
  open_row row /\ may_sign principal row /\
  ae_Principal e = principal /\ ae_Signature e = signature /\
  d1 = update_approval (is_in l id "pending") (sign e) d /\ find_approval l id d1 = Some row1.

(** The update of a state: made on the database, or a change of nothing where it was [seen]. *)
Definition state_set (seen : DB -> DB -> Prop) (f : approval_row -> approval_row) (d d' : DB) : Prop :=
  d' = update_approval (approval_is l id) f d \/
  (d' = d /\ exists dr, seen dr d /\ update_approval (approval_is l id) f dr = dr).

Inductive decided_as (seen : DB -> DB -> Prop) : decision -> DB -> Prop :=
| decided_expired row d' :
    open_row row -> state_set seen (set_state "expired" keep_executing t0) d d' -> decided_as seen DecExpired d'
| decided_partial row e d1 row1 :
    signed row e d1 row1 -> allApproved (approval_of_row row1) = false -> decided_as seen DecPartial d1
| decided_complete row e d1 row1 d' :
    signed row e d1 row1 -> complete row1 ->
    state_set seen (set_state "executing" (fun now _ => Some (pg_ts now)) t0) d1 d' ->
    decided_as seen (DecComplete (approval_of_row row1)) d'.
Definition decided : decision -> DB -> Prop := decided_as eq.

Lemma state_set_now f d1 d2 : state_set eq f d1 d2 -> d2 = update_approval (approval_is l id) f d1.
Proof. by intros [->|(-> & ? & -> & ->)]. Qed.
End Decided.

(** What the code computes from a record is what the specification says of its row. *)
Lemma approved_by_signed a p : p ∈ signed_by a -> approved_by (approval_of_row a) p = true.
Proof.
  unfold signed_by, approved_by, received, approval_of_row, approvals_of_col. simpl.
  intros (e & He & Hp)%list_elem_of_omap. apply existsb_exists.
  destruct (pa_ReceivedApprovals a) as [es|]; simpl in *; [|by apply not_elem_of_nil in He].
  destruct e as [e|]; [|done]. injection Hp as Hp. exists e. split; [|by apply String.eqb_eq].
  apply list_elem_of_In. apply list_elem_of_fmap. by exists (Some e).
Qed.

Lemma signed_approved_by a p : approved_by (approval_of_row a) p = true -> p = "" \/ p ∈ signed_by a.
Proof.
  unfold signed_by, approved_by, received, approval_of_row, approvals_of_col. simpl.
  intros (e & He & Hp%String.eqb_eq)%existsb_exists.
  destruct (pa_ReceivedApprovals a) as [es|]; simpl in *; [|done].
  apply list_elem_of_In, list_elem_of_fmap in He as (o & -> & Ho). destruct o as [e|]; simpl in Hp; [right|by left].
  apply list_elem_of_omap. exists (Some e). by rewrite <- Hp.
Qed.

Lemma allApproved_complete a : allApproved (approval_of_row a) = true -> complete a.
Proof.
  intros Ha p Hp. apply signed_approved_by. unfold allApproved in Ha. rewrite forallb_forall in Ha.
  by apply Ha, list_elem_of_In.
Qed.

(** ** Rules of the statements *)

Lemma sql_update_approval_inv p f now d n d' :
  sql_update_approval p f now d = inr (n, d') -> n = Z.of_nat (length (List.filter p (pending_approvals d))) /\ d' = update_approval p (f now) d.
Proof. unfold sql_update_approval, update_rows. destruct (forallb _ _); intros [= <- <-]. done. Qed.

Lemma gentle_update_approval p f :
  (forall now l id a, approval_is l id (f now a) = approval_is l id a) -> gentle (sql_update_approval p f).
Proof.
  intros Hf. split; [by intros now d n d' [_ ->]%sql_update_approval_inv|].
  intros k now d1 d2 n d1' d2' Hr [_ ->]%sql_update_approval_inv [_ ->]%sql_update_approval_inv.
  destruct k as [| |l id]; try done. simpl in *. unfold find_approval, update_approval in *. simpl.
  rewrite !find_map; [by rewrite Hr|intros r; by destruct (p r)..].
Qed.

(** An update that changed no row of those it finds. *)
Lemma unchanged_row {R} (p : R -> bool) f t a : map (fun a => if p a then f a else a) t = t -> In a t -> p a = true -> f a = a.
Proof. induction t as [|b t IH]; simpl; [done|]. intros [= H1 H2] [->|Hin] Hp; [by rewrite Hp in H1|auto]. Qed.

Section Rules.
Context {t0 : Z} {W : forall A, prog A -> DB -> (A -> DB -> Prop) -> Prop} {seen : DB -> DB -> Prop} `{!TxLogic t0 W seen}.
Arguments W {A}.
Implicit Types d : DB.

Lemma tl_GetPendingApproval d l id (Q : result PendingApprovalRecord -> DB -> Prop) :
  (forall row, find_approval l id d = Some row -> Q (Ok (approval_of_row row)) d) -> (forall e, Q (Err e) d) ->
  W (GetPendingApproval Tx l id) d Q.
Proof.
  intros HQ HE. apply tl_mbind, tl_on_err, (tl_locked_row _ (fun _ d => find_approval l id d)); [|intros; apply HE].
  intros dr row Hr Hrow. simpl in Hr. rewrite Hr in Hrow. by apply tl_ok, HQ.
Qed.

Lemma tl_set_state d l id s x (Q : result unit -> DB -> Prop) :
  (forall d', state_set l id seen (set_state s x t0) d d' -> Q (Ok tt) d') ->
  W (let* _ := exec Tx (sql_update_approval (approval_is l id) (set_state s x)) in ok tt) d Q.
Proof.
  intros HQ. apply tl_mbind, tl_write; [by apply gentle_update_approval| |].
  - intros dr n Hdr [_ Hs]%sql_update_approval_inv. apply tl_ok, HQ. right. eauto.
  - intros n d' [_ ->]%sql_update_approval_inv. apply tl_ok, HQ. by left.
Qed.

Lemma tl_AddApproval d l id p sg (Q : result unit -> DB -> Prop) :
  (forall now, let e := {| ae_Principal := p; ae_Signature := sg; ae_SignedAt := now |} in
     Q (Ok tt) (update_approval (is_in l id "pending") (sign e) d)) ->
  (forall e d', Q (Err e) d') ->
  W (AddApproval Tx l id p sg) d Q.
Proof.
  intros HQ HE. apply tl_bind, tl_now. intros now. apply tl_mbind, tl_write; [by apply gentle_update_approval| |].
  - intros dr n _ [-> Hs]%sql_update_approval_inv. unfold affected. destruct (Z.eqb_spec (Z.of_nat (length (List.filter (is_in l id "pending") (pending_approvals dr)))) 0)
      as [E|E]; unfold is_in in E; rewrite ?E; [apply tl_fail, HE|]. exfalso.
    destruct (List.filter _ _) as [|a t] eqn:Ef; [done|].
    assert (Ha : In a (pending_approvals dr) /\ is_in l id "pending" a = true) by (apply List.filter_In; unfold is_in; rewrite Ef; by left).
    apply (f_equal pending_approvals) in Hs. symmetry in Hs. apply (unchanged_row _ _ _ a) in Hs; [|apply Ha..].
    apply (f_equal (length ∘ signed_by)) in Hs.
    change (length (signed_by (sign {| ae_Principal := p; ae_Signature := sg; ae_SignedAt := now |} a)) = length (signed_by a)) in Hs.
    rewrite signed_by_sign, length_app in Hs. simpl in Hs. lia.
  - intros n d' [_ ->]%sql_update_approval_inv. unfold affected. destruct (_ =? 0); [apply tl_fail, HE|apply tl_ok, (HQ now)].
Qed.
End Rules.

Section Approvals.
Context `{Deps}.

Lemma tx_ok_approve_tx l id p sg : tx_ok (approve_tx l id p sg).
Proof. unfold approve_tx. tx_ok_store. Qed.

Lemma approve_tx_body {t0 W seen} `{!TxLogic t0 W seen} l id p sg d :
  W _ (approve_tx l id p sg) d (on_ok (decided_as t0 l id p sg d seen)).
Proof.
  unfold approve_tx. apply tl_mbind, tl_GetPendingApproval; [|done]. intros row Hrow.
  destruct (String.eqb_spec (pa_State (approval_of_row row)) statePending) as [Hp|]; [|by apply tl_fail]. simpl.
  apply tl_bind, tl_now. intros now. destruct (pa_ExpiresAt row <? now) eqn:Ex.
  { apply tl_mbind, tl_wrap, tl_set_state. intros d' Hd. apply tl_ok. by eapply decided_expired. }
  destruct (String.eqb_spec p (pa_SubmittedBy row)) as [|Hsub]; [by apply tl_fail|].
  destruct (existsb _ _) eqn:Er; simpl; [|by apply tl_fail]. destruct (approved_by _ p) eqn:Ea; [by apply tl_fail|].
  assert (Hm : may_sign p row).
  { apply existsb_exists in Er as (x & Hx & ->%String.eqb_eq). split_and!; [by apply list_elem_of_In|done|].
    intros Hin%approved_by_signed. congruence. }
  apply tl_mbind, tl_AddApproval; [|done]. intros now2 e.
  apply tl_mbind, tl_GetPendingApproval; [|done]. intros row1 Hrow1.
  assert (Hs : signed l id p sg d row e (update_approval (is_in l id "pending") (sign e) d) row1) by (by split_and!).
  destruct (allApproved (approval_of_row row1)) eqn:Ec; simpl; [|by eapply tl_ok, decided_partial].
  apply tl_mbind, tl_set_state. intros d' Hd. apply tl_ok. by eapply decided_complete; [|apply allApproved_complete|].
Qed.
Lemma approve_tx_spec t0 l id p sg d : txwp t0 (approve_tx l id p sg) d (on_ok (decided t0 l id p sg d)).
Proof. apply approve_tx_body. Qed.

(** *** The deadline *)

Definition timely (E : Env) (row : approval_row) (dec : decision) : Prop :=
  exists n, match dec with
            | DecExpired => pa_ExpiresAt row < e_now E n
            | _ => e_now E n <= pa_ExpiresAt row
            end.

Lemma wp_GetPendingApproval E l id (w : World) t0 d Q :
  w_tx w = TxOpen t0 d ->
  (forall row w', find_approval l id d = Some row -> Q (Ok (approval_of_row row)) w') -> (forall e w', Q (Err e) w') ->
  wp E (GetPendingApproval Tx l id) w Q.
Proof.
  intros Ht HQ HE. unfold GetPendingApproval, query_locked, lock_rows, on_err, wp, mbind. repeat (rewrite ?run_bind; simpl).
  unfold sql_tx. rewrite Ht. destruct (e_fault E (w_tick w)); simpl; repeat (rewrite ?run_bind; simpl); [apply HE|].
  unfold sql_select_approval, find_approval in *. destruct (List.find _ _) as [row|]; simpl; repeat (rewrite ?run_bind; simpl).
  - by apply HQ.
  - apply HE.
Qed.

Lemma wp_ok_only {A B} E (m : M A) (f : A -> M B) (w : World) (P : B -> Prop) :
  (forall a w1, wp E (f a) w1 (fun r _ => forall b, r = Ok b -> P b)) ->
  wp E (mbind m f) w (fun r _ => forall b, r = Ok b -> P b).
Proof. intros Hf. apply wp_mbind. unfold wp at 1. destruct (run E m w) as [[a|e] w1]; [apply Hf|done]. Qed.

Lemma approve_tx_timely E l id p sg (w : World) t0 d :
  w_tx w = TxOpen t0 d ->
  wp E (approve_tx l id p sg) w (fun r _ => forall dec, r = Ok dec ->
    exists row, find_approval l id d = Some row /\ timely E row dec).
Proof.
  intros Ht. unfold approve_tx. apply wp_mbind. eapply wp_GetPendingApproval; [exact Ht| |done]. intros row w1 Hrow.
  destruct (negb _); [done|]. apply wp_bind, wp_trigger. simpl. destruct (_ <? _) eqn:Ex.
  { apply wp_ok_only. intros [] w2. apply wp_ret. intros dec [= <-]. exists row. split; [done|].
    exists (w_tick w1). by apply Z.ltb_lt. }
  repeat (destruct (String.eqb p _) || destruct (negb _) || destruct (approved_by _ p); try done).
  do 2 (apply wp_ok_only; intros ? ?). apply Z.ltb_ge in Ex.
  destruct (negb _); [|apply wp_ok_only; intros ? ?]; apply wp_ret; intros dec [= <-]; exists row; (split; [done|]);
    by exists (w_tick w1).
Qed.

(** ** Commits, and statements on the pool *)

Lemma wp_commit E (w : World) (Q : result unit -> World -> Prop) :
  (forall t d, w_tx w = TxOpen t d ->
     (forall r, r = Ok tt \/ (r = Err (EPg PgConn) /\ loses E) -> Q r (tick (with_db d (with_tx TxNone w))))) ->
  (forall e, Q (Err e) (tick (with_tx TxNone w))) ->
  wp E TxCommit w Q.
Proof.
  intros HQ HE. apply wp_trigger. simpl. unfold commit. destruct (w_tx w) as [|t d|] eqn:Ht; simpl.
  - specialize (HE (EPg PgTxClosed)). unfold with_tx in HE. simpl in HE. by rewrite <- Ht in HE; destruct w.
  - destruct (e_fault E (w_tick w)) as [[]|] eqn:Ef; simpl; try apply HE; eapply HQ; try done.
    + right. split; [done|by eexists].
    + by left.
  - apply HE.
Qed.

(** Only the approvals changed, by at most one update of the rows [p]. *)
Definition settled (p : approval_row -> bool) (s : string) (w w' : World) : Prop :=
  w_tx w' = TxNone /\ (same_but_batches (w_db w) (w_db w') \/
    exists now, w_db w' = update_approval p (set_state s keep_executing now) (w_db w)).

Lemma wp_settle E p s (w : World) :
  w_tx w = TxNone ->
  wp E (exec Pool (sql_update_approval p (set_state s keep_executing))) w (fun _ w' => settled p s w w').
Proof.
  intros Ht. eapply wp_mono; [by apply wp_exec_pool|].
  intros r w1 [[(H1 & H2 & _) _]|(H1 & now & a & Hs & _)]; (split; [done|]); [by left|right].
  apply sql_update_approval_inv in Hs as [_ Hs]. eauto.
Qed.
Lemma UpdateApprovalState_spec E l id s (w : World) :
  w_tx w = TxNone -> wp E (UpdateApprovalState Pool l id s) w (fun _ w' => settled (approval_is l id) s w w').
Proof. intros Ht. apply wp_mbind. eapply wp_mono; [by apply wp_settle|]. by intros [n|e] w1. Qed.
Lemma UpdateApprovalStateIf_spec E l id s (w : World) :
  w_tx w = TxNone ->
  wp E (UpdateApprovalStateIf Pool l id stateExecuting s) w (fun _ w' => settled (is_in l id "executing") s w w').
Proof. intros Ht. apply wp_mbind. eapply wp_mono; [by apply wp_settle|]. by intros [n|e] w1. Qed.

(** ** The audit event *)

Definition audit_effect (t0 : Z) (l event : string) (d d' : DB) : Prop :=
  metadata_done t0 EventTypeApprovalRecorded l "" None (fun _ => []) d (event_result event) d'.

(** At most the audit event [event] was appended. *)
Definition audited (l event : string) (w w' : World) : Prop :=
  w_tx w' = TxNone /\ (same_but_batches (w_db w) (w_db w') \/
    exists t0 d0 d1, same_but_batches (w_db w) d0 /\ audit_effect t0 l event d0 d1 /\ same_but_batches d1 (w_db w')).

Lemma audit_event_in t0 l event d d' :
  audit_effect t0 l event d d' -> exists ev, ev ∈ log_events d' /\ ev_EventID ev = event.
Proof.
  intros (ev & id & f & He & Hr). exists ev. rewrite (ef_log _ _ _ _ _ _ _ _ _ _ _ _ He).
  split; [set_solver|]. by injection Hr.
Qed.

Lemma audit_event_fresh t0 l event d d' : audit_effect t0 l event d d' -> forall ev, ev ∈ log_events d -> ev_EventID ev <> event.
Proof.
  intros (ev & id & f & He & Hr) x Hx Hid. pose proof (ef_log_fresh _ _ _ _ _ _ _ _ _ _ _ _ He) as Hf.
  apply (existsb_false _ _ x) in Hf; [|done]. unfold log_conflict in Hf. injection Hr as ->.
  by rewrite Hid, String.eqb_refl in Hf.
Qed.

Lemma same_but_batches_log d d' : same_but_batches d d' -> log_events d' = log_events d.
Proof. by intros ->. Qed.

(** The body of an attempt, inside its transaction. *)
Lemma audit_body {t0 W seen} `{!TxLogic t0 W seen} l event now payload batch d :
  W _ (let* seq := wrap "next seq" (NextLedgerSeq l) in
           wrap "append event" (AppendLogEvent Tx
             (log_event event l seq EventTypeApprovalRecorded payload EmptyString None now now batch))) d
    (on_ok (fun _ => audit_effect t0 l event d)).
Proof.
  apply (tl_append l _ (fun seq => log_event event l seq EventTypeApprovalRecorded payload EmptyString None now now batch)
           (fun _ r => Ret (rmap_err (EWrap "append event") r))); [done|].
  intros Hp Hf. apply tl_ret. simpl in Hp. destruct payload as [p|]; [|done]. set (ev := log_row _) in *. exists ev, EmptyString, (fun j => j). split; [|done].
  split; simpl; try done; [|by rewrite app_nil_r..|by rewrite update_tx_metadata_id|by rewrite app_nil_r].
  by exists event, (Some p), now, now, batch.
Qed.

Lemma writeOnce_spec E l event now payload (w : World) :
  w_tx w = TxNone -> wp E (writeOnce l event now payload) w (fun r w' => w_tx w' = TxNone /\
    ((same_but_batches (w_db w) (w_db w') /\ is_ok r = false) \/
     exists t0 d0, same_but_batches (w_db w) d0 /\ audit_effect t0 l event d0 (w_db w'))).
Proof.
  intros Ht. unfold writeOnce. apply wp_mbind, wp_wrap.
  eapply wp_mono; [apply run_closed; [apply tx_ok_CurrentBatchID|done]|].
  intros [batch|e] w1 (Ht1 & Hb1 & _); [|by split; [|left]].
  apply wp_mbind, wp_wrap. unfold BeginTx, on_err. apply wp_bind, wp_trigger. simpl.
  destruct (e_fault E _); simpl; [by split; [|left]|].
  set (w2 := tick _). assert (Ht2 : exists t0, w_tx w2 = TxOpen t0 (w_db w1)) by (by eexists). destruct Ht2 as [t0 Ht2].
  assert (Hd2 : w_db w2 = w_db w1) by done. clearbody w2.
  unfold with_rollback. apply wp_bind, wp_mbind_assoc, wp_mbind.
  eapply wp_mono; [apply (txwp_sound E _ w2 t0 (w_db w1)); [|exact Ht2|apply audit_body]|].
  { tx_ok_store. }
  intros r w3 [(Hq & _) Ho]. rewrite Hd2 in Hq.
  assert (Hc : same_but_batches (w_db w) (w_db w3)) by (by etransitivity). destruct r as [[]|e]; [|by split; [|left]].
  apply wp_wrap, wp_commit; [|intros e; by apply wp_rollback; split; [|left]].
  intros t d Ht3 r Hr. apply wp_rollback. split; [done|]. right. rewrite Ht3 in Ho. destruct Ho as [-> Ho].
  exists t0, (w_db w1). by split.
Qed.

Lemma audited_attempt E l event now payload (w w1 : World) :
  audited l event w w1 -> wp E (writeOnce l event now payload) w1 (fun _ w' => audited l event w w').
Proof.
  intros [Ht1 Ha]. eapply wp_mono; [by apply writeOnce_spec|]. intros r w2 [Ht2 Hr]. split; [done|].
  destruct Ha as [Hs|(t0 & d0 & d1 & H1 & H2 & H3)].
  - destruct Hr as [[Hs2 _]|(t1 & d2 & H4 & H5)]; [left; by etransitivity|].
    right. exists t1, d2, (w_db w2). split_and!; [by etransitivity|done|reflexivity].
  - right. exists t0, d0, d1. split_and!; [done..|]. destruct Hr as [[Hs2 _]|(t1 & d2 & H4 & H5)]; [by etransitivity|].
    exfalso. destruct (audit_event_in _ _ _ _ _ H2) as (ev & Hin & Hid).
    apply (audit_event_fresh _ _ _ _ _ H5 ev); [|done].
    by rewrite (same_but_batches_log _ _ H4), (same_but_batches_log _ _ H3).
Qed.

Lemma audited_retry E l event (fn : M unit) p mb left backoff (w w1 : World) :
  (forall w1, audited l event w w1 -> wp E fn w1 (fun _ w' => audited l event w w')) ->
  audited l event w w1 -> wp E (retry p mb left backoff fn) w1 (fun _ w' => audited l event w w').
Proof.
  intros Hfn. revert w1 backoff. induction left as [|left IH]; intros w1 backoff Ha; simpl;
    (apply wp_bind; eapply wp_mono; [by apply Hfn|]; intros [a|e] w2 Ha2; [done|]; destruct (negb (p e)); [done|]); [done|].
  assert (Hidle : forall w3 w4, audited l event w w3 -> idle w3 w4 -> audited l event w w4).
  { intros w3 w4 [_ H3] (Ht4 & Hd4 & _). split; [done|]. by rewrite Hd4. }
  apply wp_reads_bind; [by split|apply Ha2|]. intros j w3 H3.
  apply wp_reads_bind; [by split|apply H3|]. intros g w4 H4.
  assert (Ha4 : audited l event w w4) by eauto.
  destruct g; simpl; [by apply IH|exact Ha4].
Qed.

(** Whatever fails and however often it is retried, one event at most is appended. *)
Lemma recordApprovalAuditEvent_spec E l id payload (w : World) :
  w_tx w = TxNone -> wp E (recordApprovalAuditEvent l id payload) w (fun _ w' => exists event, audited l event w w').
Proof.
  intros Ht. unfold recordApprovalAuditEvent.
  apply wp_reads_bind; [by split|done|]. intros now w1 H1. apply wp_reads_bind; [by split|apply H1|]. intros event w2 H2.
  assert (Ha : audited l event w w2).
  { destruct H1 as (_ & H1 & _), H2 as (Ht2 & H2 & _). split; [done|]. left. by rewrite H2, H1. }
  apply wp_bind. eapply wp_mono; [apply (audited_retry E l event); [|exact Ha]; intros; by apply audited_attempt|].
  intros [[]|e] w3 Ha3; [|by exists event]. destruct Ha3 as [Ht3 Ha3].
  eapply wp_mono; [by apply wp_publishEvent|]. intros _ w4 [Ht4 Hd4]. exists event. split; [done|]. by rewrite Hd4.
Qed.

(** ** Approve *)

(** The execution of a complete approval: its intent is one submission under the key
    derived from its id; then, if it succeeded, the audit event; then the final state. *)
Definition execution (E : Env) (l id : string) (a : PendingApprovalRecord) (w : World) (r : result SubmitResult) (w' : World) : Prop :=
  match unmarshal_intent (default EmptyString (pa_IntentPayload a)) with
  | Err _ => is_ok r = false /\ settled (approval_is l id) "rejected" w w'
  | Ok i =>
      exists r1 w1, submitted E (request_done (safe_intent i) l (approvalExecutionKey id)) w r1 w1 /\
        match r1 with
        | Ok x => r = Ok x /\ exists event w2, audited l event w1 w2 /\ settled (is_in l id "executing") "executed" w2 w'
        | Err _ => is_ok r = false /\ settled (approval_is l id) "rejected" w1 w'
        end
  end.

Definition approval_outcome (E : Env) (l id p sg : string) (w : World) (r : result SubmitResult) (w' : World) : Prop :=
  (untouched w w' /\ is_ok r = false) \/
  exists t0 dec d1 row, decided t0 l id p sg (w_db w) dec d1 /\
    find_approval l id (w_db w) = Some row /\ timely E row dec /\
    ((w_tx w' = TxNone /\ w_db w' = d1 /\ is_ok r = false /\ loses E) \/
     match dec with
     | DecExpired => w_tx w' = TxNone /\ w_db w' = d1 /\ is_ok r = false
     | DecPartial => w_tx w' = TxNone /\ w_db w' = d1 /\ r = Ok (event_result id)
     | DecComplete a => exists w1, w_tx w1 = TxNone /\ w_db w1 = d1 /\ execution E l id a w1 r w'
     end).

Lemma submitted_tx E S (w : World) r w' : submitted E S w r w' -> w_tx w' = TxNone.
Proof. intros [(a & _ & _ & Hu)|Ha]; [apply Hu|]. destruct r as [a|e]; [apply Ha|]. destruct Ha as [Hu|(_ & _ & a & Ha)]; [apply Hu|apply Ha]. Qed.

Lemma execute_approved_spec E l id a (w : World) :
  w_tx w = TxNone -> wp E (execute_approved l id a) w (execution E l id a w).
Proof.
  intros Ht. unfold execute_approved, execution. destruct (unmarshal_intent _) as [i|e].
  - apply wp_bind. pose proof (executeIntent_submission l (with_key (approvalExecutionKey id) i)) as Hs.
    eapply wp_mono; [by apply (submission_submitted E _ l _ _ _ Hs)|]. intros r1 w1 Hr1.
    pose proof (submitted_tx _ _ _ _ _ Hr1) as Ht1. destruct r1 as [x|e].
    + apply wp_bind. eapply wp_mono; [by apply (recordApprovalAuditEvent_spec E l id)|]. intros _ w2 [event Ha].
      apply wp_bind. eapply wp_mono; [apply (UpdateApprovalStateIf_spec E l id stateExecuted), Ha|]. intros u3 w3 H3.
      apply wp_ret. exists (Ok x), w1. split; [exact Hr1|]. split; [done|]. by exists event, w2.
    + apply wp_bind. eapply wp_mono; [by apply (UpdateApprovalState_spec E l id stateRejected)|]. intros u2 w2 H2.
      apply wp_ret. exists (Err e), w1. split; [exact Hr1|]. by split.
  - apply wp_bind. eapply wp_mono; [by apply (UpdateApprovalState_spec E l id stateRejected)|]. intros u2 w2 H2.
    apply wp_ret. by split.
Qed.

(** The deferred rollback of a transaction that is closed changes nothing. *)
Lemma wp_deferred {A} E (m : M A) (w : World) (Q : result A -> World -> Prop) :
  wp E m w (fun r w' => Q r (tick (with_tx TxNone w'))) -> wp E (with_rollback m) w Q.
Proof. intros Hm. apply wp_bind. eapply wp_mono; [exact Hm|]. intros r w'. by apply wp_rollback. Qed.

Lemma execution_rolled_back E l id a w r w' :
  execution E l id a w r w' -> execution E l id a w r (tick (with_tx TxNone w')).
Proof.
  unfold execution, settled. destruct (unmarshal_intent _) as [i|e]; [|intuition].
  intros (r1 & w1 & H1 & H2). exists r1, w1. split; [done|]. destruct r1 as [x|e]; [|intuition].
  destruct H2 as [-> (event & w2 & H3 & H4 & H5)]. split; [done|]. by exists event, w2.
Qed.

Lemma Approve_spec E l id p sg (w : World) :
  w_tx w = TxNone -> wp E (Approve l id p sg) w (approval_outcome E l id p sg w).
Proof.
  intros Ht. unfold Approve. apply wp_mbind, wp_wrap. unfold BeginTx, on_err. apply wp_bind, wp_trigger. simpl.
  destruct (e_fault E _); simpl; [by left; split_and!|].
  set (w1 := tick _). assert (Ht1 : exists t0, w_tx w1 = TxOpen t0 (w_db w)) by (by eexists). destruct Ht1 as [t0 Ht1].
  assert (Hq1 : w_db w1 = w_db w /\ messages (w_out w1) = messages (w_out w)) by done. clearbody w1.
  apply wp_deferred, wp_mbind. eapply wp_mono.
  { apply wp_and; [|by apply (approve_tx_timely E l id p sg w1 t0 (w_db w))].
    by eapply txwp_sound; [apply tx_ok_approve_tx|exact Ht1|apply approve_tx_spec]. }
  intros r w2 [[Hq Ho] Htm].
  assert (Hu : untouched w (tick (with_tx TxNone w2))).
  { apply quiet_closed in Hq. destruct Hq as (? & Hb & Hm), Hq1 as [Hq1 Hq3]. rewrite Hq1, Hq3 in *. by split_and!. }
  destruct r as [dec|e]; [|by left]. destruct (Htm dec eq_refl) as (row & Hrow & Hti).
  assert (Hend : wp E TxCommit w2 (fun r w3 =>
    (untouched w (tick (with_tx TxNone w3)) /\ exists e, r = Err e) \/
    (w_tx w3 = TxNone /\ decided t0 l id p sg (w_db w) dec (w_db w3) /\
     (r = Ok tt \/ (exists e, r = Err e /\ loses E))))).
  { apply wp_commit; [|by left; split; [|eexists]]. intros t d Ht2 r Hr. rewrite Ht2 in Ho. destruct Ho as [-> Ho].
    right. split_and!; [done..|]. destruct Hr as [->|[-> Hl]]; [by left|right; eauto]. }
  clear Ho Htm. destruct dec as [| |a]; apply wp_mbind; [apply wp_wrap|..];
    (eapply wp_mono; [exact Hend|]; intros rc w3 [[Hu3 [e ->]]|(Ht3 & Hd3 & Hr)]; [by left|]);
    (assert (Hout : forall r w', w_tx w' = TxNone -> w_db w' = w_db w3 -> is_ok r = false -> loses E ->
       approval_outcome E l id p sg w r w') by (intros; right; do 4 eexists; split_and!; eauto));
    (destruct Hr as [->|(e & -> & Hl)]; simpl; [|by apply Hout]).
  - right. do 4 eexists. split_and!; [exact Hd3|done..|]. by right.
  - right. do 4 eexists. split_and!; [exact Hd3|done..|]. by right.
  - eapply wp_mono; [by apply execute_approved_spec|]. intros r w4 He%execution_rolled_back.
    right. do 4 eexists. split_and!; [exact Hd3|done..|]. right. by exists w3.
Qed.

(** ** Every change is a step *)

(** All rows of a key are in a state. *)
Definition rows_in (l id s : string) (d : DB) : Prop :=
  forall a, a ∈ pending_approvals d -> approval_is l id a = true -> pa_State a = s.

Lemma step_update c p f d :
  (forall a, a ∈ pending_approvals d -> p a = true -> approval_move a (f a)) -> steps c d (update_approval p f d).
Proof. intros Hm. by apply rtc_once, step_approval, approval_update. Qed.

Lemma settled_steps c p s w w' :
  (forall a x, a ∈ pending_approvals (w_db w) -> p a = true -> approval_move a (to_state s x a)) ->
  settled p s w w' -> steps c (w_db w) (w_db w').
Proof.
  intros Hm [_ [Hb|(now & ->)]]; [by apply rtc_once, step_batches|].
  apply step_update. intros a Ha Hpa. by apply Hm.
Qed.

(** A row in "executing" may take any final state; the guard of an update sees to it. *)
Lemma settled_executing c l id s w w' :
  final s -> rows_in l id "executing" (w_db w) -> settled (approval_is l id) s w w' -> steps c (w_db w) (w_db w').
Proof. intros Hs Hr. apply settled_steps. intros a x Ha Hia. apply move_finish; [by apply Hr|done]. Qed.
Lemma settled_guarded c l id s w w' :
  final s -> settled (is_in l id "executing") s w w' -> steps c (w_db w) (w_db w').
Proof. intros Hs. apply settled_steps. intros a x _ [_ Hst%String.eqb_eq]%andb_prop. by apply move_finish. Qed.

Lemma audit_op t0 l event d d' : audit_effect t0 l event d d' -> op_done l true d d'.
Proof. intros He. eapply done_metadata; [|exact He]. by constructor. Qed.

Lemma audited_steps c l event w w' :
  audited l event w w' -> steps c (w_db w) (w_db w') /\ pending_approvals (w_db w') = pending_approvals (w_db w).
Proof.
  intros [_ [Hb|(t0 & d0 & d1 & H0 & H1 & H2)]].
  - split; [by apply rtc_once, step_batches|by rewrite Hb].
  - apply audit_op in H1. split.
    + eapply rtc_l; [by apply step_batches|]. eapply rtc_l; [by eapply safe_step|]. by apply rtc_once, step_batches.
    + rewrite H2. cbn [pending_approvals set_log_batches]. rewrite (op_done_approvals _ _ _ _ H1). by rewrite H0.
Qed.

Lemma execution_steps E l id a w r w' :
  rows_in l id "executing" (w_db w) -> execution E l id a w r w' -> moves false w w'.
Proof.
  intros Hr. unfold execution, moves. destruct (unmarshal_intent _) as [i|e].
  - intros (r1 & w1 & Hs & Hx). apply (submitted_ops E _ l _) in Hs as (_ & n & _ & Ho & _).
    assert (Hr1 : rows_in l id "executing" (w_db w1)) by (unfold rows_in; by rewrite (ops_approvals _ _ _ _ _ Ho)).
    apply (ops_weaken _ false) in Ho; [|done]. apply ops_steps in Ho. destruct r1 as [x|e].
    + destruct Hx as (_ & event & w2 & [Ha Hp]%(audited_steps false) & Hf).
      split; [apply Hf|]. etransitivity; [exact Ho|]. etransitivity; [exact Ha|].
      eapply settled_guarded; [|exact Hf]. unfold final. set_solver.
    + destruct Hx as [_ Hf]. split; [apply Hf|]. etransitivity; [exact Ho|].
      eapply settled_executing; [|exact Hr1|exact Hf]. unfold final. set_solver.
  - intros [_ Hf]. split; [apply Hf|]. eapply settled_executing; [|exact Hr|exact Hf]. unfold final. set_solver.
Qed.

Lemma find_approval_is l id d row :
  find_approval l id d = Some row -> row ∈ pending_approvals d /\ approval_is l id row = true.
Proof. intros [Hin Hk]%List.find_some. split; [by apply list_elem_of_In|done]. Qed.

Lemma approval_unique l id d a b :
  approvals_inv (pending_approvals d) -> a ∈ pending_approvals d -> b ∈ pending_approvals d ->
  approval_is l id a = true -> approval_is l id b = true -> a = b.
Proof.
  intros [Hk _] Ha Hb Hia Hib. apply (NoDup_key_eq approval_key (pending_approvals d)); [done..|].
  unfold approval_is, approval_key in *. apply andb_prop in Hia as [->%String.eqb_eq ->%String.eqb_eq].
  by apply andb_prop in Hib as [->%String.eqb_eq ->%String.eqb_eq].
Qed.

(** The row of a key is the only one of it. *)
Lemma open_row_all l id d row : approvals_inv (pending_approvals d) -> open_row l id d row ->
  forall a, a ∈ pending_approvals d -> approval_is l id a = true -> a = row.
Proof.
  intros Hi [[Hin Hk]%find_approval_is _] a Ha Hka. by apply (approval_unique l id d).
Qed.

Lemma signed_steps c l id p sg d row e d1 row1 :
  approvals_inv (pending_approvals d) -> signed l id p sg d row e d1 row1 -> steps c d d1 /\ row1 = sign e row.
Proof.
  intros Hi (Ho & Hm & He & _ & -> & Hf). pose proof (open_row_all _ _ _ _ Hi Ho) as Hall. split.
  - apply step_update. intros a Ha [Hia Hst]%andb_prop. rewrite (Hall a Ha Hia) in *.
    apply move_sign; [apply Ho|by rewrite He].
  - apply find_approval_is in Hf as [Hin Hk]. simpl in Hin. apply list_elem_of_fmap in Hin as (a & -> & Ha).
    unfold is_in in *. destruct (approval_is l id a) eqn:Ea; simpl in *; [|by rewrite Ea in Hk].
    rewrite (Hall a Ha Ea). destruct Ho as [_ ->]. done.
Qed.

Lemma update_key l id (f : approval_row -> approval_row) d :
  (forall a, approval_is l id (f a) = approval_is l id a) ->
  forall a, a ∈ pending_approvals (update_approval (approval_is l id) f d) -> approval_is l id a = true ->
  exists b, a = f b /\ b ∈ pending_approvals d /\ approval_is l id b = true.
Proof.
  intros Hf a Ha Hk. simpl in Ha. apply list_elem_of_fmap in Ha as (b & -> & Hb).
  destruct (approval_is l id b) eqn:Eb; [eauto|congruence].
Qed.

(** What the transaction of [Approve] commits is a sequence of steps; a complete one
    leaves the row in "executing". *)
Lemma decided_steps c t0 l id p sg d dec d' :
  approvals_inv (pending_approvals d) -> decided t0 l id p sg d dec d' ->
  steps c d d' /\ (forall a, dec = DecComplete a -> rows_in l id "executing" d').
Proof.
  intros Hi. destruct 1 as [row d' Ho ->%state_set_now|row e d1 row1 Hs _|row e d1 row1 d' Hs Hc ->%state_set_now].
  - split; [|done]. apply step_update. intros a Ha Hia. rewrite (open_row_all _ _ _ _ Hi Ho a Ha Hia).
    apply (move_expire (pa_ExecutingAt row)), Ho.
  - split; [by eapply signed_steps|done].
  - pose proof (signed_steps c _ _ _ _ _ _ _ _ _ Hi Hs) as [Hst ->]. pose proof Hs as (Ho & Hm & He & _ & Hd1 & Hf).
    split; [|intros _ _ a Ha Hia; by apply (update_key l id) in Ha as (b & -> & _)].
    etransitivity; [exact Hst|]. apply step_update. intros a Ha Hia.
    assert (Hi1 : approvals_inv (pending_approvals d1)).
    { clear -Hi Hst. unfold steps in Hst. induction Hst; eauto using approvals_inv_step. }
    apply find_approval_is in Hf as [Hin Hk]. rewrite (approval_unique l id d1 a _ Hi1 Ha Hin Hia Hk).
    apply (move_start (Some (pg_ts t0))); [apply Ho|done].
Qed.

Lemma Approve_moves E l id p sg (w : World) :
  w_tx w = TxNone -> approvals_inv (pending_approvals (w_db w)) ->
  wp E (Approve l id p sg) w (fun _ w' => moves false w w').
Proof.
  intros Ht Hi. eapply wp_mono; [by apply Approve_spec|]. intros r w' [[Hu _]|(t0 & dec & d1 & row & Hd & _ & _ & Hx)].
  { by apply untouched_moves. }
  pose proof (decided_steps false _ _ _ _ _ _ _ _ Hi Hd) as [Hst Hex]. unfold moves.
  destruct Hx as [(H1 & -> & _)|Hx]; [by split|]. destruct dec as [| |a].
  - destruct Hx as (H1 & -> & _). by split.
  - destruct Hx as (H1 & -> & _). by split.
  - destruct Hx as (w1 & Ht1 & Hd1 & He). apply execution_steps in He as [H1 H2].
    + split; [done|]. rewrite Hd1 in H2. by etransitivity.
    + rewrite Hd1. by eapply Hex.
Qed.

(** ** Submission *)

Lemma SubmitForApproval_moves E c l payload approvers by_ expires (w : World) :
  w_tx w = TxNone -> wp E (SubmitForApproval l payload approvers by_ expires) w (fun _ w' => moves c w w').
Proof.
  intros Ht. unfold SubmitForApproval. apply wp_mbind.
  eapply wp_mono; [by apply reads_idle; [apply reads_checkLedgerNotSealed|]|]. intros [ledger|e] w1 H1.
  2:{ by apply untouched_moves, idle_untouched. }
  apply wp_reads_bind; [by split|apply H1|]. intros id w2 H2. apply wp_reads_bind; [by split|apply H2|]. intros now w3 H3.
  assert (Hi : idle w w3) by eauto using idle_trans. clear H1 H2 H3. destruct Hi as (Ht3 & Hd3 & _).
  apply wp_mbind. eapply wp_mono; [by apply wp_exec_pool|]. intros r w4 Hr.
  assert (moves c w w4).
  { unfold moves. rewrite <- Hd3. destruct Hr as [[Hu _]|(Ht4 & n & a & Hs & _)]; [by apply (untouched_moves c)|].
    split; [done|]. unfold sql_insert_approval in Hs. simpl in Hs.
    destruct payload, approvers; try done.
    apply with_table_inv in Hs as (t & Hin & ->). apply insert_row_inv in Hin as [Hc ->].
    by apply rtc_once, step_approval, approval_submit. }
  by destruct r.
Qed.

(** ** The sweep *)

Definition record_key (a : PendingApprovalRecord) : string * string := (pa_LedgerID a, pa_IntentID a).

(** The records of a listing: each of a row of its own, all in a state. *)
Definition listed (s : string) (d : DB) (l : list PendingApprovalRecord) : Prop :=
  NoDup (map record_key l) /\ forall a, a ∈ l -> rows_in (pa_LedgerID a) (pa_IntentID a) s d.

Lemma settled_other p s s' l id w w' :
  (forall a, p a = true -> approval_is l id a = false) -> settled p s' w w' ->
  rows_in l id s (w_db w) -> rows_in l id s (w_db w').
Proof.
  intros Hne [_ [Hb|(now & ->)]] Hr a Ha Hia; [rewrite Hb in Ha; by apply Hr|].
  simpl in Ha. apply list_elem_of_fmap in Ha as (b & -> & Hb). destruct (p b) eqn:Ep; [|by apply Hr].
  specialize (Hne b Ep). unfold set_state, with_approval, approval_is in *. simpl in *. congruence.
Qed.

Lemma approval_is_other l id l' id' a :
  (l, id) <> (l', id') -> approval_is l id a = true -> approval_is l' id' a = false.
Proof.
  unfold approval_is. intros Hne [->%String.eqb_eq ->%String.eqb_eq]%andb_prop.
  destruct (String.eqb_spec l' (pa_LedgerID a)) as [->|]; [|done]. destruct (String.eqb_spec id' (pa_IntentID a)) as [->|]; done.
Qed.

Lemma expire_approvals_steps E c l (w : World) :
  w_tx w = TxNone -> listed "pending" (w_db w) l -> wp E (expire_approvals l) w (fun _ w' => moves c w w').
Proof.
  revert w. induction l as [|a l IH]; intros w Ht [Hnd Hl]; cbn [expire_approvals]; [by apply wp_ret; split|].
  cbn [map] in Hnd. apply NoDup_cons in Hnd as [Hna Hnd]. apply wp_bind.
  eapply wp_mono; [by apply (UpdateApprovalState_spec E (pa_LedgerID a) (pa_IntentID a) stateExpired)|]. intros u w1 Hs.
  assert (Hst : steps c (w_db w) (w_db w1)).
  { eapply settled_steps; [|exact Hs]. intros b x Hb Hib. apply move_expire. eapply (Hl a); [set_solver|done..]. }
  eapply wp_mono; [apply IH; [apply Hs|split; [done|]]|].
  - intros b Hb. eapply settled_other; [|exact Hs|apply Hl; set_solver].
    intros x. apply approval_is_other. intros Heq. apply Hna. apply list_elem_of_fmap. by exists b.
  - intros u2 w2 [Ht2 Hst2]. split; [done|by etransitivity].
Qed.

Lemma reads_events l key : reads (ListLogEventsByIdempotencyKey Pool l key).
Proof.
  unfold ListLogEventsByIdempotencyKey. destruct (String.eqb key EmptyString); [done|]. apply reads_on_err.
  split; [|done]. intros now d a d'. unfold sql_log_by_key. congruence.
Qed.

Lemma recover_approval_steps E c a (w : World) :
  w_tx w = TxNone -> wp E (recover_approval a) w (fun _ w' => moves c w w').
Proof.
  intros Ht. unfold recover_approval. apply wp_reads_bind; [apply reads_events|done|].
  intros [es|e] w1 (Ht1 & Hd1 & _); [|apply wp_ret; split; [done|by rewrite Hd1]].
  cbv zeta. set (s := if bool_decide _ then _ else _). apply wp_bind.
  eapply wp_mono; [by apply (UpdateApprovalStateIf_spec E (pa_LedgerID a) (pa_IntentID a) s)|]. intros u w2 Hs.
  apply wp_ret. split; [apply Hs|]. rewrite <- Hd1. eapply settled_guarded; [|exact Hs].
  unfold s, final, stateExecuted, stateExpired. case_bool_decide; set_solver.
Qed.

Lemma recover_approvals_steps E c l (w : World) :
  w_tx w = TxNone -> wp E (recover_approvals l) w (fun _ w' => moves c w w').
Proof.
  revert w. induction l as [|a l IH]; intros w Ht; cbn [recover_approvals]; [by apply wp_ret; split|].
  apply wp_bind. eapply wp_mono; [by apply (recover_approval_steps E c)|]. intros u w1 [Ht1 H1].
  eapply wp_mono; [by apply IH|]. intros u2 w2 [Ht2 H2]. split; [done|by etransitivity].
Qed.

Lemma reads_list_approvals p n : reads (exec Pool (sql_list_approvals p n)).
Proof. split; [|done]. intros now d a d'. unfold sql_list_approvals. congruence. Qed.

Lemma listed_expired now d :
  approvals_inv (pending_approvals d) ->
  listed "pending" d (map approval_of_row (limit 1000 (List.filter (fun a : approval_row =>
    String.eqb (pa_State a) "pending" && (pa_ExpiresAt a <? pg_ts now)) (pending_approvals d)))).
Proof.
  intros Hi. unfold limit. set (p := fun a : approval_row => _). split.
  - rewrite map_map. change (fun x => record_key (approval_of_row x)) with approval_key.
    assert (Hn : NoDup (map approval_key (List.filter p (pending_approvals d)))).
    { destruct Hi as [Hk _]. induction (pending_approvals d) as [|a t IH]; simpl in *; [done|].
      apply NoDup_cons in Hk as [Ha Hk]. destruct (p a); [|by apply IH]. simpl. apply NoDup_cons. split; [|by apply IH].
      intros (b & Hab & Hb)%list_elem_of_fmap. apply Ha. rewrite Hab. apply list_elem_of_fmap. exists b. split; [done|].
      by apply list_elem_of_In, List.filter_In, proj1, list_elem_of_In in Hb. }
    rewrite <- firstn_map. set (n := Z.to_nat 1000). rewrite <- (take_drop n (map _ _)) in Hn.
    by apply NoDup_app in Hn as [? _].
  - intros r (a & -> & Ha)%list_elem_of_fmap b Hb Hib. apply (subseteq_take _ _ a) in Ha.
    apply list_elem_of_In, List.filter_In in Ha as [Hin [Hp _]%andb_prop]. apply list_elem_of_In in Hin.
    assert (b = a) as ->; [|by apply String.eqb_eq].
    eapply approval_unique; [exact Hi|done|exact Hin|exact Hib|]. simpl. unfold approval_is. by rewrite !String.eqb_refl.
Qed.

Lemma ExpireStaleApprovals_moves E c threshold (w : World) :
  w_tx w = TxNone -> approvals_inv (pending_approvals (w_db w)) ->
  wp E (ExpireStaleApprovals threshold) w (fun _ w' => moves c w w').
Proof.
  intros Ht Hi. unfold ExpireStaleApprovals, ListExpiredApprovals. apply wp_mbind, wp_mbind.
  eapply wp_mono; [apply wp_and; [by apply reads_idle; [apply reads_list_approvals|]|by apply wp_exec_pool]|].
  intros r w1 [(Ht1 & Hd1 & _) Hr].
  destruct r as [rows|e]; [|split; [done|by rewrite Hd1]].
  apply wp_ret, wp_bind. eapply wp_mono; [apply (expire_approvals_steps E c); [done|]|].
  { rewrite Hd1. destruct Hr as [[_ Hr]|(_ & now & a & Hs & [Hr|Hr])]; try done. injection Hr as ->.
    injection Hs as <- _. by apply listed_expired. }
  intros u w2 [Ht2 H2]. unfold ListStuckApprovals. apply wp_mbind, wp_mbind.
  eapply wp_mono; [by apply reads_idle; [apply reads_list_approvals|]|]. intros r w3 (Ht3 & Hd3 & _).
  rewrite Hd1 in H2. destruct r as [rows2|e]; [|split; [done|by rewrite Hd3]].
  apply wp_ret, wp_bind. eapply wp_mono; [by apply (recover_approvals_steps E c)|]. intros u2 w4 [Ht4 H4].
  apply wp_ret. split; [done|]. rewrite Hd3 in H4. by etransitivity.
Qed.

(** ** What the calls leave alone *)

(** Nothing but the approvals and the batches differs. *)
Definition only_approvals (d d' : DB) : Prop := exists b t, d' = set_pending_approvals t (set_log_batches b d).

Lemma only_approvals_same d d' : same_but_batches d d' -> only_approvals d d'.
Proof. intros ->. exists (log_batches d'), (pending_approvals d). by destruct d. Qed.
Lemma only_approvals_refl d : only_approvals d d.
Proof. exists (log_batches d), (pending_approvals d). by destruct d. Qed.
Lemma only_approvals_update p f d : only_approvals d (update_approval p f d).
Proof. eexists (log_batches d), _. by destruct d. Qed.
Lemma only_approvals_trans d1 d2 d3 : only_approvals d1 d2 -> only_approvals d2 d3 -> only_approvals d1 d3.
Proof. intros (b1 & t1 & ->) (b2 & t2 & ->). by exists b2, t2. Qed.

(** Programs whose statements write pending_approvals only. *)
Definition ev_approvals {X} (e : ev X) : Prop :=
  match e with
  | Sql Pool s => forall now d a d', s now d = inr (a, d') -> only_approvals d d'
  | Commit => False
  | _ => True
  end.
Fixpoint writes_approvals {A} (m : prog A) : Prop :=
  match m with Ret _ => True | Vis e k => ev_approvals e /\ forall x, writes_approvals (k x) end.

Lemma writes_approvals_only {A} E (m : prog A) (w : World) :
  writes_approvals m -> wp E m w (fun _ w' => only_approvals (w_db w) (w_db w')).
Proof.
  unfold wp. revert w. induction m as [a|X e k IH]; intros w; simpl; [intros _; apply only_approvals_refl|].
  intros [He Hk].
  assert (Hs : let '(_, w1) := Prog.step E e w in only_approvals (w_db w) (w_db w1)).
  { assert (Hr : only_approvals (w_db w) (w_db w)) by apply only_approvals_refl.
    destruct e as [| | |? [] s| | | | | | | | | | | | | | |? rk s]; simpl in *; try done.
    - unfold sql_pool. destruct (e_fault E (w_tick w)) as [[]|]; try done.
      all: destruct (s _ (w_db w)) as [c|[a d']] eqn:Es; [done|]; by apply He in Es.
    - unfold sql_tx. destruct (w_tx w); try done. destruct (e_fault E (w_tick w)); [done|]. by destruct (s start d) as [c|[a d']].
    - by destruct (e_fault E (w_tick w)).
    - by destruct (e_evicted E (w_tick w)).
    - by destruct (e_fault E (w_tick w)) as [[]|].
    - by destruct (e_fault E (w_tick w)) as [[]|].
    - by destruct (f (w_mgr w)).
    - by destruct (e_fault E (w_tick w)) as [[]|].
    - unfold sql_tx. destruct (w_tx w); try done. destruct (e_fault E (w_tick w)); [done|]. by destruct (s start d) as [c|[a d']]. }
  destruct (Prog.step E e w) as [x w1]. specialize (IH x (tick w1) (Hk x)).
  destruct (run E (k x) (tick w1)). by eapply only_approvals_trans.
Qed.

Lemma writes_pbind {A B} (m : prog A) (f : A -> prog B) :
  writes_approvals m -> (forall a, writes_approvals (f a)) -> writes_approvals (pbind m f).
Proof.
  intros Hm Hf. induction m as [a|X e k IH]; [apply Hf|]. destruct Hm as [He Hk]. split; [done|]. intros x. apply IH, Hk.
Qed.
Lemma writes_mbind {A B} (m : M A) (f : A -> M B) :
  writes_approvals m -> (forall a, writes_approvals (f a)) -> writes_approvals (mbind m f).
Proof. intros Hm Hf. apply writes_pbind; [done|]. by intros []. Qed.
Lemma reads_writes {A} (m : prog A) : reads m -> writes_approvals m.
Proof.
  induction m as [a|X e k IH]; [done|]. intros [He Hk]. split; [|intros x; by apply IH, Hk].
  destruct e as [| | |? [] s| | | | | | | | | | | | | | |]; try done. simpl in *. intros now d a d' Hs.
  rewrite (He _ _ _ _ Hs). apply only_approvals_refl.
Qed.
Lemma writes_update p f : writes_approvals (exec Pool (sql_update_approval p f)).
Proof. split; [|done]. intros now d a d' [_ ->]%sql_update_approval_inv. apply only_approvals_update. Qed.
Lemma writes_set_state l id s : writes_approvals (UpdateApprovalState Pool l id s).
Proof. apply writes_mbind; [apply writes_update|done]. Qed.
Lemma writes_set_state_if l id s s' : writes_approvals (UpdateApprovalStateIf Pool l id s s').
Proof. apply writes_mbind; [apply writes_update|done]. Qed.

Lemma writes_SubmitForApproval l payload approvers by_ expires : writes_approvals (SubmitForApproval l payload approvers by_ expires).
Proof.
  apply writes_mbind; [apply reads_writes, reads_checkLedgerNotSealed|]. intros _. split; [done|]. intros id. split; [done|]. intros now.
  apply writes_mbind; [|done]. split; [|done]. intros t d a d' Hs. unfold sql_insert_approval in Hs. simpl in Hs.
  destruct payload, approvers; try done. apply with_table_inv in Hs as (rows & _ & ->). exists (log_batches d), rows. by destruct d.
Qed.
Lemma writes_ExpireStaleApprovals threshold : writes_approvals (ExpireStaleApprovals threshold).
Proof.
  apply writes_mbind; [apply writes_mbind; [apply reads_writes, reads_list_approvals|done]|]. intros l. apply writes_pbind.
  { induction l as [|a l IH]; [done|]. apply writes_pbind; [apply writes_set_state|done]. }
  intros _. apply writes_mbind; [apply writes_mbind; [apply reads_writes, reads_list_approvals|done]|]. intros l2. apply writes_pbind; [|done].
  induction l2 as [|a l2 IH]; [done|]. apply writes_pbind; [|done]. apply writes_pbind; [apply reads_writes, reads_events|].
  intros [es|e]; [|done]. apply writes_pbind; [apply writes_set_state_if|done].
Qed.

(** A row that left "pending" does not come back. *)
Definition started (l id : string) (d : DB) : Prop :=
  exists a, a ∈ pending_approvals d /\ approval_is l id a = true /\ pa_State a <> "pending".

Lemma approval_step_started l id t t' :
  approval_step t t' -> (exists a, a ∈ t /\ approval_is l id a = true /\ pa_State a <> "pending") ->
  exists a, a ∈ t' /\ approval_is l id a = true /\ pa_State a <> "pending".
Proof.
  intros Hs (a & Ha & Hk & Hp). destruct Hs as [b t _ _ _|p f t Hm]; [exists a; split_and!; [set_solver|done..]|].
  exists (if p a then f a else a). split; [apply list_elem_of_fmap; by exists a|]. destruct (p a) eqn:Ep; [|done].
  destruct (Hm a Ha Ep) as [e x Hx _|x y Hx|x y Hx _|s x y Hx Hf]; try done. split; [exact Hk|]. simpl. set_solver.
Qed.
Lemma step_approvals c d d' :
  step c d d' -> pending_approvals d' = pending_approvals d \/ approval_step (pending_approvals d) (pending_approvals d').
Proof.
  intros [(l & b & Ho%op_done_approvals)|Ha]%step_cases; [by left|].
  destruct Ha as [d d' Hb|b d|r d _|now id d|t d Ha|ev d _|t d]; [left; by rewrite Hb|by left..|by right|by left|by left].
Qed.
Lemma steps_started c l id d d' : steps c d d' -> started l id d -> started l id d'.
Proof.
  induction 1 as [d|d d1 d' Hs _ IH]; [done|]. intros Hd. apply IH.
  destruct (step_approvals _ _ _ Hs) as [Heq|Ha]; unfold started in *; [by rewrite Heq|by eapply approval_step_started].
Qed.

(** What one approval executes: nothing; or the row was pending, the caller completed its
    signatures, and it is pending no more. *)
Definition executes_complete (l id p : string) (d d' : DB) : Prop :=
  (exists row, find_approval l id d = Some row /\ pa_State row = "pending" /\ may_sign p row /\
     forall q, q ∈ named row -> q = "" \/ q = p \/ q ∈ signed_by row) /\
  started l id d'.

Lemma Approve_executes E l id p sg (w : World) :
  w_tx w = TxNone -> approvals_inv (pending_approvals (w_db w)) ->
  wp E (Approve l id p sg) w (fun _ w' => only_approvals (w_db w) (w_db w') \/ executes_complete l id p (w_db w) (w_db w')).
Proof.
  intros Ht Hi. eapply wp_mono; [by apply Approve_spec|]. intros r w' [[Hu _]|(t0 & dec & d1 & row & Hd & _ & _ & Hx)].
  { left. apply only_approvals_same, Hu. }
  pose proof (decided_steps false _ _ _ _ _ _ _ _ Hi Hd) as [_ Hex].
  assert (Honly : only_approvals (w_db w) d1).
  { destruct Hd as [x d' _ ->%state_set_now|x e d1 row1 (_ & _ & _ & _ & -> & _) _|x e d1 row1 d' (_ & _ & _ & _ & -> & _) _ ->%state_set_now];
      eauto using only_approvals_trans, only_approvals_update. }
  destruct Hx as [(_ & -> & _)|Hx]; [by left|]. destruct dec as [| |a]; [left; by destruct Hx as (_ & -> & _)..|]. right.
  destruct Hx as (w1 & _ & Hd1 & He). assert (Hr : rows_in l id "executing" (w_db w1)) by (rewrite Hd1; by eapply Hex).
  inversion Hd as [| |x e dx row1 dy Hs Hc Hset Heq1 Heq2]; subst. pose proof Hs as (Ho & Hm & Hp & _ & _ & Hf).
  pose proof (signed_steps false _ _ _ _ _ _ _ _ _ Hi Hs) as [_ ->]. split.
  - exists x. split_and!; [apply Ho|apply Ho|exact Hm|]. intros q Hq. destruct (Hc q Hq) as [->|Hin]; [by left|right].
    rewrite signed_by_sign, elem_of_app, list_elem_of_singleton, Hp in Hin. tauto.
  - eapply steps_started; [eapply (execution_steps E l id _ w1 r w'); [exact Hr|exact He]|].
    apply state_set_now in Hset. apply find_approval_is in Hf as [Hin Hk].
    exists (set_state "executing" (fun now _ => Some (pg_ts now)) t0 (sign e x)). rewrite Hset. split_and!; [|exact Hk|done].
    simpl. apply list_elem_of_fmap. exists (sign e x). by rewrite Hk.
Qed.
End Approvals.
