(* ===== verification/ServiceLogic.v ===== *)
(** * What holds of the whole service

    A [ServiceLogic] is a property of programs that is closed under composition and holds
    of what the handlers and the worker call: the planner's operations, the store's, the
    programs that only read. It then holds of every RPC behind its interceptors
    (RpcSteps.v), of the worker (Worker.v) and of every request (Service.v), which are
    proved once against this interface. Its instances: [moving] (Moves.v), for requests
    one after the other, and [obeys] (Concurrent.v), for requests that interleave. *)
From S2P Require Import Prelude GoStd Regex Accounts Assets Policy Sha256 Json Storage Db Prog.
From S2P Require Import Logic Postgres BatchManager Redis Chart Planner Cores Operations IntentJson Approval Proto Auth RateLimit Grpc Queries Transfer.
From S2P Require Import Bodies StoreRules Effects Requests Intents Checkpoint.

(** [c]: only of the operations that are safe (Ledger.v). [imports]: of the import RPC too. *)
Class ServiceLogic `{Deps} (c imports : bool) (P : forall A, prog A -> Prop) : Prop := {
  sl_ret {A} (a : A) : P A (Ret a);
  sl_pbind {A B} (m : prog A) (f : A -> prog B) : P A m -> (forall a, P B (f a)) -> P B (pbind m f);
  sl_reads {A} (m : prog A) : reads m -> P A m;
  sl_tx_ok {A} (m : prog A) : tx_ok m -> P A m;
  sl_submission c0 l key m : submission c0 l key m -> (c = true -> c0 = true) -> P _ m;
  sl_dry l ps ref meta key vt : P _ (SubmitPost l ps ref meta key vt true);
  sl_Batch l intents mode : (c = true -> forallb safe_intent intents = true) -> P _ (SubmitBatch l intents mode);
  sl_Deny l principal reason : P _ (WritePolicyDenialEvent l principal reason);
  sl_Create params : P _ (CreateLedger Pool params);
  sl_Seal l : P _ (SealLedger Pool l);
  sl_Expire fuel : P _ (ExpireHolds fuel);
  sl_ForApproval l payload approvers by_ expires : P _ (SubmitForApproval l payload approvers by_ expires);
  sl_Approve l id principal signature : c = false -> P _ (Approve l id principal signature);
  sl_ExpireApprovals threshold : P _ (ExpireStaleApprovals threshold);
  sl_Checkpoints : P _ BuildCheckpoints;
  sl_Import principal events broken : imports = true -> P _ (import_stream principal events broken 0 ∅)
}.

Section Rules.
Context `{Deps} {c imports : bool} {P : forall A, prog A -> Prop} `{!ServiceLogic c imports P}.
Arguments P {A}.

Lemma sl_reply_bind {A B} (m : prog (reply A)) (f : A -> prog (reply B)) : P m -> (forall a, P (f a)) -> P (reply_bind m f).
Proof. intros Hm Hf. apply sl_pbind; [done|]. intros [a|k e]; [apply Hf|apply sl_ret]. Qed.
Lemma sl_call_or {A} (f : error -> reply A) (m : M A) : P m -> P (call_or f m).
Proof. intros Hm. apply sl_pbind; [done|]. intros r. apply sl_ret. Qed.
(** A guard that reads, and what follows it. *)
Lemma sl_after {A B} (m : prog (reply A)) (f : A -> prog (reply B)) : reads m -> (forall a, P (f a)) -> P (reply_bind m f).
Proof. intros Hm. apply sl_reply_bind. by apply sl_reads. Qed.
(** A call to the planner, and its answer. *)
Lemma sl_call {A B} (f : error -> reply A) (m : M A) (g : A -> reply B) : P m -> P (let! a := call_or f m in Ret (g a)).
Proof. intros Hm. apply sl_reply_bind; [by apply sl_call_or|]. intros a. apply sl_ret. Qed.
(** An intent of the planner. *)
Lemma sl_submit {B} c0 l key (m : M SubmitResult) (g : SubmitResult -> reply B) :
  submission c0 l key m -> (c = true -> c0 = true) -> P (let! a := planner_call m in Ret (g a)).
Proof. intros Hm Hc. by eapply sl_call, sl_submission. Qed.
(** A message that is parsed before. *)
Lemma sl_parsed {A B} (r : reply A) (f : A -> prog (reply B)) :
  (forall a, r = Reply a -> P (f a)) -> P (let! a := Ret r in f a).
Proof. intros Hf. destruct r as [a|k e]; [by apply (Hf a)|apply (sl_ret (Status k e))]. Qed.
End Rules.
