(* ===== verification/Moves.v ===== *)
(** * What every operation of the service moves

    [moving]: from a reachable database, a program takes the database along steps of
    Ledger.v, whatever fails. It is closed under the ways programs are composed, and
    holds of the planner's operations, the store's, and the background jobs. *)
From S2P Require Import Prelude GoStd Regex Accounts Assets Policy Sha256 Json Storage Db Prog.
From S2P Require Import Logic Postgres BatchManager Redis Chart Planner Cores Operations IntentJson Approval Bodies StoreRules.
From S2P Require Import Effects ApprovalSteps Ledger Solvency Requests Intents Batches Expiry Checkpoint Approvals ServiceLogic.

(** [c]: the steps are safe ones. *)
Definition moving {A} (E : Env) (c : bool) (m : prog A) : Prop :=
  forall w : World, reachable (w_db w) -> w_tx w = TxNone -> wp E m w (fun _ w' => moves c w w').

Section Composition.
Context (E : Env) (c : bool).

Lemma moving_ret {A} (a : A) : moving E c (Ret a).
Proof. intros w _ Ht. by apply wp_ret; split. Qed.
Lemma moving_pbind {A B} (m : prog A) (f : A -> prog B) :
  moving E c m -> (forall a, moving E c (f a)) -> moving E c (pbind m f).
Proof.
  intros Hm Hf w Hr Ht. apply wp_bind. eapply wp_mono; [by apply Hm|]. intros a w1 [Ht1 H1].
  eapply wp_mono; [apply Hf; [by eapply reachable_steps|done]|]. intros b w2 [Ht2 H2]. split; [done|by etransitivity].
Qed.
Lemma moving_mbind {A B} (m : M A) (f : A -> M B) : moving E c m -> (forall a, moving E c (f a)) -> moving E c (mbind m f).
Proof. intros Hm Hf. apply moving_pbind; [done|]. intros [a|e]; [apply Hf|apply moving_ret]. Qed.
Lemma moving_on_err {A} (m : M A) f : moving E c m -> moving E c (on_err m f).
Proof. intros Hm. apply moving_pbind; [done|]. intros r. apply moving_ret. Qed.
Lemma moving_wrap {A} s (m : M A) : moving E c m -> moving E c (wrap s m).
Proof. intros Hm. apply moving_pbind; [done|]. intros r. apply moving_ret. Qed.

Lemma moving_untouched {A} (m : prog A) :
  (forall w, w_tx w = TxNone -> wp E m w (fun _ w' => untouched w w')) -> moving E c m.
Proof. intros Hm w _ Ht. eapply wp_mono; [by apply Hm|]. intros a w'. apply untouched_moves. Qed.
Lemma moving_reads {A} (m : prog A) : reads m -> moving E c m.
Proof. intros Hm. apply moving_untouched. intros w Ht. eapply wp_mono; [by apply reads_idle|]. intros a w'. apply idle_untouched. Qed.
Lemma moving_tx_ok {A} (m : prog A) : tx_ok m -> moving E c m.
Proof. intros Hm. apply moving_untouched. intros w. by apply run_closed. Qed.
Lemma moving_moves {A} (m : prog A) :
  (forall w, w_tx w = TxNone -> wp E m w (fun _ w' => moves c w w')) -> moving E c m.
Proof. intros Hm w _. apply Hm. Qed.
End Composition.

Lemma pool_stmt_close b root n : pool_stmt (sql_close_batch b root n).
Proof. right. intros now d1 d2 Hd. unfold sql_close_batch. by rewrite <- Hd. Qed.

Section Moves.
Context `{Deps} (tz : Z -> Z).

Lemma tx_ok_closeBatch l b : tx_ok (closeBatch tz l b).
Proof.
  unfold closeBatch, ListBatchEvents, CloseBatch. apply tx_ok_mbind.
  - apply tx_ok_wrap, tx_ok_wrap, tx_ok_exec_pool. apply (pool_stmt_select (fun _ d => _)).
  - intros [|e es]; [done|]. apply tx_ok_wrap, tx_ok_wrap, tx_ok_exec_pool, pool_stmt_close.
Qed.
Lemma tx_ok_close_attempts left backoff l b : tx_ok (close_attempts tz left backoff l b).
Proof.
  revert backoff. induction left as [|left IH]; intros backoff; cbn [close_attempts];
    (apply tx_ok_pbind; [apply tx_ok_closeBatch|intros []; [done|]]); [done|].
  apply tx_ok_pbind; [by split|]. intros j. apply tx_ok_pbind; [by split|]. intros []; cbn [negb]; [apply IH|done].
Qed.
Lemma tx_ok_closeBatchWithRetry l b : tx_ok (closeBatchWithRetry tz l b).
Proof.
  apply tx_ok_pbind; [by split|]. intros []; simpl; [|done].
  apply (tx_ok_pbind (close_attempts tz maxCloseRetries initialCloseBackoff l b)); [apply tx_ok_close_attempts|by split].
Qed.
Lemma tx_ok_close_all bs : tx_ok (close_all tz bs).
Proof. induction bs as [|[l b] bs IH]; cbn [close_all]; [done|]. apply tx_ok_pbind; [apply tx_ok_closeBatchWithRetry|auto]. Qed.
Lemma tx_ok_CloseExpiredBatches age : tx_ok (CloseExpiredBatches age tz).
Proof.
  unfold CloseExpiredBatches. apply tx_ok_pbind; [apply tx_ok_now|]. intros now.
  apply tx_ok_pbind; [by split|]. intros bs. apply tx_ok_pbind; [by split|]. intros bs'.
  apply tx_ok_pbind; [apply tx_ok_close_all|]. intros _. apply tx_ok_pbind.
  - apply tx_ok_wrap, tx_ok_exec_pool. apply (pool_stmt_select (fun _ d => _)).
  - intros []; [apply tx_ok_close_all|done].
Qed.

Lemma submission_moves E c c' l key m (w : World) :
  submission c l key m -> (c' = true -> c = true) -> w_tx w = TxNone -> wp E m w (fun _ w' => moves c' w w').
Proof.
  intros Hm Hc Ht. eapply wp_mono; [by apply (submission_submitted E c l key)|]. intros r w' Hs.
  apply (submitted_ops E c l key) in Hs as (Ht' & n & _ & Ho & _). split; [done|].
  eapply ops_steps, ops_weaken; [|exact Ho]. done.
Qed.

Lemma wp_weaken_err {A} E (m : M A) f (w : World) (Q : World -> Prop) :
  wp E m w (fun _ w' => Q w') -> wp E (on_err m f) w (fun _ w' => Q w').
Proof. intros Hm. apply wp_bind. eapply wp_mono; [exact Hm|]. done. Qed.

Lemma find_ledger_none l d : existsb (fun x => String.eqb l (lr_ID x)) (ledgers d) = false -> find_ledger l d = None.
Proof. unfold find_ledger. induction (ledgers d) as [|x ls IH]; simpl; [done|]. by destruct (String.eqb l (lr_ID x)). Qed.

Lemma CreateLedger_moves E c params (w : World) :
  w_tx w = TxNone -> wp E (CreateLedger Pool params) w (fun _ w' => moves c w w').
Proof.
  intros Ht. unfold CreateLedger. set (b := if String.eqb _ _ then _ else _).
  apply wp_mbind, wp_wrap. eapply wp_mono; [by apply wp_exec_pool|].
  intros r w1 Hr. assert (Hm : moves c w w1).
  { destruct Hr as [[Hu _]|(Ht1 & now & a & Hs & _)]; [by apply untouched_moves|]. split; [done|].
    injection Hs as _ <-. case_match; [constructor|]. apply rtc_once, step_bucket. }
  destruct r as [[]|e]; simpl; [|done]. apply wp_weaken_err.
  eapply wp_mono; [apply wp_exec_pool, Hm|]. intros r2 w2 [[Hu _]|(Ht2 & now & a & Hs & _)].
  - destruct Hm as [_ Hm], (untouched_moves c _ _ Hu) as [H1 H2]. split; [done|by etransitivity].
  - split; [done|]. destruct Hm as [_ Hm]. etransitivity; [exact Hm|]. apply rtc_once.
    unfold sql_insert_ledger in Hs. destruct (existsb _ (ledgers _)) eqn:Ex; [done|].
    destruct (negb _); [done|]. injection Hs as _ <-. apply step_create. split; [|by split]. simpl.
    by apply find_ledger_none.
Qed.

Lemma SealLedger_moves E c l (w : World) :
  w_tx w = TxNone -> wp E (SealLedger Pool l) w (fun _ w' => moves c w w').
Proof.
  intros Ht. apply wp_weaken_err. apply wp_mbind. eapply wp_mono; [by apply wp_exec_pool|].
  intros r w1 Hr. assert (Hm : moves c w w1).
  { destruct Hr as [[Hu _]|(Ht1 & now & a & Hs & _)]; [by apply untouched_moves|]. split; [done|].
    injection Hs as _ <-. apply rtc_once. apply (step_seal c now l). }
  by destruct r as [[]|e].
Qed.

Lemma DryRun_untouched E l ps ref meta key vt (w : World) :
  w_tx w = TxNone -> wp E (SubmitPost l ps ref meta key vt true) w (fun _ w' => untouched w w').
Proof.
  intros Ht. unfold SubmitPost. destruct (validatePostings ps) as [[]|e]; [|by apply wp_ret].
  cbv zeta. apply wp_mbind, wp_ret, wp_mbind.
  eapply wp_mono; [by apply reads_idle; [apply reads_checkLedgerNotSealed|]|].
  intros [ledger|e] w1 Hi; [|by apply wp_ret, idle_untouched].
  apply wp_reads_bind; [by split|apply Hi|]. intros now w2 Hi2.
  eapply wp_mono; [apply submit_dry_spec; [apply Hi2|auto with tx_ok]|].
  intros r w3. apply untouched_trans, idle_untouched. by eapply idle_trans.
Qed.

Lemma BuildCheckpoints_moves E c (w : World) : w_tx w = TxNone -> wp E BuildCheckpoints w (fun _ w' => moves c w w').
Proof.
  intros Ht. eapply wp_mono; [by apply BuildCheckpoints_spec|]. intros r w' (Ht' & [Hr _] & _). split; [done|].
  eapply rtc_l; [apply step_checkpoint|]. by apply rtc_once, step_batches.
Qed.

(** ** The operations *)

Section Operations.
Context (E : Env) (c : bool).

Lemma moving_submission c0 l key m : submission c0 l key m -> (c = true -> c0 = true) -> moving E c m.
Proof. intros Hm Hc. apply moving_moves. intros w. by eapply submission_moves. Qed.
Lemma moving_dry l ps ref meta key vt : moving E c (SubmitPost l ps ref meta key vt true).
Proof. apply moving_untouched. intros w. apply DryRun_untouched. Qed.
Lemma moving_Batch l intents mode : (c = true -> forallb safe_intent intents = true) -> moving E c (SubmitBatch l intents mode).
Proof. intros Hc. apply moving_moves. intros w Ht. by apply SubmitBatch_steps. Qed.
Lemma moving_Deny l principal reason : moving E c (WritePolicyDenialEvent l principal reason).
Proof.
  apply moving_moves. intros w Ht. eapply wp_mono; [by apply writePolicyDenialEvent_spec|].
  intros r w' [Ht' [[Hu _]|[(t0 & x & Hd) _]]]; [by apply untouched_moves|]. split; [done|].
  apply rtc_once. eapply safe_step, done_metadata; [|exact Hd]. by constructor.
Qed.
Lemma moving_Create params : moving E c (CreateLedger Pool params).
Proof. apply moving_moves. intros w. apply CreateLedger_moves. Qed.
Lemma moving_Seal l : moving E c (SealLedger Pool l).
Proof. apply moving_moves. intros w. apply SealLedger_moves. Qed.
Lemma moving_Expire fuel : moving E c (ExpireHolds fuel).
Proof. apply moving_moves. intros w. apply (ExpireHolds_steps E c). Qed.
Lemma moving_close l b : moving E c (closeBatchWithRetry tz l b).
Proof. apply moving_tx_ok, tx_ok_closeBatchWithRetry. Qed.
Lemma moving_close_expired age : moving E c (CloseExpiredBatches age tz).
Proof. apply moving_tx_ok, tx_ok_CloseExpiredBatches. Qed.
Lemma moving_ForApproval l payload approvers by_ expires : moving E c (SubmitForApproval l payload approvers by_ expires).
Proof. apply moving_moves. intros w. apply SubmitForApproval_moves. Qed.
Lemma moving_Approve l id principal signature : c = false -> moving E c (Approve l id principal signature).
Proof. intros -> w Hr Ht. apply Approve_moves; [done|by apply reachable_approvals]. Qed.
Lemma moving_ExpireApprovals threshold : moving E c (ExpireStaleApprovals threshold).
Proof. intros w Hr Ht. apply ExpireStaleApprovals_moves; [done|by apply reachable_approvals]. Qed.
Lemma moving_Checkpoints : moving E c BuildCheckpoints.
Proof. apply moving_moves. intros w. apply BuildCheckpoints_moves. Qed.
End Operations.
End Moves.
