(* ===== verification/Concurrent.v ===== *)
(** * What every request promises the others

    [obeys]: at READ COMMITTED, whatever the other requests commit in between, a program
    makes the committed database take the steps of Raced.v only. It is closed under the
    ways programs are composed, and holds of the planner's operations, the store's and the
    background jobs. *)
From S2P Require Import Prelude GoStd Regex Accounts Assets Policy Sha256 Json Storage Db Prog.
From S2P Require Import Logic Postgres Bodies Interleaving BatchManager Redis Chart Planner Cores Operations IntentJson Approval Transfer.
From S2P Require Import StoreRules Effects ApprovalSteps Ledger Raced Requests Intents Batches Expiry Checkpoint Approvals ServiceLogic Moves.

(** Outside of a transaction, and back. *)
Definition outside {A} (_ : A) (st : stage) : Prop := st = Outside.
Definition obeys {A} (m : prog A) : Prop := conforms raced Outside m outside.

(** In a transaction whose writes so far are steps, and whose view satisfies [P]. *)
Definition within_tx (P : DB -> Prop) (st : stage) : Prop :=
  match st with Outside => False | Inside _ _ c d => raced c d /\ P d | Untracked => True end.

(** ** Composition *)

Lemma obeys_ret {A} (a : A) : obeys (Ret a).
Proof. done. Qed.
Lemma obeys_pbind {A B} (m : prog A) (f : A -> prog B) : obeys m -> (forall a, obeys (f a)) -> obeys (pbind m f).
Proof. intros Hm Hf. apply conforms_pbind. eapply conforms_mono; [exact Hm|]. intros a st ->. apply Hf. Qed.
Lemma obeys_mbind {A B} (m : M A) (f : A -> M B) : obeys m -> (forall a, obeys (f a)) -> obeys (mbind m f).
Proof. intros Hm Hf. apply obeys_pbind; [done|]. intros [a|e]; [apply Hf|done]. Qed.
Lemma obeys_on_err {A} (m : M A) f : obeys m -> obeys (on_err m f).
Proof. intros Hm. by apply obeys_pbind. Qed.
Lemma obeys_tx_ok {A} (m : prog A) : tx_ok m -> obeys m.
Proof. intros Hm. by apply conforms_closed; [apply raced_batches| |]. Qed.
Lemma obeys_reads {A} (m : prog A) : reads m -> obeys m.
Proof.
  unfold obeys. intros Hm. induction m as [a|X e k IH]; [done|]. destruct Hm as [He Hk].
  destruct e as [| | |? [] s| | | | | | | | | | | | | | |? rk s]; try done; simpl in *; try (intros x; by apply IH).
  - split; [by apply read_publishes|]. intros r. by apply IH.
  - intros l' _. by apply IH.
Qed.
(** A statement that is a transaction of its own. *)
Lemma obeys_exec {A} (s : stmt A) : publishes raced s -> obeys (exec Pool s).
Proof. intros Hs. by split. Qed.
Lemma obeys_publishEvent `{Deps} l event ty : obeys (publishEvent l event ty).
Proof. unfold publishEvent. by destruct (negb has_subs). Qed.

(** ** Transactions *)

Lemma conforms_work {A} (P : DB -> Prop) (P' : A -> DB -> Prop) st (work : M A) Q :
  within_tx P st -> tx_ok work ->
  (forall t0 d, P d -> rcs t0 work d (on_ok (fun a d' => raced d d' /\ P' a d'))) ->
  (forall a st', within_tx (P' a) st' -> Q (Ok a) st') -> (forall e st', Q (Err e) st') ->
  conforms raced st work Q.
Proof.
  intros Hst Hok Hw HQ HE. destruct st as [|t0 K c d|]; [done| |].
  - destruct Hst as [Hr HP]. apply conforms_body; [done|]. eapply rcwp_mono; [by apply Hw|].
    intros [a|e] K' d' H'; [|apply HE]. apply HQ. destruct H' as [H1 H2]. split; [by etransitivity|done].
  - apply conforms_untracked; [done|]. intros [a|e]; [by apply HQ|apply HE].
Qed.
Lemma conforms_commit P st (Q : result unit -> stage -> Prop) :
  within_tx P st -> (forall r, Q r Outside) -> conforms raced st TxCommit Q.
Proof. intros Hst HQ. split; [|done]. destruct st; [done|apply Hst|done]. Qed.

(** From [BeginTx] to the deferred rollback. *)
Definition begins (b : M unit) : Prop := forall Q,
  (forall st, within_tx (fun _ => True) st -> Q (Ok tt) st) -> (forall e, Q (Err e) Outside) -> conforms raced Outside b Q.
Lemma begins_tx : begins BeginTx.
Proof.
  intros Q HQ HE. apply conforms_pbind. split_and!; [done|..]; [intros t0 c|..|intros code; apply HE]; by apply HQ.
Qed.
Lemma begins_wrap msg : begins (wrap msg BeginTx).
Proof. intros Q HQ HE. apply conforms_wrap, begins_tx; [exact HQ|intros; apply HE]. Qed.

Lemma obeys_tx {A} b (body : M A) :
  begins b -> (forall st, within_tx (fun _ => True) st -> conforms raced st body (fun _ _ => True)) ->
  obeys (let* _ := b in with_rollback body).
Proof.
  intros Hb Hw. apply conforms_mbind, Hb; [|done]. intros st Hst.
  apply conforms_pbind. eapply conforms_mono; [by apply Hw|]. done.
Qed.
Lemma conforms_wrap_commit P st msg (Q : result unit -> stage -> Prop) :
  within_tx P st -> (forall r, Q r Outside) -> conforms raced st (wrap msg TxCommit) Q.
Proof. intros Hst HQ. apply conforms_wrap. by eapply conforms_commit. Qed.

(** What is done after the commit. *)
Lemma obeys_after {A} (m : prog A) Q : obeys m -> (forall a, Q a Outside) -> conforms raced Outside m Q.
Proof. intros Hm HQ. eapply conforms_mono; [exact Hm|]. by intros a st ->. Qed.
Lemma obeys_anything {A} (m : prog A) : obeys m -> conforms raced Outside m (fun _ _ => True).
Proof. intros Hm. by apply obeys_after. Qed.

(** ** Submissions *)

Section Submissions.
Context `{Deps}.

(** An attempt: its core races, and a dry run rolls it back. *)
Lemma obeys_attempt l key ikh ty dry (work : M SubmitResult) : races work -> obeys (submit_attempt l key ikh ty dry work).
Proof.
  intros [Hok Hw]. apply obeys_tx; [apply begins_wrap|]. intros st Hst. apply conforms_mbind.
  eapply (conforms_work (fun _ => True) (fun _ _ => True)); [done|done| | |done].
  { intros t0 d _. eapply tl_mono; [by apply Hw|]. apply on_ok_mono. done. }
  intros r st' Hst'. destruct dry; [done|]. apply conforms_mbind. eapply conforms_wrap_commit; [done|]. intros [[]|e]; [|done].
  apply obeys_anything. apply obeys_pbind; [by destruct (negb _)|]. intros _.
  apply obeys_pbind; [apply obeys_publishEvent|done].
Qed.

Lemma obeys_retry {A} p mb left backoff (fn : M A) : obeys fn -> obeys (retry p mb left backoff fn).
Proof.
  intros Hfn. revert backoff. induction left as [|left IH]; intros backoff; cbn [retry];
    (apply obeys_pbind; [done|]; intros [a|e]; [done|]; destruct (negb (p e)); [done|]); [done|].
  apply obeys_pbind; [done|]. intros j. apply obeys_pbind; [done|]. intros g. destruct (negb g); [done|]. apply IH.
Qed.

Lemma obeys_submit l key ikh ty dry (work : M SubmitResult) :
  races work -> obeys (submitWithIdempotency l key ikh ty dry work).
Proof.
  intros Hw. unfold submitWithIdempotency. apply obeys_mbind.
  { destruct (negb _); [apply obeys_reads, reads_checkIdempotency|done]. }
  intros [a|]; [done|]. apply obeys_pbind; [by apply obeys_retry, obeys_attempt|]. intros [a|e]; [done|].
  destruct (_ && _); [apply obeys_reads, reads_resolve|done].
Qed.

Lemma obeys_submission c l key m : submission c l key m -> obeys m.
Proof.
  destruct 1 as [e|ikh ty work _ Hw _]; [done|]. apply obeys_mbind; [apply obeys_reads, reads_checkLedgerNotSealed|].
  intros ledger. apply obeys_pbind; [done|]. intros now. by apply obeys_submit.
Qed.

Lemma obeys_dry l ps ref meta key vt : obeys (SubmitPost l ps ref meta key vt true).
Proof.
  unfold SubmitPost. destruct (validatePostings ps) as [[]|e]; [|done]. cbv zeta. cbn [lift].
  apply obeys_mbind; [done|]. intros _. apply obeys_mbind; [apply obeys_reads, reads_checkLedgerNotSealed|].
  intros ledger. apply obeys_pbind; [done|]. intros now. apply obeys_submit. split; [auto with tx_ok|]. intros t0 d.
  eapply tl_mono; [apply doPostInTx_dry_spec|]. apply on_ok_mono. intros r d' [Hs _]. by apply raced_batches.
Qed.

(** ** Batches *)

Lemma batch_raced t0 l intents done_ d :
  rcs t0 (batch_in_tx l intents done_) d (fun x d' => snd x = None -> raced d d').
Proof.
  revert done_ d. induction intents as [|i rest IH]; intros acc d; cbn [batch_in_tx]; [by apply tl_ret|].
  apply tl_bind. eapply tl_mono; [apply intent_races|]. intros [r|e] d1 H1; [|by apply tl_ret].
  eapply tl_mono; [apply IH|]. intros x d2 H2 Hx. etransitivity; [exact H1|by apply H2].
Qed.

Lemma obeys_best_effort l intents : obeys (batch_best_effort l intents).
Proof.
  induction intents as [|i rest IH]; cbn [batch_best_effort]; [done|].
  apply obeys_pbind; [by eapply obeys_submission, executeIntent_submission|]. intros r. by apply obeys_pbind.
Qed.

Lemma obeys_Batch l intents mode : obeys (SubmitBatch l intents mode).
Proof.
  unfold SubmitBatch. apply obeys_pbind; [apply obeys_reads, reads_checkLedgerNotSealed|]. intros [ledger|e]; [|done].
  destruct (String.eqb mode "ALL_OR_NOTHING").
  - apply conforms_pbind, begins_wrap; [|done]. intros st Hst. apply conforms_pbind.
    assert (Hend : forall (r : option BatchResult * option error) st', conforms raced st' (let+ _ := TxRollback in Ret r) outside) by done.
    apply conforms_pbind. 
    assert (Hloop : conforms raced st (batch_in_tx l intents []) (fun x st' => snd x = None -> within_tx (fun _ => True) st')).
    { destruct st as [|t0 K c d|]; [done| |].
      - apply conforms_body; [apply tx_ok_batch|]. eapply rcwp_mono; [apply batch_raced|].
        intros x K' d' Hx Hn. split; [|done]. etransitivity; [apply Hst|by apply Hx].
      - apply conforms_untracked; [apply tx_ok_batch|done]. }
    eapply conforms_mono; [exact Hloop|]. intros [results [[i e]|]] st' Hx; [apply Hend|].
    apply conforms_pbind. eapply conforms_commit; [by apply Hx|]. intros [[]|e]; apply Hend.
  - destruct (String.eqb mode "BEST_EFFORT"); [|done]. apply obeys_pbind; [apply obeys_best_effort|done].
Qed.

(** ** Ledgers *)

Lemma obeys_Create params : obeys (CreateLedger Pool params).
Proof.
  unfold CreateLedger. apply obeys_mbind.
  - apply obeys_on_err, obeys_exec. intros now c a c' [= _ <-]. case_match; [by left|right]. split; [|done].
    apply raced_once, raced_admin; [apply admin_bucket|done].
  - intros []. apply obeys_on_err, obeys_exec. intros now c a c' Hs. right.
    unfold sql_insert_ledger in Hs. destruct (existsb _ (ledgers _)) eqn:Ex; [done|].
    destruct (negb _); [done|]. injection Hs as _ <-. split; [|done].
    apply raced_once, raced_admin; [|done]. apply admin_create. split; [|by split]. simpl. by apply find_ledger_none.
Qed.
Lemma obeys_Seal l : obeys (SealLedger Pool l).
Proof.
  apply obeys_on_err, obeys_mbind; [|by intros []]. apply obeys_exec. intros now c a c' [= _ <-]. right. split; [|done].
  apply raced_once, raced_admin; [apply (admin_seal now l)|done].
Qed.

(** ** Events of their own *)

Lemma metadata_raced t0 ty l key ikh rs d r d' : metadata_done t0 ty l key ikh rs d r d' -> raced d d'.
Proof. intros Hd. eapply raced_once, raced_op, raced_metadata, Hd. Qed.

Lemma obeys_Deny l principal reason : obeys (WritePolicyDenialEvent l principal reason).
Proof.
  unfold WritePolicyDenialEvent, writePolicyDenialEvent. apply obeys_pbind; [done|]. intros now.
  apply obeys_tx; [apply begins_tx|]. intros st Hst. apply conforms_mbind.
  eapply (conforms_work (fun _ => True) (fun _ _ => True)); [done|apply tx_ok_appendEvent| | |done].
  - intros t0 d _. eapply tl_mono; [apply denial_body|]. apply on_ok_mono. intros a d' Hd. split; [by eapply metadata_raced|done].
  - intros [id n] st' Hst'. by eapply conforms_commit.
Qed.

Lemma obeys_writeOnce l event now payload : obeys (writeOnce l event now payload).
Proof.
  unfold writeOnce. apply obeys_mbind; [apply obeys_on_err, obeys_tx_ok, tx_ok_CurrentBatchID|]. intros batch.
  apply obeys_tx; [apply begins_wrap|]. intros st Hst. apply conforms_assoc, conforms_mbind.
  eapply (conforms_work (fun _ => True) (fun _ _ => True)); [done|tx_ok_store| | |done].
  - intros t0 d _. eapply tl_mono; [apply audit_body|]. apply on_ok_mono. intros [] d' Hd. split; [by eapply metadata_raced|done].
  - intros [] st' Hst'. by eapply conforms_wrap_commit.
Qed.
Lemma obeys_audit l id payload : obeys (recordApprovalAuditEvent l id payload).
Proof.
  unfold recordApprovalAuditEvent. apply obeys_pbind; [done|]. intros now. apply obeys_pbind; [done|]. intros event.
  apply obeys_pbind; [apply obeys_retry, obeys_writeOnce|]. intros [[]|e]; [apply obeys_publishEvent|done].
Qed.

(** ** Expiry *)

Lemma obeys_expireSingleHold h : obeys (expireSingleHold h).
Proof.
  unfold expireSingleHold. apply obeys_pbind; [done|]. intros now. apply obeys_tx; [apply begins_tx|]. intros st Hst.
  apply conforms_mbind.
  eapply (conforms_work (fun _ => True) (fun cur d => find_hold (ho_LedgerID h) (ho_HoldID h) d = Some cur)); [done|tx_ok_store| | |done].
  { intros t0 d _. apply tl_GetHold; [|done]. intros cur Hc. by split. }
  intros cur st1 H1. destruct (ho_Expired cur || ho_Voided cur) eqn:Ed; [done|]. apply orb_false_iff in Ed as [He Hv].
  assert (Hw : conforms raced st1 (let* (eventID, _) := appendEvent (ho_LedgerID h) EventTypeHoldExpired
      (Some (marshal (expire_payload h))) EmptyString None now now in
      let* _ := ExpireHold Tx (ho_LedgerID h) (ho_HoldID h) in ok eventID)
      (fun r st' => is_ok r = true -> within_tx (fun _ => True) st')).
  { eapply (conforms_work _ (fun _ _ => True)); [exact H1| | |done..].
    - apply tx_ok_mbind; [apply tx_ok_appendEvent|intros []; tx_ok_store].
    - intros t0 d Hc. eapply tl_mono; [apply (expire_core_body h now d); by exists cur|]. apply on_ok_mono.
      intros e d' (cur' & t1 & ev & Hl & He'). split; [|exact I]. eapply raced_once, raced_op, (raced_release _ _ _ _ expire_hold); eauto. }
  apply conforms_pbind_inv in Hw. apply conforms_mbind. eapply conforms_mono; [exact Hw|].
  intros [[eventID n]|e] st2 H2; [|done]. apply conforms_pbind_inv in H2. apply conforms_mbind.
  eapply conforms_mono; [exact H2|]. intros [[]|e] st3 H3; [|done]. apply conforms_mbind.
  eapply conforms_commit; [by apply H3|]. intros [[]|e]; [|done].
  apply obeys_anything, obeys_pbind; [apply obeys_publishEvent|done].
Qed.

Lemma obeys_expire_page hs : obeys (expire_page hs).
Proof.
  induction hs as [|h hs IH]; cbn [expire_page]; [done|].
  apply obeys_pbind; [apply obeys_expireSingleHold|]. intros r. by apply obeys_pbind.
Qed.
Lemma obeys_Expire fuel : obeys (ExpireHolds fuel).
Proof.
  induction fuel as [|fuel IH]; cbn [ExpireHolds]; [done|]. apply obeys_pbind.
  { apply obeys_mbind; [|done]. apply obeys_exec, read_publishes, (read_stmt_select (fun _ d => _)). }
  intros [hs|e]; [|done]. case_bool_decide; [done|]. apply obeys_pbind; [apply obeys_expire_page|].
  intros n. destruct (n =? 0); [done|]. by destruct (_ <? _).
Qed.

(** ** Approvals *)

Lemma update_raced l id (p : approval_row -> bool) f d :
  (forall a, p a = true -> approval_is l id a = true) ->
  (forall a, find_approval l id d = Some a -> p a = true -> raced_move a (f a)) -> raced d (update_approval p f d).
Proof. intros Hp Hm. by apply raced_once, raced_approval, (raced_update _ l id). Qed.

Lemma state_set_raced l id seen f d d' :
  (forall a, find_approval l id d = Some a -> raced_move a (f a)) -> state_set l id seen f d d' -> raced d d'.
Proof. intros Hm [->|[-> _]]; [|done]. apply (update_raced l id); [done|]. intros a Ha _. by apply Hm. Qed.

Lemma decided_raced t0 l id p sg d seen dec d' : decided_as t0 l id p sg d seen dec d' -> raced d d'.
Proof.
  assert (Hs : forall row e d1 row1, signed l id p sg d row e d1 row1 -> raced d d1 /\ row1 = sign e row).
  { intros row e d1 row1 ([Hf Hst] & Hm & He & _ & -> & Hf1). split.
    - apply (update_raced l id); [by intros a [? _]%andb_prop|]. intros a Ha _. rewrite Hf in Ha. injection Ha as <-.
      apply raced_life, move_sign; [done|by rewrite He].
    - unfold find_approval, update_approval in *. simpl in Hf1. rewrite find_map, Hf in Hf1; [|intros r; by destruct (is_in l id "pending" r)].
      simpl in Hf1. injection Hf1 as <-. apply List.find_some in Hf as [_ Hk]. unfold is_in. by rewrite Hk, Hst. }
  destruct 1 as [row d' Ho Hd|row e d1 row1 Hsg _|row e d1 row1 d' Hsg Hc Hd].
  - eapply state_set_raced; [|exact Hd]. intros a _. apply raced_overwrite. set_solver.
  - by eapply Hs.
  - pose proof Hsg as ([_ Hst] & _ & _ & _ & _ & Hf1). destruct (Hs _ _ _ _ Hsg) as [Hr ->].
    etransitivity; [exact Hr|]. eapply state_set_raced; [|exact Hd]. intros a Ha. rewrite Hf1 in Ha. injection Ha as <-.
    by apply raced_life, (move_start (Some (pg_ts t0))).
Qed.

Lemma obeys_set_state l id s : s ∈ ["expired"; "rejected"] -> obeys (UpdateApprovalState Pool l id s).
Proof.
  intros Hs. apply obeys_mbind; [|done]. apply obeys_exec. intros now c n c' [_ ->]%sql_update_approval_inv. right. split; [|done].
  apply (update_raced l id); [done|]. intros a _ _. by apply raced_overwrite.
Qed.
Lemma obeys_finish l id s : final s -> obeys (UpdateApprovalStateIf Pool l id stateExecuting s).
Proof.
  intros Hs. apply obeys_mbind; [|done]. apply obeys_exec. intros now c n c' [_ ->]%sql_update_approval_inv. right. split; [|done].
  apply (update_raced l id); [by intros a [? _]%andb_prop|]. intros a _ [_ He%String.eqb_eq]%andb_prop.
  by apply raced_life, (move_finish s (pa_ExecutingAt a)).
Qed.

Lemma obeys_execute l id a : obeys (execute_approved l id a).
Proof.
  unfold execute_approved. destruct (unmarshal_intent _) as [i|e].
  - apply obeys_pbind; [by eapply obeys_submission, executeIntent_submission|]. intros [x|e].
    + apply obeys_pbind; [apply obeys_audit|]. intros _. apply obeys_pbind; [|done]. apply obeys_finish. unfold final, stateExecuted. set_solver.
    + apply obeys_pbind; [|done]. apply obeys_set_state. unfold stateRejected. set_solver.
  - apply obeys_pbind; [|done]. apply obeys_set_state. unfold stateRejected. set_solver.
Qed.

Lemma obeys_Approve l id p sg : obeys (Approve l id p sg).
Proof.
  unfold Approve. apply obeys_tx; [apply begins_wrap|]. intros st Hst. apply conforms_mbind.
  eapply (conforms_work (fun _ => True) (fun _ _ => True)); [done|apply tx_ok_approve_tx| | |done].
  - intros t0 d _. eapply tl_mono; [apply approve_tx_body|]. apply on_ok_mono. intros dec d' Hd. split; [by eapply decided_raced|done].
  - intros [| |a] st' Hst'; apply conforms_mbind; [eapply conforms_wrap_commit|eapply conforms_commit..]; try done; intros [[]|e]; try done.
    apply obeys_anything, obeys_execute.
Qed.

Lemma obeys_ForApproval l payload approvers by_ expires : obeys (SubmitForApproval l payload approvers by_ expires).
Proof.
  unfold SubmitForApproval. apply obeys_mbind; [apply obeys_reads, reads_checkLedgerNotSealed|]. intros ledger.
  apply obeys_pbind; [done|]. intros id. apply obeys_pbind; [done|]. intros now. apply obeys_mbind; [|done].
  apply obeys_exec. intros n c a c' Hs. right. unfold sql_insert_approval in Hs. simpl in Hs.
  destruct payload, approvers; try done. apply with_table_inv in Hs as (t & Hin & ->).
  apply insert_row_inv in Hin as [Hc ->]. split; [|done]. by apply raced_once, raced_approval, raced_submit.
Qed.

Lemma obeys_expire_approvals l : obeys (expire_approvals l).
Proof.
  induction l as [|a l IH]; cbn [expire_approvals]; [done|]. apply obeys_pbind; [|done].
  apply obeys_set_state. unfold stateExpired. set_solver.
Qed.
Lemma obeys_recover l : obeys (recover_approvals l).
Proof.
  induction l as [|a l IH]; cbn [recover_approvals]; [done|]. apply obeys_pbind; [|done]. unfold recover_approval.
  apply obeys_pbind; [apply obeys_reads, reads_events|]. intros [es|e]; [|done]. cbv zeta. apply obeys_pbind; [|done].
  apply obeys_finish. unfold final, stateExecuted, stateExpired. case_bool_decide; set_solver.
Qed.
Lemma obeys_ExpireApprovals threshold : obeys (ExpireStaleApprovals threshold).
Proof.
  unfold ExpireStaleApprovals. apply obeys_mbind; [apply obeys_mbind; [apply obeys_reads, reads_list_approvals|done]|]. intros l1.
  apply obeys_pbind; [apply obeys_expire_approvals|]. intros _.
  apply obeys_mbind; [apply obeys_mbind; [apply obeys_reads, reads_list_approvals|done]|]. intros l2.
  apply obeys_pbind; [apply obeys_recover|done].
Qed.

(** ** Checkpoints *)

Lemma obeys_build_rows gs n k : obeys (build_rows gs n k).
Proof.
  revert n k. induction gs as [|g gs IH]; intros n k; cbn [build_rows]; [done|].
  destruct (Z_of_dec (gr_total_input g)); [|done]. destruct (Z_of_dec (gr_total_output g)); [|done].
  apply obeys_pbind; [|intros []; apply IH]. apply obeys_exec. intros now c a c' [= _ <-]. right. split; [|done].
  by apply raced_once, raced_admin; [apply admin_checkpoint|].
Qed.
Lemma obeys_Checkpoints : obeys BuildCheckpoints.
Proof.
  unfold BuildCheckpoints. apply obeys_mbind.
  { apply obeys_on_err, obeys_exec, read_publishes, (read_stmt_select (fun _ d => _)). }
  intros gs. apply obeys_pbind; [by intros gs' _|]. intros rows. apply obeys_mbind; [apply obeys_build_rows|].
  intros r. by destruct (0 <? snd r).
Qed.
End Submissions.

(** ** The logic of requests that interleave

    Any operation, safe or not; but not the import of events, which appends to the log of
    a ledger without its lock. *)
#[export] Instance obeys_logic `{Deps} : ServiceLogic false false (@obeys).
Proof.
  split; intros; try done.
  - by apply obeys_pbind.
  - by apply obeys_reads.
  - by apply obeys_tx_ok.
  - by eapply obeys_submission.
  - apply obeys_dry.
  - apply obeys_Batch.
  - apply obeys_Deny.
  - apply obeys_Create.
  - apply obeys_Seal.
  - apply obeys_Expire.
  - apply obeys_ForApproval.
  - apply obeys_Approve.
  - apply obeys_ExpireApprovals.
  - apply obeys_Checkpoints.
Qed.
