(* ===== verification/TransferSteps.v ===== *)
(** * What Import appends

    Whatever fails, and whatever the client sends, an import appends to the log the rows
    of a prefix of the stream, each as the next of its ledger, and changes nothing else.
    A listing of the log is the ledger's events, in order. *)
From S2P Require Import Prelude GoStd Regex Accounts Assets Policy Sha256 Json Storage Db Prog.
From S2P Require Import Logic Postgres BatchManager Redis Chart Planner Cores Operations IntentJson Approval.
From S2P Require Import Proto Auth RateLimit Grpc Queries Transfer Rpc.
From S2P Require Import Bodies StoreRules Effects ApprovalSteps Ledger Solvency Requests Intents Batches Expiry Checkpoint Approvals ServiceLogic Moves.

(** ** Replies *)

Lemma wp_reply_bind {A B} E (m : prog (reply A)) (f : A -> prog (reply B)) (w : World) Q :
  wp E m w (fun r w' => match r with Reply a => wp E (f a) w' Q | Status c e => Q (Status c e) w' end) ->
  wp E (reply_bind m f) w Q.
Proof. intros Hm. apply wp_bind. eapply wp_mono; [exact Hm|]. by intros [a|c e] w'. Qed.
Lemma wp_call_or {A} E (f : error -> reply A) (m : M A) (w : World) (Q : reply A -> World -> Prop) :
  wp E m w (fun r w' => Q match r with Ok a => Reply a | Err e => f e end w') -> wp E (call_or f m) w Q.
Proof. intros Hm. apply wp_bind. eapply wp_mono; [exact Hm|]. done. Qed.

Lemma reads_reply_bind {A B} (m : prog (reply A)) (f : A -> prog (reply B)) :
  reads m -> (forall a, reads (f a)) -> reads (reply_bind m f).
Proof. intros Hm Hf. apply reads_pbind; [done|]. by intros []. Qed.
Lemma reads_call_or {A} (f : error -> reply A) (m : M A) : reads m -> reads (call_or f m).
Proof. intros Hm. by apply reads_pbind. Qed.
Lemma reads_wrap {A} s (m : M A) : reads m -> reads (wrap s m).
Proof. intros. by apply reads_pbind. Qed.
Lemma reads_select {A} (f : Z -> DB -> A) : reads (exec Pool (fun now d => inr (f now d, d))).
Proof. split; [apply read_stmt_select|done]. Qed.

(** Errors become statuses. *)
Lemma mapPlannerError_status {A} e : exists c m, mapPlannerError (A := A) e = Status c m.
Proof. unfold mapPlannerError. repeat (destruct (errors_is e _); [by do 2 eexists|]). by do 2 eexists. Qed.
Lemma or_not_found_status {A} a b e : exists c m, or_not_found (A := A) a b e = Status c m.
Proof. unfold or_not_found. destruct (isNotFound e); by do 2 eexists. Qed.

(** ** Listings of the log *)

Definition log_rows (l token : string) (n : Z) (d : DB) : list LogEventRecord :=
  limit n (order_by ev_LedgerSeq (List.filter (fun r => after_token token (ev_EventID r)) (ledger_log l d))).

Section Transfer.
Context `{Deps}.

Lemma reads_ListLogEvents l params : reads (ListLogEvents Pool l params).
Proof. apply reads_mbind; [|done]. apply reads_wrap, (reads_select (fun _ d => log_rows _ _ _ d)). Qed.

Lemma ListLogEvents_page E l params (w : World) :
  w_tx w = TxNone -> wp E (ListLogEvents Pool l params) w (fun r w' => idle w w' /\
    forall x, r = Ok x -> x = page ev_EventID (page_size (lp_PageSize params))
                              (log_rows l (lp_PageToken params) (page_size (lp_PageSize params) + 1) (w_db w))).
Proof.
  intros Ht. apply wp_and; [by apply reads_idle; [apply reads_ListLogEvents|]|].
  unfold ListLogEvents. apply wp_mbind, wp_wrap. eapply wp_mono; [by apply wp_exec_pool|].
  intros r w1 [[_ Hf]|(_ & now & a & [= <- _] & [-> |Hf])]; [by destruct r| |by destruct r].
  apply wp_ret. by intros x [= <-].
Qed.

(** Sorting what is sorted, with distinct keys, changes nothing. *)
Lemma order_by_sorted {R} (key : R -> Z) (t : list R) :
  NoDup (map key t) -> StronglySorted (key_le key) t -> order_by key t = t.
Proof.
  intros Hn Hs. unfold order_by. apply (StronglySorted_unique_strong (key_le key)).
  - intros x y Hx Hy Hxy Hyx. unfold key_le in *. rewrite merge_sort_Permutation in Hx.
    apply (NoDup_key_eq key t); [done..|lia].
  - apply StronglySorted_merge_sort; unfold key_le; intros x y; [intros z|]; lia.
  - exact Hs.
  - apply merge_sort_Permutation.
Qed.

Lemma sorted_run (t : list LogEventRecord) s :
  map ev_LedgerSeq t = seqZ s (Z.of_nat (length t)) -> StronglySorted (key_le ev_LedgerSeq) t.
Proof.
  revert s. induction t as [|x t IH]; intros s Hs; constructor; cbn [map length] in Hs;
    rewrite Nat2Z.inj_succ, seqZ_cons in Hs by lia; injection Hs as Hx Hs.
  - apply (IH (s + 1)). rewrite Hs. f_equal. lia.
  - apply Forall_forall. intros y Hy. unfold key_le.
    assert (Hin : ev_LedgerSeq y ∈ map ev_LedgerSeq t) by by apply list_elem_of_fmap_2.
    rewrite Hs in Hin. apply elem_of_seqZ in Hin. lia.
Qed.

Lemma filter_keys {A B} (key : A -> B) p (t : list A) : NoDup (map key t) -> NoDup (map key (List.filter p t)).
Proof.
  intros Hn. assert (Hs : map key (List.filter p t) `sublist_of` map key t); [|by eapply sublist_NoDup].
  clear Hn. induction t as [|x t IH]; [done|]. cbn [List.filter map]. destruct (p x); [by apply sublist_skip|by apply sublist_cons].
Qed.
Lemma filter_sorted (t : list LogEventRecord) p :
  StronglySorted (key_le ev_LedgerSeq) t -> StronglySorted (key_le ev_LedgerSeq) (List.filter p t).
Proof.
  induction 1 as [|x t Ht IH Hx]; cbn [List.filter]; [constructor|]. destruct (p x); [|done]. constructor; [done|].
  apply Forall_forall. intros y Hy. apply list_elem_of_In, List.filter_In, proj1, list_elem_of_In in Hy.
  by apply (proj1 (Forall_forall _ _) Hx).
Qed.

(** A part of a ledger's log, by number, is in the order of the log. *)
Lemma filter_order l d p :
  ledger_inv d -> order_by ev_LedgerSeq (List.filter p (ledger_log l d)) = List.filter p (ledger_log l d).
Proof.
  intros Hi. pose proof (i_seq _ Hi l) as Hs. apply order_by_sorted.
  - apply filter_keys. rewrite Hs. apply NoDup_seqZ.
  - eapply filter_sorted, sorted_run, Hs.
Qed.
Lemma ledger_order l d : ledger_inv d -> order_by ev_LedgerSeq (ledger_log l d) = ledger_log l d.
Proof.
  intros Hi. pose proof (i_seq _ Hi l) as Hs. apply order_by_sorted; [rewrite Hs; apply NoDup_seqZ|eapply sorted_run, Hs].
Qed.

(** ** Import *)

(** The row an event becomes; the batch is the server's choice. *)
Definition import_row (ev : pb.LogEvent) (b : string) : LogEventRecord := log_row (imported ev b).

(** The rows of the events are appended one after the other. *)
Inductive imports : list pb.LogEvent -> DB -> DB -> Prop :=
| imports_nil d d' : same_but_batches d d' -> imports [] d d'
| imports_cons ev b evs d d0 d' :
    same_but_batches d d0 -> appendable (import_row ev b) d0 ->
    imports evs (set_log_events (log_events d0 ++ [import_row ev b]) d0) d' -> imports (ev :: evs) d d'.

Lemma imports_same_l evs d d0 d' : same_but_batches d d0 -> imports evs d0 d' -> imports evs d d'.
Proof.
  intros Hs. destruct 1 as [d0 d' Hs2|ev b evs d0 d1 d' H1 H2 H3]; [apply imports_nil; by etransitivity|].
  eapply imports_cons; [by etransitivity|done|done].
Qed.
Lemma imports_app e1 e2 d d1 d2 : imports e1 d d1 -> imports e2 d1 d2 -> imports (e1 ++ e2) d d2.
Proof.
  induction 1 as [d d' Hs|ev b evs d d0 d' H1 H2 H3 IH]; intros H4; [by eapply imports_same_l|].
  cbn [app]. eapply imports_cons; [done|done|by apply IH].
Qed.
Lemma imports_steps c evs d d' : imports evs d d' -> steps c d d'.
Proof.
  induction 1 as [d d' Hs|ev b evs d d0 d' H1 H2 _ IH]; [by apply rtc_once, step_batches|].
  eapply rtc_l; [by apply step_batches|]. eapply rtc_l; [by apply step_import|exact IH].
Qed.
Lemma imports_ledgers evs d d' : imports evs d d' -> ledgers d' = ledgers d.
Proof. induction 1 as [d d' ->|ev b evs d d0 d' -> _ _ IH]; [done|]. by rewrite IH. Qed.

(** The events of [l] in a stream. *)
Definition of_ledger (l : string) (evs : list pb.LogEvent) : list pb.LogEvent :=
  List.filter (fun ev => String.eqb l (pb.LogEvent_LedgerId ev)) evs.

Lemma imports_log evs d d' l : imports evs d d' ->
  exists bs, length bs = length (of_ledger l evs) /\ ledger_log l d' = ledger_log l d ++ zip_with import_row (of_ledger l evs) bs.
Proof.
  induction 1 as [d d' Hs|ev b evs d d0 d' Hs _ _ (bs & Hl & IH)].
  - exists []. split; [done|]. rewrite app_nil_r. unfold ledger_log. by rewrite Hs.
  - rewrite IH. rewrite (ledger_log_app l d0 _ (import_row ev b)) by done. cbn [of_ledger List.filter].
    change (ev_LedgerID (import_row ev b)) with (pb.LogEvent_LedgerId ev).
    replace (ledger_log l d0) with (ledger_log l d) by (unfold ledger_log; by rewrite Hs).
    unfold of_ledger in *. cbn [List.filter]. destruct (String.eqb l (pb.LogEvent_LedgerId ev)).
    + exists (b :: bs). split; [simpl; by rewrite Hl|]. by rewrite <- app_assoc.
    + exists bs. split; [done|]. by rewrite app_nil_r.
Qed.

(** A ledger an import may restore: it exists, is not sealed, and has no event. *)
Definition restorable (l : string) (d : DB) : Prop :=
  ledger_log l d = [] /\ exists ledger, find_ledger l d = Some ledger /\ lr_State ledger <> ledgerStateSealed.

(** The state of the loop, after the imports that took [d0] to [d]. *)
Definition st_ok (d0 : DB) (bound : Z) (st : import_state) (d : DB) : Prop :=
  forall l want b, st !! l = Some (want, b) -> next_seq l d = want /\ 1 <= want <= bound /\ restorable l d0.

Lemma st_ok_same d0 bound st d d' : same_but_batches d d' -> st_ok d0 bound st d -> st_ok d0 bound st d'.
Proof. intros Hs Hst l want b Hl. specialize (Hst l want b Hl). unfold next_seq, ledger_log in *. by rewrite Hs. Qed.

Lemma restorable_before evs d0 d l : imports evs d0 d -> restorable l d -> restorable l d0.
Proof.
  intros Hi [Hlog (ledger & Hf & Hst)]. split.
  - destruct (imports_log _ _ _ l Hi) as (bs & _ & Hl). rewrite Hlog in Hl. symmetry in Hl. by apply app_eq_nil in Hl as [-> _].
  - exists ledger. split; [|done]. unfold find_ledger in *. by rewrite <- (imports_ledgers _ _ _ Hi).
Qed.

Lemma reads_EvaluatePolicy l p op accounts : reads (EvaluatePolicy l p op accounts).
Proof.
  unfold EvaluatePolicy, checkPolicy, GetActivePolicy. apply reads_mbind; [|by intros [[] ?]]. apply reads_mbind.
  - apply reads_pbind; [apply reads_query_row; apply (read_stmt_select (fun _ d => _))|]. intros [r|e]; [done|]. by destruct (isNoRows e).
  - intros [pol|]; [|done]. by destruct (ValidatePolicy _).
Qed.

Lemma GetLedger_spec E l (w : World) :
  w_tx w = TxNone -> wp E (GetLedger Pool l) w (fun r w' => idle w w' /\ forall x, r = Ok x -> find_ledger l (w_db w) = Some x).
Proof.
  intros Ht. apply wp_and; [by apply reads_idle; [apply reads_GetLedger|]|]. unfold GetLedger, on_err. apply wp_bind, wp_mbind.
  eapply wp_mono; [by apply wp_exec_pool|]. intros r w1 [[_ Hf]|(_ & now & a & [= <- _] & [-> |Hf])]; [by destruct r| |by destruct r].
  destruct (find_ledger l (w_db w)) as [x|]; apply wp_ret; [|done]. by intros y [= <-].
Qed.

Lemma log_rows_nil l d : log_rows l "" 2 d = [] -> ledger_log l d = [].
Proof.
  unfold log_rows, limit, order_by. intros Hn. destruct (ledger_log l d) as [|x t] eqn:El; [done|]. exfalso.
  assert (Hp : length (merge_sort (key_le ev_LedgerSeq) (List.filter (fun r => after_token "" (ev_EventID r)) (x :: t))) <> 0%nat).
  { rewrite merge_sort_Permutation. simpl. lia. }
  destruct (merge_sort _ _); [by destruct Hp|done].
Qed.

Lemma import_start_spec E principal l done0 d0 bound st (w : World) :
  w_tx w = TxNone -> imports done0 d0 (w_db w) -> st_ok d0 bound st (w_db w) -> 1 <= bound ->
  wp E (import_start principal l st) w (fun r w' => untouched w w' /\
    forall st', r = Reply st' -> st_ok d0 bound st' (w_db w') /\ is_Some (st' !! l)).
Proof.
  intros Ht Hi Hst Hb. unfold import_start. destruct (st !! l) as [x|] eqn:Ex.
  { apply wp_ret. split; [done|]. intros st' [= <-]. by rewrite Ex. }
  apply wp_reply_bind, wp_call_or. eapply wp_mono; [by apply reads_idle; [apply reads_EvaluatePolicy|]|].
  intros [u|e] w1 H1.
  2:{ destruct (mapPlannerError_status (A := unit) e) as (? & ? & ->). split; [by apply idle_untouched|done]. }
  apply wp_reply_bind, wp_call_or. eapply wp_mono; [apply GetLedger_spec, H1|]. intros r w2 [H2 Hled].
  pose proof (idle_trans _ _ _ H1 H2) as H12. destruct r as [ledger|e].
  2:{ destruct (or_not_found_status (A := LedgerRecord) "ledger not found" "checking ledger" e) as (? & ? & ->).
      split; [by apply idle_untouched|done]. }
  destruct (String.eqb_spec (lr_State ledger) "sealed") as [|Hns]; [apply wp_ret; split; [by apply idle_untouched|done]|].
  apply wp_reply_bind, wp_call_or. eapply wp_mono; [apply ListLogEvents_page, H12|]. intros r w3 [H3 Hrows].
  pose proof (idle_trans _ _ _ H12 H3) as H13. destruct r as [[rows tok]|e]; [|split; [by apply idle_untouched|done]].
  specialize (Hrows _ eq_refl). destruct rows as [|row rows]; [|apply wp_ret; split; [by apply idle_untouched|done]].
  apply wp_reply_bind, wp_call_or. eapply wp_mono; [apply run_closed; [apply tx_ok_CurrentBatchID|apply H13]|].
  intros r w4 H4. assert (Hu : untouched w w4) by (eapply untouched_trans; [by apply idle_untouched|done]).
  destruct r as [b|e]; [|by split]. apply wp_ret. split; [done|]. intros st' [= <-]. unfold import_state in *. split; [|rewrite lookup_insert_eq; done].
  destruct H12 as (_ & Hd12 & _). destruct H1 as (_ & Hd1 & _). rewrite Hd12 in Hrows. rewrite Hd1 in Hled.
  assert (Hlog : ledger_log l (w_db w) = []).
  { apply log_rows_nil. unfold page in Hrows. change (page_size 1) with 1 in Hrows.
    change (lp_PageSize (list_params 1 "")) with 1 in Hrows. change (page_size 1) with 1 in Hrows.
    change (lp_PageToken (list_params 1 "")) with EmptyString in Hrows. change (1 + 1) with 2 in Hrows.
    destruct (log_rows l "" 2 (w_db w)) as [|r rs]; [done|]. destruct (_ <? _); [|done]. by injection Hrows. }
  intros l' want b'. unfold import_state in *. destruct (decide (l' = l)) as [->|Hne].
  - rewrite lookup_insert_eq. intros [= <- <-]. destruct Hu as (_ & Hs & _). split_and!.
    + unfold next_seq. replace (ledger_log l (w_db w4)) with (ledger_log l (w_db w)) by (unfold ledger_log; by rewrite Hs).
      by rewrite Hlog.
    + lia.
    + lia.
    + eapply restorable_before; [exact Hi|]. split; [done|]. exists ledger. split; [by apply Hled|done].
  - rewrite lookup_insert_ne by done. intros Hl. eapply st_ok_same; [apply Hu|exact Hst|exact Hl].
Qed.
End Transfer.

(** ** One event, and the stream *)

Lemma same_refl (d : DB) : same_but_batches d d.
Proof. reflexivity. Qed.

Lemma max_seq_snoc rows x : max_seq (rows ++ [x]) = Some (Z.max (default (ev_LedgerSeq x) (max_seq rows)) (ev_LedgerSeq x)).
Proof.
  induction rows as [|r rows IH]; cbn [app max_seq fold_right default]; [f_equal; simpl; lia|].
  fold (max_seq rows) (max_seq (rows ++ [x])). rewrite IH. f_equal.
  destruct (max_seq rows); simpl; lia.
Qed.

Lemma next_seq_append ev d l :
  ev_LedgerSeq ev = next_seq (ev_LedgerID ev) d ->
  next_seq l (set_log_events (log_events d ++ [ev]) d) =
  if String.eqb l (ev_LedgerID ev) then next_seq l d + 1 else next_seq l d.
Proof.
  intros Hs. unfold next_seq in *. rewrite (ledger_log_app l d _ ev) by done.
  destruct (String.eqb_spec l (ev_LedgerID ev)) as [->|_]; [|by rewrite app_nil_r].
  rewrite max_seq_snoc, Hs. destruct (max_seq _); simpl; lia.
Qed.

Lemma int64_of_seq want seq : 1 <= want < 2 ^ 63 -> uint64_of want = seq -> int64_of seq = want.
Proof.
  intros Hw <-. unfold int64_of, wrap_signed, uint64_of. rewrite (Z.mod_small want) by lia.
  rewrite Z.mod_small; lia.
Qed.

Lemma wp_reads_step {A B} E (m : prog A) (f : A -> prog B) (w : World) Q :
  reads m -> w_tx w = TxNone ->
  (forall a w1, idle w w1 -> wp E (f a) w1 Q) -> wp E (pbind m f) w Q.
Proof. intros Hm Ht Hf. apply wp_bind. eapply wp_mono; [by apply reads_idle|]. intros a w1. apply Hf. Qed.

(** The event passes validation. *)
Definition importable `{Deps} (ev : pb.LogEvent) : Prop := validateImportEvent ev = Ret (Reply tt).

Lemma wrap_signed_range n z : 0 < n -> - 2 ^ (n - 1) <= wrap_signed n z < 2 ^ (n - 1).
Proof.
  intros Hn. unfold wrap_signed. assert (H2 : 2 ^ n = 2 * 2 ^ (n - 1)) by (rewrite <- Z.pow_succ_r by lia; f_equal; lia).
  pose proof (Z.mod_pos_bound (z + 2 ^ (n - 1)) (2 ^ n) ltac:(lia)). lia.
Qed.
Lemma int16_of_type ty : known_type ty -> int16_of ty = ty.
Proof. intros [H1 H2]. unfold int16_of, wrap_signed. rewrite Z.mod_small; unfold EventTypeTransactionPosted, EventTypeApprovalRecorded in *; lia. Qed.

(** What validation lets through is stored well-typed. *)
Lemma import_row_typed `{Deps} ev b : importable ev -> well_typed (import_row ev b).
Proof.
  unfold importable, validateImportEvent. intros Hv.
  destruct (String.eqb _ _); [done|]. destruct (String.eqb _ _); [done|]. cbv zeta in Hv.
  destruct (String.eqb (default _ _) _) eqn:Ep; [done|]. destruct (negb _); [done|].
  destruct (_ || _) eqn:Et; [done|]. apply orb_false_iff in Et as [H1%Z.ltb_ge H2%Z.ltb_ge].
  assert (Ht : known_type (pb.LogEvent_Type ev)) by (split; [exact H1|exact H2]).
  split; cbn.
  - intros Hp. by rewrite Hp in Ep.
  - by rewrite int16_of_type.
  - apply pg_ts_idem.
  - apply pg_ts_idem.
  - by apply (wrap_signed_range 64).
Qed.

Lemma validate_cases `{Deps} ev : importable ev \/ exists c e, validateImportEvent ev = Ret (Status c e).
Proof. unfold importable, validateImportEvent. repeat case_match; first [by left|by right; do 2 eexists]. Qed.

Section Transfer.
Context `{Deps}.

(** An imported event: what was appended, and that nothing else changed. *)
Definition event_done (d0 : DB) (bound : Z) (ev : pb.LogEvent) (w : World) (r : reply import_state) (w' : World) : Prop :=
  w_tx w' = TxNone /\
  ((same_but_batches (w_db w) (w_db w') /\ (forall st', r <> Reply st')) \/
   (imports [ev] (w_db w) (w_db w') /\ importable ev /\ restorable (pb.LogEvent_LedgerId ev) d0 /\
    forall st', r = Reply st' -> st_ok d0 (bound + 1) st' (w_db w'))).

Lemma event_refused d0 bound ev w c e w' :
  untouched w w' -> event_done d0 bound ev w (Status c e) w'.
Proof. intros Hu. split; [apply Hu|left]. split; [apply Hu|done]. Qed.

Lemma append_event_spec E d0 bound ev b st (w : World) :
  w_tx w = TxNone -> st_ok d0 bound st (w_db w) -> 1 <= bound < 2 ^ 63 -> importable ev ->
  forall want, st !! pb.LogEvent_LedgerId ev = Some (want, b) -> uint64_of want = pb.LogEvent_LedgerSeq ev ->
  forall f, (forall e, exists c m, f e = Status (A := unit) c m) ->
  wp E (let! _ := call_or f (AppendLogEvent Pool (imported ev b)) in
        Ret (Reply (<[pb.LogEvent_LedgerId ev := (want + 1, b)]> st))) w (event_done d0 bound ev w).
Proof.
  intros Ht Hst Hb Hok want Hl Hseq f Hf. destruct (Hst _ _ _ Hl) as (Hn & Hw & Hre).
  apply wp_reply_bind, wp_call_or. unfold AppendLogEvent. apply wp_bind. eapply wp_mono; [by apply wp_exec_pool|].
  intros r w' [[Hu Hfail]|(Ht' & now & a & Hs & Hr)].
  { destruct r as [|e]; [done|]. cbn. destruct (Hf (if isUniqueViolation e then ESent ErrIdempotencyKeyConflict else
      if isDeadlock e then ESent ErrDeadlock else EWrap "appending log event" e)) as (c & m & ->). by apply event_refused. }
  unfold sql_insert_log_event in Hs. destruct (ev_Payload (imported ev b)); [|done].
  apply with_table_inv in Hs as (t & Hin & Hd). apply insert_row_inv in Hin as [Hc ->]. fold (import_row ev b) in Hc, Hd.
  assert (Hq : ev_LedgerSeq (import_row ev b) = want) by (change (int64_of (pb.LogEvent_LedgerSeq ev) = want); apply int64_of_seq; [lia|done]).
  assert (Happ : appendable (import_row ev b) (w_db w)).
  { split; [by rewrite Hq; symmetry|]. split; [done|]. by apply import_row_typed. }
  assert (Himp : imports [ev] (w_db w) (w_db w')).
  { eapply imports_cons; [apply same_refl|exact Happ|]. rewrite <- Hd. apply imports_nil, same_refl. }
  assert (Hgoal : forall r', (forall st', r' = Reply st' -> st' = <[pb.LogEvent_LedgerId ev := (want + 1, b)]> st) ->
                    event_done d0 bound ev w r' w').
  { intros r' Hr'. split; [done|right]. split_and!; [done|done|done|]. intros st' ->. rewrite (Hr' _ eq_refl).
    intros l want' b'. rewrite Hd, next_seq_append by (by rewrite Hq; symmetry).
    change (ev_LedgerID (import_row ev b)) with (pb.LogEvent_LedgerId ev). unfold import_state in *.
    destruct (String.eqb_spec l (pb.LogEvent_LedgerId ev)) as [->|Hne].
    - rewrite lookup_insert_eq. intros [= <- <-]. split_and!; [lia|lia|lia|done].
    - rewrite lookup_insert_ne by done. intros Hl'. destruct (Hst _ _ _ Hl') as (? & ? & ?). split_and!; [done|lia|lia|done]. }
  destruct r as [u|e]; [apply wp_ret, Hgoal; by intros st' [= <-]|]. cbn.
  destruct (Hf (if isUniqueViolation e then ESent ErrIdempotencyKeyConflict else
      if isDeadlock e then ESent ErrDeadlock else EWrap "appending log event" e)) as (c & m & ->). by apply Hgoal.
Qed.

Lemma event_done_after d0 bound ev w w1 r w' : untouched w w1 -> event_done d0 bound ev w1 r w' -> event_done d0 bound ev w r w'.
Proof.
  intros (_ & Hs & _) [Ht [[H1 H2]|(H1 & H2)]]; (split; [done|]).
  - left. split; [by etransitivity|done].
  - right. split; [by eapply imports_same_l|done].
Qed.

Lemma import_event_spec E principal ev done0 d0 bound st (w : World) :
  w_tx w = TxNone -> imports done0 d0 (w_db w) -> st_ok d0 bound st (w_db w) -> 1 <= bound < 2 ^ 63 ->
  wp E (import_event principal ev st) w (event_done d0 bound ev w).
Proof.
  intros Ht Hi Hst Hb. unfold import_event. apply wp_reply_bind.
  destruct (validate_cases ev) as [Hv|(c & e & ->)]; [rewrite Hv|by apply wp_ret, event_refused]. apply wp_ret. cbv zeta.
  apply wp_reply_bind. eapply wp_mono; [eapply import_start_spec; [done|exact Hi|exact Hst|lia]|].
  intros [st1|c e] w1 [Hu H1]; [|by apply event_refused]. destruct (H1 _ eq_refl) as [Hst1 [[want b] Hl]].
  apply wp_reads_step; [by split|apply Hu|]. intros now w2 H2.
  assert (Hu2 : untouched w w2) by (eapply untouched_trans; [exact Hu|by apply idle_untouched]).
  destruct (_ <? _); [by apply wp_ret, event_refused|]. unfold import_state in *. rewrite Hl. cbn [default from_option id].
  destruct (Z.eqb_spec (uint64_of want) (pb.LogEvent_LedgerSeq ev)) as [Hseq|]; cbn [negb]; [|by apply wp_ret, event_refused].
  eapply wp_mono; [eapply append_event_spec; [apply H2| |exact Hb|exact Hv|exact Hl|exact Hseq|]|].
  - destruct H2 as (_ & -> & _). exact Hst1.
  - intros e. destruct (errors_is e _); by do 2 eexists.
  - intros r w'. by apply event_done_after.
Qed.

(** What a stream appends: a prefix of it, and the whole of it when it is accepted. *)
Definition stream_done (d0 : DB) (evs : list pb.LogEvent) (broken : bool) (count : Z) (w : World) (r : reply Z) (w' : World) : Prop :=
  w_tx w' = TxNone /\ exists before after, evs = before ++ after /\ imports before (w_db w) (w_db w') /\
    Forall (fun ev => importable ev /\ restorable (pb.LogEvent_LedgerId ev) d0) before /\
    forall n, r = Reply n -> after = [] /\ broken = false /\ n = count + Z.of_nat (length before) /\ n <= maxImportEventsPerCall.

Lemma import_stream_spec E principal evs broken count st done0 d0 (w : World) :
  w_tx w = TxNone -> imports done0 d0 (w_db w) -> st_ok d0 (count + 1) st (w_db w) -> 0 <= count <= maxImportEventsPerCall ->
  wp E (import_stream principal evs broken count st) w (stream_done d0 evs broken count w).
Proof.
  revert count st done0 w. induction evs as [|ev evs IH]; intros count st done0 w Ht Hi Hst Hc; cbn [import_stream].
  { destruct broken; apply wp_ret; (split; [done|]); exists [], []; (split_and!; [done|by apply imports_nil, same_refl|done|]);
      intros n; [done|]. intros [= <-]. split_and!; [done|done|simpl; lia|lia]. }
  destruct (Z.leb_spec maxImportEventsPerCall count) as [|Hlt].
  { apply wp_ret. split; [done|]. exists [], (ev :: evs). split_and!; [done|by apply imports_nil, same_refl|done|done]. }
  apply wp_reply_bind. eapply wp_mono; [eapply import_event_spec; [done|exact Hi|exact Hst|unfold maxImportEventsPerCall in *; lia]|].
  intros r w1 [Ht1 [[Hs Hr]|(Hd & Hv & Hre & Hr)]].
  { destruct r as [st'|c e]; [by destruct (Hr st')|]. split; [done|]. exists [], (ev :: evs). split_and!; [done|by apply imports_nil|done|done]. }
  destruct r as [st'|c e].
  2:{ split; [done|]. exists [ev], evs. split_and!; [done|done|by constructor|done]. }
  eapply wp_mono; [eapply IH; [done|eapply imports_app; [exact Hi|exact Hd]|by apply Hr|lia]|].
  intros r w2 (Ht2 & before & after & -> & Hi2 & Hall & Hn). split; [done|]. exists (ev :: before), after.
  split_and!; [done|by eapply (imports_app [ev])|by constructor|].
  intros n Hrn. destruct (Hn n Hrn) as (-> & -> & -> & Hle). split_and!; [done|done|simpl; lia|done].
Qed.

Lemma st_ok_empty d0 bound d : st_ok d0 bound ∅ d.
Proof. intros l want b. unfold import_state. by rewrite lookup_empty. Qed.
End Transfer.

(** ** The logic of requests one after the other *)

Lemma moving_Import `{Deps} E c principal events broken : moving E c (import_stream principal events broken 0 ∅).
Proof.
  apply moving_moves. intros w Ht. eapply wp_mono.
  { eapply (import_stream_spec E principal events broken 0 ∅ [] (w_db w)); [done|by apply imports_nil, same_refl|apply st_ok_empty|done]. }
  intros r w' (Ht' & before & after & _ & Hi & _). split; [done|by eapply imports_steps].
Qed.

#[export] Instance moving_logic `{Deps} E c : ServiceLogic c true (fun A => @moving A E c).
Proof.
  split; intros.
  - apply moving_ret.
  - by apply moving_pbind.
  - by apply moving_reads.
  - by apply moving_tx_ok.
  - by eapply moving_submission.
  - apply moving_dry.
  - by apply moving_Batch.
  - apply moving_Deny.
  - apply moving_Create.
  - apply moving_Seal.
  - apply moving_Expire.
  - apply moving_ForApproval.
  - by apply moving_Approve.
  - apply moving_ExpireApprovals.
  - apply moving_Checkpoints.
  - apply moving_Import.
Qed.
