(* ===== verification/RpcSteps.v ===== *)
(** * What holds of every RPC

    The reading RPCs only read; what a [ServiceLogic] says of the planner's operations
    holds of the others, whatever the token, the limiter, the store or the client's stream
    do. *)
From S2P Require Import Prelude GoStd Regex Accounts Assets Policy Sha256 Json Storage Db Prog.
From S2P Require Import Logic Postgres BatchManager Redis Chart Planner Cores Operations IntentJson Approval.
From S2P Require Import Proto Auth RateLimit Grpc Queries Transfer Rpc.
From S2P Require Import Bodies StoreRules Effects ApprovalSteps Ledger Solvency Requests Intents Batches Expiry Checkpoint Approvals ServiceLogic TransferSteps.

Create HintDb reads.

(** ** Programs that only read *)

Lemma reads_exec {A} (s : stmt A) : read_stmt s -> reads (exec Pool s).
Proof. by split. Qed.
Lemma reads_ret {A} (a : A) : reads (Ret a).
Proof. done. Qed.
Lemma reads_lift {A} (r : result A) : reads (lift r).
Proof. done. Qed.
Lemma reads_status {A} c m : reads (status (A := A) c m).
Proof. done. Qed.
Lemma reads_row {A} (f : Z -> DB -> option A) : reads (query_row Pool (fun now d => inr (f now d, d))).
Proof. apply reads_query_row, read_stmt_select. Qed.
#[export] Hint Resolve reads_ret reads_lift reads_status reads_on_err reads_wrap reads_call_or : reads.
Hint Resolve reads_EvaluatePolicy reads_GetLedger reads_ListLogEvents : reads.

(** A statement that selects, by its shape. *)
Ltac reads_sql := first [apply (reads_select (fun _ d => _))|apply (reads_row (fun _ d => _))|by apply reads_exec; intros ? ? ? ? [=]].
Ltac reads_step :=
  match goal with
  | |- reads (exec Pool _) => reads_sql
  | |- reads (query_row Pool _) => reads_sql
  | |- reads (query_locked Pool _ ?s) => change (reads (query_row Pool s)); reads_sql
  | |- reads (reply_bind _ _) => apply reads_reply_bind; [|intros]
  | |- reads (mbind _ _) => apply reads_mbind; [|intros]
  | |- reads (pbind _ _) => apply reads_pbind; [|intros]
  | |- reads (on_err _ _) => apply reads_on_err
  | |- reads (wrap _ _) => apply reads_wrap
  | |- reads (call_or _ _) => apply reads_call_or
  | |- reads (planner_call _) => apply reads_call_or
  | |- reads (answering _ _) => apply reads_reply_bind; [|intros]
  | |- reads (ok _) => done
  | |- reads (fail _) => done
  | |- reads (trigger _) => by split
  | |- reads (match ?x with _ => _ end) => destruct x
  | |- reads (let '(_, _) := ?x in _) => destruct x
  | |- _ => solve [auto with reads]
  end.
Ltac reading := repeat reads_step.

Section Steps.
Context `{Deps, Jwt} (tz : Z -> Z) (admins : gset string).

Lemma reads_authorizeLedger ctx l : reads (authorizeLedger ctx l).
Proof. unfold authorizeLedger. reading. Qed.
Lemma reads_extractPrincipal ctx : reads (extractPrincipal ctx).
Proof. unfold extractPrincipal. destruct (PrincipalFromContext ctx) as [[]|]; done. Qed.
Lemma reads_requireImportExportAuthz p : reads (requireImportExportAuthz admins p).
Proof. unfold requireImportExportAuthz. reading. Qed.
Hint Resolve reads_authorizeLedger reads_extractPrincipal reads_requireImportExportAuthz : reads.

Lemma reads_GetTransaction l id : reads (GetTransaction Pool l id).
Proof. unfold GetTransaction. reading. Qed.
Lemma reads_ListTransactions l p : reads (ListTransactions Pool l p).
Proof. unfold ListTransactions. reading. Qed.
Lemma reads_GetAccount l a : reads (GetAccount Pool l a).
Proof. unfold GetAccount. reading. Qed.
Lemma reads_ListAccounts l p : reads (ListAccounts Pool l p).
Proof. unfold ListAccounts. reading. Qed.
Lemma reads_GetHold l id : reads (GetHold Pool l id).
Proof. unfold GetHold. reading. Qed.
Lemma reads_ListHolds l p a : reads (ListHolds Pool l p a).
Proof. unfold ListHolds. reading. Qed.
Lemma reads_GetRelationships l id depth : reads (GetRelationships Pool l id depth).
Proof. unfold GetRelationships. cbv zeta. reading. Qed.
Lemma reads_GetLogEvent l id : reads (GetLogEvent Pool l id).
Proof. unfold GetLogEvent. reading. Qed.
Lemma reads_GetSchema l v : reads (GetSchema Pool l v).
Proof. unfold GetSchema. reading. Qed.
Lemma reads_VerifyBatch b : reads (VerifyBatch tz b).
Proof. unfold VerifyBatch, GetBatch, ListBatchEvents. reading. Qed.
Lemma reads_GetBalance l a s v t : reads (GetBalance Pool l a s v t).
Proof. unfold GetBalance. reading. Qed.
Lemma reads_GetActiveHoldsTotal l a s : reads (GetActiveHoldsTotal Pool l a s).
Proof. unfold GetActiveHoldsTotal. reading. Qed.
Lemma reads_GetAggregatedBalances l p v t : reads (GetAggregatedBalances Pool l p v t).
Proof. unfold GetAggregatedBalances. cbv zeta. reading. Qed.
Lemma reads_ListPendingApprovals l p : reads (ListPendingApprovals Pool l p).
Proof. unfold ListPendingApprovals. cbv zeta. reading. Qed.
Lemma reads_ListLedgers p : reads (ListLedgers Pool p).
Proof. unfold ListLedgers. reading. Qed.
Hint Resolve reads_GetTransaction reads_ListTransactions reads_GetAccount reads_ListAccounts reads_GetHold reads_ListHolds
  reads_GetRelationships reads_GetLogEvent reads_GetSchema reads_VerifyBatch reads_GetBalance reads_GetActiveHoldsTotal
  reads_GetAggregatedBalances reads_ListPendingApprovals reads_ListLedgers : reads.

(** The RPCs that write. *)
Definition writing (r : rpc) : bool :=
  match r with
  | CreateLedgerRpc _ | SealLedgerRpc _ | SubmitRpc _ | SubmitForApprovalRpc _ | ApproveIntentRpc _ | ImportRpc _ _ => true
  | _ => false
  end.

Lemma reads_handle r ctx : writing r = false -> reads (handle tz admins r ctx).
Proof.
  destruct r; try done; intros _; cbn [handle];
    unfold rpc_GetLedger, rpc_ListLedgers, rpc_GetTransaction, rpc_ListTransactions, rpc_GetAccount, rpc_ListAccounts,
      rpc_GetBalance, rpc_GetAggregatedBalances, rpc_GetHold, rpc_ListHolds, rpc_GetRelationships, rpc_ListLogEvents,
      rpc_GetLogEvent, rpc_VerifyBatch, rpc_GetSchema, rpc_ListPendingApprovals; cbv zeta; reading.
Qed.

(** ** The writing RPCs *)

Section Writing.
Context {c imports : bool} {P : forall A, prog A -> Prop} `{!ServiceLogic c imports P}.
Arguments P {A}.

(** The operations that keep solvency: no conversion, and no forced revert. *)
Definition safe_operation (op : pb.Operation) : bool :=
  match op with
  | pb.Intent_Convert _ => false
  | pb.Intent_Revert op => negb (pb.RevertOp_Force op)
  | _ => true
  end.
Definition safe_nested (i : pb.Intent) : bool := match pb.Intent_Operation i with Some op => safe_operation op | None => true end.
Definition safe_submission (i : pb.Intent) : bool :=
  match pb.Intent_Operation i with
  | Some (pb.Intent_Batch _ l) => forallb safe_nested l
  | Some op => safe_operation op
  | None => true
  end.

Lemma batch_intent_safe nested bi : batch_intent nested = Reply bi -> safe_nested nested = true -> safe_intent bi = true.
Proof.
  unfold batch_intent, safe_nested. destruct (pb.Intent_Operation nested) as [[]|]; try done; cbn [reply_map safe_operation].
  all: try (intros [= <-]; done).
  all: repeat match goal with |- context [reply_map _ ?x] => destruct x; cbn [reply_map] end; try done; intros [= <-]; done.
Qed.
Lemma batch_intents_safe l bis : batch_intents l = Reply bis -> forallb safe_nested l = true -> forallb safe_intent bis = true.
Proof.
  revert bis. induction l as [|nested l IH]; cbn [batch_intents forallb]; [by intros bis [= <-]|].
  intros bis. destruct (batch_intent nested) as [bi|] eqn:Eb; [|done]. destruct (batch_intents l) as [rest|]; cbn [reply_map]; [|done].
  intros [= <-] [H1 H2]%andb_prop. cbn [forallb]. rewrite (batch_intent_safe _ _ Eb H1). by apply IH.
Qed.

Lemma sl_handlePost i op : P (handlePost i op).
Proof.
  apply sl_parsed. intros ps _. cbv zeta. destruct (pb.Intent_DryRun i); [apply sl_call, sl_dry|].
  by eapply sl_submit; [apply SubmitPost_submission|].
Qed.
Lemma sl_handleConvert i op : c = false -> P (handleConvert i op).
Proof. intros Hc. apply sl_parsed. intros ps _. eapply sl_submit; [apply SubmitConvert_submission|by rewrite Hc]. Qed.
Lemma sl_handleAuthorize i op : P (handleAuthorize i op).
Proof.
  apply sl_parsed. intros a _. destruct (pb.Authorize_ExpiresAt op); [|apply sl_ret].
  by eapply sl_submit; [apply SubmitAuthorize_submission|].
Qed.
Lemma sl_handleCapture i op : P (handleCapture i op).
Proof. apply sl_parsed. intros a _. by eapply sl_submit; [apply SubmitCapture_submission|]. Qed.
Lemma sl_handleRevert i op : (c = true -> pb.RevertOp_Force op = false) -> P (handleRevert i op).
Proof. intros Hc. eapply sl_submit; [apply SubmitRevert_submission|]. intros Hct. by rewrite Hc. Qed.
Lemma sl_handleBatch i mode l : (c = true -> forallb safe_nested l = true) -> P (handleBatch i mode l).
Proof.
  intros Hc. apply sl_parsed. intros bis Hb. cbv zeta. apply sl_pbind.
  - apply sl_Batch. intros Hct. by apply (batch_intents_safe l), Hc.
  - intros [[r|] [e|]]; [destruct (String.eqb _ _)|..]; apply sl_ret.
Qed.

Lemma sl_Submit ctx intent :
  (c = true -> match intent with Some i => safe_submission i = true | None => True end) ->
  P (rpc_Submit ctx intent).
Proof.
  intros Hc. unfold rpc_Submit. destruct intent as [i|]; [|apply sl_ret].
  destruct (String.eqb _ _); [apply sl_ret|]. apply sl_after; [apply reads_extractPrincipal|]. intros principal.
  destruct (classifyIntent i) as [opType accounts]. apply sl_after; [apply reads_authorizeLedger|]. intros _.
  apply sl_pbind; [apply sl_reads, reads_EvaluatePolicy|]. intros [u|e].
  2:{ apply sl_pbind; [|intros; apply sl_ret]. destruct (errors_is e _); [|apply sl_ret].
      apply sl_pbind; [apply sl_Deny|intros; apply sl_ret]. }
  unfold safe_submission in Hc. destruct (pb.Intent_Operation i) as [[]|]; [..|apply sl_ret]; cbn [safe_operation] in Hc.
  - apply sl_handlePost.
  - apply sl_handleAuthorize.
  - apply sl_handleCapture.
  - by eapply sl_submit; [apply SubmitVoid_submission|].
  - apply sl_handleConvert, not_true_is_false. intros Hct. by discriminate (Hc Hct).
  - by apply sl_handleBatch.
  - apply sl_handleRevert. intros Hct. by apply negb_true_iff, Hc.
  - by eapply sl_submit; [apply SubmitAmend_submission|].
  - by eapply sl_submit; [apply SubmitSetMetadata_submission|].
  - by eapply sl_submit; [apply SubmitDeleteMetadata_submission|].
  - by eapply sl_submit; [apply SubmitInsertSchema_submission|].
Qed.

Lemma sl_rpc_Import ctx events broken : imports = true -> P (rpc_Import admins ctx events broken).
Proof.
  intros Hi. apply sl_after; [apply reads_extractPrincipal|]. intros p. apply sl_after; [apply reads_requireImportExportAuthz|]. intros _.
  by apply sl_Import.
Qed.

(** ** Every RPC, behind its interceptors *)

Definition safe_rpc (r : rpc) : bool :=
  match r with
  | SubmitRpc (Some i) => safe_submission i
  | ApproveIntentRpc _ => false
  | _ => true
  end.

Definition importing (r : rpc) : bool := match r with ImportRpc _ _ => true | _ => false end.

Lemma sl_handle r ctx :
  (c = true -> safe_rpc r = true) -> (imports = false -> importing r = false) -> P (handle tz admins r ctx).
Proof.
  intros Hc Hi. destruct (writing r) eqn:Ew; [|by apply sl_reads, reads_handle].
  destruct r; try done; cbn [handle]; (apply sl_reply_bind; [|intros; apply sl_ret]).
  - apply sl_after; [apply reads_authorizeLedger|]. intros _. apply sl_call, sl_Create.
  - apply sl_after; [apply reads_authorizeLedger|]. intros _. apply sl_call, sl_Seal.
  - apply sl_Submit. intros Hct. destruct intent; [by apply Hc|done].
  - unfold rpc_SubmitForApproval. cbv zeta. destruct (String.eqb _ _); [apply sl_ret|]. destruct (String.eqb _ _); [apply sl_ret|].
    destruct (pb.ForApproval_RequiredApprovers req); [apply sl_ret|].
    apply sl_after; [apply reads_extractPrincipal|]. intros by_. apply sl_after; [apply reads_authorizeLedger|]. intros _.
    apply sl_call_or, sl_ForApproval.
  - assert (Hcf : c = false) by (apply not_true_is_false; intros Hct; by discriminate (Hc Hct)).
    unfold rpc_ApproveIntent. cbv zeta. destruct (String.eqb _ _); [apply sl_ret|]. destruct (String.eqb _ _); [apply sl_ret|].
    apply sl_after; [apply reads_extractPrincipal|]. intros by_. apply sl_after; [apply reads_authorizeLedger|]. intros _.
    by apply sl_call, sl_Approve.
  - apply sl_rpc_Import, not_false_is_true. intros Hf. by discriminate (Hi Hf).
Qed.

(** An authenticator that only reads, as the one of the server. *)
Definition authn_reads (authn : Authenticator) : Prop :=
  match authn with WithIdentity f => forall ctx, reads (f ctx) | PrincipalOnly f => forall ctx, reads (f ctx) end.
Lemma jwt_reads a : authn_reads (WithIdentity (AuthenticateIdentity a)).
Proof.
  intros ctx. unfold AuthenticateIdentity. apply reads_mbind; [done|]. intros raw. apply reads_pbind; [by split|]. intros now.
  destruct (jwt_Parse _ _ _ _); [|done]. destruct (String.eqb _ _); [done|]. by destruct (parseLedgersClaim _).
Qed.
Lemma reads_inject ctx authn : authn_reads authn -> reads (authenticateAndInject ctx authn).
Proof. intros Ha. destruct authn; (apply reads_mbind; [apply Ha|done]). Qed.
Lemma reads_check_rate l ctx m : reads (check_rate l ctx m).
Proof.
  unfold check_rate, allow. apply reads_pbind; [|by intros [b []]]. destruct (limitFor l m) as [limit class].
  destruct (limit <=? 0); [done|]. apply reads_pbind; [by split|]. intros now. apply reads_pbind; [by split|]. intros [n|e]; [|done].
  apply reads_pbind; [|done]. destruct (n =? 1); by repeat split.
Qed.

(** The interceptors change nothing: what holds of the handler, whoever calls, holds of
    the request. *)
Lemma sl_authenticated {A} authn m ctx (h : Context -> prog (reply A)) :
  (forall a, authn = Some a -> authn_reads a) -> (forall ctx, P (h ctx)) -> P (authenticated authn m ctx h).
Proof.
  intros Ha Hh. unfold authenticated. destruct (methodIsExempt m); [done|]. destruct authn as [a|]; [|apply sl_ret].
  apply sl_pbind; [by apply sl_reads, reads_inject, Ha|]. intros [ctx'|e]; [apply Hh|apply sl_ret].
Qed.
Lemma sl_rate_limited {A} limiter m ctx (h : Context -> prog (reply A)) :
  (forall ctx, P (h ctx)) -> P (rate_limited limiter m ctx h).
Proof.
  intros Hh. unfold rate_limited. destruct limiter as [l|]; [|done].
  apply sl_pbind; [apply sl_reads, reads_check_rate|]. intros [[k e]|]; [apply sl_ret|done].
Qed.

Lemma sl_serve_rpc authn limiter r ctx :
  (forall a, authn = Some a -> authn_reads a) -> (c = true -> safe_rpc r = true) -> (imports = false -> importing r = false) ->
  P (serve_rpc tz admins authn limiter r ctx).
Proof.
  intros Ha Hc Hi. apply sl_authenticated; [done|]. intros ctx'. apply sl_rate_limited. intros ctx''. by apply sl_handle.
Qed.

End Writing.

End Steps.

Lemma sl_configured `{Deps, Jwt} tz c imports (P : forall A, prog A -> Prop) `{!ServiceLogic c imports P} cfg r ctx :
  (c = true -> safe_rpc r = true) -> (imports = false -> importing r = false) -> P _ (serve_configured tz cfg r ctx).
Proof. intros Hc Hi. apply (sl_serve_rpc tz _ (c := c) (imports := imports) (P := P)); [|done..]. intros a [= <-]. apply jwt_reads. Qed.
