(* ===== verification/Isolation.v ===== *)
(** * Tenants: what an RPC for one ledger can see and touch

    A token opens the ledgers its claim names. The RPCs of a ledger answer from the rows of
    that ledger alone, change no other, and do nothing at all for a token that does not
    name it. *)
From S2P Require Import Prelude GoStd Config Regex Accounts Assets Policy Sha256 Json Storage Db Prog.
From S2P Require Import Logic Postgres BatchManager Redis Chart Planner Cores Operations IntentJson Approval.
From S2P Require Import Proto Auth RateLimit Grpc Queries Transfer Rpc.
From S2P Require Import Bodies StoreRules Views Confinement Requests TransferSteps RpcSteps.

(** ** Answers from the rows of one ledger *)

Definition local {A} (l : string) (s : stmt A) : Prop :=
  forall now d, exists a, s now d = inr (a, d) /\ s now (view l d) = inr (a, view l d).
Definition ev_local {X} (l : string) (e : ev X) : Prop :=
  match e with Sql Pool s => local l s | Sql Tx _ | SqlLock _ _ | Begin | Commit | Rollback => False | _ => True end.
Fixpoint looks {A} (l : string) (m : prog A) : Prop :=
  match m with Ret _ => True | Vis e k => ev_local l e /\ forall x, looks l (k x) end.

(** The world in which the other ledgers do not exist. *)
Definition alone (l : string) (w : World) : World := with_db (view l (w_db w)) w.

Lemma step_local {X} E (e : ev X) l (w : World) :
  ev_local l e -> w_tx w = TxNone ->
  let '(x, w1) := Prog.step E e w in Prog.step E e (alone l w) = (x, alone l w1) /\ w_tx w1 = TxNone.
Proof.
  intros He Ht. destruct e as [| | |? [] s| | | | | | | | | | | | | | |? rk s]; cbn [Prog.step]; try done; try by destruct He.
  - unfold sql_pool. change (w_db (alone l w)) with (view l (w_db w)). change (w_tick (alone l w)) with (w_tick w).
    destruct (He (e_now E (w_tick w)) (w_db w)) as (a & Hs & Hv). rewrite Hs, Hv. change (w_tx (alone l w)) with (w_tx w).
    rewrite Ht. by destruct (e_fault E (w_tick w)) as [[]|].
  - by destruct (e_evicted E _).
  - by destruct (e_fault E _) as [[]|].
  - by destruct (e_fault E _) as [[]|].
  - change (w_mgr (alone l w)) with (w_mgr w). by destruct (f (w_mgr w)).
  - by destruct (e_fault E _) as [[]|].
Qed.

Lemma looks_alone {A} E (m : prog A) l (w : World) :
  looks l m -> w_tx w = TxNone -> fst (run E m (alone l w)) = fst (run E m w).
Proof.
  revert w. induction m as [a|X e k IH]; intros w; cbn [looks run]; [done|]. intros [He Hk] Ht.
  pose proof (step_local E e l w He Ht) as Hs. destruct (Prog.step E e w) as [x w1]. destruct Hs as [-> Ht1].
  apply (IH x (tick w1)); [apply Hk|done].
Qed.

Section Rules.
Context (l : string).
Lemma looks_pbind {A B} (m : prog A) (f : A -> prog B) : looks l m -> (forall a, looks l (f a)) -> looks l (pbind m f).
Proof.
  intros Hm Hf. induction m as [a|X e k IH]; [apply Hf|]. destruct Hm as [He Hk]. split; [done|]. intros x. apply IH, Hk.
Qed.
Lemma looks_mbind {A B} (m : M A) (f : A -> M B) : looks l m -> (forall a, looks l (f a)) -> looks l (mbind m f).
Proof. intros Hm Hf. apply looks_pbind; [done|]. by intros []. Qed.
Lemma looks_reply {A B} (m : prog (reply A)) (f : A -> prog (reply B)) :
  looks l m -> (forall a, looks l (f a)) -> looks l (reply_bind m f).
Proof. intros Hm Hf. apply looks_pbind; [done|]. by intros []. Qed.
Lemma looks_exec {A} (s : stmt A) : local l s -> looks l (exec Pool s).
Proof. by split. Qed.
Lemma looks_row {A} (s : stmt (option A)) : local l s -> looks l (query_row Pool s).
Proof. intros Hs. apply looks_mbind; [by split|]. by intros []. Qed.

Lemma local_find {R} (get : DB -> list R) (proj : R -> string) (p : R -> bool) :
  (forall d, get (view l d) = List.filter (fun r => String.eqb l (proj r)) (get d)) ->
  (forall r, p r = true -> proj r = l) -> local l (fun _ d => inr (List.find p (get d), d)).
Proof.
  intros Hg Hp now d. eexists. split; [reflexivity|]. rewrite Hg, find_within; [done|]. intros x Hx. by rewrite (Hp x Hx), String.eqb_refl.
Qed.
Lemma local_filter {R A} (get : DB -> list R) (proj : R -> string) (p : R -> bool) (f : list R -> A) :
  (forall d, get (view l d) = List.filter (fun r => String.eqb l (proj r)) (get d)) ->
  (forall r, p r = true -> proj r = l) -> local l (fun _ d => inr (f (List.filter p (get d)), d)).
Proof.
  intros Hg Hp now d. eexists. split; [reflexivity|]. rewrite Hg, filter_within; [done|]. intros x Hx. by rewrite (Hp x Hx), String.eqb_refl.
Qed.

Ltac first_guard := let r := fresh in let Hr := fresh in
  intros r Hr; repeat (apply andb_prop in Hr as [Hr _]); by apply String.eqb_eq in Hr.

Lemma local_select_ledger : local l (sql_select_ledger l).
Proof. apply (local_find ledgers lr_ID); [done|]. intros r Hr. by apply String.eqb_eq in Hr. Qed.
Lemma local_select_tx id : local l (sql_select_tx l id).
Proof. apply (local_find transactions (fun r : tx_row => tx_LedgerID r)); [done|first_guard]. Qed.
Lemma local_select_account a : local l (sql_select_account l a).
Proof. apply (local_find accounts (fun r : account_row => ac_LedgerID r)); [done|first_guard]. Qed.
Lemma local_select_hold id : local l (sql_select_hold l id).
Proof. apply (local_find holds ho_LedgerID); [done|first_guard]. Qed.
Lemma local_select_log id : local l (sql_select_log_event l id).
Proof. apply (local_find log_events ev_LedgerID); [done|first_guard]. Qed.
Lemma local_select_schema v : local l (sql_select_schema l v).
Proof. apply (local_find schemas sr_LedgerID); [done|first_guard]. Qed.
Lemma local_policy : local l (sql_active_policy l).
Proof. apply (local_filter policies pol_LedgerID _ (fun t => head (reverse (order_by pol_InsertedAt t)))); [done|first_guard]. Qed.
Lemma local_list_log token n : local l (sql_list_log l token n).
Proof.
  apply (local_filter log_events ev_LedgerID _ (fun t => limit n (order_by ev_LedgerSeq (List.filter _ t)))); [done|].
  intros r Hr. by apply String.eqb_eq in Hr.
Qed.
Lemma local_list_accounts token n : local l (sql_list_accounts l token n).
Proof. apply (local_filter accounts (fun r : account_row => ac_LedgerID r) _ (fun t => limit n (order_by_text _ t))); [done|first_guard]. Qed.
Lemma local_list_txs token n : local l (sql_list_txs l token n).
Proof. apply (local_filter transactions (fun r : tx_row => tx_LedgerID r) _ (fun t => limit n (reverse (merge_sort tx_le t)))); [done|first_guard]. Qed.
Lemma local_list_holds token a n : local l (sql_list_holds l token a n).
Proof. apply (local_filter holds ho_LedgerID _ (fun t => limit n (order_by_text ho_HoldID t))); [done|first_guard]. Qed.
Lemma local_sum_bucket a s v t : local l (sql_sum_bucket l a s v t).
Proof. apply (local_filter volumes_delta vd_LedgerID _ (fun t => (sum_by vd_InputDelta t, sum_by vd_OutputDelta t))); [done|first_guard]. Qed.
Lemma local_sum_by_asset p v t : local l (sql_sum_by_asset l p v t).
Proof.
  apply (local_filter volumes_delta vd_LedgerID _ (fun rows => map (fun a => let rs := List.filter (fun r => String.eqb a (vd_Asset r)) rows in
                     (a, sum_by vd_InputDelta rs, sum_by vd_OutputDelta rs)) (distinct (map vd_Asset rows)))); [done|first_guard].
Qed.
Lemma local_sum_holds a s : local l (sql_sum_holds l a s).
Proof. apply (local_filter holds ho_LedgerID _ (sum_by _)); [done|first_guard]. Qed.
Lemma local_page_approvals token n : local l (sql_page_approvals l token n).
Proof. apply (local_filter pending_approvals (fun r : approval_row => pa_LedgerID r) _ (fun t => limit n (order_by_text _ t))); [done|first_guard]. Qed.
Lemma local_relationships id : local l (sql_relationships l id).
Proof. apply (local_filter relationships rel_LedgerID _ (order_by rel_SystemTime)); [done|first_guard]. Qed.

(** The recursive query starts in the ledger and stays in it. *)
Lemma chain_ledger rels level k :
  Forall (fun r => rel_LedgerID r = l) level ->
  chain (List.filter (fun r => String.eqb l (rel_LedgerID r)) rels) level k = chain rels level k /\
  Forall (fun r => rel_LedgerID r = l) (chain rels level k).
Proof.
  revert level. induction k as [|k IH]; intros level Hl; cbn [chain]; [done|].
  assert (Hw : forall r, existsb (fun c => linked c r) level = true -> rel_LedgerID r = l).
  { intros r (c & Hc & [He%String.eqb_eq _]%andb_prop)%existsb_exists. rewrite He.
    rewrite Forall_forall in Hl. by apply Hl, list_elem_of_In. }
  rewrite filter_within by (intros r Hr; by rewrite (Hw r Hr), String.eqb_refl).
  assert (Hn : Forall (fun r => rel_LedgerID r = l) (List.filter (fun r => existsb (fun c => linked c r) level) rels)).
  { apply Forall_forall. intros r Hr%list_elem_of_In. apply List.filter_In in Hr as [_ Hr]. by apply Hw. }
  destruct (IH _ Hn) as [-> Hf]. split; [done|]. by apply Forall_app.
Qed.
Lemma local_chain id depth : local l (sql_relationship_chain l id depth).
Proof.
  intros now d. eexists. split; [reflexivity|]. unfold sql_relationship_chain. cbn [relationships view].
  set (start := List.filter (touches l id) (relationships d)).
  assert (Hst : Forall (fun r => rel_LedgerID r = l) start).
  { apply Forall_forall. intros r Hr%list_elem_of_In. apply List.filter_In in Hr as [_ [He%String.eqb_eq _]%andb_prop]. done. }
  rewrite (filter_within _ (touches l id)) by (intros r [Hr _]%andb_prop; done). fold start.
  destruct (chain_ledger (relationships d) start (Z.to_nat (depth - 1)) Hst) as [-> Hch].
  rewrite filter_within; [done|]. intros r (c & Hc & Hr)%existsb_exists. unfold rel_conflict in Hr.
  repeat (apply andb_prop in Hr as [Hr _]). apply String.eqb_eq in Hr. rewrite Hr.
  rewrite Forall_forall in Hch. rewrite (Hch c) by (by apply list_elem_of_In). apply String.eqb_refl.
Qed.
End Rules.

Create HintDb local.
#[export] Hint Resolve local_select_ledger local_select_tx local_select_account local_select_hold local_select_log
  local_select_schema local_policy local_list_log local_list_accounts local_list_txs local_list_holds local_sum_bucket
  local_sum_by_asset local_sum_holds local_page_approvals local_relationships local_chain : local.

Ltac looks_step :=
  match goal with
  | |- looks _ (exec Pool _) => apply looks_exec; solve [auto with local]
  | |- looks _ (query_row Pool _) => apply looks_row; solve [auto with local]
  | |- looks _ (query_locked Pool _ _) => apply looks_row; solve [auto with local]
  | |- looks _ (reply_bind _ _) => apply looks_reply; [|intros ?]
  | |- looks _ (mbind _ _) => apply looks_mbind; [|intros ?]
  | |- looks _ (pbind _ _) => apply looks_pbind; [|intros ?]
  | |- looks _ (on_err _ _) => apply looks_pbind; [|intros ?]
  | |- looks _ (wrap _ _) => apply looks_pbind; [|intros ?]
  | |- looks _ (call_or _ _) => apply looks_pbind; [|intros ?]
  | |- looks _ (answering _ _) => apply looks_reply; [|intros ?]
  | |- looks _ (trigger _) => by split
  | |- looks _ (Ret _) => done
  | |- looks _ (ok _) => done
  | |- looks _ (fail _) => done
  | |- looks _ (lift _) => done
  | |- looks _ (status _ _) => done
  | |- looks _ (match ?x with _ => _ end) => destruct x
  end.
Ltac looking := repeat looks_step.

(** ** The ledger of an RPC *)

Definition rpc_ledger (r : rpc) : option string :=
  match r with
  | CreateLedgerRpc req => Some (pb.CreateLedger_Id req)
  | GetLedgerRpc id | SealLedgerRpc id => Some id
  | SubmitRpc intent => option_map pb.Intent_LedgerId intent
  | GetTransactionRpc l _ | GetAccountRpc l _ | GetHoldRpc l _ | GetRelationshipsRpc l _ _ | GetLogEventRpc l _
  | InsertSchemaRpc l _ _ | GetSchemaRpc l _ => Some l
  | ListTransactionsRpc req | ListAccountsRpc req | ListHoldsRpc req _ | ListLogEventsRpc req | ListPendingApprovalsRpc req =>
      Some (pb.Page_LedgerId req)
  | GetBalanceRpc req => Some (pb.GetBalance_LedgerId req)
  | GetAggregatedBalancesRpc req => Some (pb.Aggregated_LedgerId req)
  | SubmitForApprovalRpc req => Some (pb.ForApproval_LedgerId req)
  | ApproveIntentRpc req => Some (pb.ApproveIntent_LedgerId req)
  | ListLedgersRpc _ _ | VerifyBatchRpc _ _ | ImportRpc _ _ => None
  end.

Section Handlers.
Context `{Deps} (tz : Z -> Z) (admins : gset string) (l : string).

Lemma looks_authorizeLedger ctx : looks l (authorizeLedger ctx l).
Proof. unfold authorizeLedger. looking. Qed.

Lemma looks_handle r ctx : rpc_ledger r = Some l -> writing r = false -> looks l (handle tz admins r ctx).
Proof.
  destruct r; try done; intros [= <-] _; cbn [handle];
    unfold rpc_GetLedger, rpc_GetTransaction, rpc_ListTransactions, rpc_GetAccount, rpc_ListAccounts,
      rpc_GetBalance, rpc_GetAggregatedBalances, rpc_GetHold, rpc_ListHolds, rpc_GetRelationships, rpc_ListLogEvents,
      rpc_GetLogEvent, rpc_GetSchema, rpc_ListPendingApprovals, authorizeLedger,
      GetLedger, GetTransaction, ListTransactions, GetAccount, ListAccounts, GetBalance, GetActiveHoldsTotal,
      GetAggregatedBalances, GetHold, ListHolds, GetRelationships, ListLogEvents, GetLogEvent, GetSchema,
      ListPendingApprovals; cbv zeta; looking.
Qed.

(** ** What it touches *)

Lemma reads_stays {A} (m : prog A) : reads m -> stays l m.
Proof.
  induction m as [a|X e k IH]; [done|]. intros [He Hk]. split.
  - destruct e as [| | |? [] s| | | | | | | | | | | | | | |? rk s]; try done. intros now d a d' Hs. by rewrite (He _ _ _ _ Hs).
  - intros x _. apply IH, Hk.
Qed.
Lemma stays_reply {A B} (m : prog (reply A)) (f : A -> prog (reply B)) :
  stays l m -> (forall a, stays l (f a)) -> stays l (reply_bind m f).
Proof. intros Hm Hf. apply stays_pbind; [done|]. by intros []. Qed.
Lemma stays_call_or {A} (f : error -> reply A) (m : M A) : stays l m -> stays l (call_or f m).
Proof. intros Hm. by apply stays_pbind. Qed.

Ltac stays_rpc := repeat match goal with
  | |- _ => solve [auto with stays]
  | |- stays _ (reply_bind _ _) => apply stays_reply; [|intros ?]
  | |- stays _ (call_or _ _) => apply stays_call_or
  | |- stays _ (planner_call _) => apply stays_call_or
  | |- stays _ (answering _ _) => apply stays_reply; [|intros ?]
  | |- stays _ (status _ _) => done
  | |- stays _ (authorizeLedger _ _) => apply reads_stays, reads_authorizeLedger
  | |- stays _ (extractPrincipal _) => apply reads_stays, reads_extractPrincipal
  | |- _ => stays_step
  end.

Lemma stays_Submit ctx i : pb.Intent_LedgerId i = l -> stays l (rpc_Submit ctx (Some i)).
Proof.
  intros Hl. unfold rpc_Submit, handlePost, handleSetMetadata, handleDeleteMetadata, handleInsertSchema, handleAuthorize,
    handleCapture, handleVoid, handleRevert, handleAmend, handleConvert, handleBatch. cbv zeta. rewrite !Hl. stays_rpc.
Qed.

Lemma stays_handle r ctx : rpc_ledger r = Some l -> stays l (handle tz admins r ctx).
Proof.
  intros Hl. destruct (writing r) eqn:Ew; [|by apply reads_stays, reads_handle].
  destruct r; try done; cbn [handle]; (apply stays_reply; [|done]).
  - injection Hl as Hl. unfold rpc_CreateLedger. rewrite Hl. cbv zeta. stays_rpc.
  - injection Hl as ->. unfold rpc_SealLedger. stays_rpc.
  - destruct intent; [|done]. injection Hl as Hl. by apply stays_Submit.
  - injection Hl as Hl. unfold rpc_SubmitForApproval. cbv zeta. rewrite !Hl. stays_rpc.
  - injection Hl as Hl. unfold rpc_ApproveIntent. cbv zeta. rewrite !Hl. stays_rpc.
Qed.

(** ** A caller who may not access the ledger *)

Definition refuses {A} (m : prog (reply A)) : Prop := exists c e, m = Ret (Status c e).

Lemma refuses_after {A B} (m : prog (reply A)) (f : A -> prog (reply B)) : refuses m -> refuses (reply_bind m f).
Proof. intros (c & e & ->). by exists c, e. Qed.
Lemma refuses_status {A} c m : refuses (status (A := A) c m).
Proof. by do 2 eexists. Qed.
Lemma refuses_principal {A} ctx (f : string -> prog (reply A)) : (forall p, refuses (f p)) -> refuses (reply_bind (extractPrincipal ctx) f).
Proof. intros Hf. unfold extractPrincipal. destruct (PrincipalFromContext ctx) as [[]|]; [apply refuses_status|apply Hf|apply refuses_status]. Qed.

Lemma refuses_handle r ctx id :
  IdentityFromContext ctx = Some id -> CanAccessLedger id l = false -> rpc_ledger r = Some l ->
  refuses (handle tz admins r ctx).
Proof.
  intros Hid Hno. assert (Ha : refuses (authorizeLedger ctx l)) by (unfold authorizeLedger; rewrite Hid, Hno; apply refuses_status).
  destruct r; cbn [rpc_ledger]; try done;
    first [destruct intent as [i|]; [intros [= Hl]|done] | intros [= Hl]]; cbn [handle]; try apply refuses_status; apply refuses_after;
    unfold rpc_CreateLedger, rpc_GetLedger, rpc_SealLedger, rpc_GetTransaction, rpc_ListTransactions, rpc_GetAccount,
      rpc_ListAccounts, rpc_GetBalance, rpc_GetAggregatedBalances, rpc_GetHold, rpc_ListHolds, rpc_GetRelationships,
      rpc_ListLogEvents, rpc_GetLogEvent, rpc_GetSchema, rpc_ListPendingApprovals, rpc_SubmitForApproval, rpc_ApproveIntent,
      rpc_Submit; cbv zeta; rewrite ?Hl;
    repeat match goal with
           | |- refuses (if ?b then _ else _) => destruct b
           | |- refuses (status _ _) => apply refuses_status
           | |- refuses (reply_bind (authorizeLedger _ _) _) => by apply refuses_after
           | |- refuses (reply_bind (extractPrincipal _) _) => apply refuses_principal; intros ?
           | |- refuses (match ?x with _ => _ end) => destruct x
           end.
Qed.
End Handlers.

(** ** Behind the interceptors *)

Section Service.
Context `{Deps, Jwt} (tz : Z -> Z) (cfg : Config).

(** The token of the request verifies, at the instant the server looked. *)
Definition verified (ctx : Context) (token : Token) : Prop :=
  exists raw now, bearerToken ctx = Ok raw /\
    jwt_Parse now (auth_Audience (cfg_Auth cfg)) (auth_Issuer (cfg_Auth cfg)) raw = Some token.

Lemma not_exempt r : methodIsExempt (full_method r) = false.
Proof. by destruct r. Qed.

(** What holds of the handler for the caller the token names, or of a refusal, holds of
    the request. *)
Lemma wp_served E r ctx (w : World) (Q : reply answer -> World -> Prop) :
  w_tx w = TxNone ->
  (forall c e w', idle w w' -> Q (Status c e) w') ->
  (forall token id w', verified ctx token -> id_Principal id = tok_Subject token ->
     (forall l, CanAccessLedger id l = true <-> names_ledger token l) -> idle w w' ->
     wp E (handle tz (list_to_set (auth_AdminPrincipals (cfg_Auth cfg))) r
             (contextWithIdentity id (contextWithPrincipal (id_Principal id) ctx))) w' Q) ->
  wp E (serve_configured tz cfg r ctx) w Q.
Proof.
  intros Ht Href Hserve. unfold serve_configured, serve_rpc, authenticated. rewrite not_exempt. cbn [newAuthenticator].
  set (a := {| ja_audience := auth_Audience (cfg_Auth cfg); ja_issuer := auth_Issuer (cfg_Auth cfg) |}). apply wp_bind. unfold authenticateAndInject. apply wp_mbind.
  eapply wp_mono; [apply wp_and; [apply AuthenticateIdentity_spec|by apply reads_idle; [apply (jwt_reads a)|]]|].
  intros [id|e] w1 [(_ & _ & Hid) H1]; [|by apply wp_ret, Href]. destruct (Hid id eq_refl) as (raw & now & token & Hb & Hp & Hs & _ & Hn).
  apply wp_ret. assert (Hrun : forall w2, idle w w2 -> wp E (handle tz (list_to_set (auth_AdminPrincipals (cfg_Auth cfg))) r
             (contextWithIdentity id (contextWithPrincipal (id_Principal id) ctx))) w2 Q).
  { intros w2 H2. apply (Hserve token); [by exists raw, now|done|done|done]. }
  unfold rate_limited. destruct (newRateLimiter _) as [lim|]; [|by apply Hrun].
  apply wp_bind. eapply wp_mono; [by apply reads_idle; [apply reads_check_rate|apply H1]|].
  intros [[c e]|] w2 H2; [by apply wp_ret, Href; eapply idle_trans|]. apply Hrun. by eapply idle_trans.
Qed.

Lemma gated E r ctx l (w : World) :
  w_tx w = TxNone -> rpc_ledger r = Some l ->
  wp E (serve_configured tz cfg r ctx) w (fun a w' =>
    (exists token, verified ctx token /\ names_ledger token l) \/ ((exists c e, a = Status c e) /\ idle w w')).
Proof.
  intros Ht Hl. apply wp_served; [done|intros c e w' Hi; right; by split; [do 2 eexists|]|].
  intros token id w' Hv _ Hn Hi. destruct (CanAccessLedger id l) eqn:Ea.
  - eapply (wp_mono _ _ _ (fun _ _ => True)); [by unfold wp; destruct (run _ _ _)|]. intros a w2 _. left. exists token. by split; [|apply Hn].
  - destruct (refuses_handle tz (list_to_set (auth_AdminPrincipals (cfg_Auth cfg))) l r
                (contextWithIdentity id (contextWithPrincipal (id_Principal id) ctx)) id eq_refl Ea Hl) as (c & e & ->).
    apply wp_ret. right. by split; [do 2 eexists|].
Qed.

Lemma stays_serve l r ctx : rpc_ledger r = Some l -> stays l (serve_configured tz cfg r ctx).
Proof.
  intros Hl. unfold serve_configured, serve_rpc, authenticated. rewrite not_exempt. cbn [newAuthenticator].
  apply stays_pbind; [apply reads_stays, (reads_inject ctx), jwt_reads|]. intros [ctx'|e]; [|done].
  unfold rate_limited. destruct (newRateLimiter _) as [lim|]; [|by apply stays_handle].
  apply stays_pbind; [apply reads_stays, reads_check_rate|]. intros [[c e]|]; [done|by apply stays_handle].
Qed.

Lemma looks_serve l r ctx : rpc_ledger r = Some l -> writing r = false -> looks l (serve_configured tz cfg r ctx).
Proof.
  intros Hl Hw. unfold serve_configured, serve_rpc, authenticated. rewrite not_exempt. cbn [newAuthenticator].
  apply looks_pbind.
  { apply looks_mbind; [|done]. unfold AuthenticateIdentity. apply looks_mbind; [done|]. intros raw. apply looks_pbind; [by split|].
    intros now. destruct (jwt_Parse _ _ _ _); [|done]. destruct (String.eqb _ _); [done|]. by destruct (parseLedgersClaim _). }
  intros [ctx'|e]; [|done]. unfold rate_limited. destruct (newRateLimiter _) as [lim|]; [|by apply looks_handle].
  apply looks_pbind; [|intros [[c e]|]; [done|by apply looks_handle]].
  unfold check_rate, allow. apply looks_pbind; [|by intros [b []]]. destruct (limitFor lim _) as [limit class].
  destruct (limit <=? 0); [done|]. apply looks_pbind; [by split|]. intros now. apply looks_pbind; [by split|]. intros [n|e]; [|done].
  apply looks_pbind; [|done]. destruct (n =? 1); by repeat split.
Qed.

(** The ledgers a listing shows. *)
Lemma ListLedgers_scoped E ctx size token id (w : World) :
  IdentityFromContext ctx = Some id ->
  wp E (rpc_ListLedgers ctx size token) w (fun a _ => forall ls next, a = Reply (ls, next) ->
    Forall (fun x => CanAccessLedger id (pb.Ledger_Id x) = true) ls).
Proof.
  intros Hid. unfold rpc_ListLedgers. apply wp_reply_bind, wp_call_or. eapply (wp_mono _ _ _ (fun _ _ => True)); [by unfold wp; destruct (run _ _ _)|].
  intros [[recs tok]|e] w' _; [|done]. apply wp_ret. intros ls next [= <- _]. apply Forall_forall. intros x Hx.
  apply list_elem_of_fmap in Hx as (rec & -> & Hr%list_elem_of_In). apply List.filter_In in Hr as [_ Hv].
  unfold visible in Hv. by rewrite Hid in Hv.
Qed.
End Service.
