(* ===== verification/Worker.v ===== *)
(** * cmd/worker/main.go: the background jobs

    Four goroutines, each a ticker that runs its job and backs off after failures: after
    the n-th failure in a row it lets min(n, 5) - 1 ticks pass. A tick, or the end of the
    context, is what [SleepOrDone] answers. The goroutines' jobs interleave as requests
    do (Service.v, Interleaved.v). *)
From S2P Require Import Prelude GoStd Config Regex Accounts Assets Policy Sha256 Json Storage Db Prog.
From S2P Require Import Logic Postgres BatchManager Redis Chart Planner Cores Operations IntentJson Approval Bodies StoreRules.
From S2P Require Import Effects ApprovalSteps Ledger Solvency Requests Intents Batches Expiry Checkpoint Approvals ServiceLogic Moves.

(** ** The ticker *)

Definition maxConsecutiveFailures : nat := 5.

(** [for i := 1; i < backoffTicks; i++]: whether the context outlived the skipped ticks. *)
Fixpoint skip_ticks (n : nat) (interval : Z) : prog bool :=
  match n with
  | O => Ret true
  | S n => let+ ticked := trigger (SleepOrDone interval) in if ticked : bool then skip_ticks n interval else Ret false
  end.

(** [fn] is [None] when its own fuel ran out; so is the ticker then, and after [fuel] runs. *)
Fixpoint runTickerWithBackoff (fuel : nat) (interval : Z) (fn : prog (option (result unit))) (consecutiveFailures : nat)
  : prog (option unit) :=
  match fuel with
  | O => Ret None
  | S fuel =>
      let+ ticked := trigger (SleepOrDone interval) in
      if negb ticked then Ret (Some tt)
      else
        let+ r := fn in
        match r with
        | None => Ret None
        | Some (Err _) =>
            let consecutiveFailures := S consecutiveFailures in
            let backoffTicks := Nat.min consecutiveFailures maxConsecutiveFailures in
            let+ alive := skip_ticks (backoffTicks - 1) interval in
            if negb alive then Ret (Some tt) else runTickerWithBackoff fuel interval fn consecutiveFailures
        | Some (Ok _) => runTickerWithBackoff fuel interval fn 0
        end
  end.

Section Worker.
Context `{Deps} (tz : Z -> Z).

(** ** The jobs *)

Inductive job := BatchClose | CheckpointBuild | HoldExpiry | ApprovalExpiry.

(** [sweep] bounds the passes of the hold expiry, [age] is the batch manager's. *)
Definition job_fn (cfg : WorkerConfig) (age : Z) (sweep : nat) (j : job) : prog (option (result unit)) :=
  match j with
  | BatchClose => let+ _ := CloseExpiredBatches age tz in Ret (Some (Ok tt))
  | CheckpointBuild => let+ r := BuildCheckpoints in Ret (Some r)
  | HoldExpiry => ExpireHolds sweep
  | ApprovalExpiry => let+ r := ExpireStaleApprovals (StuckApprovalThreshold cfg) in Ret (Some r)
  end.
Definition job_interval (cfg : WorkerConfig) (j : job) : Z :=
  match j with
  | BatchClose => BatchCloseInterval cfg
  | CheckpointBuild => CheckpointInterval cfg
  | HoldExpiry => HoldExpiryInterval cfg
  | ApprovalExpiry => ApprovalExpiryInterval cfg
  end.

Definition startWorker (cfg : WorkerConfig) (age : Z) (sweep fuel : nat) (j : job) : prog (option unit) :=
  runTickerWithBackoff fuel (job_interval cfg j) (job_fn cfg age sweep j) 0.

(** ** What the worker does to the database *)

Context {c imports : bool} {P : forall A, prog A -> Prop} `{!ServiceLogic c imports P}.
Arguments P {A}.

Lemma reads_skip_ticks n interval : reads (skip_ticks n interval).
Proof. induction n as [|n IH]; cbn [skip_ticks]; [done|]. apply reads_pbind; [by split|]. by intros []. Qed.

Lemma sl_ticker fuel interval fn k : P fn -> P (runTickerWithBackoff fuel interval fn k).
Proof.
  intros Hfn. revert k. induction fuel as [|fuel IH]; intros k; cbn [runTickerWithBackoff]; [apply sl_ret|].
  apply sl_pbind; [apply sl_reads; by split|]. intros [|]; cbn [negb]; [|apply sl_ret].
  apply sl_pbind; [done|]. intros [[u|e]|]; [apply IH| |apply sl_ret]. cbv zeta.
  apply sl_pbind; [apply sl_reads, reads_skip_ticks|]. intros []; cbn [negb]; [apply IH|apply sl_ret].
Qed.

Lemma sl_job cfg age sweep j : P (job_fn cfg age sweep j).
Proof.
  destruct j; cbn [job_fn].
  - apply sl_pbind; [apply sl_tx_ok, tx_ok_CloseExpiredBatches|intros; apply sl_ret].
  - apply sl_pbind; [apply sl_Checkpoints|intros; apply sl_ret].
  - apply sl_Expire.
  - apply sl_pbind; [apply sl_ExpireApprovals|intros; apply sl_ret].
Qed.
Lemma sl_worker cfg age sweep fuel j : P (startWorker cfg age sweep fuel j).
Proof. apply sl_ticker, sl_job. Qed.
End Worker.

(** ** The worker stops when its context ends *)

Section Stops.
Context (E : Env) (N : nat) (Hdone : forall n, (N <= n)%nat -> e_done E n = true).

(** A step leaves the count of round trips to [run]. *)
Lemma step_tick {X} (e : ev X) (w : World) : w_tick (snd (Prog.step E e w)) = w_tick w.
Proof.
  destruct e as [| | |? [] s| | | | | | | | | | | | | | |? rk s]; cbn [Prog.step]; try done.
  - unfold sql_pool. destruct (e_fault E _) as [[]|]; try done; by destruct (s _ _) as [?|[]].
  - unfold sql_tx. destruct (w_tx w); try done. destruct (e_fault E _) as [[]|]; try done; by destruct (s _ _) as [?|[]].
  - by destruct (e_fault E _).
  - unfold commit. destruct (w_tx w); try done; by destruct (e_fault E _) as [[]|].
  - by destruct (e_evicted E _).
  - by destruct (e_fault E _) as [[]|].
  - by destruct (e_fault E _) as [[]|].
  - by destruct (f (w_mgr w)).
  - by destruct (e_fault E _) as [[]|].
  - unfold sql_tx. destruct (w_tx w); try done. destruct (e_fault E _) as [[]|]; try done; by destruct (s _ _) as [?|[]].
Qed.
Lemma ticks_on {A} (m : prog A) (w : World) : wp E m w (fun _ w' => (w_tick w <= w_tick w')%nat).
Proof.
  unfold wp. revert w. induction m as [a|X e k IH]; intros w; cbn [run]; [done|].
  pose proof (step_tick e w) as Hw. destruct (Prog.step E e w) as [x w1]. specialize (IH x (tick w1)).
  destruct (run E (k x) (tick w1)) as [a w2]. change (w_tick (tick w1)) with (S (w_tick w1)) in IH. cbn [snd] in Hw. lia.
Qed.

(** A tick that came, came before the end, and took a round trip. *)
Lemma wp_tick {A} interval (f : bool -> prog A) (w : World) Q :
  (forall w', (w_tick w < N)%nat -> w_tick w' = S (w_tick w) -> wp E (f true) w' Q) -> (forall w', wp E (f false) w' Q) ->
  wp E (let+ ticked := trigger (SleepOrDone interval) in f ticked) w Q.
Proof.
  intros Ht Hf. apply wp_bind, wp_trigger. cbn [Prog.step]. destruct (e_done E (w_tick w)) eqn:Ed; cbn [negb]; [apply Hf|].
  apply Ht; [|done]. apply Nat.nle_gt. intros Hle. by rewrite Hdone in Ed.
Qed.

Lemma ticker_ends fn interval :
  (forall w, wp E fn w (fun r _ => r <> None)) ->
  forall fuel k (w : World), (N < w_tick w + fuel)%nat -> (0 < fuel)%nat ->
  wp E (runTickerWithBackoff fuel interval fn k) w (fun r _ => r = Some tt).
Proof.
  intros Hfn. induction fuel as [|fuel IH]; intros k w Hn Hpos; [lia|]. cbn [runTickerWithBackoff].
  apply wp_tick; [|intros w'; by apply wp_ret]. cbn [negb]. intros w1 Hlt Hw1. apply wp_bind.
  eapply wp_mono; [apply wp_and; [apply Hfn|apply ticks_on]|]. intros [[u|e]|] w2 [Hr H12]; [apply IH; lia| |done]. cbv zeta.
  apply wp_bind. eapply wp_mono; [apply ticks_on|]. intros alive w3 H23. destruct alive; cbn [negb]; [apply IH; lia|by apply wp_ret].
Qed.
End Stops.
