(* ===== verification/Service.v ===== *)
(** * Sequences of requests

    [serve] is one RPC behind its interceptors, one call to the planner, one run of a
    background job, or a stretch of the worker's life. Any sequence of them, under any
    environment, takes the database along the steps of Ledger.v, so its invariants hold of
    everything the service can reach. *)
From S2P Require Import Prelude GoStd Config Regex Accounts Assets Policy Sha256 Json Storage Db Prog.
From S2P Require Import Logic Postgres BatchManager Redis Chart Planner Cores Operations IntentJson Approval Bodies StoreRules.
From S2P Require Import Proto Auth RateLimit Grpc Queries Transfer Rpc.
From S2P Require Import Effects ApprovalSteps Ledger Solvency Requests Intents Batches Expiry Checkpoint Approvals ServiceLogic Moves TransferSteps RpcSteps Worker.

Section Service.
Context `{Deps, Jwt} (tz : Z -> Z).

(** ** Requests *)

Inductive request :=
| Intent (l : string) (intent : BatchIntent)
| DryRun (l : string) (ps : list PostingInput) (ref : string) (meta : gomap) (key : string) (vt : option Z)
| Schema (l : string) (bytes : option string) (version key : string)
| Batch (l : string) (intents : list BatchIntent) (mode : string)
| Deny (l principal reason : string)
| Create (params : CreateLedgerParams)
| Seal (l : string)
| Expire (fuel : nat)
| CloseOne (l batch : string)
| CloseExpired (age : Z)
| ForApproval (l : string) (payload : option string) (approvers : option (list string)) (by_ : string) (expires : Z)
| ApproveOne (l id principal signature : string)
| ExpireApprovals (threshold : Z)
| Checkpoints
| Rpc (cfg : Config) (r : rpc) (ctx : Context)
| Work (cfg : WorkerConfig) (age : Z) (sweep fuel : nat) (j : job).

Definition ignore {A} (m : prog A) : prog unit := let+ _ := m in Ret tt.

Definition serve (r : request) : prog unit :=
  match r with
  | Intent l intent => ignore (executeIntent l intent)
  | DryRun l ps ref meta key vt => ignore (SubmitPost l ps ref meta key vt true)
  | Schema l bytes version key => ignore (SubmitInsertSchema l bytes version key)
  | Batch l intents mode => ignore (SubmitBatch l intents mode)
  | Deny l principal reason => ignore (WritePolicyDenialEvent l principal reason)
  | Create params => ignore (CreateLedger Pool params)
  | Seal l => ignore (SealLedger Pool l)
  | Expire fuel => ignore (ExpireHolds fuel)
  | CloseOne l batch => closeBatchWithRetry tz l batch
  | CloseExpired age => CloseExpiredBatches age tz
  | ForApproval l payload approvers by_ expires => ignore (SubmitForApproval l payload approvers by_ expires)
  | ApproveOne l id principal signature => ignore (Approve l id principal signature)
  | ExpireApprovals threshold => ignore (ExpireStaleApprovals threshold)
  | Checkpoints => ignore BuildCheckpoints
  | Rpc cfg r ctx => ignore (serve_configured tz cfg r ctx)
  | Work cfg age sweep fuel j => ignore (startWorker tz cfg age sweep fuel j)
  end.

Fixpoint serve_all (rs : list request) : prog unit :=
  match rs with [] => Ret tt | r :: rs' => let+ _ := serve r in serve_all rs' end.

(** No forced revert and no conversion; an approval may execute either. *)
Definition safe_request (r : request) : bool :=
  match r with
  | Intent _ intent => safe_intent intent
  | Batch _ intents _ => forallb safe_intent intents
  | ApproveOne _ _ _ _ => false
  | Rpc _ r _ => safe_rpc r
  | _ => true
  end.

Definition imports_in (r : request) : bool := match r with Rpc _ r _ => importing r | _ => false end.

(** ** What holds of all of them *)

Section Holds.
Context {c imports : bool} {P : forall A, prog A -> Prop} `{!ServiceLogic c imports P}.
Arguments P {A}.

Lemma sl_ignore {A} (m : prog A) : P m -> P (ignore m).
Proof. intros Hm. apply sl_pbind; [done|]. intros a. apply sl_ret. Qed.

Lemma sl_serve r : (c = true -> safe_request r = true) -> (imports = false -> imports_in r = false) -> P (serve r).
Proof.
  intros Hc Hi. destruct r; cbn [serve]; try apply sl_ignore.
  - by eapply sl_submission; [apply executeIntent_submission|exact Hc].
  - apply sl_dry.
  - by eapply sl_submission; [apply SubmitInsertSchema_submission|].
  - by apply sl_Batch.
  - apply sl_Deny.
  - apply sl_Create.
  - apply sl_Seal.
  - apply sl_Expire.
  - apply sl_tx_ok, tx_ok_closeBatchWithRetry.
  - apply sl_tx_ok, tx_ok_CloseExpiredBatches.
  - apply sl_ForApproval.
  - apply sl_Approve, not_true_is_false. intros Hct. by discriminate (Hc Hct).
  - apply sl_ExpireApprovals.
  - apply sl_Checkpoints.
  - by eapply sl_configured.
  - by eapply sl_worker.
Qed.

Lemma sl_serve_all rs : (c = true -> forallb safe_request rs = true) -> (imports = false -> existsb imports_in rs = false) -> P (serve_all rs).
Proof.
  induction rs as [|r rs IH]; intros Hc Hi; cbn [serve_all]; [apply sl_ret|]. apply sl_pbind.
  - apply sl_serve; [intros Hct; by destruct (andb_prop _ _ (Hc Hct))|intros Hf; by destruct (orb_false_elim _ _ (Hi Hf))].
  - intros _. apply IH; [intros Hct; by destruct (andb_prop _ _ (Hc Hct))|intros Hf; by destruct (orb_false_elim _ _ (Hi Hf))].
Qed.
End Holds.

Lemma serve_all_moves E c rs (w : World) :
  reachable (w_db w) -> w_tx w = TxNone -> (c = true -> forallb safe_request rs = true) ->
  wp E (serve_all rs) w (fun _ w' => moves c w w').
Proof. intros Hr Ht Hc. by apply (sl_serve_all (P := fun A => @moving A E c)). Qed.
End Service.
