(* ===== verification/Samples.v ===== *)
(** * A concrete service, for the witnesses

    A process that publishes its events, whose Redis and PostgreSQL never fail, its clock one
    second per round trip and its ULIDs counted; and a ledger with a few accounts. *)
From S2P Require Import Prelude GoStd Regex Accounts Assets Policy Sha256 Json Storage Db Prog.
From S2P Require Import Logic Postgres BatchManager Redis Chart Planner Cores Operations Bodies StoreRules.
From S2P Require Import Proto Auth RateLimit Grpc Queries Transfer Rpc Config.
From S2P Require Import Effects Ledger Solvency Requests Intents Batches Expiry Service.

(** The one JSON text of the samples, and what it parses to: an intent to post. *)
Definition sample_payload : string := "<a post of 25 from _world to carol>".
Definition sample_json : json :=
  JObj [("type", JStr "post");
        ("postings", JArr [JObj [("source", JStr "_world"); ("destination", JStr "carol"); ("amount", JInt 25);
                                 ("asset", JStr "USD/2")]])].

#[export] Instance sample_deps : Deps :=
  {| has_subs := true; regexp_Compile := fun _ => None;
     json_parse := fun s => if String.eqb s sample_payload then Some sample_json else None |}.

(** Two tokens that verify: ann's names the ledger "main", the operator's all ledgers. *)
Definition ann_token : Token := {| tok_Subject := "ann"; tok_Ledgers := Some (JArr [JStr "main"]) |}.
Definition root_token : Token := {| tok_Subject := "root"; tok_Ledgers := Some (JArr [JStr "*"]) |}.
#[export] Instance sample_jwt : Jwt :=
  {| jwt_Parse := fun _ _ _ raw => if String.eqb raw "ann.jwt" then Some ann_token
                                   else if String.eqb raw "root.jwt" then Some root_token else None |}.

Definition sample_config : Config :=
  {| Postgres_DSN := "postgres://ledger"; Redis_URL := "redis://ledger"; GRPC_Port := 9090; HTTP_Port := 8080;
     OTel_Endpoint := ""; OTel_Insecure := true;
     cfg_Worker := {| BatchCloseInterval := 5 * Second; CheckpointInterval := 30 * Second; HoldExpiryInterval := 30 * Second;
                      ApprovalExpiryInterval := 60 * Second; StuckApprovalThreshold := 5 * Minute |};
     cfg_Auth := {| auth_Method := "jwt"; auth_JWKSURL := "https://issuer/jwks"; auth_Audience := ""; auth_Issuer := "";
                    auth_AdminPrincipals := ["root"] |};
     cfg_RateLimit := {| rl_Enabled := true; rl_ReadRPS := 100; rl_WriteRPS := 2 |};
     cfg_Environment := "production"; cfg_LogLevel := "info" |}.

(** A request's context as it arrives, with the bearer token of the caller. *)
Definition bearing (token : string) : Context :=
  {| ctx_metadata := Some {["authorization" := ["Bearer " +:+ token]]}; ctx_peer := None; ctx_principal := None; ctx_identity := None |}.

Definition sample_env : Env := {|
  e_now := fun n => (1700000000 + Z.of_nat n) * Second;
  e_ulid := fun n => "ulid" +:+ dec_of_Z (Z.of_nat n);
  e_rand := fun _ => 0;
  e_fault := fun _ => None;
  e_evicted := fun _ => false;
  e_done := fun _ => false;
  e_order := fun _ => [] |}.

Definition utc : Z -> Z := fun _ => 0.

Definition empty_world : World := mkW empty_db TxNone ∅ empty_mgr [] ∅ 0.

Definition no_intent : BatchIntent :=
  {| bi_Type := ""; bi_Postings := []; bi_Reference := ""; bi_Metadata := None; bi_IdempotencyKey := "";
     bi_Source := ""; bi_DestinationHint := ""; bi_Asset := ""; bi_Amount := None; bi_ExpiresAt := 0; bi_HoldID := "";
     bi_Destination := ""; bi_OriginalTxID := ""; bi_Force := false; bi_AtEffectiveDate := false; bi_Reason := "";
     bi_ConvertParams := None; bi_TargetType := 0; bi_TargetID := ""; bi_MetadataKey := "" |}.

Definition pay (src dst : string) (n : Z) : PostingInput :=
  {| pi_Source := src; pi_Destination := dst; pi_Amount := Some n; pi_Asset := "USD/2" |}.

Definition post_intent (key : string) (ps : list PostingInput) : BatchIntent :=
  {| bi_Type := "post"; bi_Postings := ps; bi_Reference := ""; bi_Metadata := None; bi_IdempotencyKey := key;
     bi_Source := ""; bi_DestinationHint := ""; bi_Asset := ""; bi_Amount := None; bi_ExpiresAt := 0; bi_HoldID := "";
     bi_Destination := ""; bi_OriginalTxID := ""; bi_Force := false; bi_AtEffectiveDate := false; bi_Reason := "";
     bi_ConvertParams := None; bi_TargetType := 0; bi_TargetID := ""; bi_MetadataKey := "" |}.

Definition authorize_intent (key source hint : string) (n : Z) : BatchIntent :=
  {| bi_Type := "authorize"; bi_Postings := []; bi_Reference := ""; bi_Metadata := None; bi_IdempotencyKey := key;
     bi_Source := source; bi_DestinationHint := hint; bi_Asset := "USD/2"; bi_Amount := Some n; bi_ExpiresAt := 0;
     bi_HoldID := ""; bi_Destination := ""; bi_OriginalTxID := ""; bi_Force := false; bi_AtEffectiveDate := false;
     bi_Reason := ""; bi_ConvertParams := None; bi_TargetType := 0; bi_TargetID := ""; bi_MetadataKey := "" |}.

Definition capture_intent (key hold : string) (n : Z) : BatchIntent :=
  {| bi_Type := "capture"; bi_Postings := []; bi_Reference := ""; bi_Metadata := None; bi_IdempotencyKey := key;
     bi_Source := ""; bi_DestinationHint := ""; bi_Asset := ""; bi_Amount := Some n; bi_ExpiresAt := 0;
     bi_HoldID := hold; bi_Destination := ""; bi_OriginalTxID := ""; bi_Force := false; bi_AtEffectiveDate := false;
     bi_Reason := ""; bi_ConvertParams := None; bi_TargetType := 0; bi_TargetID := ""; bi_MetadataKey := "" |}.

Definition revert_intent (key tx : string) : BatchIntent :=
  {| bi_Type := "revert"; bi_Postings := []; bi_Reference := ""; bi_Metadata := None; bi_IdempotencyKey := key;
     bi_Source := ""; bi_DestinationHint := ""; bi_Asset := ""; bi_Amount := None; bi_ExpiresAt := 0;
     bi_HoldID := ""; bi_Destination := ""; bi_OriginalTxID := tx; bi_Force := false; bi_AtEffectiveDate := false;
     bi_Reason := "mistake"; bi_ConvertParams := None; bi_TargetType := 0; bi_TargetID := ""; bi_MetadataKey := "" |}.

(** The ULIDs of the hold and of the second transaction are the round trips they are
    drawn at. *)
Definition sample_requests : list request :=
  [Create {| cl_ID := "main"; cl_BucketID := ""; cl_Metadata := None |};
   Intent "main" (post_intent "k1" [pay "_world" "alice" 100]);
   Intent "main" (post_intent "k2" [pay "alice" "bob" 30]);
   Intent "main" (authorize_intent "k3" "alice" "shop" 20);
   Intent "main" (capture_intent "k4" "ulid70" 5);
   Intent "main" (revert_intent "k5" "ulid40")].

(** The world after the requests. *)
Definition after (rs : list request) : World := snd (run sample_env (serve_all utc rs) empty_world).
Definition sample_world : World := after sample_requests.

(** What the requests lead to is reachable, and no transaction is open. *)
Lemma served_reachable E rs :
  let w := snd (run E (serve_all utc rs) empty_world) in reachable (w_db w) /\ w_tx w = TxNone.
Proof.
  assert (Hm : wp E (serve_all utc rs) empty_world (fun _ w' => moves false empty_world w'))
    by (apply serve_all_moves; [apply rtc_refl|done..]).
  unfold wp in Hm. destruct (run E (serve_all utc rs) empty_world) as [u w']. destruct Hm as [Ht Hs]. split; [exact Hs|exact Ht].
Qed.
Lemma sample_reachable : reachable (w_db sample_world) /\ w_tx sample_world = TxNone.
Proof. apply served_reachable. Qed.

Example sample_log : map ev_LedgerSeq (log_events (w_db sample_world)) = [1; 2; 3; 4; 5].
Proof. vm_compute. reflexivity. Qed.
Example sample_available :
  map (fun a => available "main" a "USD/2" (w_db sample_world)) ["_world"; "alice"; "bob"; "shop"] = [-100; 80; 0; 5].
Proof. vm_compute. reflexivity. Qed.
