(* ===== verification/Tenancy.v ===== *)
(** * Who may do what

    The theorem about the server as cmd/server wires it: tenants are isolated. *)
From S2P Require Import Prelude GoStd Config Regex Accounts Assets Policy Sha256 Json Storage Db Prog.
From S2P Require Import Logic Postgres BatchManager Redis Chart Planner Cores Operations IntentJson Approval.
From S2P Require Import Proto Auth RateLimit Grpc Queries Transfer Rpc.
From S2P Require Import Bodies StoreRules Views Confinement Requests Batches TransferSteps RpcSteps Isolation Service Samples.

Section Tenancy.
Context `{Deps, Jwt} (tz : Z -> Z) (cfg : Config) (E : Env).

(** The request was refused and changed nothing. *)
Definition refused {A} (w : World) (a : reply A) (w' : World) : Prop := (exists c e, a = Status c e) /\ idle w w'.

(** What the caller's token allows: the ledger a request names, the ledgers a listing
    shows, and imports to admins. *)
Definition allowed (r : rpc) (ctx : Context) (w : World) (a : reply answer) (w' : World) : Prop :=
  refused w a w' \/ exists token, verified cfg ctx token /\
    (forall l, rpc_ledger r = Some l -> names_ledger token l) /\
    (forall events broken, r = ImportRpc events broken -> tok_Subject token ∈ auth_AdminPrincipals (cfg_Auth cfg)) /\
    (forall size next ls next', r = ListLedgersRpc size next -> a = Reply (ALedgers (ls, next')) ->
       Forall (fun x => names_ledger token (pb.Ledger_Id x)) ls).

Lemma idle_refused {A} c e (w w' : World) : idle w w' -> refused (A := A) w (Status c e) w'.
Proof. split; [by do 2 eexists|done]. Qed.

Lemma serve_allowed r ctx (w : World) :
  w_tx w = TxNone -> wp E (serve_configured tz cfg r ctx) w (allowed r ctx w).
Proof.
  intros Ht. apply wp_served; [done|intros c e w' Hi; left; by apply idle_refused|].
  intros token id w1 Hv Hp Hn Hi. set (ctx1 := contextWithIdentity _ _).
  destruct (rpc_ledger r) as [l|] eqn:El.
  - destruct (CanAccessLedger id l) eqn:Ea.
    + apply wp_any. intros a w2. right. exists token. unfold allowed.
      split_and!; [done| | |]; [|by intros ? ? ->|by intros ? ? ? ? ->]. intros l' Hl'. apply Hn. congruence.
    + destruct (refuses_handle tz (list_to_set (auth_AdminPrincipals (cfg_Auth cfg))) l r ctx1 id eq_refl Ea El) as (c & e & ->).
      apply wp_ret. left. by apply idle_refused.
  - assert (Hl : forall l, rpc_ledger r = Some l -> names_ledger token l) by congruence.
    assert (anyone : (forall events broken, r <> ImportRpc events broken) -> (forall size next, r <> ListLedgersRpc size next) ->
                     wp E (handle tz (list_to_set (auth_AdminPrincipals (cfg_Auth cfg))) r ctx1) w1 (allowed r ctx w)).
    { intros Hi1 Hl1. apply wp_any. intros a w2. right. exists token.
      split_and!; [done|done|by intros e b ->; destruct (Hi1 e b)|by intros s n ? ? ->; destruct (Hl1 s n)]. }
    destruct r; try done; cbn [handle].
    + apply wp_reply_bind. eapply wp_mono; [by apply ListLedgers_scoped|]. intros [[ls next]|c e] w2 Hs.
      * apply wp_ret. right. exists token. split_and!; [done|done|by intros ? ?|].
        intros size' next0 ls' next' [= -> ->] [= -> ->]. eapply Forall_impl; [by apply (Hs _ _ eq_refl)|]. intros x Hx. by apply Hn.
      * right. exists token. split_and!; [done|done|by intros ? ?|by intros].
    + by apply anyone.
    + by apply anyone.
    + apply wp_reply_bind, wp_reply_bind. unfold extractPrincipal. change (PrincipalFromContext ctx1) with (Some (id_Principal id)).
      destruct (id_Principal id) as [|c0 rest] eqn:Ep; apply wp_ret; [left; by apply idle_refused|].
      apply wp_reply_bind. unfold requireImportExportAuthz. case_bool_decide as Eb; apply wp_ret; [|left; by apply idle_refused].
      assert (Hadmin : tok_Subject token ∈ auth_AdminPrincipals (cfg_Auth cfg)) by (rewrite <- Hp; by apply elem_of_list_to_set in Eb).
      assert (Hall : forall a w2, allowed (ImportRpc events broken) ctx w a w2) by (intros a w2; right; exists token; by split_and!).
      apply wp_any. intros [n|c e] w2; [by apply wp_ret|done].
Qed.

(** C9: tenant isolation. A request to the server, with any token, under any failures, is
    refused without an effect, or its bearer token verified and names the ledger of the
    request (an import: its subject is an admin; a listing of ledgers shows those the token
    names only; the verification of a batch is open to any verified token). A request for a
    ledger ([rpc_ledger]: all but those three) leaves the rows of every other ledger as they
    are; and one of them that does not write answers exactly what it would if the other
    ledgers did not exist. (The answer of a write may depend on the shared cache, whose keys
    collide, redis.go:55.) *)
Theorem tenant_isolation r ctx w :
  w_tx w = TxNone ->
  wp E (serve_configured tz cfg r ctx) w (fun a w' => allowed r ctx w a w' /\
    forall l, rpc_ledger r = Some l ->
      others_kept l (w_db w) (w_db w') /\
      (writing r = false -> fst (run E (serve_configured tz cfg r ctx) (alone l w)) = a)).
Proof.
  intros Ht. apply wp_and; [by apply serve_allowed|]. unfold wp. destruct (run E _ w) as [a w'] eqn:Er. intros l Hl. split.
  - pose proof (stays_kept E l _ w (stays_serve tz cfg l r ctx Hl) Ht) as Hk. unfold wp in Hk. by rewrite Er in Hk.
  - intros Hw. by rewrite (looks_alone E _ l w (looks_serve tz cfg l r ctx Hl Hw) Ht), Er.
Qed.
End Tenancy.

(** ** Runs of the sample server *)

(** A second ledger, which ann's token does not name. *)
Definition two_tenants : World :=
  after (sample_requests ++ [Create {| cl_ID := "other"; cl_BucketID := ""; cl_Metadata := None |};
                             Intent "other" (post_intent "k1" [pay "_world" "alice" 7])]).

Definition balance_of (l : string) : rpc :=
  GetBalanceRpc {| pb.GetBalance_LedgerId := l; pb.GetBalance_Account := "alice"; pb.GetBalance_Asset := "USD/2";
                   pb.GetBalance_AsOfValid := None; pb.GetBalance_AsOfSystem := None; pb.GetBalance_IncludeHolds := true |}.

Definition ann_reads (l : string) : option (string * string) :=
  match fst (run sample_env (serve_configured utc sample_config (balance_of l) (bearing "ann.jwt")) two_tenants) with
  | Reply (ABalance b) => Some (pb.Balance_PostedBalance b, pb.Balance_AvailableBalance b)
  | _ => None
  end.

Lemma tenant_isolation_witness :
  w_tx two_tenants = TxNone /\ ann_reads "main" = Some ("95", "80") /\ ann_reads "other" = None /\
  wp sample_env (serve_configured utc sample_config (balance_of "main") (bearing "ann.jwt")) two_tenants (fun a w' =>
    allowed sample_config (balance_of "main") (bearing "ann.jwt") two_tenants a w' /\
    forall l, rpc_ledger (balance_of "main") = Some l ->
      others_kept l (w_db two_tenants) (w_db w') /\
      (writing (balance_of "main") = false ->
       fst (run sample_env (serve_configured utc sample_config (balance_of "main") (bearing "ann.jwt")) (alone l two_tenants)) = a)).
Proof.
  split; [vm_compute; reflexivity|]. split; [vm_compute; reflexivity|]. split; [vm_compute; reflexivity|].
  apply (tenant_isolation utc sample_config sample_env (balance_of "main") (bearing "ann.jwt") two_tenants).
  vm_compute. reflexivity.
Defined.
