(* ===== verification/Rest.v ===== *)
(** * The REST gateway adds nothing to the RPCs

    A request to the gateway is refused, or is the one call its route names, of a message
    whose fields are the segments of the path, with the authorization of the request. So
    what holds of the RPCs holds of REST. [RuntimeLaws] is what the documentation of
    grpc-gateway says of its runtime. *)
From S2P Require Import Prelude GoStd Config Regex Accounts Assets Policy Sha256 Json Storage Db Prog.
From S2P Require Import Logic Postgres BatchManager Redis Chart Planner Cores Operations IntentJson Approval.
From S2P Require Import Proto Auth RateLimit Grpc Queries Transfer Rpc Gateway Routes.
From S2P Require Import Bodies StoreRules Views Confinement Requests Batches TransferSteps RpcSteps Isolation Service Samples Tenancy.

(** ** Templates of paths

    A route comes twice: as the template of its path and as the operations of its pattern,
    which [compile] makes of the template. *)

Inductive segment := Lit (s : string) | Var (x : string).
#[export] Instance segment_eq_dec : EqDecision segment.
Proof. solve_decision. Defined.

(** [{name}] is a variable. *)
Definition parse_segment (s : string) : segment :=
  if has_prefix s "{" then Var (String.substring 1 (String.length s - 2) s) else Lit s.
Definition parse_template (path : string) : list segment := map parse_segment (tail (split_on "/" path)).
Definition template (r : Route) : list segment := parse_template (rt_path r).

(** Push the literal [k]; or push a segment, take it alone, and bind it to the name [k]. *)
Fixpoint compile_ops (k : Z) (t : list segment) : list Z :=
  match t with
  | [] => []
  | Lit _ :: t => 2 :: k :: compile_ops (k + 1) t
  | Var _ :: t => 1 :: 0 :: 4 :: 1 :: 5 :: k :: compile_ops (k + 1) t
  end.
Definition compile (t : list segment) : Pattern :=
  {| pat_version := 1; pat_ops := compile_ops 0 t; pat_pool := map (fun s => match s with Lit x | Var x => x end) t;
     pat_verb := EmptyString |}.

Definition fits (s : segment) (v : string) : Prop := match s with Lit x => v = x | Var _ => True end.
Definition binds (params : pathParams) (s : segment) (v : string) : Prop :=
  match s with Lit x => v = x | Var x => params !! x = Some v end.

(** Two paths that no request fits both of. *)
Fixpoint apart (t u : list segment) : bool :=
  match t, u with
  | [], [] => false
  | Lit x :: t, Lit y :: u => negb (String.eqb x y) || apart t u
  | _ :: t, _ :: u => apart t u
  | _, _ => true
  end.
Lemma apart_sound t u vs : apart t u = true -> Forall2 fits t vs -> Forall2 fits u vs -> False.
Proof.
  revert u vs. induction t as [|s t IH]; intros [|s' u] vs Ha H1 H2; inversion H1 as [|? ? ? ? Hf H1']; subst; inversion H2 as [|? ? ? ? Hf' H2']; subst; try done.
  destruct s, s'; simpl in *; subst; try (by eapply IH). apply orb_true_iff in Ha as [Ha|Ha]; [|by eapply IH].
  by rewrite String.eqb_refl in Ha.
Qed.

(** The routes of a method are apart from each other. *)
Fixpoint all_apart (rs : list Route) : bool :=
  match rs with
  | [] => true
  | r :: rs =>
      forallb (fun r' => negb (String.eqb (rt_method r) (rt_method r')) || apart (template r) (template r')) rs && all_apart rs
  end.
Lemma all_apart_sound rs i j r1 r2 vs :
  all_apart rs = true -> nth_error rs i = Some r1 -> nth_error rs j = Some r2 -> rt_method r1 = rt_method r2 ->
  Forall2 fits (template r1) vs -> Forall2 fits (template r2) vs -> i = j.
Proof.
  intros Ha H1 H2 Hm F1 F2. revert i j H1 H2. induction rs as [|r rs IH]; intros i j H1 H2; [by destruct i|].
  simpl in Ha. apply andb_true_iff in Ha as [Hr Ha]. rewrite forallb_forall in Hr.
  assert (Hno : forall r', In r' rs -> rt_method r = rt_method r' -> Forall2 fits (template r) vs -> Forall2 fits (template r') vs -> False).
  { intros r' Hin He Hf Hf'. specialize (Hr _ Hin). rewrite He, String.eqb_refl in Hr. by apply (apart_sound _ _ vs Hr). }
  destruct i as [|i], j as [|j]; simpl in *.
  - done.
  - injection H1 as ->. by destruct (Hno r2 (nth_error_In _ _ H2)).
  - injection H2 as ->. by destruct (Hno r1 (nth_error_In _ _ H1)).
  - f_equal. by eapply IH.
Qed.

(** What the documentation of grpc-gateway says of its runtime. *)

(** The filter of a route with these variables in its path. *)
Definition filter_of (names : list string) : option DoubleArray :=
  match names with
  | [] => Some {| Encoding := ∅; Base := []; Check_ := [] |}
  | [a] => Some {| Encoding := {[a := 0]}; Base := [1; 1; 0]; Check_ := [0; 1; 2] |}
  | [a; b] => Some {| Encoding := {[a := 0; b := 1]}; Base := [1; 1; 2; 0; 0]; Check_ := [0; 1; 1; 2; 3] |}
  | _ => None
  end.

(** The fields of the messages that a path can name. *)
Definition pick (fields : list (string * string)) (x : string) : option string :=
  option_map snd (List.find (fun f => String.eqb (fst f) x) fields).
Definition field (k : kind) : Message k -> string -> option string :=
  match k with
  | KGetTransaction => fun r =>
      pick [("ledger_id", msg.GetTransaction_LedgerId r); ("transaction_id", msg.GetTransaction_TransactionId r)]
  | KListTransactions => fun r => pick [("ledger_id", msg.ListTransactions_LedgerId r)]
  | KGetAccount => fun r => pick [("ledger_id", msg.GetAccount_LedgerId r); ("address", msg.GetAccount_Address r)]
  | KListAccounts => fun r => pick [("ledger_id", msg.ListAccounts_LedgerId r)]
  | KGetBalance => fun r => pick [("ledger_id", pb.GetBalance_LedgerId r); ("account", pb.GetBalance_Account r)]
  | KGetAggregatedBalances => fun r => pick [("ledger_id", pb.Aggregated_LedgerId r)]
  | KListHolds => fun r => pick [("ledger_id", msg.ListHolds_LedgerId r)]
  | KGetRelationships => fun r =>
      pick [("ledger_id", msg.GetRelationships_LedgerId r); ("transaction_id", msg.GetRelationships_TransactionId r)]
  | KListLogEvents | KListPendingApprovals => fun r => pick [("ledger_id", pb.Page_LedgerId r)]
  | KExport => fun r => pick [("ledger_id", msg.Export_LedgerId r)]
  | KCreateLedger | KSubmit | KInsertSchema | KSubmitForApproval | KApproveIntent | KListLedgers => fun _ _ => None
  end.

Definition with_ledger (l : string) (i : option pb.Intent) : pb.Intent :=
  {| pb.Intent_LedgerId := l; pb.Intent_ValidTime := i ≫= pb.Intent_ValidTime;
     pb.Intent_IdempotencyKey := default EmptyString (pb.Intent_IdempotencyKey <$> i);
     pb.Intent_Reference := default EmptyString (pb.Intent_Reference <$> i); pb.Intent_Metadata := i ≫= pb.Intent_Metadata;
     pb.Intent_Operation := i ≫= pb.Intent_Operation; pb.Intent_DryRun := default false (pb.Intent_DryRun <$> i) |}.

(** The values of the two headers a request can carry its authorization in. *)
Definition authorization (req : HttpRequest) : list string := default [] (http_Header req !! "Authorization").
Definition credentials (req : HttpRequest) : list string :=
  authorization req ++ default [] (http_Header req !! "Grpc-Metadata-Authorization").
Definition forwarded (req : HttpRequest) (md : outgoing) : Prop :=
  authorization req ⊆+ default [] (md !! authorizationMetadataKey) /\
  default [] (md !! authorizationMetadataKey) ⊆+ credentials req.

Class RuntimeLaws `{Runtime} : Prop := {
  (** "String just returns the given string." *)
  String_id v : runtime_String v = Ok v;
  (** "PopulateFieldFromPath sets a value in a nested Protobuf structure." *)
  intent_field r v :
    PopulateFieldFromPath KSubmit r "intent.ledger_id" v = Ok {| msg.Submit_Intent := Some (with_ledger v (msg.Submit_Intent r)) |};
  (** "A value is ignored if its key starts with one of the elements in filter." *)
  query_keeps k (m m' : Message k) form names filter x :
    filter_of names = Some filter -> PopulateQueryParameters k m form filter = Ok m' -> x ∈ names -> field k m' x = field k m x;
  (** The Authorization header is added as [authorization], and the headers that start with
      [Grpc-Metadata-] are mapped to metadata with that prefix removed: so the metadata
      [authorization] has the values of the one header, and besides them at most values of
      [Grpc-Metadata-Authorization], in an order that is not specified. *)
  authorization_mapped req rpcMethodName path md :
    AnnotateContext req rpcMethodName path = Reply md -> forwarded req md;
  (** The route that takes a request has a pattern of its path. *)
  route_fits routes req i params t :
    mux_match routes req = Some (i, params) -> option_map snd (nth_error routes i) = Some (compile t) ->
    Forall2 (binds params) t (request_segments req)
}.

(** ** What a request to the gateway comes to *)

Definition respond (r : reply answer) : http_response :=
  match r with Reply a => ForwardMessage a | Status c e => HTTPError c e end.
Definition respond_stream (r : reply export_stream) : http_response :=
  match r with Reply s => ForwardStream s | Status c e => HTTPError c e end.

Inductive decision :=
| NoRoute
| Refuses (c : code) (e : error)
| Calls (r : rpc) (md : outgoing)
| Exports (q : msg.ExportRequest) (md : outgoing).

Definition export_method : string := "/ledger.v1.LedgerService/Export".
Definition perform (conn : ClientConn) (d : decision) : prog http_response :=
  match d with
  | NoRoute => Ret Unrouted
  | Refuses c e => Ret (HTTPError c e)
  | Calls r md => let+ a := cc_call conn r md in Ret (respond a)
  | Exports q md => let+ s := cc_Export conn q md in Ret (respond_stream s)
  end.

(** The fields of a call, by the names the paths have for them. *)
Definition path_field (r : rpc) : string -> option string :=
  match r with
  | GetLedgerRpc id | SealLedgerRpc id => pick [("id", id)]
  | SubmitRpc (Some i) => pick [("intent.ledger_id", pb.Intent_LedgerId i)]
  | GetTransactionRpc l id | GetRelationshipsRpc l id _ => pick [("ledger_id", l); ("transaction_id", id)]
  | ListTransactionsRpc q | ListAccountsRpc q | ListHoldsRpc q _ | ListLogEventsRpc q | ListPendingApprovalsRpc q =>
      pick [("ledger_id", pb.Page_LedgerId q)]
  | GetAccountRpc l a => pick [("ledger_id", l); ("address", a)]
  | GetBalanceRpc q => pick [("ledger_id", pb.GetBalance_LedgerId q); ("account", pb.GetBalance_Account q)]
  | GetAggregatedBalancesRpc q => pick [("ledger_id", pb.Aggregated_LedgerId q)]
  | GetHoldRpc l id => pick [("ledger_id", l); ("hold_id", id)]
  | GetLogEventRpc l id => pick [("ledger_id", l); ("event_id", id)]
  | VerifyBatchRpc l id => pick [("ledger_id", l); ("batch_id", id)]
  | InsertSchemaRpc l _ _ => pick [("ledger_id", l)]
  | GetSchemaRpc l version => pick [("ledger_id", l); ("version", version)]
  | SubmitForApprovalRpc q => pick [("ledger_id", pb.ForApproval_LedgerId q)]
  | ApproveIntentRpc q => pick [("ledger_id", pb.ApproveIntent_LedgerId q); ("intent_id", pb.ApproveIntent_IntentId q)]
  | CreateLedgerRpc _ | ListLedgersRpc _ _ | SubmitRpc None | ImportRpc _ _ => fun _ => None
  end.

Section Requests.
Context `{RuntimeLaws} {C A : Type} (P : A -> Prop).

(** A request that is refused, or is one call of a message with [P]. *)
Definition one_call {B} (call : A -> C -> prog (reply B)) (ctx : C) (m : prog (reply B)) : Prop :=
  (exists c e, m = Ret (Status c e)) \/ (exists r, P r /\ m = call r ctx).

Context {B : Type} (call : A -> C -> prog (reply B)) (ctx : C) (req : HttpRequest) (params : pathParams).

Lemma oc_refused c e : one_call call ctx (Ret (Status c e)).
Proof. left. by do 2 eexists. Qed.
Lemma oc_call r : P r -> one_call call ctx (call r ctx).
Proof. right. by eexists. Qed.
Lemma oc_param x (f : string -> prog (reply B)) :
  (forall v, params !! x = Some v -> one_call call ctx (f v)) -> one_call call ctx (let! v := path_param params x in f v).
Proof.
  intros Hf. unfold path_param. destruct (params !! x) as [v|]; [|by apply oc_refused]. rewrite String_id. by apply Hf.
Qed.
Lemma oc_intent (r : msg.SubmitRequest) (f : msg.SubmitRequest -> prog (reply B)) :
  (forall v, params !! "intent.ledger_id" = Some v ->
     one_call call ctx (f {| msg.Submit_Intent := Some (with_ledger v (msg.Submit_Intent r)) |})) ->
  one_call call ctx
    match params !! "intent.ledger_id" with
    | None => status InvalidArgument "missing parameter"
    | Some val =>
        match PopulateFieldFromPath KSubmit r "intent.ledger_id" val with
        | Err e => Ret (Status InvalidArgument (EWrap "type mismatch" e))
        | Ok r => f r
        end
    end.
Proof. intros Hf. destruct (params !! _) as [v|]; [|by apply oc_refused]. rewrite intent_field. by apply Hf. Qed.
Lemma oc_decoded k (f : Message k -> prog (reply B)) :
  (forall r, one_call call ctx (f r)) -> one_call call ctx (let! r := decoded k req in f r).
Proof. intros Hf. unfold decoded. destruct (Decode k _) as [r [[|e]|]]; [apply Hf|apply oc_refused|apply Hf]. Qed.
Lemma oc_populated k names filter (r : Message k) (f : Message k -> prog (reply B)) :
  filter_of names = Some filter ->
  (forall r', (forall x, x ∈ names -> field k r' x = field k r x) -> one_call call ctx (f r')) ->
  one_call call ctx (let! r := populated k req filter r in f r).
Proof.
  intros Hn Hf. unfold populated. destruct (ParseForm req) as [form|e]; [|apply oc_refused].
  destruct (PopulateQueryParameters k r form filter) as [r'|e] eqn:Ep; [|apply oc_refused].
  apply Hf. intros x. by eapply query_keeps.
Qed.
End Requests.

Section Routes.
Context `{RuntimeLaws} (conn : ClientConn).

(** The fields of a call have the values of the variables of the path. *)
Definition carried (rt : Route) (params : pathParams) (f : string -> option string) : Prop :=
  Forall (fun s => match s with Var x => f x = params !! x | Lit _ => True end) (template rt).

(** What a route does of a request: the call is of its method, with the metadata of the
    request. *)
Definition decided (rt : Route) (req : HttpRequest) (params : pathParams) (d : decision) : Prop :=
  match d with
  | NoRoute | Refuses _ _ => True
  | Calls r md =>
      AnnotateContext req (rt_rpc rt) (rt_path rt) = Reply md /\ full_method r = rt_rpc rt /\ carried rt params (path_field r)
  | Exports q md =>
      AnnotateContext req (rt_rpc rt) (rt_path rt) = Reply md /\ rt_rpc rt = export_method /\ carried rt params (field KExport q)
  end.

Definition decides (rt : Route) : Prop :=
  forall req params, exists d, rt_handler rt req params = perform conn d /\ decided rt req params d.

Lemma decides_unary pattern meth name path request forward :
  forward = ForwardMessage ->
  let rt := Handle AnnotateContext meth pattern name path (request (cc_call conn)) forward in
  (forall ctx req params,
     one_call (fun r => full_method r = name /\ carried rt params (path_field r)) (cc_call conn) ctx (request (cc_call conn) ctx req params)) ->
  decides rt.
Proof.
  intros -> rt Hq req params. unfold rt, Handle, serving. cbn [rt_handler].
  destruct (AnnotateContext req name path) as [md|c e] eqn:Ea; [|by exists (Refuses c e)].
  destruct (Hq md req params) as [(c & e & ->)|(r & [Hm Hr] & ->)]; [by exists (Refuses c e)|].
  by exists (Calls r md).
Qed.
Lemma decides_stream pattern meth name path request forward :
  forward = ForwardStream -> name = export_method ->
  let rt := Handle AnnotateContext meth pattern name path (request (cc_Export conn)) forward in
  (forall ctx req params,
     one_call (fun q => carried rt params (field KExport q)) (cc_Export conn) ctx (request (cc_Export conn) ctx req params)) ->
  decides rt.
Proof.
  intros -> -> rt Hq req params. unfold rt, Handle, serving. cbn [rt_handler].
  destruct (AnnotateContext req _ path) as [md|c e] eqn:Ea; [|by exists (Refuses c e)].
  destruct (Hq md req params) as [(c & e & ->)|(q & Hc & ->)]; [by exists (Refuses c e)|].
  by exists (Exports q md).
Qed.

Ltac carry :=
  unfold carried;
  match goal with |- Forall _ ?t => let u := eval vm_compute in t in change t with u end;
  repeat constructor;
  match goal with
  | Hp : ?params !! ?x = Some _ |- _ = ?params !! ?x =>
      rewrite Hp; first [reflexivity | match goal with Hk : forall x, x ∈ _ -> field _ _ x = _ |- _ => by apply (Hk x); set_solver end]
  end.
Ltac one_call_of bound :=
  repeat (cbv beta zeta; match goal with
  | |- one_call _ _ _ (let! _ := path_param _ _ in _) => apply oc_param; intros ? ?
  | |- one_call _ _ _ (let! _ := decoded _ _ in _) => apply oc_decoded; intros ?
  | |- one_call _ _ _ (let! _ := populated _ _ _ _ in _) => apply oc_populated with (names := bound); [reflexivity|]; intros ? ?
  | |- one_call _ _ _ (match _ !! _ with _ => _ end) => apply oc_intent; intros ? ?
  end);
  cbv beta zeta; apply oc_call; first [carry | split; [reflexivity|carry]].
Ltac head t := match t with ?f _ => head f | _ => t end.
(** A route whose query must not set the fields [bound]. *)
Ltac route bound :=
  intros [<-|Hrt]; [first [apply decides_unary; [reflexivity|] | apply decides_stream; [reflexivity..|]]; intros ctx req params;
    match goal with |- one_call _ _ _ ?m => let f := head m in unfold f end; one_call_of bound|]; revert Hrt.

Lemma client_decides rt : In rt (RegisterLedgerServiceHandlerClient conn) -> decides rt.
Proof.
  cbn [RegisterLedgerServiceHandlerClient In].
  route (@nil string).
  route (@nil string).
  route (@nil string).
  route (@nil string).
  route (@nil string).
  route ["ledger_id"; "transaction_id"].
  route ["ledger_id"].
  route ["ledger_id"; "address"].
  route ["ledger_id"].
  route ["ledger_id"; "account"].
  route ["ledger_id"].
  route (@nil string).
  route ["ledger_id"].
  route ["ledger_id"; "transaction_id"].
  route ["ledger_id"].
  route (@nil string).
  route (@nil string).
  route (@nil string).
  route (@nil string).
  route (@nil string).
  route (@nil string).
  route ["ledger_id"].
  route ["ledger_id"].
  done.
Qed.

(** A call for a request: its authorization, of the method of a route whose path the
    request has, with the segments of the path in the fields the route names. *)
Definition carries (f : string -> option string) (s : segment) (v : string) : Prop :=
  match s with Lit x => v = x | Var x => f x = Some v end.
Definition from_request (req : HttpRequest) (md : outgoing) (f : string -> option string) (rt : Route) : Prop :=
  In rt (RegisterLedgerServiceHandler conn) /\
  forwarded req md /\
  Forall2 (carries f) (template rt) (request_segments req).
Definition routed (req : HttpRequest) (d : decision) : Prop :=
  match d with
  | NoRoute | Refuses _ _ => True
  | Calls r md => exists rt, full_method r = rt_rpc rt /\ from_request req md (path_field r) rt
  | Exports q md => exists rt, rt_rpc rt = export_method /\ from_request req md (field KExport q) rt
  end.
End Routes.

(** The patterns of the routes are those of their paths. *)
Lemma client_compiled `{Runtime} conn rt :
  In rt (RegisterLedgerServiceHandlerClient conn) -> rt_pattern rt = compile (template rt).
Proof. intros Hin. by repeat (destruct Hin as [<-|Hin]; [reflexivity|]). Qed.

Lemma carried_carries rt params f t vs :
  carried rt params f -> t = template rt -> Forall2 (binds params) t vs -> Forall2 (carries f) t vs.
Proof.
  unfold carried. intros Hc ->. revert vs. induction Hc as [|s t Hs Ht IH]; intros vs Hv; inversion Hv as [|? v ? vs' Hb Hv']; subst; constructor; [|by apply IH].
  destruct s; simpl in *; [done|]. by rewrite Hs.
Qed.

Section Rest.
Context `{RuntimeLaws, Deps, Jwt} (tz : Z -> Z) (cfg : Config) (fuel : nat) (send : sink).

(** The connection of the gateway: the server that cmd/server wires. *)
Definition loopback : ClientConn := {|
  cc_call r md := serve_configured tz cfg r (arriving md);
  cc_Export q md := export_configured cfg fuel (msg.Export_LedgerId q) send (arriving md)
|}.
Definition rest : HttpRequest -> prog http_response := serve_mux (RegisterLedgerServiceHandler loopback).

Lemma mux_decides conn req :
  exists d, serve_mux (RegisterLedgerServiceHandler conn) req = perform conn d /\ routed conn req d.
Proof.
  unfold serve_mux, RegisterLedgerServiceHandler. set (routes := RegisterLedgerServiceHandlerClient conn).
  destruct (mux_match _ req) as [[i params]|] eqn:Em; [|by exists NoRoute].
  destruct (nth_error routes i) as [rt|] eqn:En; [|by exists NoRoute].
  apply nth_error_In in En as Hin. pose proof (client_compiled conn rt Hin) as Hp.
  assert (Hb : Forall2 (binds params) (template rt) (request_segments req)).
  { eapply route_fits; [exact Em|]. by rewrite nth_error_map, En, <- Hp. }
  destruct (client_decides conn rt Hin req params) as (d & Hd & Hdec). exists d. split; [done|].
  destruct d as [| |r md|q md]; [done|done|..]; destruct Hdec as (Ha & Hm & Hc); exists rt;
    (split; [done|]); (split_and!; [done|by eapply authorization_mapped|by eapply carried_carries]).
Qed.

(** The context of a caller who sends an authorization of that value. *)
Definition caller (value : string) : Context := arriving {[authorizationMetadataKey := [value]]}.

(** The server reads one value of those the request carries. *)
Lemma verified_caller req md token :
  forwarded req md -> verified cfg (arriving md) token -> exists value, value ∈ credentials req /\ verified cfg (caller value) token.
Proof.
  intros [_ Ha] (raw & now & Hb & Hj). unfold bearerToken in Hb. cbn [ctx_metadata arriving] in Hb.
  destruct (default [] (md !! authorizationMetadataKey)) as [|value values] eqn:Ev; [done|]. exists value. split.
  - eapply elem_of_submseteq; [|exact Ha]. by left.
  - exists raw, now. split; [|done]. unfold bearerToken. cbn [ctx_metadata caller arriving]. by rewrite lookup_singleton_eq.
Qed.

(** *** What only reads *)

Lemma reads_behind {A} authn limiter m ctx (h : Context -> prog (reply A)) :
  (forall ctx, reads (h ctx)) ->
  reads (authenticated (Some (WithIdentity (AuthenticateIdentity authn))) m ctx (fun ctx => rate_limited limiter m ctx h)).
Proof.
  intros Hh. unfold authenticated.
  assert (Hr : forall ctx, reads (rate_limited limiter m ctx h)).
  { intros ctx'. unfold rate_limited. destruct limiter as [l|]; [|done]. apply reads_pbind; [apply reads_check_rate|]. by intros [[]|]. }
  destruct (methodIsExempt m); [done|]. apply reads_pbind; [apply reads_inject, (jwt_reads authn)|]. by intros [].
Qed.
Lemma reads_export_pages n l next sent : reads (export_pages n send l next sent).
Proof.
  revert next sent. induction n as [|n IH]; intros next sent; cbn [export_pages]; [done|].
  apply reads_pbind; [auto with reads|]. intros [[events tok]|e]; [|done].
  destruct (send_events send sent events) as [sent' []]; [|done]. by destruct (String.eqb tok EmptyString).
Qed.
Lemma reads_export l ctx : reads (export_configured cfg fuel l send ctx).
Proof.
  apply reads_behind. intros ctx'. apply reads_pbind; [|done]. apply reads_pbind; [|intros []; [apply reads_export_pages|done]].
  apply reads_reply_bind; [unfold extractPrincipal; by repeat case_match|]. intros principal.
  apply reads_reply_bind; [unfold requireImportExportAuthz; by case_match|]. intros _. apply reads_call_or, reads_EvaluatePolicy.
Qed.

(** *** The ledger of a path *)

(** The third segment of a path is its ledger. *)
Lemma path_ledger conn rt x : In rt (RegisterLedgerServiceHandler conn) -> template rt !! 2%nat = Some x ->
  x = Var "id" \/ x = Var "ledger_id" \/ x = Var "intent.ledger_id".
Proof. intros Hin. by repeat (destruct Hin as [<-|Hin]; [intros [= <-]; auto|]). Qed.
Lemma path_field_ledger r x l :
  path_field r x = Some l -> x = "id" \/ x = "ledger_id" \/ x = "intent.ledger_id" -> rpc_ledger r = Some l \/ writing r = false.
Proof.
  intros Hf Hx. destruct r as [| | | |[i|]| | | | | | | | | | | | | | | | | |]; destruct Hx as [-> | [-> | ->]];
    try discriminate Hf; injection Hf as <-; auto.
Qed.
Lemma routed_ledger (f : string -> option string) conn rt req md l :
  from_request conn req md f rt -> request_segments req !! 2%nat = Some l ->
  exists x, f x = Some l /\ (x = "id" \/ x = "ledger_id" \/ x = "intent.ledger_id").
Proof.
  intros (Hin & _ & Hs) Hl.
  destruct (Forall2_lookup_r _ _ _ _ _ Hs Hl) as (s & Ht & Hc).
  destruct (path_ledger _ _ _ Hin Ht) as [-> | [-> | ->]]; eauto.
Qed.

(** *** The theorems *)

(** C10: A request to the gateway, whatever its method, path, query and body, is refused
    without a call, or it is exactly one call of the server of Rpc.v: of the method of a
    route that has the path of the request, with the values of the path in the fields the
    route names (whatever the body and the query say of them), under the authorization the
    request has in its headers ([forwarded]); and it answers what the call answers. *)
Theorem rest_is_rpc req : exists d, rest req = perform loopback d /\ routed loopback req d.
Proof. apply mux_decides. Qed.

(** C11: A request under the path of a ledger leaves the database as it is, or carries, in
    one of its two headers for it, the token of a caller who may access that ledger, and
    changes no row of another ledger. *)
Theorem rest_isolation E req l (w : World) :
  request_segments req !! 2%nat = Some l -> w_tx w = TxNone ->
  wp E (rest req) w (fun _ w' => w_db w' = w_db w \/
    exists value token, value ∈ credentials req /\ verified cfg (caller value) token /\ names_ledger token l /\
      others_kept l (w_db w) (w_db w')).
Proof.
  intros Hl Ht. destruct (mux_decides loopback req) as (d & Hd & Hr). unfold rest. rewrite Hd.
  destruct d as [|c e|r md|q md]; [apply wp_ret; auto..| |]; cbn [perform loopback cc_call cc_Export]; apply wp_bind.
  - destruct Hr as (rt & _ & Hf). destruct (routed_ledger _ _ _ _ _ _ Hf Hl) as (x & Hx & Hn).
    destruct (path_field_ledger _ _ _ Hx Hn) as [Hled|Hw].
    + eapply wp_mono; [apply wp_and; [by apply (serve_allowed tz cfg)|exact (stays_kept E l _ w (stays_serve tz cfg l r (arriving md) Hled) Ht)]|].
      intros a w' [[[_ (_ & Hdb & _)]|(token & Hv & Hnames & _)] Hk]; apply wp_ret; [auto|]. right.
      destruct (verified_caller req md token) as (value & Hin & Hc); [apply Hf|exact Hv|]. exists value, token.
      split_and!; [exact Hin|exact Hc|by apply Hnames|exact Hk].
    + eapply wp_mono; [apply reads_idle; [|done]; by apply reads_behind; intros ctx; apply reads_handle|].
      intros a w' (_ & Hdb & _). apply wp_ret. auto.
  - eapply wp_mono; [by apply reads_idle; [apply reads_export|]|]. intros a w' (_ & Hdb & _). apply wp_ret. auto.
Qed.
End Rest.

(** No request is for two routes: when two routes of one method have patterns of its path,
    they are one, in whatever order the mux tries them. The patterns are those of the
    templates of the paths. *)
Theorem routes_disjoint `{Runtime} conn i j r1 r2 segments :
  nth_error (RegisterLedgerServiceHandler conn) i = Some r1 -> nth_error (RegisterLedgerServiceHandler conn) j = Some r2 ->
  rt_method r1 = rt_method r2 -> Forall2 fits (template r1) segments -> Forall2 fits (template r2) segments ->
  i = j /\ rt_pattern r1 = compile (template r1).
Proof.
  intros H1 H2 Hm F1 F2. split; [|by eapply client_compiled, nth_error_In].
  by eapply (all_apart_sound (RegisterLedgerServiceHandler conn)).
Qed.

(** ** The HTTP server of cmd/server *)

Lemma best_match_in mux segments best q h :
  best_match mux segments best = Some (q, h) -> best = Some (q, h) \/ In (q, h) mux.
Proof.
  revert best. induction mux as [|[p g] mux IH]; intros best Hb; cbn [best_match] in Hb; [by left|].
  apply IH in Hb as [Hb|Hb]; [|by right; right]. destruct (_ && _); [injection Hb as <- <-; right|]; by left.
Qed.

(** It answers a page or a redirection of its own, pings the databases, or is the gateway
    over the connection it dialled. *)
Lemma newHTTPServer_serves `{Runtime} dial pool_Ping redis_Ping port grpcPort srv :
  newHTTPServer dial pool_Ping redis_Ping port grpcPort = Ok srv ->
  exists conn, dial ("127.0.0.1:" +:+ dec_of_Z grpcPort) = Ok conn /\ forall req,
    (exists page, hs_Handler srv req = Ret page) \/ hs_Handler srv req = readyz pool_Ping redis_Ping req \/
    hs_Handler srv req = serve_mux (RegisterLedgerServiceHandler conn) req.
Proof.
  unfold newHTTPServer, RegisterLedgerServiceHandlerFromEndpoint. destruct (dial _) as [conn|e]; [|done]. simpl. intros [= <-].
  exists conn. split; [done|]. intros req. cbn [hs_Handler]. unfold ServeHTTP. cbv zeta.
  destruct (String.eqb (http_Path req) "*"); [left; by eexists|].
  destruct (negb _ && negb _ && _); [left; by eexists|]. destruct (negb _); [left; by eexists|].
  destruct (best_match _ _ _) as [[q h]|] eqn:Eb; [|left; by eexists].
  apply best_match_in in Eb as [Eb|Eb]; [done|]. repeat (destruct Eb as [[= <- <-]|Eb]; [eauto|]). done.
Qed.

(** ** A runtime *)

(** A literal or a variable at a time, each variable bound once. *)
Fixpoint match_ops (pool : list string) (ops : list Z) (segments : list string) : option pathParams :=
  match ops, segments with
  | [], [] => Some ∅
  | 2 :: k :: ops, v :: segments =>
      if bool_decide (pool !! Z.to_nat k = Some v) then match_ops pool ops segments else None
  | 1 :: 0 :: 4 :: 1 :: 5 :: k :: ops, v :: segments =>
      match pool !! Z.to_nat k, match_ops pool ops segments with
      | Some x, Some params => if bool_decide (default v (params !! x) = v) then Some (<[x := v]> params) else None
      | _, _ => None
      end
  | _, _ => None
  end.
Definition segment_name (s : segment) : string := match s with Lit x | Var x => x end.

Lemma binds_insert params x v t vs :
  default v (params !! x) = v -> Forall2 (binds params) t vs -> Forall2 (binds (<[x := v]> params)) t vs.
Proof.
  intros Hd Hf. eapply Forall2_impl; [exact Hf|]. intros [y|y] u; [done|]. simpl. intros Hy.
  destruct (decide (y = x)) as [->|Hn]; [|by rewrite lookup_insert_ne]. rewrite lookup_insert_eq. by rewrite Hy in Hd; simpl in Hd; subst.
Qed.

Lemma match_compiled pool before t segments params :
  pool = before ++ map segment_name t -> match_ops pool (compile_ops (Z.of_nat (length before)) t) segments = Some params ->
  Forall2 (binds params) t segments.
Proof.
  revert before segments params. induction t as [|s t IH]; intros before segments params Hp Hm.
  { simpl in Hm. by destruct segments; [constructor|]. }
  assert (Hk : pool !! Z.to_nat (Z.of_nat (length before)) = Some (segment_name s)).
  { rewrite Nat2Z.id, Hp. by rewrite lookup_app_r, Nat.sub_diag. }
  specialize (IH (before ++ [segment_name s])). rewrite length_app, Nat2Z.inj_add in IH.
  assert (Hp' : pool = (before ++ [segment_name s]) ++ map segment_name t) by (by rewrite <- app_assoc).
  destruct s as [x|x]; simpl in Hm; destruct segments as [|v segments]; try done; rewrite Hk in Hm; simpl in Hm.
  - case_bool_decide as E; [|done]. injection E as ->. constructor; [done|]. by apply IH.
  - destruct (match_ops _ _ segments) as [ps|] eqn:Er; [|done]. case_bool_decide as E; [|done]. injection Hm as <-.
    constructor; [apply lookup_insert_eq|]. apply binds_insert; [done|]. by apply IH.
Qed.

(** Bodies are empty but for that of a submission, which names another ledger; a query
    sets the asset of a balance. *)
Definition body_intent : pb.Intent :=
  {| pb.Intent_LedgerId := "other"; pb.Intent_ValidTime := None; pb.Intent_IdempotencyKey := "rest-1"; pb.Intent_Reference := "";
     pb.Intent_Metadata := None; pb.Intent_DryRun := false;
     pb.Intent_Operation := Some (pb.Intent_Post {| pb.Post_Postings :=
       [{| pb.Posting_Source := "alice"; pb.Posting_Destination := "bob"; pb.Posting_Amount := "30"; pb.Posting_Asset := "USD/2" |}] |}) |}.
Definition sample_decode (k : kind) (body : string) : Message k * option read_error :=
  match k with
  | KSubmit => ({| msg.Submit_Intent := Some body_intent |}, None)
  | KCreateLedger => ({| pb.CreateLedger_Id := body; pb.CreateLedger_BucketId := ""; pb.CreateLedger_Metadata := None |}, None)
  | KInsertSchema =>
      ({| msg.InsertSchema_LedgerId := ""; msg.InsertSchema_SchemaBytes := Some body; msg.InsertSchema_Version := "v1" |}, None)
  | KSubmitForApproval =>
      ({| pb.ForApproval_LedgerId := ""; pb.ForApproval_IntentPayload := Some body; pb.ForApproval_RequiredApprovers := [];
          pb.ForApproval_SubmittedBy := ""; pb.ForApproval_ExpiresInSeconds := 0 |}, None)
  | KApproveIntent =>
      ({| pb.ApproveIntent_LedgerId := ""; pb.ApproveIntent_IntentId := ""; pb.ApproveIntent_Principal := "";
          pb.ApproveIntent_Signature := "" |}, Some EOF)
  | KListLedgers => ({| msg.ListLedgers_PageSize := 0; msg.ListLedgers_PageToken := "" |}, Some EOF)
  | KGetTransaction =>
      ({| msg.GetTransaction_LedgerId := ""; msg.GetTransaction_TransactionId := ""; msg.GetTransaction_AsOfValid := None;
          msg.GetTransaction_AsOfSystem := None |}, Some EOF)
  | KListTransactions =>
      ({| msg.ListTransactions_LedgerId := ""; msg.ListTransactions_PageSize := 0; msg.ListTransactions_PageToken := "";
          msg.ListTransactions_AsOfValid := None; msg.ListTransactions_AsOfSystem := None; msg.ListTransactions_Account := "";
          msg.ListTransactions_Reference := ""; msg.ListTransactions_MetadataFilter := ∅ |}, Some EOF)
  | KGetAccount =>
      ({| msg.GetAccount_LedgerId := ""; msg.GetAccount_Address := ""; msg.GetAccount_AsOfValid := None;
          msg.GetAccount_AsOfSystem := None |}, Some EOF)
  | KListAccounts =>
      ({| msg.ListAccounts_LedgerId := ""; msg.ListAccounts_PageSize := 0; msg.ListAccounts_PageToken := "";
          msg.ListAccounts_AddressPattern := ""; msg.ListAccounts_MetadataFilter := ∅ |}, Some EOF)
  | KGetBalance =>
      ({| pb.GetBalance_LedgerId := ""; pb.GetBalance_Account := ""; pb.GetBalance_Asset := ""; pb.GetBalance_AsOfValid := None;
          pb.GetBalance_AsOfSystem := None; pb.GetBalance_IncludeHolds := false |}, Some EOF)
  | KGetAggregatedBalances =>
      ({| pb.Aggregated_LedgerId := ""; pb.Aggregated_AddressPattern := ""; pb.Aggregated_AsOfValid := None;
          pb.Aggregated_AsOfSystem := None |}, Some EOF)
  | KListHolds =>
      ({| msg.ListHolds_LedgerId := ""; msg.ListHolds_PageSize := 0; msg.ListHolds_PageToken := ""; msg.ListHolds_Account := "" |},
       Some EOF)
  | KGetRelationships =>
      ({| msg.GetRelationships_LedgerId := ""; msg.GetRelationships_TransactionId := ""; msg.GetRelationships_Depth := 0 |}, Some EOF)
  | KListLogEvents | KListPendingApprovals =>
      ({| pb.Page_LedgerId := ""; pb.Page_PageSize := 0; pb.Page_PageToken := "" |}, Some EOF)
  | KExport => ({| msg.Export_LedgerId := ""; msg.Export_From := None; msg.Export_To := None |}, Some EOF)
  end.
Definition sample_field (k : kind) : Message k -> string -> string -> result (Message k) :=
  match k with
  | KSubmit => fun r path v =>
      if String.eqb path "intent.ledger_id" then Ok {| msg.Submit_Intent := Some (with_ledger v (msg.Submit_Intent r)) |}
      else Err (EMsg "no such field")
  | _ => fun r _ _ => Ok r
  end.
Definition sample_query (k : kind) : Message k -> Values -> DoubleArray -> result (Message k) :=
  match k with
  | KGetBalance => fun r form _ =>
      Ok {| pb.GetBalance_LedgerId := pb.GetBalance_LedgerId r; pb.GetBalance_Account := pb.GetBalance_Account r;
            pb.GetBalance_Asset := default EmptyString (head (default [] (form !! "asset")));
            pb.GetBalance_AsOfValid := None; pb.GetBalance_AsOfSystem := None; pb.GetBalance_IncludeHolds := true |}
  | _ => fun r _ _ => Ok r
  end.
Definition sample_segments (req : HttpRequest) : list string := path_segments (http_Path req).
Fixpoint sample_match (i : nat) (routes : list (string * Pattern)) (req : HttpRequest) : option (nat * pathParams) :=
  match routes with
  | [] => None
  | (m, p) :: routes =>
      match match_ops (pat_pool p) (pat_ops p) (sample_segments req) with
      | Some params => if String.eqb m (http_Method req) then Some (i, params) else sample_match (S i) routes req
      | None => sample_match (S i) routes req
      end
  end.
Definition sample_metadata (req : HttpRequest) : outgoing :=
  {[authorizationMetadataKey := credentials req]}.

#[export] Instance sample_runtime : Runtime := {|
  Decode := sample_decode;
  runtime_String v := Ok v;
  PopulateFieldFromPath := sample_field;
  PopulateQueryParameters := sample_query;
  AnnotateContext req _ _ := Reply (sample_metadata req);
  AnnotateIncomingContext req _ _ := Reply (arriving (sample_metadata req));
  mux_match := sample_match 0;
  request_segments := sample_segments
|}.

Lemma sample_match_sound n routes req i params t :
  sample_match n routes req = Some (i, params) -> option_map snd (nth_error routes (i - n)) = Some (compile t) ->
  (n <= i)%nat /\ Forall2 (binds params) t (sample_segments req).
Proof.
  revert n. induction routes as [|[m p] routes IH]; intros n Hm Ht; simpl in Hm; [done|].
  assert (Hrest : sample_match (S n) routes req = Some (i, params) -> (n <= i)%nat /\ Forall2 (binds params) t (sample_segments req)).
  { intros Hr. assert (Hn : (S n <= i)%nat).
    { clear -Hr. revert n Hr. induction routes as [|[m p] routes IH]; intros n Hr; simpl in Hr; [done|].
      destruct (match_ops _ _ _); [destruct (String.eqb _ _); [injection Hr as -> _; lia|]|]; specialize (IH _ Hr); lia. }
    replace (i - n)%nat with (S (i - S n)) in Ht by lia. destruct (IH _ Hr Ht). split; [lia|done]. }
  destruct (match_ops _ _ _) as [ps|] eqn:Eo; [|by apply Hrest]. destruct (String.eqb _ _); [|by apply Hrest].
  injection Hm as -> ->. split; [done|]. rewrite Nat.sub_diag in Ht. injection Ht as ->.
  by apply (match_compiled (map segment_name t) [] t).
Qed.

#[export] Instance sample_laws : RuntimeLaws.
Proof.
  split.
  - done.
  - done.
  - intros k m m' form names filter x _ Hq _. by destruct k; injection Hq as <-.
  - intros req n p md [= <-]. unfold forwarded, sample_metadata. rewrite lookup_singleton_eq. cbn [default].
    split; [apply submseteq_inserts_r|]; done.
  - intros routes req i params t Hm Ht. eapply (sample_match_sound 0); [exact Hm|]. by rewrite Nat.sub_0_r.
Qed.

(** ** Runs of the gateway before the sample server *)

Definition get (path query : string) : HttpRequest :=
  {| http_Method := "GET"; http_Path := path; http_RawQuery := query; http_Header := {["Authorization" := ["Bearer ann.jwt"]]};
     http_Body := ""; http_PostForm := Ok ∅ |}.
Definition post (path : string) : HttpRequest :=
  {| http_Method := "POST"; http_Path := path; http_RawQuery := ""; http_Header := {["Authorization" := ["Bearer ann.jwt"]]};
     http_Body := "{}"; http_PostForm := Ok ∅ |}.

Definition sample_rest : HttpRequest -> prog http_response := rest utc sample_config 1 (fun _ => true).
Definition balance_over_rest (l : string) : option (string * string) + code :=
  match fst (run sample_env (sample_rest (get ("/v1/ledgers/" +:+ l +:+ "/accounts/alice/balance") "asset=USD%2F2")) two_tenants) with
  | ForwardMessage (ABalance b) => inl (Some (pb.Balance_PostedBalance b, pb.Balance_AvailableBalance b))
  | HTTPError c _ => inr c
  | _ => inl None
  end.

(** The same request with its token in another header. *)
Definition balance_with (header : string) : option (string * string) :=
  let req := {| http_Method := "GET"; http_Path := "/v1/ledgers/main/accounts/alice/balance"; http_RawQuery := "asset=USD%2F2";
                http_Header := {[header := ["Bearer ann.jwt"]]}; http_Body := ""; http_PostForm := Ok ∅ |} in
  match fst (run sample_env (sample_rest req) two_tenants) with
  | ForwardMessage (ABalance b) => Some (pb.Balance_PostedBalance b, pb.Balance_AvailableBalance b)
  | _ => None
  end.

(** The body names the ledger "other", the path "main". *)
Definition submitted_over_rest : option bool :=
  match run sample_env (sample_rest (post "/v1/ledgers/main/submit")) two_tenants with
  | (ForwardMessage (ASubmit _), w') =>
      Some (bool_decide (length (ledger_log "main" (w_db w')) = S (length (ledger_log "main" (w_db two_tenants)))))
  | _ => None
  end.

Lemma rest_is_rpc_witness :
  balance_over_rest "main" = inl (Some ("95", "80")) /\ balance_over_rest "other" = inr PermissionDenied /\
  submitted_over_rest = Some true /\
  exists d, sample_rest (post "/v1/ledgers/main/submit") = perform (loopback utc sample_config 1 (fun _ => true)) d /\
    routed (loopback utc sample_config 1 (fun _ => true)) (post "/v1/ledgers/main/submit") d.
Proof.
  split; [vm_compute; reflexivity|]. split; [vm_compute; reflexivity|]. split; [vm_compute; reflexivity|].
  apply (rest_is_rpc utc sample_config 1 (fun _ => true) (post "/v1/ledgers/main/submit")).
Defined.

Lemma rest_isolation_witness :
  request_segments (post "/v1/ledgers/main/submit") !! 2%nat = Some "main" /\ w_tx two_tenants = TxNone /\
  wp sample_env (sample_rest (post "/v1/ledgers/main/submit")) two_tenants (fun _ w' => w_db w' = w_db two_tenants \/
    exists value token, value ∈ credentials (post "/v1/ledgers/main/submit") /\ verified sample_config (caller value) token /\
      names_ledger token "main" /\ others_kept "main" (w_db two_tenants) (w_db w')) /\
  balance_with "Grpc-Metadata-Authorization" = Some ("95", "80") /\ balance_with "Cookie" = None.
Proof.
  split; [vm_compute; reflexivity|]. split; [vm_compute; reflexivity|].
  split; [|split; vm_compute; reflexivity].
  apply (rest_isolation utc sample_config 1 (fun _ => true) sample_env (post "/v1/ledgers/main/submit") "main" two_tenants);
    vm_compute; reflexivity.
Defined.

Definition no_server : ClientConn :=
  {| cc_call _ _ := status Internal "unavailable"; cc_Export _ _ := status Internal "unavailable" |}.
Definition hold_path : list string := ["v1"; "ledgers"; "main"; "holds"; "h"].

Lemma routes_disjoint_witness :
  nth_error (RegisterLedgerServiceHandler no_server) 11 = Some (client_GetHold no_server) /\
  Forall2 fits (template (client_GetHold no_server)) hold_path /\
  (11%nat = 11%nat /\ rt_pattern (client_GetHold no_server) = compile (template (client_GetHold no_server))).
Proof.
  assert (Hn : nth_error (RegisterLedgerServiceHandler no_server) 11 = Some (client_GetHold no_server)) by reflexivity.
  assert (Hf : Forall2 fits (template (client_GetHold no_server)) hold_path).
  { change (template (client_GetHold no_server)) with [Lit "v1"; Lit "ledgers"; Var "ledger_id"; Lit "holds"; Var "hold_id"].
    repeat constructor. }
  split; [exact Hn|]. split; [exact Hf|].
  exact (routes_disjoint no_server 11 11 (client_GetHold no_server) (client_GetHold no_server) hold_path Hn Hn eq_refl Hf Hf).
Defined.
