(* ===== verification/DevToken.v ===== *)
(** * cmd/devtoken/main.go: the token minter of development

    A server with two routes: the public key set, which the ledger server verifies tokens
    with, and tokens for any subject and ledgers. RSA keys, their JSON form and the
    building and signing of tokens are the jwx library, class [Jwx]; [JwxLaws] says that
    what it signs, [jwt.Parse] of the ledger server accepts. *)
From Stdlib Require Import SpecFloat.
From S2P Require Import Prelude GoStd Regex Accounts Assets Policy Sha256 Json Storage Db Prog.
From S2P Require Import Logic Postgres BatchManager Redis Chart Planner Cores Operations IntentJson Approval.
From S2P Require Import Proto Auth RateLimit Grpc Queries Transfer Sdk Rpc Gateway Routes.

(** ** time.ParseDuration *)

Definition invalid_duration {A} : result A := Err (EMsg "time: invalid duration").
Definition two63 : Z := 2 ^ 63.

(** [leadingInt]: the digits a text begins with, unless they exceed 2^63. *)
Fixpoint leadingInt (x : Z) (s : string) : option (Z * string) :=
  match s with
  | EmptyString => Some (x, s)
  | String c s' =>
      if negb (is_digit c) then Some (x, s)
      else if two63 / 10 <? x then None
      else let x := x * 10 + (Z_of_byte c - 48) in
           if two63 <? x then None else leadingInt x s'
  end.
(** [leadingFraction]: the digits and their scale; those that overflow are skipped. *)
Fixpoint leadingFraction (overflow : bool) (x scale : Z) (s : string) : Z * Z * string :=
  match s with
  | EmptyString => (x, scale, s)
  | String c s' =>
      if negb (is_digit c) then (x, scale, s)
      else if overflow then leadingFraction true x scale s'
      else if (two63 - 1) / 10 <? x then leadingFraction true x scale s'
      else let y := x * 10 + (Z_of_byte c - 48) in
           if two63 <? y then leadingFraction true x scale s' else leadingFraction false y (scale * 10) s'
  end.
Fixpoint span_unit (s : string) : string * string :=
  match s with
  | EmptyString => (EmptyString, EmptyString)
  | String c s' =>
      if Ascii.eqb c "." || is_digit c then (EmptyString, s)
      else let '(u, rest) := span_unit s' in (String c u, rest)
  end.

(** The micro sign and the letter mu, in UTF-8. *)
Definition utf8 (bytes : list nat) : string := string_of_list_ascii (map ascii_of_nat bytes).
Definition unitMap : gmap string Z := {[
  "ns" := 1; "us" := 1000; utf8 [194; 181; 115]%nat := 1000; utf8 [206; 188; 115]%nat := 1000;
  "ms" := Millisecond; "s" := Second; "m" := Minute; "h" := Hour ]}.

(** float64, and the conversion back to an integer. *)
Definition float64 (z : Z) : spec_float := binary_normalize 53 1024 z 0 false.
Definition to_uint64 (f : spec_float) : Z :=
  match f with
  | S754_finite false m e => if 0 <=? e then Z.shiftl (Z.pos m) e else Z.shiftr (Z.pos m) (- e)
  | _ => 0
  end.
Definition scaled (f scale unit_ : Z) : Z :=
  to_uint64 (SFmul 53 1024 (float64 f) (SFdiv 53 1024 (float64 unit_) (float64 scale))).

(** One number with its unit: its nanoseconds, and what follows. *)
Definition parse_component (s : string) : result (Z * string) :=
  match s with
  | String c _ =>
      if negb (Ascii.eqb c "." || is_digit c) then invalid_duration
      else
        match leadingInt 0 s with
        | None => invalid_duration
        | Some (v, s1) =>
            let pre := negb (String.length s1 =? String.length s)%nat in
            let '(f, scale, s2, post) :=
              match s1 with
              | String c s1' =>
                  if Ascii.eqb c "." then
                    let '(f, scale, s2) := leadingFraction false 0 1 s1' in
                    (f, scale, s2, negb (String.length s2 =? String.length s1')%nat)
                  else (0, 1, s1, false)
              | EmptyString => (0, 1, s1, false)
              end in
            if negb pre && negb post then invalid_duration
            else
              let '(u, rest) := span_unit s2 in
              if String.eqb u EmptyString then Err (EMsg "time: missing unit in duration")
              else
                match unitMap !! u with
                | None => Err (EMsg "time: unknown unit in duration")
                | Some unit_ =>
                    if two63 / unit_ <? v then invalid_duration
                    else
                      let v := v * unit_ + (if 0 <? f then scaled f scale unit_ else 0) in
                      if two63 <? v then invalid_duration else Ok (v, rest)
                end
        end
  | EmptyString => invalid_duration
  end.
(** The components of a text, of which each takes a character at least. *)
Fixpoint parse_components (fuel : nat) (d : Z) (s : string) : result Z :=
  match fuel, s with
  | _, EmptyString => Ok d
  | O, _ => invalid_duration
  | S fuel, _ =>
      let? (v, rest) := parse_component s in
      if two63 <? d + v then invalid_duration else parse_components fuel (d + v) rest
  end.
Definition ParseDuration (orig : string) : result Z :=
  let '(neg, s) :=
    match orig with
    | String c s => if Ascii.eqb c "-" then (true, s) else if Ascii.eqb c "+" then (false, s) else (false, orig)
    | EmptyString => (false, orig)
    end in
  if String.eqb s "0" then Ok 0
  else if String.eqb s EmptyString then invalid_duration
  else
    let? d := parse_components (String.length s) 0 s in
    if neg then Ok (- d) else if two63 - 1 <? d then invalid_duration else Ok d.

(** Each component is shorter than the text it begins, so the fuel is enough. *)
Lemma leadingInt_shorter x s v rest : leadingInt x s = Some (v, rest) -> (String.length rest <= String.length s)%nat.
Proof.
  revert x. induction s as [|c s IH]; intros x; cbn [leadingInt]; [by intros [= _ <-]|].
  destruct (negb (is_digit c)); [by intros [= _ <-]|]. destruct (_ <? _); [done|]. cbv zeta. destruct (_ <? _); [done|].
  intros Hl. apply IH in Hl. simpl. lia.
Qed.
Lemma leadingFraction_shorter b x scale s : (String.length (leadingFraction b x scale s).2 <= String.length s)%nat.
Proof.
  revert b x scale. induction s as [|c s IH]; intros b x scale; cbn [leadingFraction]; [done|].
  destruct (negb (is_digit c)); [done|]. destruct b; [|destruct (_ <? _); [|cbv zeta; destruct (_ <? _)]];
    (etrans; [apply IH|]); simpl; lia.
Qed.
Lemma span_unit_shorter s u rest : span_unit s = (u, rest) -> (String.length u + String.length rest = String.length s)%nat.
Proof.
  revert u rest. induction s as [|c s IH]; intros u rest; cbn [span_unit]; [by intros [= <- <-]|].
  destruct (_ || _); [by intros [= <- <-]|]. destruct (span_unit s) as [u' rest']. intros [= <- <-]. simpl. by rewrite (IH u' rest').
Qed.
Lemma parse_component_shorter s v rest : parse_component s = Ok (v, rest) -> (String.length rest < String.length s)%nat.
Proof.
  unfold parse_component. destruct s as [|c s0]; [done|]. destruct (negb _); [done|].
  destruct (leadingInt 0 (String c s0)) as [[n s1]|] eqn:El; [|done]. apply leadingInt_shorter in El.
  assert (Hcut : forall f scale s2 post,
    match s1 with
    | String c s1' =>
        if Ascii.eqb c "." then
          let '(f, scale, s2) := leadingFraction false 0 1 s1' in (f, scale, s2, negb (String.length s2 =? String.length s1')%nat)
        else (0, 1, s1, false)
    | EmptyString => (0, 1, s1, false)
    end = (f, scale, s2, post) -> (String.length s2 <= String.length s1)%nat).
  { intros f scale s2 post. destruct s1 as [|c1 s1']; [by intros [= _ _ <- _]|]. destruct (Ascii.eqb c1 "."); [|by intros [= _ _ <- _]].
    pose proof (leadingFraction_shorter false 0 1 s1') as Hf. destruct (leadingFraction false 0 1 s1') as [[f' scale'] s2'].
    intros [= _ _ <- _]. simpl in *. lia. }
  destruct (match s1 with EmptyString => _ | _ => _ end) as [[[f scale] s2] post]; specialize (Hcut _ _ _ _ eq_refl).
  destruct (_ && _); [done|]. destruct (span_unit s2) as [u r2] eqn:Eu. apply span_unit_shorter in Eu.
  destruct u as [|uc u]; [done|]. cbn [String.eqb]. destruct (unitMap !! _) as [unit_|]; [|done]. destruct (_ <? _); [done|].
  cbv zeta. destruct (_ <? _); [done|]. intros [= _ <-]. simpl in *. lia.
Qed.
Lemma parse_components_fuel fuel d s :
  (String.length s <= fuel)%nat -> parse_components fuel d s = parse_components (String.length s) d s.
Proof.
  revert d s. induction fuel as [fuel IH] using lt_wf_ind. intros d s Hs.
  destruct s as [|c s0]; [by destruct fuel|]. destruct fuel as [|fuel]; [simpl in Hs; lia|]. cbn [parse_components String.length].
  destruct (parse_component (String c s0)) as [[v rest]|e] eqn:Ep; [|done]. simpl. destruct (_ <? _); [done|].
  apply parse_component_shorter in Ep. simpl in Ep, Hs. rewrite (IH fuel) by lia. symmetry. apply IH; lia.
Qed.

Example parse_durations :
  ParseDuration "1h30m" = Ok (90 * Minute) /\ ParseDuration "1.5h" = Ok (90 * Minute) /\ ParseDuration "-250ms" = Ok (-250000000) /\
  ParseDuration "0" = Ok 0 /\ ParseDuration ".5" = Err (EMsg "time: missing unit in duration") /\
  is_ok (ParseDuration "h") = false /\ is_ok (ParseDuration "9223372036854775808ns") = false.
Proof. vm_compute. done. Qed.

(** ** The jwx library *)

Record Claims := {
  cl_subject : string;
  cl_expiration : Z;
  cl_audience : option (list string);
  cl_issuer : option string;
  cl_ledgers : option (list string)
}.

Class Jwx := {
  RawKey : Type;
  Key : Type;
  KeySet : Type;
  BuiltToken : Type;
  GenerateKey : Z -> result RawKey;              (* rsa.GenerateKey, of the number of bits *)
  FromRaw : RawKey -> result Key;
  SetField : string -> string -> Key -> result Key;
  PublicKeyOf : Key -> result Key;
  KeyID : Key -> string;
  NewSet : KeySet;
  AddKey : Key -> KeySet -> result KeySet;
  MarshalSet : KeySet -> result string;
  Build : Claims -> result BuiltToken;
  Sign : BuiltToken -> Key -> result string      (* with RS256 *)
}.

Section DevToken.
Context `{Jwx}.

(** ** Keys *)

Definition rsaKeyBits : Z := 2048.
Definition KeyIDKey : string := "kid".
Definition AlgorithmKey : string := "alg".

Definition newSigningKey (kid : string) : result Key :=
  let? raw := GenerateKey rsaKeyBits in
  let? key := FromRaw raw in
  let? key := SetField KeyIDKey kid key in
  SetField AlgorithmKey "RS256" key.
Definition publicJWKS (signKey : Key) : result string :=
  let? pub := PublicKeyOf signKey in
  let? pub := SetField KeyIDKey (KeyID signKey) pub in
  let? pub := SetField AlgorithmKey "RS256" pub in
  let? set := AddKey pub NewSet in
  MarshalSet set.

(** ** Tokens *)

Definition mintToken (signKey : Key) (sub audience issuer : string) (ledgers : list string) (exp : Z) : result string :=
  let b := {| cl_subject := sub; cl_expiration := exp;
              cl_audience := if negb (String.eqb audience EmptyString) then Some [audience] else None;
              cl_issuer := if negb (String.eqb issuer EmptyString) then Some issuer else None;
              cl_ledgers := if (0 <? length ledgers)%nat then Some ledgers else None |} in
  let? tok := Build b in
  Sign tok signKey.

Definition splitLedgers (s : string) : list string :=
  List.filter is_nonempty (map trim_space (split_on "," s)).

Definition defaultAddr : string := ":8081".
Definition defaultKeyID : string := "devtoken-key-1".
Definition defaultSubject : string := "dev".
Definition defaultLedgers : string := "*".
Definition defaultTTL : Z := Hour.

(** [q.Get(key)]. *)
Definition Get (q : Values) (key : string) : string := default EmptyString (head (default [] (q !! key))).
Definition or_default (s d : string) : string := if String.eqb s EmptyString then d else s.

Definition tokenHandler (signKey : Key) (issuer audience : string) (r : HttpRequest) : prog http_response :=
  let q := fst (ParseQuery (http_RawQuery r)) in
  let sub := or_default (Get q "sub") defaultSubject in
  let ledgersParam := or_default (Get q "ledgers") defaultLedgers in
  let raw := Get q "ttl" in
  match (if String.eqb raw EmptyString then Ok defaultTTL else ParseDuration raw) with
  | Err _ => Ret (Page 400 "invalid ttl")
  | Ok ttl =>
      let+ now := time_Now in
      Ret match mintToken signKey sub audience issuer (splitLedgers ledgersParam) (now + ttl) with
          | Err _ => Page 500 "minting token"
          | Ok token => Page 200 token
          end
  end.

(** ** The server: what it serves, or why it does not start *)

Record ServeFlags := { sf_addr : string; sf_issuer : string; sf_audience : string; sf_kid : string }.
Definition default_flags : ServeFlags := {| sf_addr := defaultAddr; sf_issuer := EmptyString; sf_audience := EmptyString; sf_kid := defaultKeyID |}.

Definition runServe (f : ServeFlags) : result httpServer :=
  let? signKey := rmap_err (EWrap "generating signing key") (newSigningKey (sf_kid f)) in
  let? jwksBody := rmap_err (EWrap "building jwks") (publicJWKS signKey) in
  let mux := HandleFunc "/jwks.json" (fun _ => Ret (Page 200 jwksBody)) [] in
  let mux := HandleFunc "/token" (tokenHandler signKey (sf_issuer f) (sf_audience f)) mux in
  Ok {| hs_Addr := sf_addr f; hs_Handler := ServeHTTP mux; hs_ReadHeaderTimeout := 5 * Second; hs_IdleTimeout := 0 |}.
End DevToken.

(** ** The ledger server accepts what it mints *)

(** A token signed with the trusted key is a compact text; until the second it expires in,
    [jwt.Parse] reads its subject and ledgers back, for its audience and issuer or none. *)
Class JwxLaws `{Jwx, Jwt} (trusted : Key) : Prop := {
  signed_compact c tok raw : Build c = Ok tok -> Sign tok trusted = Ok raw -> raw <> EmptyString /\ trim_space raw = raw;
  signed_parses c tok raw now audience issuer :
    Build c = Ok tok -> Sign tok trusted = Ok raw -> now / Second < cl_expiration c / Second ->
    audience = EmptyString \/ (exists l, cl_audience c = Some l /\ audience ∈ l) ->
    issuer = EmptyString \/ cl_issuer c = Some issuer ->
    jwt_Parse now audience issuer raw =
      Some {| tok_Subject := cl_subject c; tok_Ledgers := option_map (fun ls => JArr (map JStr ls)) (cl_ledgers c) |}
}.

Section RoundTrip.
Context `{Jwx, Jwt} (trusted : Key) `{!JwxLaws trusted}.

Definition bearer (token : string) : Context := arriving (sdk.intercepted {| sdk.bearerToken := token |} ∅).

Lemma mint_authenticates sub audience issuer ledgers exp token E w :
  mintToken trusted sub audience issuer ledgers exp = Ok token -> sub <> EmptyString ->
  e_now E (w_tick w) / Second < exp / Second ->
  wp E (AuthenticateIdentity {| ja_audience := audience; ja_issuer := issuer |} (bearer token)) w (fun r _ =>
    exists id, r = Ok id /\ id_Principal id = sub /\
      forall l, CanAccessLedger id l = true <-> "*" ∈ ledgers \/ l ∈ ledgers).
Proof.
  unfold mintToken. set (c := {| cl_subject := sub |}). intros Hm Hne Hnow.
  destruct (Build c) as [tok|e] eqn:Eb; [|done]. simpl in Hm. destruct (signed_compact c tok token Eb Hm) as [Ht Htr].
  unfold AuthenticateIdentity. unfold bearer, arriving.
  pose proof (bearer_roundtrip token (arriving ∅) Ht Htr) as Hb. cbn [arriving ctx_peer ctx_principal ctx_identity] in Hb. rewrite Hb.
  apply wp_mbind, wp_ret, wp_bind, wp_trigger. cbn.
  rewrite (signed_parses c tok token _ audience issuer Eb Hm Hnow).
  2: { cbn [c cl_audience]. destruct (String.eqb_spec audience EmptyString) as [->|]; [by left|]. right. eexists. split; [done|]. by left. }
  2: { cbn [c cl_issuer]. by destruct (String.eqb_spec issuer EmptyString) as [->|]; [left|right]. }
  cbn [tok_Subject tok_Ledgers c cl_subject cl_ledgers]. rewrite (proj2 (String.eqb_neq _ _) Hne).
  set (tok' := {| tok_Subject := sub; tok_Ledgers := _ |}). destruct (parseLedgersClaim tok') as [ls all] eqn:Ep.
  apply wp_ret. eexists. split; [done|]. split; [done|]. intros l. pose proof (parseLedgersClaim_spec tok' sub l) as Hs.
  rewrite Ep in Hs. rewrite Hs. unfold names_ledger. cbn [tok' tok_Ledgers]. destruct ledgers as [|l0 ls0]; [cbn; set_solver|].
  cbn [length Nat.ltb Nat.leb option_map]. rewrite !(list_elem_of_fmap JStr). naive_solver.
Qed.

(** A token that the minter answers with authenticates a caller at the ledger server with
    the same audience and issuer, until it expires: as the subject that was asked for, with
    exactly the ledgers that were asked for. *)
Theorem token_authenticates issuer audience req E (w : World) :
  wp E (tokenHandler trusted issuer audience req) w (fun resp _ => forall token, resp = Page 200 token ->
    let q := fst (ParseQuery (http_RawQuery req)) in
    let ledgers := splitLedgers (or_default (Get q "ledgers") defaultLedgers) in
    exists ttl, (if String.eqb (Get q "ttl") EmptyString then Ok defaultTTL else ParseDuration (Get q "ttl")) = Ok ttl /\
      forall E' (w' : World), e_now E' (w_tick w') / Second < (e_now E (w_tick w) + ttl) / Second ->
        wp E' (AuthenticateIdentity {| ja_audience := audience; ja_issuer := issuer |} (bearer token)) w' (fun r _ =>
          exists id, r = Ok id /\ id_Principal id = or_default (Get q "sub") defaultSubject /\
            forall l, CanAccessLedger id l = true <-> "*" ∈ ledgers \/ l ∈ ledgers)).
Proof.
  unfold tokenHandler. cbv zeta. set (q := fst (ParseQuery _)).
  destruct (if String.eqb (Get q "ttl") _ then _ else _) as [ttl|e]; [|by apply wp_ret].
  apply wp_bind, wp_trigger. apply wp_ret. intros token Hr. exists ttl. split; [done|]. intros E' w' Hnow.
  destruct (mintToken _ _ _ _ _ _) as [t|e] eqn:Em; [|done]. injection Hr as ->.
  eapply mint_authenticates; [exact Em| |exact Hnow]. unfold or_default. by destruct (String.eqb_spec (Get q "sub") EmptyString).
Qed.
End RoundTrip.

(** ** A library that signs one token *)

Definition dev_claims : Claims :=
  {| cl_subject := "ann"; cl_expiration := 1000 * Second; cl_audience := None; cl_issuer := None; cl_ledgers := Some ["main"; "other"] |}.
Definition dev_jwx : Jwx := {|
  RawKey := unit; Key := unit; KeySet := unit; BuiltToken := Claims;
  GenerateKey _ := Ok tt; FromRaw _ := Ok tt; SetField _ _ k := Ok k; PublicKeyOf k := Ok k; KeyID _ := "k"; NewSet := tt;
  AddKey _ s := Ok s; MarshalSet _ := Ok "{}";
  Build c := if bool_decide (cl_subject c = "ann" /\ cl_expiration c = 1000 * Second /\ cl_audience c = None /\
                             cl_issuer c = None /\ cl_ledgers c = Some ["main"; "other"]) then Ok c else Err (EMsg "unknown");
  Sign _ _ := Ok "dev.jwt"
|}.
Definition dev_jwt : Jwt := {|
  jwt_Parse now audience issuer raw :=
    if String.eqb raw "dev.jwt" && (now / Second <? 1000) && String.eqb audience EmptyString && String.eqb issuer EmptyString
    then Some {| tok_Subject := "ann"; tok_Ledgers := Some (JArr [JStr "main"; JStr "other"]) |} else None
|}.
Lemma dev_laws : JwxLaws (H := dev_jwx) (H0 := dev_jwt) tt.
Proof.
  split.
  - intros c tok raw _ [= <-]. by vm_compute.
  - intros c tok raw now audience issuer Hb [= <-] Hn Ha Hi. cbn [dev_jwx Build] in Hb. case_bool_decide as Hc; [|done].
    destruct Hc as (H1 & H2 & H3 & H4 & H5). rewrite H1, H5. rewrite H2 in Hn. rewrite H3 in Ha. rewrite H4 in Hi.
    destruct Ha as [->|(l & Hl & _)]; [|done]. destruct Hi as [->|Hi]; [|done]. cbn [dev_jwt jwt_Parse].
    change (1000 * Second / Second) with 1000 in Hn. by rewrite (proj2 (Z.ltb_lt _ _) Hn).
Qed.
