(* ===== verification/Fx.v ===== *)
(** * The container that builds the binaries: go.uber.org/fx

    cmd/server and cmd/worker hand their constructors to fx. The container is not code of
    the repository: it is a parameter, the class [Fx], and [FxDocumented] says of one
    application what the documentation of fx says. A constructor of the repository is a
    [Constructor]: the types it takes and gives, and what it does with the values. *)
From S2P Require Import Prelude.

(** A decidable property of closed terms. *)
Ltac decided := apply (bool_decide_unpack _); vm_compute; exact I.

(** A constructor or an invoked function, by its place in the application. *)
Inductive fn := Ctor (i : nat) | Inv (i : nat).
#[export] Instance fn_eq_dec : EqDecision fn.
Proof. solve_decision. Defined.

Section Fx.
(** The Go types and values the container passes, and the actions of hooks. *)
Context {T V A : Type}.

(** [lifecycle.Append(fx.Hook{...})], or something done at once. *)
Record hook := { OnStart : option A; OnStop : option A }.
Inductive effect := Append (h : hook) | Does (a : A).

Record Constructor := {
  ct_name : string;
  ct_in : list T;
  ct_out : list T;
  ct_call : list V -> result (list V * list effect)
}.

Inductive fxOption :=
| Supply (t : T) (v : V)
| Provide (cs : list Constructor)
| FxModule (name : string) (opts : list fxOption)
| Invoke (c : Constructor).

Definition App : Type := list fxOption.

(** A supplied value is that of a constructor that returns it; what a module provides, it
    provides to the whole application. *)
Definition supplied (t : T) (v : V) : Constructor :=
  {| ct_name := "supply"; ct_in := []; ct_out := [t]; ct_call := fun _ => Ok ([v], []) |}.
Fixpoint option_provides (o : fxOption) : list Constructor :=
  match o with
  | Supply t v => [supplied t v]
  | Provide cs => cs
  | FxModule _ opts => flat_map option_provides opts
  | Invoke _ => []
  end.
Fixpoint option_invokes (o : fxOption) : list Constructor :=
  match o with
  | FxModule _ opts => flat_map option_invokes opts
  | Invoke c => [c]
  | _ => []
  end.
Definition constructors (a : App) : list Constructor := flat_map option_provides a.
Definition invocations (a : App) : list Constructor := flat_map option_invokes a.

Definition function (a : App) (f : fn) : option Constructor :=
  match f with Ctor i => constructors a !! i | Inv i => invocations a !! i end.
Definition provided_types (a : App) : list T := flat_map ct_out (constructors a).

(** ** A run of the constructors *)

Record call := { cl_fn : fn; cl_out : list V; cl_effects : list effect }.

(** A call gave a value of the type. *)
Definition gave (a : App) (calls : list call) (t : T) (v : V) : Prop :=
  exists cl i c k, cl ∈ calls /\ cl_fn cl = Ctor i /\ constructors a !! i = Some c /\ ct_out c !! k = Some t /\ cl_out cl !! k = Some v.

(** A constructor is called only if what it gives is needed. *)
Inductive needed (a : App) : fn -> Prop :=
| invocation_needed i c : invocations a !! i = Some c -> needed a (Inv i)
| provider_needed f c i c' t :
    needed a f -> function a f = Some c -> t ∈ ct_in c -> constructors a !! i = Some c' -> t ∈ ct_out c' -> needed a (Ctor i).

(** Every function is called at most once, with what was given before. *)
Inductive session (a : App) : list call -> Prop :=
| session_start : session a []
| session_call calls f c args outs effects :
    session a calls -> needed a f -> function a f = Some c -> f ∉ map cl_fn calls ->
    Forall2 (gave a calls) (ct_in c) args -> ct_call c args = Ok (outs, effects) ->
    session a (calls ++ [{| cl_fn := f; cl_out := outs; cl_effects := effects |}]).

Definition invocation (f : fn) : option nat := match f with Inv i => Some i | Ctor _ => None end.
Definition all_invoked (a : App) (fs : list fn) : Prop := omap invocation fs = seq 0 (length (invocations a)).

(** ** The lifecycle *)

Definition appended (effects : list effect) : list hook := omap (fun e => match e with Append h => Some h | Does _ => None end) effects.
Definition done_at_once (effects : list effect) : list A := omap (fun e => match e with Append _ => None | Does a => Some a end) effects.

(** OnStart hooks run in the order they were appended, until one fails: what ran, and the
    hooks that started. *)
Fixpoint run_starts (outcome : A -> result unit) (hooks : list hook) : list A * list hook :=
  match hooks with
  | [] => ([], [])
  | h :: hooks =>
      match OnStart h with
      | None => let '(ran, started) := run_starts outcome hooks in (ran, h :: started)
      | Some x =>
          match outcome x with
          | Err _ => ([x], [])
          | Ok _ => let '(ran, started) := run_starts outcome hooks in (x :: ran, h :: started)
          end
      end
  end.
Definition run_stops (started : list hook) : list A := omap OnStop (rev started).
Definition lifecycle (outcome : A -> result unit) (hooks : list hook) : list A :=
  let '(ran, started) := run_starts outcome hooks in ran ++ run_stops started.

(** ** The container *)

Class Fx := {
  (** [fx.New]: what the constructors did, or the error of the application *)
  fx_New : App -> result (list effect);
  (** [App.Run] until a signal: the actions of the hooks that ran *)
  fx_Run : result (list effect) -> (A -> result unit) -> list A
}.

Definition ambiguous (a : App) : Prop := ~ NoDup (provided_types a).
Definition missing (a : App) : Prop := exists f c t, needed a f /\ function a f = Some c /\ t ∈ ct_in c /\ t ∉ provided_types a.
Definition acyclic (a : App) : Prop :=
  exists rank : T -> nat, forall c t u, c ∈ constructors a -> t ∈ ct_in c -> u ∈ ct_out c -> (rank t < rank u)%nat.
Definition constructor_fails (a : App) : Prop :=
  exists calls f c args e, session a calls /\ needed a f /\ function a f = Some c /\ Forall2 (gave a calls) (ct_in c) args /\ ct_call c args = Err e.

(** What fx documents, of the application [a]. *)
Class FxDocumented `{Fx} (a : App) : Prop := {
  (** A type is provided once. Constructors run when an invoked function needs what they
      give, directly or not, and at most once; invoked functions run in their order. *)
  New_ok effects :
    fx_New a = Ok effects ->
    NoDup (provided_types a) /\
    exists calls, session a calls /\ all_invoked a (map cl_fn calls) /\ effects = flat_map cl_effects calls;
  (** An application fails for a type that is provided twice, one that is missing, a cycle,
      or the error of a constructor. *)
  New_err e : fx_New a = Err e -> ambiguous a \/ missing a \/ ~ acyclic a \/ constructor_fails a;
  (** An application with an error does not start; another starts in order, and stops what
      started in the reverse order, when a hook fails or a signal comes. *)
  Run_err e outcome : fx_Run (Err e) outcome = [];
  Run_ok effects outcome : fx_Run (Ok effects) outcome = lifecycle outcome (appended effects)
}.

(** ** What any run of the constructors keeps *)

Lemma session_NoDup a calls : session a calls -> NoDup (map cl_fn calls).
Proof.
  induction 1 as [|calls f c args outs effects _ IH _ _ Hnew _ _]; [constructor|]. rewrite map_app. cbn [map].
  apply NoDup_app. split_and!; [done|set_solver|apply NoDup_singleton].
Qed.

(** The functions that give the types a function takes. *)
Definition direct (a : App) `{!EqDecision T} (f : fn) : list fn :=
  match function a f with
  | None => []
  | Some c =>
      flat_map (fun '(i, c') => if decide (Exists (fun t => t ∈ ct_in c) (ct_out c')) then [Ctor i] else []) (imap pair (constructors a))
  end.

(** In an order, what gives a type to a function comes before it. *)
Definition in_order (a : App) (order : list fn) : Prop :=
  NoDup order /\ Forall (needed a) order /\ all_invoked a order /\
  forall before f after c t, order = before ++ f :: after -> function a f = Some c -> t ∈ ct_in c ->
    exists i c', Ctor i ∈ before /\ constructors a !! i = Some c' /\ t ∈ ct_out c'.

Lemma gave_called a calls t v :
  gave a calls t v -> exists i c, Ctor i ∈ map cl_fn calls /\ constructors a !! i = Some c /\ t ∈ ct_out c.
Proof.
  intros (cl & i & c & k & Hcl & Hf & Hc & Ht & _). exists i, c. split_and!; [|done|by eapply list_elem_of_lookup_2].
  rewrite <- Hf. by apply list_elem_of_fmap_2.
Qed.

Lemma session_in_order a calls : session a calls -> Forall (needed a) (map cl_fn calls) /\
  forall before f after c t, map cl_fn calls = before ++ f :: after -> function a f = Some c -> t ∈ ct_in c ->
    exists i c', Ctor i ∈ before /\ constructors a !! i = Some c' /\ t ∈ ct_out c'.
Proof.
  induction 1 as [|calls f c args outs effects Hs [IHn IH] Hn Hf Hnew Hargs Hcall].
  - split; [constructor|]. by intros [] ? ? ? ? ?.
  - rewrite map_app. cbn [map cl_fn]. split; [apply Forall_app; auto|]. intros before g after c0 t Horder Hg Ht.
    destruct after as [|x after] using rev_ind.
    + apply app_inj_tail in Horder as [<- <-]. assert (c0 = c) as -> by congruence.
      apply list_elem_of_lookup in Ht as [k Hk]. destruct (Forall2_lookup_l _ _ _ _ _ Hargs Hk) as (v & _ & Hgave).
      by apply gave_called in Hgave.
    + rewrite app_comm_cons, app_assoc in Horder. apply app_inj_tail in Horder as [Horder _]. by eapply IH.
Qed.

Lemma New_in_order a `{!Fx, !FxDocumented a} effects :
  fx_New a = Ok effects -> NoDup (provided_types a) /\ exists order, in_order a order.
Proof.
  intros (Hnd & calls & Hs & Hinv & _)%New_ok. split; [done|]. exists (map cl_fn calls).
  destruct (session_in_order a calls Hs). by split_and!; [eapply session_NoDup|..].
Qed.

(** ** When every needed constructor does what is expected *)

Section Expected.
Context (a : App) (want : T -> V) (does : fn -> list effect).
Context (Hcall : forall f c, needed a f -> function a f = Some c -> ct_call c (map want (ct_in c)) = Ok (map want (ct_out c), does f)).

Lemma gave_wanted calls t v :
  (forall cl i c, cl ∈ calls -> cl_fn cl = Ctor i -> constructors a !! i = Some c -> cl_out cl = map want (ct_out c)) ->
  gave a calls t v -> v = want t.
Proof.
  intros H (cl & i & c & k & Hcl & Hf & Hc & Ht & Hv). rewrite (H cl i c Hcl Hf Hc), list_lookup_fmap, Ht in Hv. by injection Hv.
Qed.
Lemma args_wanted calls ts args : Forall2 (gave a calls) ts args -> (forall t v, gave a calls t v -> v = want t) -> args = map want ts.
Proof. induction 1 as [|t v ts args Hv _ IH]; intros H; [done|]. cbn [map]. by rewrite (H t v Hv), IH. Qed.

Lemma session_wanted calls :
  session a calls ->
  (forall cl, cl ∈ calls -> cl_effects cl = does (cl_fn cl)) /\ forall t v, gave a calls t v -> v = want t.
Proof.
  intros Hs. cut ((forall cl, cl ∈ calls -> cl_effects cl = does (cl_fn cl)) /\
    forall cl i c, cl ∈ calls -> cl_fn cl = Ctor i -> constructors a !! i = Some c -> cl_out cl = map want (ct_out c)).
  { intros [H1 H2]. split; [done|]. intros t v. by apply gave_wanted. }
  induction Hs as [|calls f c args outs effects Hs [IHe IHo] Hn Hf Hnew Hargs Hc]; [split; [by intros cl ?%elem_of_nil|by intros cl i c ?%elem_of_nil]|].
  assert (args = map want (ct_in c)) as -> by (eapply args_wanted; [done|]; intros t v; by apply gave_wanted).
  rewrite (Hcall f c Hn Hf) in Hc. injection Hc as <- <-.
  split; [intros cl|intros cl i c']; (intros [Hin| ->%list_elem_of_singleton]%elem_of_app; [by eauto|]); [done|].
  cbn [cl_fn cl_out]. intros -> Hi. cbn [function] in Hf. congruence.
Qed.

(** An application whose needed constructors succeed is built, in some order. *)
Lemma New_builds `{!Fx, !FxDocumented a} :
  NoDup (provided_types a) -> ~ missing a -> acyclic a ->
  exists order, in_order a order /\ fx_New a = Ok (flat_map does order).
Proof.
  intros Hnd Hmiss Hacyc. destruct (fx_New a) as [effects|e] eqn:HN.
  - destruct (New_ok effects HN) as (_ & calls & Hs & Hinv & ->). exists (map cl_fn calls). split.
    destruct (session_in_order a calls Hs) as [Hn Hdep]. by split_and!; [eapply session_NoDup|..].
    + f_equal. destruct (session_wanted calls Hs) as [He _]. clear -He. induction calls as [|cl calls IH]; [done|].
      cbn [flat_map map]. rewrite (He cl) by set_solver. f_equal. apply IH. set_solver.
  - exfalso. destruct (New_err e HN) as [Ha|[Hm|[Hc|(calls & f & c & args & e0 & Hs & Hn & Hf & Hargs & Hc)]]]; [by apply Ha|done|done|].
    rewrite (args_wanted calls (ct_in c) args Hargs), (Hcall f c Hn Hf) in Hc; [done|]. by apply session_wanted.
Qed.
End Expected.

(** ** Dependencies come first *)

Section Depends.
Context `{!EqDecision T} (a : App).

(** [n] steps from [fs] to what they depend on. *)
Fixpoint depends (n : nat) (fs : list fn) : list fn :=
  match n with O => [] | S n => let ds := flat_map (direct a) fs in ds ++ depends n ds end.

Lemma direct_spec f g :
  g ∈ direct a f ->
  exists i c c' t, g = Ctor i /\ function a f = Some c /\ constructors a !! i = Some c' /\ t ∈ ct_in c /\ t ∈ ct_out c'.
Proof.
  unfold direct. destruct (function a f) as [c|]; [|by rewrite elem_of_nil].
  intros Hg. apply list_elem_of_In, in_flat_map in Hg as ([i c'] & Hi%list_elem_of_In & Hg%list_elem_of_In).
  apply elem_of_lookup_imap in Hi as (j & x & [= -> ->] & Hj). case_decide as Hex; [|by apply elem_of_nil in Hg].
  apply list_elem_of_singleton in Hg as ->. apply Exists_exists in Hex as (t & Hout & Hin). by exists j, c, x, t.
Qed.

Context (Hnd : NoDup (provided_types a)).

(** The constructor of a type is unique. *)
Lemma provider_unique i j c c' t :
  constructors a !! i = Some c -> constructors a !! j = Some c' -> t ∈ ct_out c -> t ∈ ct_out c' -> i = j.
Proof.
  revert Hnd. unfold provided_types. generalize (constructors a) as cs. intros cs. revert i j.
  assert (Hin : forall (l : list Constructor) k x, l !! k = Some x -> t ∈ ct_out x -> t ∈ flat_map ct_out l).
  { intros l k x Hk Ht. apply list_elem_of_In, in_flat_map. exists x. split; [|by apply list_elem_of_In].
    by eapply list_elem_of_In, list_elem_of_lookup_2. }
  induction cs as [|x cs IH]; intros [|i] [|j]; cbn [flat_map lookup list_lookup]; try done;
    intros (_ & Hdis & Hrest)%NoDup_app Hi Hj Ht Ht'.
  - injection Hi as ->. by destruct (Hdis t Ht (Hin _ _ _ Hj Ht')).
  - injection Hj as ->. by destruct (Hdis t Ht' (Hin _ _ _ Hi Ht)).
  - f_equal. by eapply IH.
Qed.

Lemma direct_before order before f after g : in_order a order -> order = before ++ f :: after -> g ∈ direct a f -> g ∈ before.
Proof.
  intros (_ & _ & _ & Hdeps) Ho (i & c & c' & t & -> & Hf & Hi & Hin & Hout)%direct_spec.
  destruct (Hdeps before f after c t Ho Hf Hin) as (j & x & Hb & Hj & Ht). by rewrite (provider_unique i j c' x t).
Qed.
Lemma depends_before order n : in_order a order ->
  forall before f after g, order = before ++ f :: after -> g ∈ depends n [f] -> g ∈ before.
Proof.
  intros Ho before f after g Heq. cut (forall fs, (forall x, x ∈ fs -> x = f \/ x ∈ before) -> g ∈ depends n fs -> g ∈ before).
  { intros H. apply H. intros x ->%list_elem_of_singleton. by left. }
  induction n as [|n IH]; intros fs Hfs; cbn [depends]; [by rewrite elem_of_nil|].
  assert (Hds : forall x, x ∈ flat_map (direct a) fs -> x ∈ before).
  { intros x Hx. apply list_elem_of_In, in_flat_map in Hx as (y & Hy%list_elem_of_In & Hx%list_elem_of_In).
    destruct (Hfs y Hy) as [->|Hb]; [by eapply direct_before|].
    apply list_elem_of_split in Hb as (b1 & b2 & ->). apply elem_of_app. left. eapply direct_before; [done| |done].
    by rewrite <- app_assoc in Heq. }
  intros [Hg|Hg]%elem_of_app; [by apply Hds|]. eapply IH; [|done]. intros x Hx. right. by apply Hds.
Qed.

Lemma invoked_first order : in_order a order -> invocations a <> [] -> Inv 0 ∈ order.
Proof.
  intros (_ & _ & Hinv & _) Hne. unfold all_invoked in Hinv. destruct (invocations a) as [|c cs]; [done|]. cbn [seq length] in Hinv.
  assert (H0 : 0%nat ∈ omap invocation order) by (rewrite Hinv; by left). by apply list_elem_of_omap in H0 as ([i|i] & Hi & [= ->]).
Qed.

(** What the first invocation depends on takes only types that are provided. *)
Lemma dependency_provided order n f c t :
  in_order a order -> invocations a <> [] -> f ∈ depends n [Inv 0] -> function a f = Some c -> t ∈ ct_in c -> t ∈ provided_types a.
Proof.
  intros Ho Hne Hf Hc Ht. destruct (list_elem_of_split _ _ (invoked_first order Ho Hne)) as (before & after & Heq).
  assert (Hb : f ∈ before) by (by eapply depends_before). destruct (list_elem_of_split _ _ Hb) as (b1 & b2 & ->).
  assert (Horder := Ho). destruct Horder as (_ & _ & _ & Hdeps). rewrite <- app_assoc in Heq.
  destruct (Hdeps b1 f _ c t Heq Hc Ht) as (i & c' & _ & Hi & Hout). apply list_elem_of_In, in_flat_map. exists c'.
  split; [by eapply list_elem_of_In, list_elem_of_lookup_2|by apply list_elem_of_In].
Qed.

(** ** The order of the effects *)

Definition precedes {B} (x y : B) (l : list B) : Prop := exists before after, l = before ++ y :: after /\ x ∈ before.

Lemma precedes_filter {B} (P : B -> Prop) `{!forall x, Decision (P x)} x y l : P x -> P y -> precedes x y l -> precedes x y (filter P l).
Proof.
  intros Hx Hy (before & after & -> & Hin). exists (filter P before), (filter P after).
  rewrite filter_app, filter_cons_True by done. split; [done|]. by apply list_elem_of_filter.
Qed.

Definition is_inv (f : fn) : Prop := is_Some (invocation f).
#[local] Instance is_inv_dec f : Decision (is_inv f).
Proof. unfold is_inv. apply _. Defined.

Lemma filter_is_inv fs : filter is_inv fs = map Inv (omap invocation fs).
Proof.
  induction fs as [|[i|i] fs IH]; [done| |]; cbn [omap list_omap invocation map].
  - rewrite filter_cons_False; [done|by intros []].
  - rewrite filter_cons_True by by eexists. cbn [map]. by f_equal.
Qed.

Lemma flat_map_filter {B C} (P : B -> Prop) `{!forall x, Decision (P x)} (f : B -> list C) l :
  (forall x, x ∈ l -> ~ P x -> f x = []) -> flat_map f l = flat_map f (filter P l).
Proof.
  induction l as [|x l IH]; intros Hf; [done|]. cbn [flat_map]. rewrite IH by (intros y Hy; apply Hf; by right).
  destruct (decide (P x)); [by rewrite filter_cons_True|]. by rewrite filter_cons_False, (Hf x) by (done || by left).
Qed.

(** The first invocation comes before the others. *)
Lemma before_invocations order before after k :
  NoDup order -> order = before ++ Inv 0 :: after -> omap invocation order = seq 0 (S k) ->
  omap invocation before = [] /\ omap invocation after = seq 1 k.
Proof.
  intros Hord -> Hinv. rewrite omap_app in Hinv. cbn [omap list_omap invocation seq] in Hinv.
  destruct (omap invocation before) as [|x xs] eqn:Hb; cbn in Hinv; injection Hinv as Hinv; [by split|]. subst x. exfalso.
  assert (H0 : 0%nat ∈ omap invocation before) by (rewrite Hb; by left).
  apply list_elem_of_omap in H0 as ([i|i] & Hi & [= Hi0]). subst. apply NoDup_app in Hord as (_ & Hd & _). apply (Hd _ Hi). by left.
Qed.

Lemma no_invocation before f : omap invocation before = [] -> f ∈ before -> invocation f = None.
Proof.
  intros Hb Hf. destruct (invocation f) as [i|] eqn:Hi; [|done]. assert (Hin : i ∈ omap invocation before) by (apply list_elem_of_omap; eauto).
  rewrite Hb in Hin. by apply elem_of_nil in Hin.
Qed.

(** Constructors the first invocation depends on come before every invocation; those that
    do nothing leave no trace. *)
Lemma effects_split order (does : fn -> list effect) acting n k :
  in_order a order -> length (invocations a) = S k -> NoDup acting -> (forall g, g ∈ acting -> g ∈ depends n [Inv 0]) ->
  (forall f, needed a f -> f ∉ acting -> invocation f = None -> does f = []) -> (forall g, g ∈ acting -> invocation g = None) ->
  exists l, l ≡ₚ acting /\ (forall g h, g ∈ acting -> h ∈ acting -> h ∈ depends n [g] -> precedes h g l) /\
    flat_map does order = flat_map does l ++ flat_map does (map Inv (seq 0 (S k))).
Proof.
  intros Ho Hk Hacting Hall Hquiet Hctor. assert (Ho' := Ho). destruct Ho' as (Hord & Hneed & Hinv & _).
  unfold all_invoked in Hinv. rewrite Hk in Hinv.
  assert (H0 : Inv 0 ∈ order).
  { assert (H0 : 0%nat ∈ omap invocation order) by (rewrite Hinv; by left). by apply list_elem_of_omap in H0 as ([i|i] & Hi & [= ->]). }
  apply list_elem_of_split in H0 as (before & after & Horder).
  destruct (before_invocations order before after k Hord Horder Hinv) as [Hb Ha].
  assert (Hbefore : forall g, g ∈ acting -> g ∈ before) by (intros g Hg; eapply depends_before; eauto).
  rewrite Horder in Hord, Hneed. apply NoDup_app in Hord as (Hbn & Hdisj & [_ Han]%NoDup_cons).
  apply Forall_app in Hneed as [Hnb [_ Hna]%Forall_cons]. rewrite Forall_forall in Hnb, Hna.
  exists (filter (.∈ acting) before). split_and!.
  - apply NoDup_Permutation; [by apply NoDup_filter|done|]. intros f. rewrite list_elem_of_filter. naive_solver.
  - intros g h Hg Hh Hd. apply precedes_filter; [done..|].
    destruct (list_elem_of_split before g (Hbefore g Hg)) as (b1 & b2 & Heq). exists b1, b2. split; [done|].
    eapply (depends_before order n Ho b1 g (b2 ++ Inv 0 :: after)); [|done]. by rewrite Horder, Heq, <- app_assoc.
  - rewrite Horder, flat_map_app. f_equal.
    + apply flat_map_filter. intros f Hf Hnot. apply Hquiet; [by apply Hnb|done|]. by eapply no_invocation.
    + cbn [seq map flat_map]. f_equal. rewrite (flat_map_filter is_inv), filter_is_inv, Ha; [done|].
      intros f Hf Hnot. apply Hquiet; [by apply Hna| |by apply eq_None_not_Some].
      intros Hact. apply (Hdisj f (Hbefore f Hact)). by right.
Qed.
End Depends.

(** ** What a lifecycle runs *)

Lemma run_starts_all outcome hooks :
  (forall h x, h ∈ hooks -> OnStart h = Some x -> outcome x = Ok tt) -> run_starts outcome hooks = (omap OnStart hooks, hooks).
Proof.
  induction hooks as [|h hooks IH]; intros Hok; [done|]. cbn [run_starts omap list_omap].
  rewrite IH by (intros h' x Hin; apply Hok; by right).
  destruct (OnStart h) as [x|] eqn:Hx; [|done]. by rewrite (Hok h x) by (done || by left).
Qed.
Lemma lifecycle_all outcome hooks :
  (forall h x, h ∈ hooks -> OnStart h = Some x -> outcome x = Ok tt) ->
  lifecycle outcome hooks = omap OnStart hooks ++ omap OnStop (rev hooks).
Proof. intros Hok. unfold lifecycle. by rewrite run_starts_all. Qed.

(** A hook runs when those before it started, and only what started is stopped. *)
Lemma run_starts_after outcome early late x :
  x ∈ fst (run_starts outcome (early ++ late)) -> x ∉ omap OnStart early ->
  forall h y, h ∈ early -> OnStart h = Some y -> outcome y = Ok tt.
Proof.
  induction early as [|h early IH]; cbn [app run_starts omap list_omap]; [by intros _ _ h y ?%elem_of_nil|].
  intros Hx Hnot h' y Hh' Hy.
  destruct (OnStart h) as [z|] eqn:Hz.
  - destruct (outcome z) as [[]|e] eqn:Hout; [|by apply list_elem_of_singleton in Hx as ->; destruct Hnot; left].
    destruct (run_starts outcome (early ++ late)) as [ran started]. cbn [fst] in Hx, IH. rewrite elem_of_cons in Hx, Hnot.
    apply elem_of_cons in Hh' as [->|Hh']; [congruence|]. eapply IH; [..|exact Hh'|done]; naive_solver.
  - destruct (run_starts outcome (early ++ late)) as [ran started]. cbn [fst] in Hx, IH.
    apply elem_of_cons in Hh' as [->|Hh']; [congruence|]. by eapply IH.
Qed.
Lemma run_starts_started outcome hooks h : h ∈ snd (run_starts outcome hooks) -> h ∈ hooks.
Proof.
  revert h. induction hooks as [|h hooks IH]; intros h'; cbn [run_starts]; [done|].
  destruct (OnStart h) as [z|]; [destruct (outcome z)|]; [|by intros ?%elem_of_nil|];
    (destruct (run_starts outcome hooks); cbn [snd] in *; rewrite !elem_of_cons; intros [?|?]; auto).
Qed.
Lemma lifecycle_after outcome early late x :
  x ∈ lifecycle outcome (early ++ late) -> x ∉ omap OnStart early -> x ∉ omap OnStop (early ++ late) ->
  forall h y, h ∈ early -> OnStart h = Some y -> outcome y = Ok tt.
Proof.
  unfold lifecycle. pose proof (run_starts_after outcome early late x) as Hafter.
  pose proof (run_starts_started outcome (early ++ late)) as Hst.
  destruct (run_starts outcome (early ++ late)) as [ran started]. cbn [fst snd] in *. intros [Hx|Hx]%elem_of_app Hnot Hstop; [by apply Hafter|].
  destruct Hstop. apply list_elem_of_omap in Hx as (h & Hh & Hx). apply list_elem_of_omap. exists h. split; [|done].
  apply Hst. by rewrite list_elem_of_In, <- in_rev, <- list_elem_of_In in Hh.
Qed.

(** ** Checking an application *)

Definition lacking (a : App) `{!EqDecision T} : list T :=
  filter (fun t => t ∉ provided_types a) (flat_map ct_in (constructors a ++ invocations a)).
Lemma function_elem a f c : function a f = Some c -> c ∈ constructors a ++ invocations a.
Proof. destruct f; cbn [function]; intros H%list_elem_of_lookup_2; apply elem_of_app; auto. Qed.
Lemma lacking_nothing a `{!EqDecision T} : lacking a = [] -> ~ missing a.
Proof.
  intros Hl (f & c & t & _ & Hf & Hin & Hout). assert (Ht : t ∈ lacking a); [|rewrite Hl in Ht; by apply elem_of_nil in Ht].
  apply list_elem_of_filter. split; [done|]. apply list_elem_of_In, in_flat_map. exists c.
  split; [by eapply list_elem_of_In, function_elem|by apply list_elem_of_In].
Qed.

(** A type that no function takes is not built. *)
Lemma unused a i c :
  constructors a !! i = Some c -> (forall t, t ∈ ct_out c -> t ∉ flat_map ct_in (constructors a ++ invocations a)) -> ~ needed a (Ctor i).
Proof.
  intros Hi Hunused Hn. inversion Hn as [|f c1 i' c2 t Hf Hc1 Hin Hc2 Hout]; subst. assert (c2 = c) as -> by congruence.
  apply (Hunused t Hout), list_elem_of_In, in_flat_map. exists c1. split; [by eapply list_elem_of_In, function_elem|by apply list_elem_of_In].
Qed.

Definition ranked (a : App) (rank : T -> nat) : bool :=
  forallb (fun c => forallb (fun t => forallb (fun u => Nat.ltb (rank t) (rank u)) (ct_out c)) (ct_in c)) (constructors a).
Lemma ranked_acyclic a rank : ranked a rank = true -> acyclic a.
Proof.
  intros Hr. exists rank. intros c t u Hc Ht Hu. unfold ranked in Hr. rewrite forallb_forall in Hr.
  specialize (Hr c). rewrite forallb_forall in Hr. specialize (Hr (proj1 (list_elem_of_In _ _) Hc) t). rewrite forallb_forall in Hr.
  apply Nat.ltb_lt, Hr; by apply list_elem_of_In.
Qed.

(** ** A container

    One that builds what an application needs in the order of its dependencies, which it
    follows [n] deep. It shows that what fx documents can hold. *)
Section Container.
Context `{!EqDecision T} (n : nat).

Fixpoint value_of (a : App) (calls : list call) (t : T) : option V :=
  match calls with
  | [] => None
  | cl :: calls =>
      let found :=
        match cl_fn cl with
        | Ctor i => c ← constructors a !! i; '(k, _) ← list_find (t =.) (ct_out c); cl_out cl !! k
        | Inv _ => None
        end in
      match found with Some v => Some v | None => value_of a calls t end
  end.
Fixpoint run_order (a : App) (fs : list fn) (calls : list call) : result (list call) :=
  match fs with
  | [] => Ok calls
  | f :: fs =>
      match function a f with
      | None => Err (EMsg "no such function")
      | Some c =>
          if decide (f ∈ map cl_fn calls) then Err (EMsg "called twice")
          else
            match mapM (value_of a calls) (ct_in c) with
            | None => Err (EMsg "missing type")
            | Some args =>
                match ct_call c args with
                | Err e => Err e
                | Ok (outs, effects) => run_order a fs (calls ++ [{| cl_fn := f; cl_out := outs; cl_effects := effects |}])
                end
            end
      end
  end.
Definition build_order (a : App) : list fn :=
  rev (remove_dups (rev (flat_map (fun k => rev (depends a n [Inv k]) ++ [Inv k]) (seq 0 (length (invocations a)))))).
#[local] Instance all_invoked_dec a fs : Decision (all_invoked a fs).
Proof. unfold all_invoked. apply _. Defined.
Definition ordered_New (a : App) : result (list effect) :=
  if decide (NoDup (provided_types a) /\ all_invoked a (build_order a)) then
    let? calls := run_order a (build_order a) [] in Ok (flat_map cl_effects calls)
  else Err (EMsg "already provided").
Definition ordered_Run (r : result (list effect)) (outcome : A -> result unit) : list A :=
  match r with Err _ => [] | Ok effects => lifecycle outcome (appended effects) end.
Definition ordered_fx : Fx := {| fx_New := ordered_New; fx_Run := ordered_Run |}.

Lemma value_of_gave a calls t v : value_of a calls t = Some v -> gave a calls t v.
Proof.
  induction calls as [|cl calls IH]; cbn [value_of]; [done|]. cbv zeta.
  destruct (match cl_fn cl with Ctor i => _ | Inv _ => _ end) as [v'|] eqn:Hf.
  - intros [= ->]. destruct (cl_fn cl) as [i|] eqn:Hi; [|done].
    apply bind_Some in Hf as (c & Hc & ([k t'] & Hk & Hv)%bind_Some). apply list_find_Some in Hk as (Ht & -> & _).
    exists cl, i, c, k. split_and!; [by left|done..].
  - intros (cl' & i & c & k & Hin & Hrest)%IH. exists cl', i, c, k. split; [by right|done].
Qed.
Lemma run_order_session a fs calls calls' :
  session a calls -> Forall (needed a) fs -> run_order a fs calls = Ok calls' -> session a calls' /\ map cl_fn calls' = map cl_fn calls ++ fs.
Proof.
  revert calls. induction fs as [|f fs IH]; intros calls Hs Hn; cbn [run_order]; [intros [= ->]; by rewrite app_nil_r|].
  apply Forall_cons in Hn as [Hf Hn]. destruct (function a f) as [c|] eqn:Hc; [|done]. case_decide as Hnew; [done|].
  destruct (mapM _ _) as [args|] eqn:Hargs; [|done]. destruct (ct_call c args) as [[outs effects]|e] eqn:Hcall; [|done].
  intros [Hs' Hfns]%IH; [|econstructor; try done|done].
  - split; [done|]. by rewrite Hfns, map_app, <- app_assoc.
  - apply mapM_Some in Hargs. eapply Forall2_impl; [done|]. intros t v. apply value_of_gave.
Qed.
Lemma depends_needed a f m : needed a f -> forall g, g ∈ depends a m [f] -> needed a g.
Proof.
  intros Hf. cut (forall fs, Forall (needed a) fs -> forall g, g ∈ depends a m fs -> needed a g); [intros Hall; apply Hall; by constructor|].
  induction m as [|m IH]; intros fs Hfs g; cbn [depends]; [by rewrite elem_of_nil|].
  assert (Hds : forall x, x ∈ flat_map (direct a) fs -> needed a x).
  { intros x Hx. apply list_elem_of_In, in_flat_map in Hx as (y & Hy%list_elem_of_In & Hx%list_elem_of_In).
    rewrite Forall_forall in Hfs. apply direct_spec in Hx as (i & c & c' & t & -> & Hy' & Hi & Hin & Hout).
    by eapply provider_needed; [apply Hfs|..]. }
  intros [Hg|Hg]%elem_of_app; [by apply Hds|]. eapply IH; [|done]. by apply Forall_forall.
Qed.
Lemma build_order_needed a : Forall (needed a) (build_order a).
Proof.
  apply Forall_forall. intros f Hf. unfold build_order in Hf.
  rewrite list_elem_of_In, <- in_rev, <- list_elem_of_In, elem_of_remove_dups, list_elem_of_In, <- in_rev, in_flat_map in Hf.
  destruct Hf as (k & Hk%list_elem_of_In%elem_of_seq & Hf%list_elem_of_In).
  assert (Hinv : needed a (Inv k)) by (destruct (lookup_lt_is_Some_2 (invocations a) k) as [c Hc]; [lia|by econstructor]).
  apply elem_of_app in Hf as [Hf| ->%list_elem_of_singleton]; [|done]. eapply depends_needed; [done|].
  by rewrite list_elem_of_In, <- in_rev, <- list_elem_of_In in Hf.
Qed.

Lemma ordered_documented a :
  (forall e, ordered_New a = Err e -> ambiguous a \/ missing a \/ ~ acyclic a \/ constructor_fails a) -> @FxDocumented ordered_fx a.
Proof.
  intros Herr. split; cbn [fx_New fx_Run ordered_fx]; [|done|done|done]. intros effects. unfold ordered_New.
  case_decide as Hd; [|done]. destruct Hd as [Hnd Hinv]. destruct (run_order a (build_order a) []) as [calls|e] eqn:Hrun; [|done].
  intros [= <-]. split; [done|]. exists calls. apply run_order_session in Hrun as [Hs Hfns]; [|constructor|apply build_order_needed].
  split_and!; [done|by rewrite Hfns|done].
Qed.
End Container.
End Fx.
