(* ===== verification/Startup.v ===== *)
(** * How the server and the worker are put together

    The constructors of cmd/server, cmd/worker and the packages they use, the modules they
    are grouped in, and the two applications the mains hand to fx (Fx.v). A constructor is
    the Go function, then its entry for the container with the types it takes and gives;
    [fx.Lifecycle] is left out of those, the hooks it is given being the effects. *)
From S2P Require Import Prelude GoStd Config Regex Accounts Assets Policy Sha256 Json Storage Db Prog.
From S2P Require Import Logic Postgres BatchManager Redis Chart Planner Cores Operations IntentJson Approval.
From S2P Require Import Proto Auth RateLimit Grpc Queries Transfer Sdk Rpc Gateway Routes Migrations Fx.
From S2P Require Worker.

(** ** The libraries that are started *)

(** goredis.ParseURL; the cache of jwx that fetches a key set and refreshes it. *)
Class Goredis := { RedisOptions : Type; ParseURL : string -> result RedisOptions }.
Class JwkCache := { Cache_Register : string -> Z -> result unit; Cache_Refresh : string -> result unit }.
Class Zap := { ZapLogger : Type; NewDevelopment : result ZapLogger; NewProduction : result ZapLogger }.

Inductive otlp_option := WithEndpoint (endpoint : string) | WithDialInsecure | WithInsecure.
Class Otel := {
  Resource : Type; Exporter : Type;
  resource_New : list (string * string) -> result Resource;
  otlptracegrpc_New : list otlp_option -> result Exporter
}.

(** ** The types of the container *)

Inductive gotype :=
| TFlagSet | TConfig | TPostgresConfig | TRedisConfig | TGRPCConfig | THTTPConfig | TOTelConfig | TWorkerConfig
| TAuthConfig | TRateLimitConfig | TLogger | TTracerShutdown | TDB | TPgStore | TStore | TRedis | TPlanner | TManager
| TLedgerService | TSubscriptions | TAuthenticator | TLimiter | TGrpcServer | THttpServer | TCheckpointBuilder.
#[export] Instance gotype_eq_dec : EqDecision gotype.
Proof. solve_decision. Defined.

Definition jwksMinRefreshInterval : Z := 15 * Minute.
Definition maxRecvMsgBytes : Z := Z.shiftl 4 20.
Definition maxConcurrentStreams : Z := 256.
Definition grpcConnectionTimeout : Z := 30 * Second.

Section Startup.
Context `{Viper, Pgxpool, Goredis, JwkCache, Zap, Otel, Deps, Jwt, Runtime}.

(** A pool is the faults of its round trips. *)
Definition Pool : Type := nat -> option fault.

Record Manager := { m_store : Pool; m_maxEvents : Z; m_maxAge : Z }.
Record Planner := { p_store : Pool; p_batch : Manager; p_redis : RedisOptions; p_evaluator : Policy.Evaluator; p_subs : option RedisOptions }.
Record LedgerService := {
  ls_store : Pool; ls_planner : Planner; ls_batch : Manager; ls_subs : RedisOptions; ls_adminPrincipals : gset string
}.

(** An interceptor is given the method, the context and the handler behind it; those of
    streams and of single calls do the same. *)
Definition interceptor : Type := forall A, string -> Context -> (Context -> prog (reply A)) -> prog (reply A).
Record grpcServer := {
  gs_MaxRecvMsgSize : Z; gs_MaxConcurrentStreams : Z; gs_ConnectionTimeout : Z;
  gs_unary : list interceptor; gs_stream : list interceptor;
  gs_health : list (string * string);   (* the status of each service, the empty name for the server *)
  gs_reflection : bool
}.

Inductive value :=
| VFlagSet (fs : FlagSet)
| VConfig (c : Config)
| VPostgresConfig (DSN : string)
| VRedisConfig (URL : string)
| VGRPCConfig (Port : Z)
| VHTTPConfig (Port : Z)
| VOTelConfig (Endpoint : string) (Insecure : bool)
| VWorkerConfig (c : WorkerConfig)
| VAuthConfig (c : AuthConfig)
| VRateLimitConfig (c : RateLimitConfig)
| VLogger (l : ZapLogger)
| VTracerShutdown (e : option Exporter)
| VDB (p : Pool)
| VPgStore (p : Pool)
| VStore (p : Pool)
| VRedis (o : RedisOptions)
| VPlanner (p : Planner)
| VManager (m : Manager)
| VLedgerService (s : LedgerService)
| VSubscriptions (o : RedisOptions)
| VAuthenticator (a : Authenticator)
| VLimiter (l : option Limiter)
| VGrpcServer (s : grpcServer)
| VHttpServer (s : httpServer)
| VCheckpointBuilder (p : Pool).

(** What the hooks, and the functions that fx invokes, do to the world. *)
Inductive action :=
| PingPool (p : Pool) | ClosePool (p : Pool)
| PingRedis (o : RedisOptions) | CloseRedis (o : RedisOptions)
| CancelRefresh (url : string)                      (* of the key set *)
| CancelBatches (m : Manager)                       (* shutdownCancel of the batch manager *)
| SetTracerProvider (e : Exporter) (r : Resource) | ShutdownTracer (e : Exporter)
| RegisterLedgerServiceServer (srv : grpcServer) (svc : LedgerService)
| ServeGRPC (port : Z) (srv : grpcServer) | GracefulStop (srv : grpcServer)
| ListenAndServe (srv : httpServer) | Shutdown (srv : httpServer)
(* a goroutine for each job: Worker.startWorker *)
| StartJobs (p : Planner) (m : Manager) (cb : Pool) (cfg : WorkerConfig) (jobs : list Worker.job) | StopJobs.

Local Abbreviation constructor := (@Constructor gotype value action).
Local Abbreviation built A := (result (A * list (@effect action))).
Definition on_start_stop (start stop : action) : @effect action := Append {| OnStart := Some start; OnStop := Some stop |}.
Definition on_stop (stop : action) : @effect action := Append {| OnStart := None; OnStop := Some stop |}.

Definition give (v : value) : built (list value) := Ok ([v], []).
Definition giving {A} (tag : A -> value) (r : built A) : built (list value) := 
  match r with Ok (a, effects) => Ok ([tag a], effects) | Err e => Err e end.
(** fx calls a function with values of its types. *)
Definition ill_typed {A} : result A := Err (EMsg "reflect: call with wrong types").

(** ** internal/config *)

Section Config.
(** The files and the environment of the process. *)
Context (open : string -> file) (env : environ).

Definition config_New (fs : FlagSet) : result Config := fst (Config.New fs open env).
Definition config_field (name : string) (t : gotype) (field : Config -> value) : constructor :=
  {| ct_name := name; ct_in := [TConfig]; ct_out := [t];
     ct_call := fun args => match args with [VConfig c] => give (field c) | _ => ill_typed end |}.
Definition config_Module : @fxOption gotype value action :=
  FxModule "config" [Provide [
    {| ct_name := "config.New"; ct_in := [TFlagSet]; ct_out := [TConfig];
       ct_call := fun args => match args with [VFlagSet fs] => let? c := config_New fs in give (VConfig c) | _ => ill_typed end |};
    config_field "PostgresConfig" TPostgresConfig (fun c => VPostgresConfig (Postgres_DSN c));
    config_field "RedisConfig" TRedisConfig (fun c => VRedisConfig (Redis_URL c));
    config_field "GRPCConfig" TGRPCConfig (fun c => VGRPCConfig (GRPC_Port c));
    config_field "HTTPConfig" THTTPConfig (fun c => VHTTPConfig (HTTP_Port c));
    config_field "OTelConfig" TOTelConfig (fun c => VOTelConfig (OTel_Endpoint c) (OTel_Insecure c));
    config_field "WorkerConfig" TWorkerConfig (fun c => VWorkerConfig (cfg_Worker c));
    config_field "AuthConfig" TAuthConfig (fun c => VAuthConfig (cfg_Auth c));
    config_field "RateLimitConfig" TRateLimitConfig (fun c => VRateLimitConfig (cfg_RateLimit c))]].
End Config.

(** ** internal/observability *)

Definition NewLogger (cfg : Config) : result ZapLogger :=
  rmap_err (EWrap "creating logger") (if String.eqb (cfg_Environment cfg) "development" then NewDevelopment else NewProduction).

(** What the shutdown function it returns flushes: nothing without an endpoint. *)
Definition NewTracer (Endpoint : string) (Insecure : bool) : built (option Exporter) :=
  if String.eqb Endpoint EmptyString then Ok (None, [])
  else
    let? res := rmap_err (EWrap "creating otel resource") (resource_New [("service.name", "ledger")]) in
    let opts := [WithEndpoint Endpoint] ++ (if Insecure then [WithDialInsecure; WithInsecure] else []) in
    let? exporter := rmap_err (EWrap "creating otel exporter") (otlptracegrpc_New opts) in
    Ok (Some exporter, [Does (SetTracerProvider exporter res); on_stop (ShutdownTracer exporter)]).

Definition observability_Module : @fxOption gotype value action :=
  FxModule "observability" [Provide [
    {| ct_name := "observability.NewLogger"; ct_in := [TConfig]; ct_out := [TLogger];
       ct_call := fun args => match args with [VConfig c] => let? l := NewLogger c in give (VLogger l) | _ => ill_typed end |};
    {| ct_name := "observability.NewTracer"; ct_in := [TOTelConfig; TLogger]; ct_out := [TTracerShutdown];
       ct_call := fun args =>
         match args with [VOTelConfig ep ins; VLogger _] => giving VTracerShutdown (NewTracer ep ins) | _ => ill_typed end |}]].

(** ** The stores *)

(** internal/storage/postgres: [New], [NewStore] and its interface. *)
Definition postgres_New (DSN : string) : built Pool :=
  let? poolCfg := rmap_err (EWrap "parsing postgres dsn") (ParseConfig DSN) in
  let? pool := rmap_err (EWrap "connecting to postgres") (NewWithConfig poolCfg) in
  Ok (pool, [on_start_stop (PingPool pool) (ClosePool pool)]).
Definition NewStore (db : Pool) : Pool := db.

Definition provide_New : constructor :=
  {| ct_name := "postgres.New"; ct_in := [TPostgresConfig; TLogger]; ct_out := [TDB];
     ct_call := fun args => match args with [VPostgresConfig dsn; VLogger _] => giving VDB (postgres_New dsn) | _ => ill_typed end |}.
Definition provide_NewStore : constructor :=
  {| ct_name := "postgres.NewStore"; ct_in := [TDB]; ct_out := [TPgStore];
     ct_call := fun args => match args with [VDB db] => give (VPgStore (NewStore db)) | _ => ill_typed end |}.
Definition provide_Store : constructor :=
  {| ct_name := "func(*postgres.Store) storage.Store"; ct_in := [TPgStore]; ct_out := [TStore];
     ct_call := fun args => match args with [VPgStore s] => give (VStore s) | _ => ill_typed end |}.
Definition postgres_Module : @fxOption gotype value action :=
  FxModule "postgres" [Provide [provide_New]; Provide [provide_NewStore]; Provide [provide_Store]].

(** internal/storage/redis: [New]. *)
Definition redis_New (URL : string) : built RedisOptions :=
  let? opts := rmap_err (EWrap "parsing redis url") (ParseURL URL) in
  Ok (opts, [on_start_stop (PingRedis opts) (CloseRedis opts)]).
Definition redis_Module : @fxOption gotype value action :=
  FxModule "redis" [Provide [
    {| ct_name := "redis.New"; ct_in := [TRedisConfig; TLogger]; ct_out := [TRedis];
       ct_call := fun args => match args with [VRedisConfig url; VLogger _] => giving VRedis (redis_New url) | _ => ill_typed end |}]].

(** ** internal/planner, internal/log/batch *)

(** [subs] is a pointer. *)
Definition planner_New (store : Pool) (bm : Manager) (rc : RedisOptions) (subs : option RedisOptions) : Planner :=
  {| p_store := store; p_batch := bm; p_redis := rc; p_evaluator := Policy.SimpleEvaluator;
     p_subs := match subs with Some s => Some s | None => None end |}.
Definition batch_NewManager (store : Pool) : built Manager :=
  let m := {| m_store := store; m_maxEvents := DefaultMaxEvents; m_maxAge := DefaultMaxAge |} in
  Ok (m, [on_stop (CancelBatches m)]).
Definition planner_Module : @fxOption gotype value action :=
  FxModule "planner" [Provide [
    {| ct_name := "planner.New"; ct_in := [TStore; TManager; TRedis; TSubscriptions; TLogger]; ct_out := [TPlanner];
       ct_call := fun args =>
         match args with
         | [VStore s; VManager bm; VRedis rc; VSubscriptions subs; VLogger _] => give (VPlanner (planner_New s bm rc (Some subs)))
         | _ => ill_typed
         end |};
    {| ct_name := "batch.NewManager"; ct_in := [TStore; TLogger]; ct_out := [TManager];
       ct_call := fun args => match args with [VStore s; VLogger _] => giving VManager (batch_NewManager s) | _ => ill_typed end |}]].

(** ** internal/api/grpc, internal/subscriptions *)

Definition NewLedgerService (store : Pool) (p : Planner) (bm : Manager) (sm : RedisOptions) (authCfg : AuthConfig) : LedgerService :=
  let admins := foldl (fun admins a => {[a]} ∪ admins) ∅ (auth_AdminPrincipals authCfg) in
  {| ls_store := store; ls_planner := p; ls_batch := bm; ls_subs := sm; ls_adminPrincipals := admins |}.
Definition subscriptions_NewManager (rc : RedisOptions) : RedisOptions := rc.
Definition grpcapi_Module : @fxOption gotype value action :=
  FxModule "api" [Provide [
    {| ct_name := "grpc.NewLedgerService"; ct_in := [TStore; TPlanner; TManager; TSubscriptions; TAuthConfig; TLogger]; ct_out := [TLedgerService];
       ct_call := fun args =>
         match args with
         | [VStore s; VPlanner p; VManager bm; VSubscriptions sm; VAuthConfig a; VLogger _] =>
             give (VLedgerService (NewLedgerService s p bm sm a))
         | _ => ill_typed
         end |};
    {| ct_name := "subscriptions.NewManager"; ct_in := [TRedis; TLogger]; ct_out := [TSubscriptions];
       ct_call := fun args => match args with [VRedis rc; VLogger _] => give (VSubscriptions (subscriptions_NewManager rc)) | _ => ill_typed end |}]].

(** ** cmd/server *)

(** internal/api/grpc/auth: the key set is fetched before the server starts. *)
Definition NewJWTAuthenticator (jwksURL audience issuer : string) : result Authenticator :=
  if String.eqb jwksURL EmptyString then Err (EMsg "auth: jwks url is required")
  else
    let? _ := rmap_err (EWrap "auth: registering jwks url") (Cache_Register jwksURL jwksMinRefreshInterval) in
    let? _ := rmap_err (EWrap "auth: fetching jwks") (Cache_Refresh jwksURL) in
    Ok (WithIdentity (AuthenticateIdentity {| ja_audience := audience; ja_issuer := issuer |})).

Definition newAuthenticator (cfg : Config) : built Authenticator :=
  let a := cfg_Auth cfg in
  let? authn := rmap_err (EWrap "initializing authenticator") (NewJWTAuthenticator (auth_JWKSURL a) (auth_Audience a) (auth_Issuer a)) in
  Ok (authn, [on_stop (CancelRefresh (auth_JWKSURL a))]).

(** It logs the method and the duration; what it returns is the handler's. *)
Definition loggingUnaryInterceptor : interceptor := fun A fullMethod ctx handler => handler ctx.
Definition loggingStreamInterceptor : interceptor := fun A fullMethod ctx handler => handler ctx.

Definition newGRPCServer (cfg : Config) (authn : Authenticator) (rl : option Limiter) : grpcServer :=
  let auth : interceptor := fun A => authenticated (Some authn) in
  let limit : list interceptor := match rl with Some rl => [fun A => rate_limited (Some rl)] | None => [] end in
  {| gs_MaxRecvMsgSize := maxRecvMsgBytes; gs_MaxConcurrentStreams := maxConcurrentStreams;
     gs_ConnectionTimeout := grpcConnectionTimeout;
     gs_unary := [auth] ++ limit ++ [loggingUnaryInterceptor];
     gs_stream := [auth] ++ limit ++ [loggingStreamInterceptor];
     gs_health := [(EmptyString, "SERVING")];
     gs_reflection := String.eqb (cfg_Environment cfg) "development" |}.

(** grpc.ChainUnaryInterceptor: the first is the outermost. *)
Fixpoint chained {A} (interceptors : list interceptor) (fullMethod : string) (ctx : Context) (handler : Context -> prog (reply A))
  : prog (reply A) :=
  match interceptors with
  | [] => handler ctx
  | i :: rest => i A fullMethod ctx (fun ctx => chained rest fullMethod ctx handler)
  end.

(** A call of the service registered on the server. *)
Definition serve (tz : Z -> Z) (srv : grpcServer) (svc : LedgerService) (r : rpc) (ctx : Context) : prog (reply answer) :=
  chained (gs_unary srv) (full_method r) ctx (fun ctx => handle tz (ls_adminPrincipals svc) r ctx).

Definition registerLedgerService (srv : grpcServer) (svc : LedgerService) : list (@effect action) :=
  [Does (RegisterLedgerServiceServer srv svc)].
Definition startGRPC (srv : grpcServer) (Port : Z) : list (@effect action) := [on_start_stop (ServeGRPC Port srv) (GracefulStop srv)].
Definition startHTTP (srv : httpServer) : list (@effect action) := [on_start_stop (ListenAndServe srv) (Shutdown srv)].

Section Mains.
(** How the gateway dials, how the probe pings, and what the process is given. *)
Context (dial : string -> result ClientConn) (pool_Ping : Pool -> M unit) (redis_Ping : RedisOptions -> M unit).
Context (open : string -> file) (env : environ).

Definition provide_newAuthenticator : constructor :=
  {| ct_name := "main.newAuthenticator"; ct_in := [TConfig; TLogger]; ct_out := [TAuthenticator];
     ct_call := fun args => match args with [VConfig c; VLogger _] => giving VAuthenticator (newAuthenticator c) | _ => ill_typed end |}.
Definition provide_newRateLimiter : constructor :=
  {| ct_name := "main.newRateLimiter"; ct_in := [TRateLimitConfig; TRedis; TLogger]; ct_out := [TLimiter];
     ct_call := fun args =>
       match args with [VRateLimitConfig r; VRedis _; VLogger _] => give (VLimiter (newRateLimiter r)) | _ => ill_typed end |}.
Definition provide_newGRPCServer : constructor :=
  {| ct_name := "main.newGRPCServer"; ct_in := [TConfig; TAuthenticator; TLimiter; TLogger]; ct_out := [TGrpcServer];
     ct_call := fun args =>
       match args with [VConfig c; VAuthenticator a; VLimiter l; VLogger _] => give (VGrpcServer (newGRPCServer c a l)) | _ => ill_typed end |}.
Definition provide_newHTTPServer : constructor :=
  {| ct_name := "main.newHTTPServer"; ct_in := [THTTPConfig; TGRPCConfig; TDB; TRedis; TLogger]; ct_out := [THttpServer];
     ct_call := fun args =>
       match args with
       | [VHTTPConfig port; VGRPCConfig grpcPort; VDB db; VRedis rc; VLogger _] =>
           let? srv := newHTTPServer dial (pool_Ping db) (redis_Ping rc) port grpcPort in give (VHttpServer srv)
       | _ => ill_typed
       end |}.

Definition server_app (fs : FlagSet) : App :=
  [Supply TFlagSet (VFlagSet fs); config_Module open env; observability_Module; postgres_Module; redis_Module; planner_Module;
   grpcapi_Module;
   Provide [provide_newAuthenticator]; Provide [provide_newRateLimiter]; Provide [provide_newGRPCServer]; Provide [provide_newHTTPServer];
   Invoke {| ct_name := "main.registerLedgerService"; ct_in := [TGrpcServer; TLedgerService]; ct_out := [];
             ct_call := fun args => match args with [VGrpcServer srv; VLedgerService svc] => Ok ([], registerLedgerService srv svc) | _ => ill_typed end |};
   Invoke {| ct_name := "main.startGRPC"; ct_in := [TGrpcServer; TGRPCConfig; TLogger]; ct_out := [];
             ct_call := fun args => match args with [VGrpcServer srv; VGRPCConfig port; VLogger _] => Ok ([], startGRPC srv port) | _ => ill_typed end |};
   Invoke {| ct_name := "main.startHTTP"; ct_in := [THttpServer; TLogger]; ct_out := [];
             ct_call := fun args => match args with [VHttpServer srv; VLogger _] => Ok ([], startHTTP srv) | _ => ill_typed end |}].

(** ** cmd/worker *)

Definition NewCheckpointBuilder (pool : Pool) : Pool := pool.
Definition startWorker (p : Planner) (bm : Manager) (cb : Pool) (cfg : WorkerConfig) : list (@effect action) :=
  let jobs := [Worker.BatchClose; Worker.CheckpointBuild; Worker.HoldExpiry; Worker.ApprovalExpiry] in
  [on_start_stop (StartJobs p bm cb cfg jobs) StopJobs].

Definition worker_app (fs : FlagSet) : App :=
  [Supply TFlagSet (VFlagSet fs); config_Module open env; observability_Module; postgres_Module; redis_Module;
   Provide [provide_NewStore]; Provide [provide_Store];
   planner_Module;
   Provide [{| ct_name := "func(*postgres.DB, *zap.Logger) *volumes.CheckpointBuilder"; ct_in := [TDB; TLogger]; ct_out := [TCheckpointBuilder];
               ct_call := fun args => match args with [VDB db; VLogger _] => give (VCheckpointBuilder (NewCheckpointBuilder db)) | _ => ill_typed end |}];
   Invoke {| ct_name := "main.startWorker"; ct_in := [TPlanner; TManager; TCheckpointBuilder; TWorkerConfig; TLogger]; ct_out := [];
             ct_call := fun args =>
               match args with
               | [VPlanner p; VManager bm; VCheckpointBuilder cb; VWorkerConfig w; VLogger _] => Ok ([], startWorker p bm cb w)
               | _ => ill_typed
               end |}].

(** These hooks start a goroutine and return nil. *)
Definition returned (outcome : action -> result unit) (x : action) : result unit :=
  match x with ListenAndServe _ | StartJobs _ _ _ _ _ => Ok tt | _ => outcome x end.

(** [main]: the flags are parsed, then fx runs; the actions of the hooks that ran. *)
Context `{!Fx (T := gotype) (V := value) (A := action)} (Parse : list (string * setting) -> result FlagSet).
Definition server_main (outcome : action -> result unit) : list action :=
  match Parse RegisterFlags with Err _ => [] | Ok fs => fx_Run (fx_New (server_app fs)) (returned outcome) end.
Definition worker_main (outcome : action -> result unit) : list action :=
  match Parse RegisterFlags with Err _ => [] | Ok fs => fx_Run (fx_New (worker_app fs)) (returned outcome) end.
End Mains.
End Startup.
