(* ===== verification/Wired.v ===== *)
(** * What the mains start

    The server starts whenever its parts do: it waits for PostgreSQL and Redis, serves what
    Rpc.v calls the configured server, and stops in an order in which nothing outlives
    what it uses. The worker never starts. *)
From S2P Require Import Prelude GoStd Config Regex Accounts Assets Policy Sha256 Json Storage Db Prog.
From S2P Require Import Logic Postgres BatchManager Redis Chart Planner Cores Operations IntentJson Approval.
From S2P Require Import Proto Auth RateLimit Grpc Queries Transfer Sdk Rpc Gateway Routes Samples Rest Migrations Fx Startup.

Definition rank (t : gotype) : nat :=
  match t with
  | TFlagSet => 0 | TConfig => 1 | TLogger => 2
  | TPostgresConfig | TRedisConfig | TGRPCConfig | THTTPConfig | TOTelConfig | TWorkerConfig | TAuthConfig | TRateLimitConfig => 2
  | TDB | TRedis | TAuthenticator | TTracerShutdown => 3
  | TPgStore | TSubscriptions | TLimiter | TCheckpointBuilder => 4
  | TStore | TGrpcServer | THttpServer => 5
  | TManager => 6 | TPlanner => 7 | TLedgerService => 8
  end.

(** One goal for each function of a list. *)
Ltac each_function i :=
  destruct i as [|i]; [cbn; injection 1 as <-; cbn|first [discriminate 1|each_function i]].

Section Wired.
Context `{Viper, Pgxpool, Goredis, JwkCache, Zap, Otel, Deps, Jwt, Runtime}.
Context (dial : string -> result ClientConn) (pool_Ping : Pool -> M unit) (redis_Ping : RedisOptions -> M unit).
Context (open : string -> file) (env : environ).
Local Abbreviation server := (server_app dial pool_Ping redis_Ping open env).
Local Abbreviation worker := (worker_app open env).

(** ** The server *)

Section Server.
Context (fs : FlagSet) (cfg : Config) (pool : Pool) (opts : RedisOptions) (zl : ZapLogger) (hs : httpServer).

(** Every part of the server can be built. *)
Record buildable : Prop := {
  bd_config : fst (Config.New fs open env) = Ok cfg;
  bd_pool : exists c, ParseConfig (Postgres_DSN cfg) = Ok c /\ NewWithConfig c = Ok pool;
  bd_redis : ParseURL (Redis_URL cfg) = Ok opts;
  bd_keys : Cache_Register (auth_JWKSURL (cfg_Auth cfg)) jwksMinRefreshInterval = Ok tt /\ Cache_Refresh (auth_JWKSURL (cfg_Auth cfg)) = Ok tt;
  bd_logger : NewLogger cfg = Ok zl;
  bd_http : newHTTPServer dial (pool_Ping pool) (redis_Ping opts) (HTTP_Port cfg) (GRPC_Port cfg) = Ok hs
}.

Definition wired_auth : Authenticator :=
  WithIdentity (AuthenticateIdentity {| ja_audience := auth_Audience (cfg_Auth cfg); ja_issuer := auth_Issuer (cfg_Auth cfg) |}).
Definition wired_grpc : grpcServer := newGRPCServer cfg wired_auth (newRateLimiter (cfg_RateLimit cfg)).
Definition wired_manager : Manager := {| m_store := pool; m_maxEvents := DefaultMaxEvents; m_maxAge := DefaultMaxAge |}.
Definition wired_planner : Planner := planner_New pool wired_manager opts (Some opts).
Definition wired_service : LedgerService := NewLedgerService pool wired_planner wired_manager opts (cfg_Auth cfg).

Definition want (t : gotype) : value :=
  match t with
  | TFlagSet => VFlagSet fs | TConfig => VConfig cfg
  | TPostgresConfig => VPostgresConfig (Postgres_DSN cfg) | TRedisConfig => VRedisConfig (Redis_URL cfg)
  | TGRPCConfig => VGRPCConfig (GRPC_Port cfg) | THTTPConfig => VHTTPConfig (HTTP_Port cfg)
  | TOTelConfig => VOTelConfig (OTel_Endpoint cfg) (OTel_Insecure cfg) | TWorkerConfig => VWorkerConfig (cfg_Worker cfg)
  | TAuthConfig => VAuthConfig (cfg_Auth cfg) | TRateLimitConfig => VRateLimitConfig (cfg_RateLimit cfg)
  | TLogger => VLogger zl | TTracerShutdown => VTracerShutdown None
  | TDB => VDB pool | TPgStore => VPgStore pool | TStore => VStore pool | TRedis => VRedis opts
  | TPlanner => VPlanner wired_planner | TManager => VManager wired_manager | TLedgerService => VLedgerService wired_service
  | TSubscriptions => VSubscriptions opts | TAuthenticator => VAuthenticator wired_auth
  | TLimiter => VLimiter (newRateLimiter (cfg_RateLimit cfg)) | TGrpcServer => VGrpcServer wired_grpc
  | THttpServer => VHttpServer hs | TCheckpointBuilder => VCheckpointBuilder pool
  end.

(** The constructors with hooks: PostgreSQL, Redis, the batch manager, the authenticator. *)
Definition acting : list fn := [Ctor 12; Ctor 15; Ctor 17; Ctor 20].
Definition does (f : fn) : list effect :=
  match f with
  | Ctor 12 => [on_start_stop (PingPool pool) (ClosePool pool)]
  | Ctor 15 => [on_start_stop (PingRedis opts) (CloseRedis opts)]
  | Ctor 17 => [on_stop (CancelBatches wired_manager)]
  | Ctor 20 => [on_stop (CancelRefresh (auth_JWKSURL (cfg_Auth cfg)))]
  | Inv 0 => registerLedgerService wired_grpc wired_service
  | Inv 1 => startGRPC wired_grpc (GRPC_Port cfg)
  | Inv 2 => startHTTP hs
  | _ => []
  end.

Lemma server_once : NoDup (provided_types (server fs)).
Proof. decided. Qed.
Lemma server_complete : ~ missing (server fs).
Proof. refine (lacking_nothing _ _). vm_compute. reflexivity. Qed.
Lemma server_acyclic : acyclic (server fs).
Proof. apply (ranked_acyclic _ rank). vm_compute. reflexivity. Qed.
Lemma no_tracer : ~ needed (server fs) (Ctor 11).
Proof.
  eapply unused; [reflexivity|]. intros t. cbn [ct_out]. intros ->%list_elem_of_singleton.
  decided.
Qed.

Lemma server_calls f c :
  buildable -> needed (server fs) f -> function (server fs) f = Some c -> ct_call c (map want (ct_in c)) = Ok (map want (ct_out c), does f).
Proof.
  intros [Hc (pc & Hp1 & Hp2) Hr [Hk1 Hk2] Hl Hh] Hn. assert (Hne : f <> Ctor 11) by (intros ->; by apply no_tracer).
  destruct f as [i|i].
  - cbn [function]. each_function i; try done.
    + unfold config_New. by rewrite Hc.
    + by rewrite Hl.
    + unfold postgres_New. rewrite Hp1. cbn. by rewrite Hp2.
    + unfold redis_New. by rewrite Hr.
    + destruct (New_valid _ _ _ _ Hc) as [_ _ _ _ [_ Hurl%String.eqb_neq]].
      unfold newAuthenticator, NewJWTAuthenticator. rewrite Hurl, Hk1. cbn. by rewrite Hk2.
    + by rewrite Hh.
  - cbn [function]. by each_function i.
Qed.

(** What fx makes of the server: the hooks of what the service uses in some order, then
    its own. *)
Lemma server_built `{!Fx (T := gotype) (V := value) (A := action), !FxDocumented (server fs)} :
  buildable ->
  exists l, l ≡ₚ acting /\ precedes (Ctor 12) (Ctor 17) l /\
    fx_New (server fs) = Ok (flat_map does l ++ registerLedgerService wired_grpc wired_service ++
                             startGRPC wired_grpc (GRPC_Port cfg) ++ startHTTP hs).
Proof.
  intros Hb. destruct (New_builds (server fs) want does (fun f c => server_calls f c Hb) server_once server_complete server_acyclic)
    as (order & Ho & ->).
  destruct (effects_split (server fs) server_once order does acting 12 2 Ho eq_refl) as (l & Hl & Hp & ->).
  - decided.
  - intros g Hg. assert (Hall : Forall (.∈ depends (server fs) 12 [Inv 0]) acting) by (decided).
    rewrite Forall_forall in Hall. by apply Hall.
  - intros f Hn Hf Hi. destruct f as [i|i]; [|done]. cbn [does]. unfold acting in Hf.
    do 21 (destruct i as [|i]; [try done; exfalso; apply Hf; set_solver|]). done.
  - intros g Hg. by repeat (apply elem_of_cons in Hg as [->|Hg]; [done|]); apply elem_of_nil in Hg.
  - exists l. split_and!; [done| |done]. apply Hp; [decided..|]. decided.
Qed.

(** ** What the server does *)

Definition hooks (l : list fn) : list hook := appended (flat_map does l).
Lemma hooks_app l1 l2 : hooks (l1 ++ l2) = hooks l1 ++ hooks l2.
Proof. unfold hooks, appended. by rewrite flat_map_app, omap_app. Qed.
#[local] Instance hooks_proper : Proper ((≡ₚ) ==> (≡ₚ)) hooks.
Proof. intros l1 l2 Hl. unfold hooks, appended. by apply omap_Permutation, Permutation_flat_map. Qed.

Definition stops (l : list fn) : list action := omap OnStop (rev (hooks l)).
Lemma stops_app l1 l2 : stops (l1 ++ l2) = stops l2 ++ stops l1.
Proof. unfold stops. by rewrite hooks_app, rev_app_distr, omap_app. Qed.

Lemma starts_acting l : l ≡ₚ acting -> omap OnStart (hooks l) ≡ₚ [PingPool pool; PingRedis opts].
Proof. by intros ->. Qed.
Lemma stops_acting l :
  l ≡ₚ acting -> precedes (Ctor 12) (Ctor 17) l ->
  stops l ≡ₚ [ClosePool pool; CloseRedis opts; CancelBatches wired_manager; CancelRefresh (auth_JWKSURL (cfg_Auth cfg))] /\
  precedes (CancelBatches wired_manager) (ClosePool pool) (stops l).
Proof.
  intros Hl (before & after & -> & (b1 & b2 & ->)%list_elem_of_split). split.
  - unfold stops. by rewrite <- Permutation_rev, Hl.
  - rewrite stops_app. change (Ctor 17 :: after) with ([Ctor 17] ++ after). change (Ctor 12 :: b2) with ([Ctor 12] ++ b2).
    rewrite !stops_app. exists (stops after ++ stops [Ctor 17] ++ stops b2), (stops b1). split; [by rewrite <- !app_assoc|].
    rewrite !elem_of_app. right. left. by left.
Qed.
Lemma acting_at_once l : l ≡ₚ acting -> done_at_once (flat_map does l) = [].
Proof.
  intros Hl. apply Permutation_nil. unfold done_at_once. symmetry. by rewrite Hl.
Qed.

(** A call of the wired server is a call of the configured one. *)
Lemma serve_wired tz r ctx : serve tz wired_grpc wired_service r ctx = serve_configured tz cfg r ctx.
Proof.
  unfold serve, serve_configured, serve_rpc. cbn [ls_adminPrincipals wired_service NewLedgerService].
  assert (foldl (fun admins a => {[a]} ∪ admins) ∅ (auth_AdminPrincipals (cfg_Auth cfg)) =@{gset string} list_to_set (auth_AdminPrincipals (cfg_Auth cfg))) as ->.
  { rewrite <- (right_id_L ∅ (∪) (list_to_set _)). generalize (∅ : gset string) as acc.
    induction (auth_AdminPrincipals (cfg_Auth cfg)) as [|a l IH]; intros acc; cbn [foldl]; [set_solver|].
    rewrite IH, list_to_set_cons. set_solver. }
  unfold wired_grpc, newGRPCServer. cbn [gs_unary]. by destruct (newRateLimiter (cfg_RateLimit cfg)).
Qed.

(** The mains, when the flags parse. *)
Context `{!Fx (T := gotype) (V := value) (A := action), !FxDocumented (server fs)} (Parse : list (string * setting) -> result FlagSet).
Context (Hparse : Parse RegisterFlags = Ok fs).
Local Abbreviation main := (server_main dial pool_Ping redis_Ping open env Parse).

Definition last_hooks : list hook :=
  appended (startGRPC wired_grpc (GRPC_Port cfg) ++ startHTTP hs).
Lemma main_runs :
  buildable ->
  exists l effects, l ≡ₚ acting /\ precedes (Ctor 12) (Ctor 17) l /\ fx_New (server fs) = Ok effects /\
    done_at_once effects = [RegisterLedgerServiceServer wired_grpc wired_service] /\
    forall outcome, main outcome = lifecycle (returned outcome) (hooks l ++ last_hooks).
Proof.
  intros (l & Hl & Hp & HN)%server_built. do 2 eexists. split_and!; [exact Hl|exact Hp|exact HN| |].
  - unfold done_at_once. rewrite omap_app. fold (done_at_once (flat_map does l)). by rewrite (acting_at_once l Hl).
  - intros outcome. unfold server_main. rewrite Hparse, HN, Run_ok. f_equal. unfold appended. by rewrite omap_app.
Qed.

(** C13: The server starts when its configuration, its pool, its Redis client and its key set
    can be built. It pings both stores, listens, and on a signal stops the gateway before
    the gRPC server and those before what they use; batches are cancelled before the pool
    is closed. What it serves is the server of Rpc.v as configured, and no tracer is set,
    whatever the configuration says. *)
Theorem server_starts tz :
  buildable ->
  (exists effects, fx_New (server fs) = Ok effects /\ done_at_once effects = [RegisterLedgerServiceServer wired_grpc wired_service]) /\
  (forall r ctx, serve tz wired_grpc wired_service r ctx = serve_configured tz cfg r ctx) /\
  (forall outcome, (forall x, outcome x = Ok tt) ->
   exists probes closes,
     main outcome = probes ++ [ServeGRPC (GRPC_Port cfg) wired_grpc; ListenAndServe hs; Shutdown hs; GracefulStop wired_grpc] ++ closes /\
     probes ≡ₚ [PingPool pool; PingRedis opts] /\
     closes ≡ₚ [ClosePool pool; CloseRedis opts; CancelBatches wired_manager; CancelRefresh (auth_JWKSURL (cfg_Auth cfg))] /\
     precedes (CancelBatches wired_manager) (ClosePool pool) closes).
Proof.
  intros (l & effects & Hl & Hp & HN & Hdone & Hrun)%main_runs. split_and!; [by exists effects|intros; apply serve_wired|].
  intros outcome Hok. exists (omap OnStart (hooks l)), (stops l). destruct (stops_acting l Hl Hp) as [Hs1 Hs2].
  split_and!; [|by apply starts_acting|done|done]. rewrite Hrun, lifecycle_all by (by intros h [] _ _; cbn).
  by rewrite rev_app_distr, !omap_app, <- app_assoc.
Qed.

Definition listens (x : action) : bool := match x with ServeGRPC _ _ | ListenAndServe _ => true | _ => false end.
Lemma quiet_acting l :
  l ≡ₚ acting -> precedes (Ctor 12) (Ctor 17) l ->
  forall x, x ∈ omap OnStart (hooks l) \/ x ∈ omap OnStop (hooks l ++ last_hooks) -> listens x = false.
Proof.
  intros Hl Hp x. destruct (stops_acting l Hl Hp) as [Hstops _]. unfold stops in Hstops. rewrite <- Permutation_rev in Hstops.
  rewrite omap_app, Hstops, (starts_acting l Hl).
  cut (Forall (fun x => listens x = false) ([PingPool pool; PingRedis opts] ++ [ClosePool pool; CloseRedis opts; CancelBatches wired_manager;
    CancelRefresh (auth_JWKSURL (cfg_Auth cfg))] ++ omap OnStop last_hooks)).
  { rewrite Forall_forall. intros Hall Hx. apply Hall. set_solver. }
  repeat constructor.
Qed.

(** C14: The server listens for no request before PostgreSQL and Redis answered, and for no
    HTTP request before it listens on the gRPC port; a failure of one of these ends it. *)
Theorem server_ready outcome :
  buildable ->
  (forall port srv, ServeGRPC port srv ∈ main outcome -> outcome (PingPool pool) = Ok tt /\ outcome (PingRedis opts) = Ok tt) /\
  (forall srv, ListenAndServe srv ∈ main outcome ->
     outcome (PingPool pool) = Ok tt /\ outcome (PingRedis opts) = Ok tt /\ outcome (ServeGRPC (GRPC_Port cfg) wired_grpc) = Ok tt).
Proof.
  intros (l & effects & Hl & Hp & HN & Hdone & Hrun)%main_runs. rewrite Hrun.
  assert (Hstarts := starts_acting l Hl).
  assert (Hpings : (forall h y, h ∈ hooks l -> OnStart h = Some y -> returned outcome y = Ok tt) ->
                   outcome (PingPool pool) = Ok tt /\ outcome (PingRedis opts) = Ok tt).
  { intros Hall. assert (Hping : forall y, y ∈ [PingPool pool; PingRedis opts] -> returned outcome y = Ok tt).
    { intros y Hy. rewrite <- Hstarts in Hy. apply list_elem_of_omap in Hy as (h & Hh & Hy). by eapply Hall. }
    split; [apply (Hping (PingPool pool))|apply (Hping (PingRedis opts))]; set_solver. }
  assert (Hnot := quiet_acting l Hl Hp). split.
  - intros port srv Hin. apply Hpings. eapply lifecycle_after; [exact Hin|intros Hx..]; [discriminate (Hnot _ (or_introl Hx))|discriminate (Hnot _ (or_intror Hx))].
  - intros srv Hin. change last_hooks with (appended (startGRPC wired_grpc (GRPC_Port cfg)) ++ appended (startHTTP hs)) in Hin, Hnot.
    rewrite app_assoc in Hin, Hnot.
    assert (Hall : forall h y, h ∈ hooks l ++ appended (startGRPC wired_grpc (GRPC_Port cfg)) -> OnStart h = Some y -> returned outcome y = Ok tt).
    { eapply lifecycle_after; [exact Hin|rewrite omap_app; intros [Hx| ?%list_elem_of_singleton]%elem_of_app; [|done]|intros Hx];
        [discriminate (Hnot _ (or_introl Hx))|discriminate (Hnot _ (or_intror Hx))]. }
    destruct Hpings as [Hp1 Hp2]; [intros h y Hh; apply Hall; set_solver|]. split_and!; [done|done|].
    refine (Hall {| OnStart := Some (ServeGRPC (GRPC_Port cfg) wired_grpc); OnStop := Some (GracefulStop wired_grpc) |} _ _ eq_refl).
    apply elem_of_app. right. by left.
Qed.
End Server.

(** ** The worker *)

Section Worker.
Context `{!Fx (T := gotype) (V := value) (A := action)}.

(** The worker without the two lines that provide the store a second time. *)
Definition worker_once (fs : FlagSet) : App := take 5 (worker fs) ++ drop 7 (worker fs).

Lemma worker_ambiguous fs : ~ NoDup (provided_types (worker fs)).
Proof. decided. Qed.

(** The planner that the jobs need takes a subscription manager, which only the module of
    the server provides. *)
Lemma worker_incomplete fs :
  NoDup (provided_types (worker_once fs)) -> forall order, ~ in_order (worker_once fs) order.
Proof.
  intros Hnd order Ho. assert (Hd : Ctor 16 ∈ depends (worker_once fs) 12 [Inv 0]) by (decided).
  assert (Hin : TSubscriptions ∈ provided_types (worker_once fs)).
  { eapply (dependency_provided _ Hnd order 12 (Ctor 16)); [done|done|done|reflexivity|]. decided. }
  revert Hin. decided.
Qed.

(** C15: The worker, cmd/worker, never starts a job. It provides the store twice, which fx
    refuses; and without the repetition it lacks the subscription manager that
    [planner.New] takes. *)
Theorem worker_never_starts Parse :
  (forall fs, FxDocumented (worker fs)) -> (forall fs, FxDocumented (worker_once fs)) ->
  (forall outcome, worker_main open env Parse outcome = []) /\
  (forall fs outcome, fx_Run (fx_New (worker_once fs)) outcome = []).
Proof.
  intros Hdoc Honce. split.
  - intros outcome. unfold worker_main. destruct (Parse RegisterFlags) as [fs|e]; [|done]. specialize (Hdoc fs).
    destruct (fx_New (worker fs)) as [effects|e] eqn:HN; [|apply (Run_err (a := worker fs))]. apply New_ok in HN as [Hnd _]. by destruct (worker_ambiguous fs).
  - intros fs outcome. specialize (Honce fs). destruct (fx_New (worker_once fs)) as [effects|e] eqn:HN; [|apply (Run_err (a := worker_once fs))].
    apply (New_in_order (worker_once fs)) in HN as (Hnd & order & Ho). by destruct (worker_incomplete fs Hnd order).
Qed.
End Worker.
End Wired.

(** ** A server *)

(** A value that was set, or the default. *)
#[local] Instance sample_viper : Viper := {|
  GetString v key := default EmptyString (match ly_flags v !! key with
    | Some s => Some s | None => match list_find (fun d => fst d = key) (ly_defaults v) with Some (_, (_, SetStr s)) => Some s | _ => None end end);
  GetInt v key := match list_find (fun d => fst d = key) (ly_defaults v) with Some (_, (_, SetInt z)) => z | _ => 0 end;
  GetBool v key := match list_find (fun d => fst d = key) (ly_defaults v) with Some (_, (_, SetBool b)) => b | _ => false end;
  GetDuration v key := match list_find (fun d => fst d = key) (ly_defaults v) with Some (_, (_, SetDur d)) => d | _ => 0 end
|}.
#[local] Instance sample_pgx : Pgxpool := {|
  PoolConfig := string; ParseConfig := Ok; NewWithConfig := fun _ => Ok (fun _ => None)
|}.
#[local] Instance sample_redis : Goredis := {| RedisOptions := string; ParseURL := Ok |}.
#[local] Instance sample_jwks : JwkCache := {|
  Cache_Register := fun _ _ => Ok tt;
  Cache_Refresh := fun url => if String.eqb url "https://id.example/jwks.json" then Ok tt else Err (EMsg "not found")
|}.
#[local] Instance sample_zap : Zap := {| ZapLogger := string; NewDevelopment := Ok "development"; NewProduction := Ok "production" |}.
#[local] Instance sample_otel : Otel := {|
  Resource := list (string * string); Exporter := list otlp_option; resource_New := Ok; otlptracegrpc_New := Ok
|}.
#[local] Instance sample_fx : Fx (T := gotype) (V := value) (A := action) := ordered_fx 12.

Definition sample_flags : FlagSet := Some {[
  "env-file" := ""; "postgres-dsn" := "postgres://ledger@db/ledger?sslmode=require"; "redis-url" := "redis://cache:6379/0";
  "auth-jwks-url" := "https://id.example/jwks.json"; "auth-audience" := "ledger"; "otel-endpoint" := "collector:4317" ]}.
Definition no_files : string -> file := fun _ => NoFile.
Definition parsed : list (string * setting) -> result FlagSet := fun _ => Ok sample_flags.
Definition sample_ping {A} : A -> M unit := fun _ => Ret (Ok tt).
Definition from_flags : Config := match fst (Config.New sample_flags no_files ∅) with Ok c => c | Err _ => sample_config end.
Local Abbreviation sample_server := (server_app (fun _ => Ok no_server) sample_ping sample_ping no_files ∅ sample_flags).
Local Abbreviation sample_main := (server_main (fun _ => Ok no_server) sample_ping sample_ping no_files ∅ parsed).
Definition sample_pool : Pool := fun _ => None.
Definition sample_http : httpServer :=
  match newHTTPServer (fun _ => Ok no_server) (sample_ping sample_pool) (sample_ping EmptyString) (HTTP_Port from_flags) (GRPC_Port from_flags) with
  | Ok hs => hs
  | Err _ => {| hs_Addr := EmptyString; hs_Handler := fun _ => Ret (Page 500 ""); hs_ReadHeaderTimeout := 0; hs_IdleTimeout := 0 |}
  end.

Lemma sample_buildable :
  buildable (fun _ => Ok no_server) sample_ping sample_ping no_files ∅ sample_flags from_flags sample_pool "redis://cache:6379/0" "development" sample_http.
Proof.
  split.
  - vm_compute. reflexivity.
  - eexists. split; [reflexivity|reflexivity].
  - vm_compute. reflexivity.
  - split; vm_compute; reflexivity.
  - vm_compute. reflexivity.
  - reflexivity.
Qed.

#[local] Instance sample_documented : FxDocumented sample_server.
Proof.
  apply ordered_documented. intros e He. assert (Hok : is_ok (ordered_New 12 sample_server) = true) by (vm_compute; reflexivity).
  by rewrite He in Hok.
Qed.

(** The server of these flags starts and stops, and its collector is not used. *)
Lemma server_starts_witness :
  OTel_Endpoint from_flags = "collector:4317" /\
  (let srv := wired_grpc from_flags in
   (exists effects, fx_New sample_server = Ok effects /\
      done_at_once effects = [RegisterLedgerServiceServer srv (wired_service from_flags sample_pool "redis://cache:6379/0")]) /\
   (forall r ctx, serve utc srv (wired_service from_flags sample_pool "redis://cache:6379/0") r ctx = serve_configured utc from_flags r ctx) /\
   (forall outcome, (forall x, outcome x = Ok tt) ->
    exists probes closes,
      sample_main outcome = probes ++ [ServeGRPC 9090 srv; ListenAndServe sample_http; Shutdown sample_http; GracefulStop srv] ++ closes /\
      probes ≡ₚ [PingPool sample_pool; PingRedis "redis://cache:6379/0"] /\
      closes ≡ₚ [ClosePool sample_pool; CloseRedis "redis://cache:6379/0"; CancelBatches (wired_manager sample_pool);
                 CancelRefresh "https://id.example/jwks.json"] /\
      precedes (CancelBatches (wired_manager sample_pool)) (ClosePool sample_pool) closes)).
Proof.
  split; [vm_compute; reflexivity|].
  exact (server_starts (fun _ => Ok no_server) sample_ping sample_ping no_files ∅ sample_flags from_flags sample_pool "redis://cache:6379/0"
    "development" sample_http parsed eq_refl utc sample_buildable).
Defined.

(** Redis does not answer: the ports stay closed. *)
Definition no_redis (x : action) : result unit := match x with PingRedis _ => Err (EMsg "connection refused") | _ => Ok tt end.
Lemma server_ready_witness :
  (exists effects, sample_main no_redis = effects /\ (1 <= length effects)%nat) /\
  (forall port srv, ServeGRPC port srv ∈ sample_main no_redis ->
     no_redis (PingPool sample_pool) = Ok tt /\ no_redis (PingRedis "redis://cache:6379/0") = Ok tt) /\
  (forall srv, ListenAndServe srv ∈ sample_main no_redis ->
     no_redis (PingPool sample_pool) = Ok tt /\ no_redis (PingRedis "redis://cache:6379/0") = Ok tt /\
     no_redis (ServeGRPC (GRPC_Port from_flags) (wired_grpc from_flags)) = Ok tt).
Proof.
  split; [eexists; split; [reflexivity|apply Nat.leb_le; vm_compute; reflexivity]|].
  exact (server_ready (fun _ => Ok no_server) sample_ping sample_ping no_files ∅ sample_flags from_flags sample_pool "redis://cache:6379/0"
    "development" sample_http parsed eq_refl no_redis sample_buildable).
Defined.

Lemma worker_documented fs : FxDocumented (worker_app no_files ∅ fs).
Proof. apply ordered_documented. intros e _. left. apply worker_ambiguous. Qed.
Lemma worker_once_documented fs : FxDocumented (worker_once no_files ∅ fs).
Proof.
  apply ordered_documented. intros e _. right. left. assert (Hinv : needed (worker_once no_files ∅ fs) (Inv 0)) by (by econstructor).
  eexists (Ctor 16), _, TSubscriptions. split_and!; [|reflexivity|cbn [ct_in]; set_solver|decided].
  apply (depends_needed _ _ 12 Hinv). decided.
Qed.
Lemma worker_never_starts_witness :
  is_ok (ParseConfig (Postgres_DSN from_flags)) = true /\
  (forall outcome, worker_main no_files ∅ parsed outcome = []) /\
  (forall fs outcome, fx_Run (fx_New (worker_once no_files ∅ fs)) outcome = []).
Proof.
  split; [vm_compute; reflexivity|]. exact (worker_never_starts no_files ∅ parsed worker_documented worker_once_documented).
Defined.
