(* ===== verification/Operability.v ===== *)
(** * The service in operation

    What holds of every log the service writes, what a healthy service accomplishes, and
    what its limiter and its roll-ups promise; each with a run. *)
From S2P Require Import Prelude GoStd Config Regex Accounts Assets Policy Sha256 Json Storage Db Prog.
From S2P Require Import Logic Postgres BatchManager Redis Chart Planner Cores Operations IntentJson Approval Bodies StoreRules.
From S2P Require Import Proto Auth RateLimit Grpc Queries Transfer Rpc.
From S2P Require Import Effects Ledger Solvency Requests Intents Progress Batches Expiry Checkpoint Moves Service Samples.

Section Operability.
Context `{Deps, Jwt} (tz : Z -> Z) (E : Env).


(** C19: a run of the checkpoint builder, alone, whatever statements fail, leaves the totals
    of every bucket as they were: what its checkpoints count and the deltas they do not cover
    sum up to the same. (A delta committed later with times a checkpoint covers is in no
    total.) When it succeeds, and there are at most 1000 buckets, no bucket
    has more than 100 deltas left that no checkpoint covers. *)
Theorem checkpoints_keep_totals (w : World) :
  w_tx w = TxNone ->
  wp E BuildCheckpoints w (fun r w' => w_tx w' = TxNone /\ rolled (w_db w) (w_db w') /\
    (r = Ok tt -> (length (Checkpoint.buckets_of (w_db w)) <= 1000)%nat ->
     forall b, (length (in_bucket b (open_rows (w_db w'))) <= 100)%nat)).
Proof. apply BuildCheckpoints_spec. Qed.

(** C21: types of the log. After any sequence of requests (imports with their events from
    outside included), every event of the log has a payload, one of the 13 event codes,
    times of the resolution of the database, and a schema version of 64 bits. *)
Theorem log_well_typed rs (w : World) :
  reachable (w_db w) -> w_tx w = TxNone ->
  wp E (serve_all tz rs) w (fun _ w' => Forall well_typed (log_events (w_db w'))).
Proof.
  intros Hr Ht. eapply wp_mono; [by apply (serve_all_moves tz E false)|]. intros x w' [_ Hs].
  apply i_typed, reachable_inv. unfold reachable in *. by etransitivity.
Qed.
(** C12: progress of posts. When no statement fails, the ULIDs are new and the batch that the
    manager has open for the ledger is in the database, a post without a key and without
    metadata succeeds if its postings are valid, touch no bucket twice, carry a reference the
    ledger has not seen, every source that is not an issuer has its net output available,
    and the ledger is there, not sealed, and enforces no schema. Its delta rows are then in
    the committed database, under the id of its event. *)
Theorem funded_post_succeeds l ledger ps ref vt (w : World) :
  w_tx w = TxNone -> healthy_run E w -> manager_ok l (w_mgr w) (w_db w) ->
  find_ledger l (w_db w) = Some ledger -> lr_State ledger <> ledgerStateSealed -> schemaless ledger ->
  validatePostings ps = Ok tt -> NoDup (Effects.buckets_of ps) -> unused_reference l ref (w_db w) ->
  (forall x, x ∈ map_to_list (net_outputs ps) -> covered ledger (net_inputs ps) (w_db w) x) ->
  wp E (SubmitPost l ps ref None "" vt false) w (fun r w' => exists a now, r = Ok a /\ sr_IdempotentHit a = false /\
    w_tx w' = TxNone /\
    volumes_delta (w_db w') = volumes_delta (w_db w) ++ posting_rows l (sr_EventID a) (default now vt) now ps).
Proof.
  intros Ht [Hh Hfr] Hok Hl Hopen Hsch Hv Hnd Href Hcov. pose proof (find_ledger_id _ _ _ Hl) as Hid.
  unfold SubmitPost. rewrite Hv. apply wp_mbind, wp_ret. cbn [String.eqb negb].
  apply wp_mbind. unfold checkLedgerNotSealed, GetLedger. apply wp_mbind, wp_wrap, go_on_err. unfold query_row. apply wp_mbind.
  unfold exec. apply wp_trigger. cbn [Prog.step]. unfold sql_pool, sql_select_ledger. rewrite Hh, Hl. cbn [rmap_err]. apply wp_ret. cbn [rmap_err].
  destruct (String.eqb_spec (lr_State ledger) ledgerStateSealed) as [|_]; [done|]. apply wp_ret.
  apply wp_bind, wp_trigger. cbn [Prog.step]. set (now := e_now E _). unfold submitWithIdempotency. cbn [String.eqb negb].
  apply wp_mbind, wp_ret, wp_bind. unfold withDeadlockRetry, maxDeadlockRetries. cbn [retry]. apply wp_bind.
  set (w1 := tick _). assert (Hw1 : w_tx w1 = TxNone /\ w_db w1 = w_db w /\ w_mgr w1 = w_mgr w) by (unfold w1; simpl; rewrite Ht; done).
  clearbody w1. destruct Hw1 as (Ht1 & Hd1 & Hm1).
  eapply wp_mono; [apply (go_attempt E Hh l EventTypeTransactionPosted _ w1 (fun a ds => sr_IdempotentHit a = false /\
    ds = volumes_delta (w_db w) ++ posting_rows l (sr_EventID a) (default now vt) now ps)); [|exact Ht1]|].
  - rewrite Hd1, Hm1. intros t0 w2 Hw2. eapply (go_post E Hh t0 (w_db w) (w_mgr w)); try done; try (by rewrite Hid).
    intros r d' D' m' w3 Hw3 Hds Hhit. rewrite Hid in Hds. by exists r, D', m', d'.
  - intros r w3 (a & -> & Ht3 & Hhit & Hds). apply wp_ret, wp_ret. by exists a, now.
Qed.
End Operability.

(** ** Runs *)




(** A bucket with 101 deltas of 2. *)
Definition small_delta (n : nat) : VolumeDeltaRecord :=
  {| vd_LedgerID := "main"; vd_Account := "alice"; vd_Asset := "USD/2"; vd_Shard := 0; vd_EventID := dec_of_Z (Z.of_nat n);
     vd_ValidTime := Z.of_nat n * 1000; vd_SystemTime := Z.of_nat n * 1000; vd_InputDelta := 2; vd_OutputDelta := 0 |}.
Definition busy_world : World := with_db (set_volumes_delta (map small_delta (seq 0 101)) empty_db) empty_world.
Definition checkpointed : DB := w_db (snd (run sample_env BuildCheckpoints busy_world)).

Lemma checkpoints_keep_totals_witness :
  w_tx busy_world = TxNone /\ length (open_rows (w_db busy_world)) = 101%nat /\
  map (fun c => (cp_TotalInput c, cp_ValidTimeUpper c)) (volumes_checkpoint checkpointed) = [(202, 100000)] /\
  open_rows checkpointed = [] /\
  wp sample_env BuildCheckpoints busy_world (fun r w' => w_tx w' = TxNone /\ rolled (w_db busy_world) (w_db w') /\
    (r = Ok tt -> (length (Checkpoint.buckets_of (w_db busy_world)) <= 1000)%nat ->
     forall b, (length (in_bucket b (open_rows (w_db w'))) <= 100)%nat)).
Proof.
  split; [reflexivity|]. do 3 (split; [vm_compute; reflexivity|]).
  apply (checkpoints_keep_totals sample_env busy_world). reflexivity.
Defined.

Lemma log_well_typed_witness :
  reachable (w_db empty_world) /\ w_tx empty_world = TxNone /\
  wp sample_env (serve_all utc sample_requests) empty_world (fun _ w' => Forall well_typed (log_events (w_db w'))) /\
  map ev_Type (log_events (w_db sample_world)) = [1; 1; 2; 3; 7].
Proof.
  assert (Hr : reachable (w_db empty_world)) by apply rtc_refl.
  split; [exact Hr|]. split; [reflexivity|].
  split; [apply (log_well_typed utc sample_env sample_requests empty_world Hr); reflexivity|].
  vm_compute. reflexivity.
Defined.

(** The sample service after a restart of the process that draws the ULIDs. *)
Definition later_env : Env := {|
  e_now := fun n => (1800000000 + Z.of_nat n) * Second;
  e_ulid := fun n => "later" +:+ dec_of_Z (Z.of_nat n);
  e_rand := e_rand sample_env; e_fault := e_fault sample_env;
  e_evicted := e_evicted sample_env; e_done := e_done sample_env; e_order := e_order sample_env |}.

Definition all_ids (d : DB) : list string :=
  map ev_EventID (log_events d) ++ map vd_EventID (volumes_delta d) ++ map tx_TransactionID (transactions d) ++
  map ba_BatchID (log_batches d).

Lemma fresh_ids d n : forallb (fun s => has_prefix s "u") (all_ids d) = true -> fresh_id (e_ulid later_env n) d.
Proof.
  intros Hp. rewrite forallb_forall in Hp.
  assert (Hn : forall x, In x (all_ids d) -> x <> e_ulid later_env n) by (intros x Hx ->; by specialize (Hp _ Hx)).
  split; intros x Hx; apply Hn; unfold all_ids; rewrite !in_app_iff.
  - left. by apply in_map, list_elem_of_In.
  - right; left. by apply in_map, list_elem_of_In.
  - right; right; left. by apply in_map, list_elem_of_In.
  - right; right; right. by apply in_map, list_elem_of_In.
Qed.


Definition main_ledger : LedgerRecord :=
  {| lr_ID := "main"; lr_BucketID := "_default"; lr_State := "in-use"; lr_Features := ∅; lr_Metadata := None;
     lr_CreatedAt := 1700000001 * Second; lr_SealedAt := None; lr_IssuerAccounts := ["_world"] |}.

Lemma funded_post_succeeds_witness :
  w_tx sample_world = TxNone /\ healthy_run later_env sample_world /\
  manager_ok "main" (w_mgr sample_world) (w_db sample_world) /\
  find_ledger "main" (w_db sample_world) = Some main_ledger /\
  NoDup (Effects.buckets_of [pay "alice" "bob" 50]) /\
  (forall x, x ∈ map_to_list (net_outputs [pay "alice" "bob" 50]) ->
     covered main_ledger (net_inputs [pay "alice" "bob" 50]) (w_db sample_world) x) /\
  wp later_env (SubmitPost "main" [pay "alice" "bob" 50] "rent" None "" None false) sample_world (fun r w' =>
    exists a now, r = Ok a /\ sr_IdempotentHit a = false /\ w_tx w' = TxNone /\
      volumes_delta (w_db w') =
        volumes_delta (w_db sample_world) ++ posting_rows "main" (sr_EventID a) (default now None) now [pay "alice" "bob" 50]).
Proof.
  assert (Ht : w_tx sample_world = TxNone) by (vm_compute; reflexivity).
  assert (Hh : healthy_run later_env sample_world).
  { split; [intros n; reflexivity|]. intros n. apply fresh_ids. vm_compute. reflexivity. }
  assert (Hm : manager_ok "main" (w_mgr sample_world) (w_db sample_world)).
  { intros st Hst. assert (Hb : match openBatch (w_mgr sample_world) !! "main" with
      | Some s => existsb (fun x => String.eqb (ba_BatchID x) (ob_batchID s)) (log_batches (w_db sample_world)) | None => true end = true)
      by (vm_compute; reflexivity).
    rewrite Hst in Hb. apply existsb_exists in Hb as (x & Hx & Hb%String.eqb_eq). exists x. by split; [apply list_elem_of_In|]. }
  assert (Hl : find_ledger "main" (w_db sample_world) = Some main_ledger) by (vm_compute; reflexivity).
  assert (Hn : NoDup (Effects.buckets_of [pay "alice" "bob" 50])) by (apply (proj1 (bool_decide_spec _)); vm_compute; exact I).
  assert (Hc : forall x, x ∈ map_to_list (net_outputs [pay "alice" "bob" 50]) ->
    covered main_ledger (net_inputs [pay "alice" "bob" 50]) (w_db sample_world) x).
  { intros x Hx. replace (map_to_list (net_outputs [pay "alice" "bob" 50])) with [(("alice", "USD/2"), 50)] in Hx by (vm_compute; reflexivity).
    apply list_elem_of_singleton in Hx as ->. right. apply Z.leb_le. vm_compute. reflexivity. }
  split; [exact Ht|]. split; [exact Hh|]. split; [exact Hm|]. split; [exact Hl|]. split; [exact Hn|]. split; [exact Hc|].
  apply (funded_post_succeeds later_env "main" main_ledger [pay "alice" "bob" 50] "rent" None sample_world Ht Hh Hm Hl);
    [discriminate|split; discriminate|vm_compute; reflexivity|exact Hn| |exact Hc].
  right. intros x Hx _. assert (Hr : forallb (fun x => String.eqb (tx_Reference x) "") (transactions (w_db sample_world)) = true)
    by (vm_compute; reflexivity).
  rewrite forallb_forall in Hr. apply list_elem_of_In, Hr, String.eqb_eq in Hx as ->. discriminate.
Defined.
