(* ===== verification/Portability.v ===== *)
(** * A ledger's log survives export and import

    What Export sends of a ledger, Import turns into the same log in another database:
    the numbers, ids, times, codes, payloads and keys are those of the source. The batch
    is the server's, and the hash of an idempotency key is not exported. *)
From S2P Require Import Prelude GoStd Regex Accounts Assets Policy Sha256 Json Storage Db Prog.
From S2P Require Import Logic Postgres BatchManager Redis Chart Planner Cores Operations IntentJson Approval.
From S2P Require Import Proto Auth RateLimit Grpc Queries Transfer Rpc Config.
From S2P Require Import Bodies StoreRules Effects ApprovalSteps Ledger Solvency Requests Intents Moves TransferSteps RpcSteps Service Samples.

Definition restored (ev : LogEventRecord) (batch : string) : LogEventRecord :=
  {| ev_EventID := ev_EventID ev; ev_LedgerID := ev_LedgerID ev; ev_LedgerSeq := ev_LedgerSeq ev;
     ev_SystemTime := ev_SystemTime ev; ev_ValidTime := ev_ValidTime ev; ev_Type := ev_Type ev;
     ev_Payload := ev_Payload ev; ev_IdempotencyKey := ev_IdempotencyKey ev; ev_IdempotencyHash := None;
     ev_BatchID := batch; ev_SchemaVersion := ev_SchemaVersion ev |}.

(** ** The conversions are inverse on the rows of the log *)

Lemma wrap_signed_id n z : 0 < n -> - 2 ^ (n - 1) <= z < 2 ^ (n - 1) -> wrap_signed n z = z.
Proof.
  intros Hn Hz. unfold wrap_signed. assert (H2 : 2 ^ n = 2 * 2 ^ (n - 1)) by (rewrite <- Z.pow_succ_r by lia; f_equal; lia).
  rewrite Z.mod_small; lia.
Qed.
Lemma int64_of_uint64 z : - 2 ^ 63 <= z < 2 ^ 63 -> int64_of (uint64_of z) = z.
Proof.
  intros Hz. unfold int64_of, uint64_of, wrap_signed. rewrite Zplus_mod_idemp_l. apply (wrap_signed_id 64); [done|exact Hz].
Qed.

Lemma import_export_row ev b :
  well_typed ev -> - 2 ^ 63 <= ev_LedgerSeq ev < 2 ^ 63 -> import_row (logEventRecordToProto ev) b = restored ev b.
Proof.
  intros [_ Ht Hs Hv Hver] Hseq. unfold import_row, imported, log_row, restored, logEventRecordToProto. cbn.
  rewrite Hs, Hv, !int64_of_uint64 by done. by rewrite int16_of_type.
Qed.

Section Portability.
Context `{Deps}.
Implicit Types w : World.

(** ** What Export sends *)

Lemma send_all sent events :
  send_events (fun _ => true) sent events = (sent ++ map logEventRecordToProto events, true).
Proof.
  revert sent. induction events as [|e events IH]; intros sent; cbn [send_events map]; [by rewrite app_nil_r|].
  by rewrite IH, <- app_assoc.
Qed.

Lemma filter_true {A} (p : A -> bool) l : (forall x, p x = true) -> List.filter p l = l.
Proof. intros Hp. induction l as [|x l IH]; simpl; [done|]. by rewrite Hp, IH. Qed.

Lemma short_page l d :
  ledger_inv d -> Z.of_nat (length (ledger_log l d)) <= 1000 -> page ev_EventID 1000 (log_rows l "" 1001 d) = (ledger_log l d, EmptyString).
Proof.
  intros Hi Hn. unfold log_rows. rewrite filter_true by done. rewrite ledger_order by done. unfold limit, page.
  rewrite take_ge by lia. destruct (Z.ltb_spec 1000 (Z.of_nat (length (ledger_log l d)))); [lia|done].
Qed.

Lemma Export_spec E admins fuel ctx l w :
  w_tx w = TxNone -> ledger_inv (w_db w) -> Z.of_nat (length (ledger_log l (w_db w))) <= 1000 ->
  wp E (rpc_Export admins (S fuel) ctx l (fun _ => true)) w (fun r _ => exists sent a, r = Some (sent, a) /\
    (a = Reply tt -> sent = map logEventRecordToProto (ledger_log l (w_db w)))).
Proof.
  intros Ht Hi Hn. unfold rpc_Export. apply wp_bind.
  eapply (wp_mono _ _ _ (fun _ w1 => idle w w1)).
  { apply reads_idle; [|done]. apply reads_reply_bind; [unfold extractPrincipal; by repeat case_match|]. intros principal.
    apply reads_reply_bind; [unfold requireImportExportAuthz; by case_match|]. intros _. apply reads_call_or, reads_EvaluatePolicy. }
  intros [u|c e] w1 (Ht1 & Hd1 & _); [|apply wp_ret; by exists [], (Status c e)].
  cbn [export_pages]. apply wp_bind. eapply wp_mono; [by apply ListLogEvents_page|]. intros r w2 [_ Hrows].
  destruct r as [[events next]|e]; [|apply wp_ret; by eexists [], _].
  specialize (Hrows _ eq_refl). change (lp_PageSize (list_params 1000 EmptyString)) with 1000 in Hrows.
  change (lp_PageToken (list_params 1000 EmptyString)) with EmptyString in Hrows. change (page_size 1000) with 1000 in Hrows.
  change (1000 + 1) with 1001 in Hrows. rewrite Hd1, short_page in Hrows by done. injection Hrows as -> ->.
  rewrite send_all. apply wp_ret. by eexists _, (Reply tt).
Qed.

(** ** What Import makes of it *)

Lemma Import_spec E admins ctx events broken w :
  w_tx w = TxNone -> wp E (rpc_Import admins ctx events broken) w (stream_done (w_db w) events broken 0 w).
Proof.
  intros Ht. assert (Hno : forall c e, stream_done (w_db w) events broken 0 w (Status c e) w).
  { intros c e. split; [done|]. exists [], events. split_and!; [done|by apply imports_nil, same_refl|done|done]. }
  unfold rpc_Import, extractPrincipal, requireImportExportAuthz. apply wp_reply_bind.
  destruct (PrincipalFromContext ctx) as [[|]|]; try (by apply wp_ret). apply wp_ret, wp_reply_bind.
  case_bool_decide; [|by apply wp_ret]. apply wp_ret.
  eapply import_stream_spec; [done|by apply imports_nil, same_refl|apply st_ok_empty|unfold maxImportEventsPerCall; lia].
Qed.

Lemma of_ledger_exported l l' d :
  of_ledger l' (map logEventRecordToProto (ledger_log l d)) =
  if String.eqb l' l then map logEventRecordToProto (ledger_log l d) else [].
Proof.
  unfold of_ledger, ledger_log. induction (log_events d) as [|ev t IH]; [by destruct (String.eqb l' l)|].
  cbn [List.filter]. destruct (String.eqb_spec l (ev_LedgerID ev)) as [->|]; [|exact IH].
  cbn [map List.filter logEventRecordToProto pb.LogEvent_LedgerId]. rewrite IH. by destruct (String.eqb l' (ev_LedgerID ev)).
Qed.

Lemma rows_restored l d bs :
  ledger_inv d -> Z.of_nat (length (ledger_log l d)) <= 1000 ->
  zip_with import_row (map logEventRecordToProto (ledger_log l d)) bs = zip_with restored (ledger_log l d) bs.
Proof.
  intros Hi Hn. assert (Hall : Forall (fun ev => well_typed ev /\ - 2 ^ 63 <= ev_LedgerSeq ev < 2 ^ 63) (ledger_log l d)).
  { apply Forall_forall. intros ev Hev. split.
    - pose proof (i_typed _ Hi) as Ht. rewrite Forall_forall in Ht. apply Ht.
      apply list_elem_of_In, List.filter_In, proj1, list_elem_of_In in Hev. done.
    - assert (Hs : ev_LedgerSeq ev ∈ map ev_LedgerSeq (ledger_log l d)) by by apply list_elem_of_fmap_2.
      rewrite (i_seq _ Hi l) in Hs. apply elem_of_seqZ in Hs. lia. }
  clear Hn. revert bs. induction Hall as [|ev t [Ht Hs] _ IH]; intros [|b bs]; [done..|]. cbn [map zip_with].
  by rewrite import_export_row, IH.
Qed.
End Portability.

(** C16: export and import. What Export sends of a ledger of at most 1000 events, when it
    completes, Import accepts only into a ledger that has no event; and once it reports
    success, the log of that ledger is the source's, event by event, under batches of the
    server's choice and without the hashes of the idempotency keys; the logs of the other
    ledgers are what they were. *)
Theorem export_import `{Deps} E E' admins admins' fuel ctx ctx' l w w' :
  reachable (w_db w) -> w_tx w = TxNone -> w_tx w' = TxNone ->
  ledger_log l (w_db w) <> [] -> Z.of_nat (length (ledger_log l (w_db w))) <= 1000 ->
  wp E (rpc_Export admins (S fuel) ctx l (fun _ => true)) w (fun r _ => exists sent a, r = Some (sent, a) /\
    (a = Reply tt -> wp E' (rpc_Import admins' ctx' sent false) w' (fun r' w2 => forall n, r' = Reply n ->
      n = Z.of_nat (length (ledger_log l (w_db w))) /\ ledger_log l (w_db w') = [] /\
      (exists bs, length bs = length (ledger_log l (w_db w)) /\
         ledger_log l (w_db w2) = zip_with restored (ledger_log l (w_db w)) bs) /\
      (forall l', l' <> l -> ledger_log l' (w_db w2) = ledger_log l' (w_db w'))))).
Proof.
  intros Hr Ht Ht' Hne Hn. pose proof (reachable_inv _ Hr) as Hi.
  eapply wp_mono; [by apply Export_spec|]. intros r _ (sent & a & -> & Hsent). exists sent, a. split; [done|].
  intros Ha. rewrite (Hsent Ha). clear Hsent. eapply wp_mono; [by apply Import_spec|].
  intros r w2 (_ & before & after & Hsplit & Himp & Hall & Hok) n Hrn. destruct (Hok n Hrn) as (-> & _ & -> & _).
  rewrite app_nil_r in Hsplit. subst before. rewrite length_map.
  assert (Hempty : ledger_log l (w_db w') = []).
  { destruct (ledger_log l (w_db w)) as [|ev t] eqn:El; [done|]. cbn [map] in Hall. apply Forall_cons in Hall as [[_ [Hlog _]] _].
    assert (Hev : In ev (ledger_log l (w_db w))) by (rewrite El; by left). apply List.filter_In in Hev as [_ Hev%String.eqb_eq].
    by rewrite Hev. }
  split; [lia|]. split; [exact Hempty|]. split.
  - destruct (imports_log _ _ _ l Himp) as (bs & Hl & Hlog). rewrite of_ledger_exported, String.eqb_refl in Hl, Hlog.
    rewrite length_map in Hl. exists bs. split; [done|]. by rewrite Hlog, Hempty, rows_restored.
  - intros l' Hl'%String.eqb_neq. destruct (imports_log _ _ _ l' Himp) as (bs & Hl & Hlog).
    rewrite of_ledger_exported, Hl' in Hl, Hlog. by rewrite Hlog, app_nil_r.
Qed.

(** ** A run *)

(** A parser that takes every text (as a string). *)
Definition any_json : Deps := {| has_subs := true; regexp_Compile := fun _ => None; json_parse := fun s => Some (JStr s) |}.

Definition root_ctx : Context :=
  {| ctx_metadata := None; ctx_peer := None; ctx_principal := Some "root"; ctx_identity := None |}.
Definition root_only : gset string := {["root"]}.

(** A fresh database in which the ledger was created. *)
Definition copy_world : World := after [Create {| cl_ID := "main"; cl_BucketID := ""; cl_Metadata := None |}].

Definition copied : option (result Z * list (Z * Z)) :=
  match fst (run sample_env (rpc_Export root_only 1 root_ctx "main" (fun _ => true)) sample_world) with
  | Some (sent, _) =>
      let '(r, w2) := run sample_env (@rpc_Import any_json root_only root_ctx sent false) copy_world in
      Some (match r with Reply n => Ok n | Status _ e => Err e end,
            map (fun ev => (ev_LedgerSeq ev, ev_Type ev)) (ledger_log "main" (w_db w2)))
  | None => None
  end.

Lemma export_import_witness :
  reachable (w_db sample_world) /\ w_tx sample_world = TxNone /\ w_tx copy_world = TxNone /\
  ledger_log "main" (w_db sample_world) <> [] /\ Z.of_nat (length (ledger_log "main" (w_db sample_world))) <= 1000 /\
  copied = Some (Ok 5, [(1, 1); (2, 1); (3, 2); (4, 3); (5, 7)]) /\
  wp sample_env (rpc_Export root_only 1 root_ctx "main" (fun _ => true)) sample_world (fun r _ =>
    exists sent a, r = Some (sent, a) /\
    (a = Reply tt -> wp sample_env (@rpc_Import any_json root_only root_ctx sent false) copy_world (fun r' w2 => forall n, r' = Reply n ->
      n = Z.of_nat (length (ledger_log "main" (w_db sample_world))) /\ ledger_log "main" (w_db copy_world) = [] /\
      (exists bs, length bs = length (ledger_log "main" (w_db sample_world)) /\
         ledger_log "main" (w_db w2) = zip_with restored (ledger_log "main" (w_db sample_world)) bs) /\
      (forall l', l' <> "main" -> ledger_log l' (w_db w2) = ledger_log l' (w_db copy_world))))).
Proof.
  destruct sample_reachable as [Hr Ht].
  split; [exact Hr|]. split; [vm_compute; reflexivity|]. split; [vm_compute; reflexivity|].
  assert (Hne : ledger_log "main" (w_db sample_world) <> []) by (intros Hn; apply (f_equal (@length _)) in Hn; vm_compute in Hn; discriminate Hn).
  split; [exact Hne|]. split; [vm_compute; discriminate|]. split; [vm_compute; reflexivity|].
  apply (@export_import any_json sample_env sample_env root_only root_only 0 root_ctx root_ctx "main" sample_world copy_world Hr);
    [vm_compute; reflexivity|vm_compute; reflexivity|exact Hne|vm_compute; discriminate].
Defined.
