(* ===== verification/Streams.v ===== *)
(** * What a subscriber gets

    The replay delivers a window of at most 100 events, waits on a larger one until the
    context of the caller ends, and ends then; and a stream carries no event twice when the
    ids of the log and of the notifications ascend. The channel keeps the events of the replay
    and of the notifications in the order they came; [delivered_ids] are the ids of what
    was sent on the stream and of what still waits. *)
From S2P Require Import Prelude GoStd Regex Accounts Assets Policy Sha256 Json Storage Db Prog.
From S2P Require Import Logic Postgres BatchManager Redis Chart Planner Cores Operations IntentJson Approval.
From S2P Require Import Proto Auth RateLimit Grpc Queries Transfer Subscriptions Rpc Config.
From S2P Require Import Bodies StoreRules Effects ApprovalSteps Ledger Solvency Requests Intents Moves TransferSteps RpcSteps Service Samples.

Definition ascending : list string -> Prop := StronglySorted (fun a b => string_lt a b = true).

Lemma ascending_take n l : ascending l -> ascending (take n l).
Proof. intros H. rewrite <- (take_drop n l) in H. by apply StronglySorted_app_1_l in H. Qed.
Lemma ascending_filter {A} (key : A -> string) p l : ascending (map key l) -> ascending (map key (List.filter p l)).
Proof.
  induction l as [|x l IH]; cbn [map List.filter]; [done|]. intros [Hl Hx]%StronglySorted_inv.
  destruct (p x); [|by apply IH]. constructor; [by apply IH|].
  apply Forall_forall. intros k (y & -> & Hy)%list_elem_of_fmap. apply (proj1 (Forall_forall _ _) Hx).
  apply list_elem_of_fmap_2. by apply list_elem_of_In, List.filter_In, proj1, list_elem_of_In in Hy.
Qed.
Lemma ascending_lookup l i a b : ascending l -> a ∈ take i l -> l !! i = Some b -> string_lt a b = true.
Proof.
  intros Hl Ha Hb. rewrite <- (take_drop_middle _ _ _ Hb) in Hl.
  apply StronglySorted_app in Hl as [Hl _]. apply Hl; [done|]. by left.
Qed.

(** ** The replay *)

(** What the loop makes of the state with one more event. *)
Definition take_in (types : list Z) (st : replay_state) (e : LogEventRecord) : replay_state :=
  let st := seen_event e st in if shouldInclude (ev_Type e) types then queued e st else st.

Lemma take_in_count types events st :
  rp_replayed (fold_left (take_in types) events st) = rp_replayed st + Z.of_nat (length events).
Proof.
  revert st. induction events as [|e events IH]; intros st; cbn [fold_left length]; [lia|].
  rewrite IH. unfold take_in. destruct (shouldInclude _ _); simpl; lia.
Qed.
Lemma take_in_ch types events st :
  rp_ch (fold_left (take_in types) events st) = rp_ch st ++ List.filter (fun e => shouldInclude (ev_Type e) types) events.
Proof.
  revert st. induction events as [|e events IH]; intros st; cbn [fold_left List.filter]; [by rewrite app_nil_r|].
  rewrite IH. unfold take_in. destruct (shouldInclude _ _); simpl; [by rewrite <- app_assoc|done].
Qed.

(** The state a replay may be in: within its counter and the channel. *)
Definition within (types : list Z) (st : replay_state) : Prop :=
  rp_replayed st <= maxReplayEvents /\ Z.of_nat (length (rp_ch st)) <= subscriptionBufferSize /\
  Forall (fun e => shouldInclude (ev_Type e) types = true) (rp_ch st).

Lemma reads_await patience : reads (await_done patience).
Proof. induction patience as [|n IH]; [done|]. split; [done|]. by intros []. Qed.
Lemma reads_replay_events patience types events st : reads (replay_events patience types events st).
Proof.
  revert st. induction events as [|e events IH]; intros st; cbn [replay_events]; [done|].
  destruct (_ <? _); [done|]. cbv zeta. destruct (shouldInclude _ _); [|apply IH]. destruct (_ <? _).
  - apply reads_pbind; [by split|]. by intros [].
  - apply reads_pbind; [apply reads_await|]. done.
Qed.

(** A context that ends is seen to have ended, however late one looks. *)
Definition ends (E : Env) (patience : nat) : Prop := forall n, exists k, (k < patience)%nat /\ e_done E (n + k)%nat = true.
Lemma await_done_ends E patience (w : World) :
  (exists k, (k < patience)%nat /\ e_done E (w_tick w + k)%nat = true) -> wp E (await_done patience) w (fun r _ => r = true).
Proof.
  revert w. induction patience as [|n IH]; intros w (k & Hk & Hd); [lia|]. apply wp_bind, wp_trigger. cbn [Prog.step].
  destruct (e_done E (w_tick w)) eqn:Ed; cbn [negb]; [by apply wp_ret|]. apply IH. destruct k as [|k].
  { by rewrite Nat.add_0_r, Ed in Hd. }
  exists k. split; [lia|]. cbn. by rewrite Nat.add_succ_r in Hd.
Qed.
Lemma await_done_patient E patience (w : World) :
  wp E (await_done patience) w (fun r _ => ends E patience -> r = true).
Proof.
  unfold wp. destruct (run E _ w) as [r w'] eqn:Hr. intros He.
  exact (wp_run _ _ _ _ (await_done_ends E patience w (He _)) _ _ Hr).
Qed.
Lemma await_done_alive E patience (w : World) :
  (forall n, e_done E n = false) -> wp E (await_done patience) w (fun r _ => r = false).
Proof.
  intros Hl. revert w. induction patience as [|n IH]; intros w; [by apply wp_ret|]. apply wp_bind, wp_trigger. cbn [Prog.step].
  rewrite Hl. apply IH.
Qed.

Lemma replay_events_result E patience types events st (w : World) :
  within types st ->
  wp E (replay_events patience types events st) w (fun r _ =>
    (forall st', r = Some (Ok st') -> st' = fold_left (take_in types) events st /\ within types st') /\
    (ends E patience -> r <> None)).
Proof.
  revert st w. induction events as [|e events IH]; intros st w Hw; cbn [replay_events fold_left];
    [apply wp_ret; split; [by intros st' [= <-]|done]|].
  destruct (Z.ltb_spec maxReplayEvents (rp_replayed st + 1)); [by apply wp_ret|]. destruct Hw as (Hn & Hc & Hall).
  unfold take_in at 2. destruct (shouldInclude _ _) eqn:Ei; [|apply IH; done].
  cbn [seen_event rp_ch]. destruct (Z.ltb_spec (Z.of_nat (length (rp_ch st))) subscriptionBufferSize) as [Hlt|].
  - apply wp_bind, wp_trigger. cbn [Prog.step]. destruct (negb (e_done E (w_tick w))); [|by apply wp_ret].
    apply IH. split; [done|]. cbn [queued seen_event rp_ch]. split; [rewrite length_app; simpl; lia|].
    by apply Forall_app_2, Forall_singleton.
  - apply wp_bind. eapply wp_mono; [apply await_done_patient|]. intros [] w1 Hd; apply wp_ret; [done|]. split; [done|].
    by intros ?%Hd.
Qed.

(** A page that is not the last is full. *)
Lemma page_full {R} (key : R -> string) n rows events next :
  0 <= n -> page key n rows = (events, next) -> next <> EmptyString -> Z.of_nat (length events) = n.
Proof.
  unfold page. intros Hn. destruct (Z.ltb_spec n (Z.of_nat (length rows))); intros [= <- <-]; [|done].
  intros _. rewrite length_take. lia.
Qed.

Lemma replay_pages_ends E fuel patience l types token st (w : World) :
  w_tx w = TxNone -> ends E patience -> within types st -> maxReplayEvents < 100 * Z.of_nat fuel + rp_replayed st ->
  wp E (replay_pages fuel patience l types token st) w (fun r _ => exists a, r = Some a /\ forall st', a = Ok st' -> within types st').
Proof.
  intros Ht He. revert token st w Ht. induction fuel as [|fuel IH]; intros token st w Ht Hw Hf.
  { destruct Hw as [Hn _]. lia. }
  cbn [replay_pages]. apply wp_bind. eapply wp_mono; [by apply ListLogEvents_page|]. intros r w1 [(Ht1 & _) Hrows].
  destruct r as [[events next]|e]; [|apply wp_ret; by eexists].
  specialize (Hrows _ eq_refl). symmetry in Hrows. change (page_size (lp_PageSize (list_params 100 token))) with 100 in Hrows.
  apply wp_bind. eapply wp_mono.
  { apply wp_and; [apply reads_idle; [apply reads_replay_events|done]|by apply replay_events_result]. }
  intros r w2 [(Ht2 & _) [Hr Hsome]]. destruct r as [[st'|e]|]; [|apply wp_ret; by eexists|by destruct (Hsome He)].
  destruct (Hr _ eq_refl) as [Hst' Hw']. destruct (String.eqb_spec next EmptyString) as [|Hne].
  { apply wp_ret. eexists. split; [done|]. by intros st'' [= <-]. }
  apply IH; [done..|]. rewrite Hst', take_in_count. apply page_full in Hrows; [|done..]. lia.
Qed.

(** *** No event is queued twice *)

Definition event_ids : list LogEventRecord -> list string := map ev_EventID.

Record replay_inv (st : replay_state) : Prop := {
  ri_once : NoDup (event_ids (rp_ch st));
  ri_seen : forall id, id ∈ event_ids (rp_ch st) -> id ∈ rp_replayedIDs st;
  ri_mark : forall id, id ∈ rp_replayedIDs st -> string_lt (rp_highWaterMark st) id = false
}.

Lemma string_lt_asym a b : string_lt a b = true -> string_lt b a = false.
Proof. intros H. apply not_true_iff_false. intros H'. pose proof (string_lt_trans _ _ _ H H') as Hc. by rewrite string_lt_irrefl in Hc. Qed.

(** Every id seen so far is below [id]. *)
Definition below (st : replay_state) (id : string) : Prop := forall x, x ∈ rp_replayedIDs st -> string_lt x id = true.

Lemma take_in_inv types st e : replay_inv st -> below st (ev_EventID e) -> replay_inv (take_in types st e).
Proof.
  intros [Ho Hs Hm] Hb. unfold take_in.
  assert (Hm' : forall id, id ∈ rp_replayedIDs (seen_event e st) -> string_lt (rp_highWaterMark (seen_event e st)) id = false).
  { intros id. cbn. rewrite elem_of_union, elem_of_singleton. intros [->|Hid].
    - destruct (string_lt (rp_highWaterMark st) (ev_EventID e)) eqn:El; [apply string_lt_irrefl|done].
    - destruct (string_lt (rp_highWaterMark st) (ev_EventID e)) eqn:El; [|by apply Hm]. by apply string_lt_asym, Hb. }
  destruct (shouldInclude _ _); split; try done; cbn.
  - unfold event_ids. rewrite map_app. apply NoDup_app. split; [done|]. split; [|apply NoDup_singleton].
    intros id Hid ->%list_elem_of_singleton. pose proof (Hb _ (Hs _ Hid)) as Hc. by rewrite string_lt_irrefl in Hc.
  - intros id. unfold event_ids. rewrite map_app, elem_of_app, elem_of_union, elem_of_singleton.
    intros [Hid| ->%list_elem_of_singleton]; [right; by apply Hs|by left].
  - intros id Hid. apply elem_of_union_r. by apply Hs.
Qed.

Lemma take_in_ids types st e : rp_replayedIDs (take_in types st e) = {[ev_EventID e]} ∪ rp_replayedIDs st.
Proof. unfold take_in. by destruct (shouldInclude _ _). Qed.

(** A page of ascending ids, above what came before and below the next token. *)
Lemma take_in_page types events st :
  replay_inv st -> ascending (event_ids events) -> (forall e, e ∈ events -> below st (ev_EventID e)) ->
  replay_inv (fold_left (take_in types) events st) /\
  forall next, below st next -> (forall id, id ∈ event_ids events -> string_lt id next = true) ->
    below (fold_left (take_in types) events st) next.
Proof.
  revert st. induction events as [|e events IH]; intros st Hi Ha Hb; cbn [fold_left]; [by split; [|intros next]|].
  apply StronglySorted_inv in Ha as [Ha He]. rewrite Forall_forall in He.
  destruct (IH (take_in types st e)) as [Hi' Hn'].
  - apply take_in_inv; [done|]. apply Hb. by left.
  - done.
  - intros x Hx id. rewrite take_in_ids, elem_of_union, elem_of_singleton. intros [->|Hid]; [by apply He, list_elem_of_fmap_2|].
    apply (Hb x); [by right|done].
  - split; [done|]. intros next Hbn Hall. apply Hn'.
    + intros id. rewrite take_in_ids, elem_of_union, elem_of_singleton. intros [->|Hid]; [apply Hall; by left|by apply Hbn].
    + intros id Hid. apply Hall. by right.
Qed.

Lemma page_ids {R} (key : R -> string) n rows events next :
  0 <= n -> ascending (map key rows) -> page key n rows = (events, next) ->
  ascending (map key events) /\ (forall x, x ∈ events -> x ∈ rows) /\
  (next <> EmptyString -> (exists x, x ∈ rows /\ key x = next) /\ forall id, id ∈ map key events -> string_lt id next = true).
Proof.
  intros Hn Ha. unfold page. destruct (Z.ltb_spec n (Z.of_nat (length rows))) as [Hl|]; intros [= <- <-]; [|by split_and!].
  destruct (lookup_lt_is_Some_2 rows (Z.to_nat n)) as [x Hx]; [lia|]. rewrite Hx.
  split_and!; [rewrite <- firstn_map; by apply ascending_take|intros y Hy; by eapply subseteq_take|].
  intros _. split; [exists x; split; [by eapply list_elem_of_lookup_2|done]|]. intros id Hid. rewrite <- firstn_map in Hid.
  eapply ascending_lookup; [done..|]. change (map key rows) with (key <$> rows). by rewrite list_lookup_fmap, Hx.
Qed.

(** The ids of a ledger's log ascend with its numbering. *)
Definition ids_ascend (l : string) (d : DB) : Prop := ascending (event_ids (ledger_log l d)).

Lemma log_rows_ids l token n d :
  ledger_inv d -> ids_ascend l d -> token <> EmptyString ->
  ascending (event_ids (log_rows l token n d)) /\
  forall e, e ∈ log_rows l token n d -> string_lt token (ev_EventID e) = true.
Proof.
  intros Hi Ha Ht. unfold log_rows, limit, event_ids.
  assert (Ho : order_by ev_LedgerSeq (List.filter (fun r => after_token token (ev_EventID r)) (ledger_log l d)) =
               List.filter (fun r => after_token token (ev_EventID r)) (ledger_log l d)) by by apply filter_order.
  rewrite Ho. split; [rewrite <- firstn_map; by apply ascending_take, ascending_filter|].
  intros e He. apply (subseteq_take _ _ e) in He. apply list_elem_of_In, List.filter_In in He as [_ He].
  unfold after_token in He. by rewrite (proj2 (String.eqb_neq _ _) Ht) in He.
Qed.

Lemma replay_pages_once E fuel patience l types token st (w : World) :
  w_tx w = TxNone -> ledger_inv (w_db w) -> ids_ascend l (w_db w) -> token <> EmptyString ->
  within types st -> replay_inv st -> (forall e, string_lt token e = true -> below st e) ->
  wp E (replay_pages fuel patience l types token st) w (fun r _ => forall st', r = Some (Ok st') -> replay_inv st').
Proof.
  revert token st w. induction fuel as [|fuel IH]; intros token st w Ht Hd Ha Htok Hw Hi Hb; [by apply wp_ret|].
  cbn [replay_pages]. apply wp_bind. eapply wp_mono; [by apply ListLogEvents_page|]. intros r w1 [(Ht1 & Hd1 & _) Hrows].
  destruct r as [[events next]|e]; [|by apply wp_ret].
  specialize (Hrows _ eq_refl). symmetry in Hrows. change (page_size (lp_PageSize (list_params 100 token))) with 100 in Hrows.
  change (lp_PageToken (list_params 100 token)) with token in Hrows.
  destruct (log_rows_ids l token 101 _ Hd Ha Htok) as [Hra Hrt].
  destruct (page_ids ev_EventID 100 _ _ _ ltac:(lia) Hra Hrows) as (Hea & Hsub & Hnext).
  apply wp_bind. eapply wp_mono.
  { apply wp_and; [apply reads_idle; [apply reads_replay_events|done]|by apply replay_events_result]. }
  intros r w2 [(Ht2 & Hd2 & _) [Hr _]]. destruct r as [[st'|e]|]; [|by apply wp_ret..].
  destruct (Hr _ eq_refl) as [Hst' Hw'].
  destruct (take_in_page types events st Hi Hea) as [Hi' Hbn].
  { intros e He. apply Hb, Hrt. by apply Hsub. }
  rewrite <- Hst' in Hi', Hbn. destruct (String.eqb_spec next EmptyString) as [|Hne]; [apply wp_ret; by intros st'' [= <-]|].
  destruct (Hnext Hne) as [(x & Hx & Hxn) Hall].
  assert (Hbnext : below st' next) by (apply Hbn; [rewrite <- Hxn; by apply Hb, Hrt|done]).
  apply IH; [done|by rewrite Hd2, Hd1|by rewrite Hd2, Hd1|done..|].
  intros id Hid x' Hx'. by eapply string_lt_trans; [apply Hbnext|].
Qed.

(** ** The stream *)

Definition delivered_ids (m : stream) : list string :=
  map (fun e => pb.LogEvent_EventId (pbs.Event e)) (sm_sent m) ++ event_ids (sb_ch (sm_sub m)).

(** What the dedup set may still skip. *)
Definition expected (s : subscription) (id : string) : Prop :=
  exists ids, sb_replayedIDs s = Some ids /\ id ∈ ids /\ string_lt (sb_highWaterMark s) id = false.

(** Nothing was delivered twice, and what was delivered was replayed, or is not above the
    last notification. *)
Definition once_up_to (last : option string) (m : stream) : Prop :=
  NoDup (delivered_ids m) /\
  forall id, id ∈ delivered_ids m ->
    (exists n, last = Some n /\ string_lt n id = false) \/ expected (sm_sub m) id.

Definition above (last : option string) (id : string) : Prop := forall n, last = Some n -> string_lt n id = true.

Section Streams.
Context `{Deps}.

Definition notified (steps : list sub_step) : list string :=
  omap (fun s => match s with
                 | Message payload => match unmarshal_notification payload with Ok n => Some (en_EventID n) | Err _ => None end
                 | _ => None
                 end) steps.

(** The steps of a stream, with whatever happens between them. *)
Inductive follows (req : pbs.SubscribeRequest) : list sub_step -> stream -> stream -> Prop :=
| follows_nil m : follows req [] m m
| follows_step E (w : World) step m m1 w1 steps m2 :
    run E (advance req step m) w = (m1, w1) -> follows req steps m1 m2 -> follows req (step :: steps) m m2.

(** The steps, each run in its own world. *)
Fixpoint play (req : pbs.SubscribeRequest) (l : list (Env * World * sub_step)) (m : stream) : stream :=
  match l with
  | [] => m
  | (E, w, step) :: l' => play req l' (fst (run E (advance req step m) w))
  end.
Lemma play_follows req l m : follows req (map snd l) m (play req l m).
Proof.
  revert m. induction l as [|[[E w] step] l IH]; intros m; cbn [map play snd]; [constructor|].
  destruct (run E (advance req step m) w) as [m1 w1] eqn:Er. by apply (follows_step _ E w _ _ _ _ _ _ Er), IH.
Qed.

Lemma GetLogEvent_id E l id (w : World) :
  wp E (GetLogEvent Pool l id) w (fun r _ => forall e, r = Ok e -> ev_EventID e = id /\ ev_LedgerID e = l).
Proof.
  unfold GetLogEvent, on_err, query_row. apply wp_bind, wp_mbind, wp_trigger. cbn [Prog.step]. unfold sql_pool, sql_select_log_event.
  destruct (List.find _ _) as [e|] eqn:Ef.
  - apply List.find_some in Ef as [_ [->%String.eqb_eq ->%String.eqb_eq]%andb_true_iff].
    destruct (e_fault E (w_tick w)) as [[]|]; apply wp_ret; by intros e' [= <-].
  - destruct (e_fault E (w_tick w)) as [[]|]; by apply wp_ret.
Qed.

(** A notification leaves the channel, or adds the event it names. *)
Lemma handleNotification_ch E n types s (w : World) :
  wp E (handleNotification n types s) w (fun s' _ =>
    sb_replayedIDs s' = sb_replayedIDs s /\ sb_highWaterMark s' = sb_highWaterMark s /\
    (event_ids (sb_ch s') = event_ids (sb_ch s) \/ event_ids (sb_ch s') = event_ids (sb_ch s) ++ [en_EventID n])).
Proof.
  unfold handleNotification. destruct (negb _); [apply wp_ret; auto|]. apply wp_bind.
  eapply wp_mono; [apply GetLogEvent_id|]. intros r w1 Hr. destruct r as [e|err]; [|apply wp_ret; auto].
  apply wp_bind, wp_trigger. cbn [Prog.step]. destruct (negb _); [|destruct (_ <? _)]; apply wp_ret; auto.
  split_and!; [done..|]. right. cbn. unfold event_ids. rewrite map_app. cbn. by rewrite (proj1 (Hr _ eq_refl)).
Qed.

(** Adding an event above the last notification, when it is not expected. *)
Lemma once_more last id m m' :
  once_up_to last m -> above last id ->
  delivered_ids m' = delivered_ids m \/ (delivered_ids m' = delivered_ids m ++ [id] /\ ~ expected (sm_sub m) id) ->
  (forall x, expected (sm_sub m) x -> expected (sm_sub m') x \/ string_lt id x = false) ->
  once_up_to (Some id) m'.
Proof.
  intros [Hn Hk] Ha Hd He.
  assert (Hold : forall x, x ∈ delivered_ids m -> string_lt id x = false \/ expected (sm_sub m') x).
  { intros x Hx. destruct (Hk x Hx) as [(n & Hl & Hxn)|Hx']; [|by destruct (He x Hx'); [right|left]].
    left. apply not_true_iff_false. intros Hlt. pose proof (string_lt_trans _ _ _ (Ha _ Hl) Hlt) as Hc.
    by rewrite Hc in Hxn. }
  destruct Hd as [Hd|[Hd Hne]]; unfold once_up_to; rewrite Hd.
  - split; [done|]. intros x Hx. destruct (Hold x Hx); [left; by exists id|by right].
  - split.
    + apply NoDup_app. split; [done|]. split; [|apply NoDup_singleton]. intros x Hx ->%list_elem_of_singleton.
      destruct (Hk id Hx) as [(n & Hl & Hxn)|Hx']; [|done]. by rewrite (Ha _ Hl) in Hxn.
    + intros x. rewrite elem_of_app, list_elem_of_singleton. intros [Hx| ->].
      * destruct (Hold x Hx); [left; by exists id|by right].
      * left. exists id. split; [done|apply string_lt_irrefl].
Qed.

Lemma expected_dec s id : sb_replayedIDs s = None \/ (exists ids, sb_replayedIDs s = Some ids /\ id ∉ ids) -> ~ expected s id.
Proof. intros [Hn|(ids & Hs & Hid)] (ids' & Hs' & Hid' & _); [congruence|]. rewrite Hs in Hs'. by injection Hs' as <-. Qed.

Lemma Message_once E req payload n last m (w : World) :
  unmarshal_notification payload = Ok n -> once_up_to last m -> above last (en_EventID n) ->
  wp E (advance req (Message payload) m) w (fun m' _ => once_up_to (Some (en_EventID n)) m').
Proof.
  intros Hu Ho Ha. cbn [advance]. destruct (sb_open (sm_sub m)) eqn:Eo; [|apply wp_ret; eapply once_more; eauto].
  apply wp_bind. unfold on_message. rewrite Hu. unfold dedup.
  destruct (sb_replayedIDs (sm_sub m)) as [ids|] eqn:Er.
  - case_bool_decide as Hin; [|destruct (string_lt (sb_highWaterMark (sm_sub m)) (en_EventID n)) eqn:Em].
    + apply wp_ret, wp_ret. eapply once_more; [done..|by left|]. intros x (ids' & Hs & Hx & Hm). rewrite Er in Hs. injection Hs as <-.
      destruct (decide (x = en_EventID n)) as [->|Hne]; [right; apply string_lt_irrefl|].
      left. exists (ids ∖ {[en_EventID n]}). split_and!; [done|set_solver|done].
    + eapply wp_mono; [apply handleNotification_ch|]. intros s' w1 (Hs' & Hm' & Hc). apply wp_ret.
      eapply once_more; [done..| |].
      * unfold delivered_ids. cbn [sm_sent sm_sub with_sub]. destruct Hc as [-> | ->]; [by left|].
        right. split; [by rewrite app_assoc|]. apply expected_dec. right. by exists ids.
      * intros x (ids' & Hids & Hx & Hxm). right. apply not_true_iff_false. intros Hlt.
        by rewrite (string_lt_trans _ _ _ Em Hlt) in Hxm.
    + eapply wp_mono; [apply handleNotification_ch|]. intros s' w1 (Hs' & Hm' & Hc). apply wp_ret.
      eapply once_more; [done..| |].
      * unfold delivered_ids. cbn [sm_sent sm_sub with_sub]. destruct Hc as [-> | ->]; [by left|].
        right. split; [by rewrite app_assoc|]. apply expected_dec. right. by exists ids.
      * intros x (ids' & Hids & Hx & Hxm). left. exists ids'. cbn [sm_sub with_sub]. rewrite Hs', Hm'. done.
  - eapply wp_mono; [apply handleNotification_ch|]. intros s' w1 (Hs' & Hm' & Hc). apply wp_ret.
    eapply once_more; [done..| |].
    + unfold delivered_ids. cbn [sm_sent sm_sub with_sub]. destruct Hc as [-> | ->]; [by left|].
      right. split; [by rewrite app_assoc|]. apply expected_dec. by left.
    + intros x (ids' & Hids & _). congruence.
Qed.

(** The other steps deliver nothing new. *)
Lemma once_less last m m' :
  once_up_to last m -> delivered_ids m' `sublist_of` delivered_ids m ->
  sb_replayedIDs (sm_sub m') = sb_replayedIDs (sm_sub m) -> sb_highWaterMark (sm_sub m') = sb_highWaterMark (sm_sub m) ->
  once_up_to last m'.
Proof.
  intros [Hn Hk] Hs Hr Hm. split; [by eapply sublist_NoDup|]. intros id Hid. unfold expected. rewrite Hr, Hm.
  apply Hk. by eapply sublist_subseteq.
Qed.

Lemma forward_less req taken m : delivered_ids (forward req taken m) `sublist_of` delivered_ids m.
Proof.
  unfold forward. destruct (sm_done m); [done|]. destruct (sb_ch (sm_sub m)) as [|e ch] eqn:Ec; [by destruct (sb_open _)|].
  unfold delivered_ids. destruct taken; cbn [sm_sent sm_sub with_ch sb_ch]; rewrite Ec; cbn [event_ids map].
  - rewrite map_app, <- app_assoc. done.
  - apply sublist_app; [done|]. by apply sublist_cons.
Qed.
Lemma forward_sub req taken m :
  sb_replayedIDs (sm_sub (forward req taken m)) = sb_replayedIDs (sm_sub m) /\
  sb_highWaterMark (sm_sub (forward req taken m)) = sb_highWaterMark (sm_sub m).
Proof.
  unfold forward. destruct (sm_done m); [done|]. destruct (sb_ch (sm_sub m)); [by destruct (sb_open _)|]. by destruct taken.
Qed.

Lemma follows_once req steps m m' last :
  follows req steps m m' -> once_up_to last m -> ascending (notified steps) -> Forall (above last) (notified steps) ->
  NoDup (delivered_ids m').
Proof.
  intros Hf. revert last. induction Hf as [m|E w step m m1 w1 steps m2 Hr Hf IH]; intros last Ho Ha Hl; [apply Ho|].
  destruct step as [payload| |taken].
  - unfold notified in Ha, Hl. cbn [omap list_omap] in Ha, Hl. destruct (unmarshal_notification payload) as [n|e] eqn:Eu.
    + apply StronglySorted_inv in Ha as [Ha Hn]. apply Forall_cons in Hl as [Hln Hl].
      apply (IH (Some (en_EventID n))); [|done|].
      * exact (wp_run E _ w _ (Message_once E req payload n last m w Eu Ho Hln) _ _ Hr).
      * eapply Forall_impl; [exact Hn|]. intros x Hx y [= <-]. exact Hx.
    + apply (IH last); [|done..]. cbn [advance] in Hr. unfold on_message in Hr. rewrite Eu in Hr.
      destruct (sb_open (sm_sub m)); cbn in Hr; injection Hr as <- _; [|done]. by eapply once_less.
  - apply (IH last); [|done..]. cbn in Hr. injection Hr as <- _. by eapply once_less.
  - apply (IH last); [|done..]. cbn in Hr. injection Hr as <- _.
    destruct (forward_sub req taken m). eapply once_less; [done|apply forward_less|done..].
Qed.

(** A subscription changes nothing. *)
Lemma reads_replay_pages fuel patience l types token st : reads (replay_pages fuel patience l types token st).
Proof.
  revert token st. induction fuel as [|fuel IH]; intros token st; cbn [replay_pages]; [done|].
  apply reads_pbind; [apply reads_ListLogEvents|]. intros [[events next]|e]; [|done].
  apply reads_pbind; [apply reads_replay_events|]. intros [[st'|e]|]; [|done..]. by destruct (String.eqb next EmptyString).
Qed.
Lemma reads_rpc_Subscribe fuel patience ctx req : reads (rpc_Subscribe fuel patience ctx req).
Proof.
  unfold rpc_Subscribe. apply reads_pbind; [apply reads_authorizeLedger|]. intros [u|c e]; [|done].
  apply reads_pbind; [|intros ?; done]. unfold Subscribe. destruct (String.eqb _ _); [done|].
  apply reads_pbind; [apply reads_replay_pages|]. intros ?. done.
Qed.
Lemma reads_advance req step m : reads (advance req step m).
Proof.
  destruct step as [payload| |taken]; cbn [advance]; [|done..]. destruct (sb_open _); [|done].
  apply reads_pbind; [|intros ?; done]. unfold on_message. destruct (unmarshal_notification payload) as [n|e]; [|done].
  destruct (dedup (en_EventID n) (sm_sub m)) as [seen s]. destruct seen; [done|].
  unfold handleNotification. destruct (negb _); [done|]. apply reads_pbind; [apply reads_GetLogEvent|].
  intros [e|err]; [|done]. apply reads_pbind; [by split|]. intros alive. destruct (negb alive); [done|]. by destruct (_ <? _).
Qed.

(** ** What the RPC opens *)

Definition start : replay_state :=
  {| rp_replayedIDs := ∅; rp_highWaterMark := EmptyString; rp_replayed := 0; rp_ch := [] |}.
Lemma start_within types : within types start.
Proof. done. Qed.
Lemma start_inv : replay_inv start.
Proof. split; cbn; [constructor|by intros id ?%not_elem_of_nil|set_solver]. Qed.

Lemma Subscribe_once E fuel patience l types from (w : World) :
  w_tx w = TxNone -> ledger_inv (w_db w) -> ids_ascend l (w_db w) ->
  wp E (Subscribe fuel patience l types from) w (fun r _ => forall s, r = Some (Ok s) ->
    once_up_to None {| sm_sub := s; sm_sent := []; sm_done := None |}).
Proof.
  intros Ht Hi Ha. unfold Subscribe. destruct (String.eqb_spec from EmptyString) as [|Hne].
  { apply wp_ret. intros s [= <-]. split; [constructor|]. by intros id ?%not_elem_of_nil. }
  apply wp_bind. eapply wp_mono; [apply replay_pages_once; [done..|apply (start_within types)|apply start_inv|set_solver]|].
  intros r w1 Hr. apply wp_ret. intros s. destruct r as [[st|e]|]; cbn; [|done..]. intros [= <-].
  destruct (Hr _ eq_refl) as [Hn Hs Hm]. split; [exact Hn|]. intros id Hid. right.
  exists (rp_replayedIDs st). split_and!; [done|by apply Hs|by apply Hm, Hs].
Qed.

Lemma authorize_idle {A} E ctx l (f : reply unit -> prog A) (w : World) Q :
  w_tx w = TxNone -> (forall a w', idle w w' -> wp E (f a) w' Q) -> wp E (pbind (authorizeLedger ctx l) f) w Q.
Proof. intros Ht Hf. apply wp_reads_bind; [apply reads_authorizeLedger|done|exact Hf]. Qed.
End Streams.

(** The send that does not wait. *)
Definition queued_or_dropped (e : LogEventRecord) (s s' : subscription) : Prop :=
  if Z.of_nat (length (sb_ch s)) <? subscriptionBufferSize
  then sb_ch s' = sb_ch s ++ [e] /\ sb_dropped s' = sb_dropped s
  else sb_ch s' = sb_ch s /\ sb_dropped s' = (sb_dropped s + 1) mod 2 ^ 64.

(** C29: opening a subscription ends once the context of the caller does, whatever the store
    does: the replay stops at its hundred thousandth event, so a thousand and one pages are
    enough, and a send that waits on the full channel, which nobody reads before the
    replay is over, waits for the context only. A subscription that opens has queued at
    most a hundred events of the replay, all of the types asked for. *)
Theorem Subscribe_terminates `{Deps} E ended fuel ctx req (w : World) :
  w_tx w = TxNone -> (forall n, (ended <= n)%nat -> e_done E n = true) -> (1001 <= fuel)%nat ->
  wp E (rpc_Subscribe fuel (S ended) ctx req) w (fun r _ => exists a, r = Some a /\
    forall m, a = Reply m -> (length (sb_ch (sm_sub m)) <= 100)%nat /\ sm_sent m = [] /\
      Forall (fun e => shouldInclude (ev_Type e) (event_types req) = true) (sb_ch (sm_sub m))).
Proof.
  intros Ht Hend Hf. assert (He : ends E (S ended)).
  { intros n. exists (ended - n)%nat. split; [lia|]. apply Hend. lia. }
  unfold rpc_Subscribe. apply authorize_idle; [done|]. intros [u|c e] w1 (Ht1 & _); [|apply wp_ret; by eexists].
  apply wp_bind. unfold Subscribe. destruct (String.eqb _ _).
  { apply wp_ret, wp_ret. eexists. split; [done|]. intros m [= <-]. split_and!; [simpl; lia|done|constructor]. }
  apply wp_bind. eapply wp_mono.
  { apply (replay_pages_ends _ _ _ _ (event_types req)); [done|done|apply start_within|]. unfold maxReplayEvents. simpl. lia. }
  intros r w2 (a & -> & Ha). apply wp_ret, wp_ret. destruct a as [st|e]; cbn; (eexists; split; [done|]); [|done].
  intros m [= <-]. destruct (Ha _ eq_refl) as (_ & Hc & Hall). split_and!; [|done..].
  unfold subscriptionBufferSize in Hc. cbn. lia.
Qed.

(** ** What the channel holds *)

(** The events of the log after an event id. *)
Definition window (l from : string) (d : DB) : list LogEventRecord :=
  List.filter (fun r => after_token from (ev_EventID r)) (ledger_log l d).

Section Window.
Context (E : Env) (healthy : forall n, e_fault E n = None) (alive : forall n, e_done E n = false).

Lemma ListLogEvents_healthy l token (w : World) :
  w_tx w = TxNone -> ledger_inv (w_db w) ->
  wp E (ListLogEvents Pool l (list_params 100 token)) w (fun r w' =>
    idle w w' /\ r = Ok (page ev_EventID 100 (take 101 (window l token (w_db w))))).
Proof.
  intros Ht Hi. apply wp_and; [by apply reads_idle; [apply reads_ListLogEvents|]|].
  unfold ListLogEvents. apply wp_mbind, wp_wrap, wp_trigger. cbn [Prog.step]. unfold sql_pool, sql_list_log. rewrite healthy.
  apply wp_ret. change (lp_PageToken (list_params 100 token)) with token.
  change (page_size (lp_PageSize (list_params 100 token))) with 100. by rewrite (filter_order l (w_db w) _ Hi).
Qed.

Lemma replay_events_fits patience events st (w : World) :
  rp_replayed st + Z.of_nat (length events) <= maxReplayEvents -> (length (rp_ch st) + length events <= 100)%nat ->
  wp E (replay_events patience [] events st) w (fun r _ => r = Some (Ok (fold_left (take_in []) events st))).
Proof.
  revert st w. induction events as [|e events IH]; intros st w Hn Hc; cbn [replay_events fold_left length] in *; [by apply wp_ret|].
  destruct (Z.ltb_spec maxReplayEvents (rp_replayed st + 1)); [lia|]. cbn [shouldInclude seen_event rp_ch].
  destruct (Z.ltb_spec (Z.of_nat (length (rp_ch st))) subscriptionBufferSize) as [|Hfull]; [|unfold subscriptionBufferSize in Hfull; lia].
  apply wp_bind, wp_trigger. cbn [Prog.step]. rewrite alive. apply IH; cbn; [lia|]. rewrite length_app. simpl. lia.
Qed.
Lemma replay_events_full patience e events st (w : World) :
  rp_replayed st < maxReplayEvents -> length (rp_ch st) = 100%nat ->
  wp E (replay_events patience [] (e :: events) st) w (fun r _ => r = None).
Proof.
  intros Hn Hc. cbn [replay_events]. destruct (Z.ltb_spec maxReplayEvents (rp_replayed st + 1)); [lia|].
  cbn [shouldInclude seen_event rp_ch]. rewrite Hc. apply wp_bind.
  eapply wp_mono; [by apply await_done_alive|]. intros [] w1; [done|]. intros _. by apply wp_ret.
Qed.

Lemma take_in_all events st : rp_ch (fold_left (take_in []) events st) = rp_ch st ++ events.
Proof. rewrite take_in_ch. f_equal. by induction events as [|e events IH]; cbn; [|f_equal]. Qed.

Lemma event_ids_lookup l i e : l !! i = Some e -> event_ids l !! i = Some (ev_EventID e).
Proof. intros He. unfold event_ids. by rewrite list_lookup_fmap, He. Qed.

(** What follows the 101st event of the window, whose id is the token of the second page. *)
Lemma window_next l from next e (d : DB) :
  ledger_inv d -> ids_ascend l d -> from <> EmptyString -> window l from d !! 100%nat = Some e -> ev_EventID e = next ->
  next <> EmptyString /\
  ((length (window l from d) <= 101)%nat -> window l next d = []) /\
  ((102 <= length (window l from d))%nat -> window l next d <> []).
Proof.
  intros Hi Ha Hf He <-. set (next := ev_EventID e).
  assert (Hin : forall x, x ∈ window l from d <-> x ∈ ledger_log l d /\ string_lt from (ev_EventID x) = true).
  { intros x. unfold window. rewrite !list_elem_of_In, List.filter_In. unfold after_token. by rewrite (proj2 (String.eqb_neq _ _) Hf). }
  assert (Hlt : string_lt from next = true) by (apply Hin; by eapply list_elem_of_lookup_2).
  assert (Hasc : ascending (event_ids (window l from d))) by (by apply ascending_filter).
  assert (Hid : event_ids (window l from d) !! 100%nat = Some next) by (by apply event_ids_lookup in He).
  assert (Hne : next <> EmptyString) by (intros Hn; rewrite Hn in Hlt; by destruct from).
  assert (Hnin : forall x, x ∈ window l next d <-> x ∈ ledger_log l d /\ string_lt next (ev_EventID x) = true).
  { intros x. unfold window. rewrite !list_elem_of_In, List.filter_In. unfold after_token. by rewrite (proj2 (String.eqb_neq _ _) Hne). }
  split_and!; [done| |].
  - intros Hlen. destruct (window l next d) as [|x t] eqn:Ew; [done|]. exfalso.
    destruct (proj1 (Hnin x)) as [Hx Hxl]; [by left|].
    assert (Hxw : x ∈ window l from d) by (apply Hin; split; [done|by eapply string_lt_trans]).
    apply list_elem_of_lookup in Hxw as [i Hxi]. pose proof (lookup_lt_Some _ _ _ Hxi) as Hil.
    destruct (decide (i = 100%nat)) as [->|Hi100].
    + rewrite He in Hxi. injection Hxi as <-. by rewrite string_lt_irrefl in Hxl.
    + assert (Hxt : ev_EventID x ∈ take 100 (event_ids (window l from d))).
      { apply list_elem_of_lookup. exists i. rewrite lookup_take_lt by lia. by apply event_ids_lookup. }
      pose proof (string_lt_asym _ _ (ascending_lookup _ _ _ _ Hasc Hxt Hid)) as Hc. by rewrite Hc in Hxl.
  - intros Hlen. destruct (lookup_lt_is_Some_2 (window l from d) 101) as [x Hx]; [lia|].
    assert (Hxi : event_ids (window l from d) !! 101%nat = Some (ev_EventID x)) by (by apply event_ids_lookup).
    assert (Hnt : next ∈ take 101 (event_ids (window l from d))).
    { apply list_elem_of_lookup. exists 100%nat. by rewrite lookup_take_lt by lia. }
    pose proof (ascending_lookup _ _ _ _ Hasc Hnt Hxi) as Hl. intros Hnil.
    assert (Hxn : x ∈ window l next d) by (apply Hnin; split; [apply Hin; by eapply list_elem_of_lookup_2|done]).
    rewrite Hnil in Hxn. by apply not_elem_of_nil in Hxn.
Qed.

(** The first page of a window that has another. *)
Lemma page_of_window (rows : list LogEventRecord) e :
  rows !! 100%nat = Some e -> page ev_EventID 100 (take 101 rows) = (take 100 rows, ev_EventID e).
Proof.
  intros He. pose proof (lookup_lt_Some _ _ _ He) as Hl. unfold page. rewrite length_take.
  destruct (Z.ltb_spec 100 (Z.of_nat (101 `min` length rows))); [|lia]. change (Z.to_nat 100) with 100%nat.
  rewrite take_take, lookup_take_lt by lia. by rewrite He.
Qed.

Lemma replay_window patience fuel l from (w : World) :
  w_tx w = TxNone -> ledger_inv (w_db w) -> ids_ascend l (w_db w) -> from <> EmptyString ->
  wp E (replay_pages fuel patience l [] from start) w (fun r _ =>
    ((length (window l from (w_db w)) <= 101)%nat -> (2 <= fuel)%nat ->
       exists st, r = Some (Ok st) /\ rp_ch st = take 100 (window l from (w_db w))) /\
    ((102 <= length (window l from (w_db w)))%nat -> r = None)).
Proof.
  intros Ht Hi Ha Hf. set (rows := window l from (w_db w)). destruct fuel as [|fuel]; [apply wp_ret; split; [lia|done]|].
  cbn [replay_pages]. apply wp_bind. eapply wp_mono; [by apply ListLogEvents_healthy|]. intros r w1 [(Ht1 & Hd1 & _) ->].
  assert (Hgo : forall events (w : World), (length events <= 100)%nat -> w_tx w = TxNone ->
    wp E (replay_events patience [] events start) w (fun r w' =>
      idle w w' /\ r = Some (Ok (fold_left (take_in []) events start)))).
  { intros events w' He Ht'. apply wp_and; [by apply reads_idle; [apply reads_replay_events|]|].
    apply replay_events_fits; cbn; unfold maxReplayEvents; lia. }
  destruct (rows !! 100%nat) as [e|] eqn:He.
  - pose proof (lookup_lt_Some _ _ _ He) as Hl. fold rows. rewrite (page_of_window _ _ He).
    destruct (window_next l from _ e (w_db w) Hi Ha Hf He eq_refl) as (Hne & Hlast & Hmore).
    apply wp_bind. eapply wp_mono; [apply Hgo; [rewrite length_take; lia|done]|]. intros r w2 [(Ht2 & Hd2 & _) ->].
    rewrite (proj2 (String.eqb_neq _ _) Hne). destruct fuel as [|fuel]; [apply wp_ret; split; [lia|done]|].
    cbn [replay_pages]. apply wp_bind. rewrite Hd1 in Hd2.
    eapply wp_mono; [by apply ListLogEvents_healthy; [|rewrite Hd2]|]. intros r w3 [(Ht3 & _) ->]. rewrite Hd2.
    destruct (decide (102 <= length rows)%nat) as [Hm|Hm].
    + destruct (page ev_EventID 100 (take 101 (window l (ev_EventID e) (w_db w)))) as [events next] eqn:Ep.
      destruct events as [|x events].
      { exfalso. apply (Hmore Hm). unfold page in Ep. destruct (window l (ev_EventID e) (w_db w)) as [|y t]; [done|].
        by destruct (_ <? _) in Ep. }
      apply wp_bind. eapply wp_mono.
      { apply replay_events_full; [rewrite take_in_count|rewrite take_in_all]; cbn [rp_replayed rp_ch start app]; rewrite length_take; unfold maxReplayEvents; lia. }
      intros r w4 ->. apply wp_ret. split; [lia|done].
    + rewrite Hlast by (fold rows; lia). apply wp_bind, wp_ret, wp_ret. cbn [take]. split; [|lia]. intros _ _. eexists. split; [done|].
      by rewrite take_in_all.
  - apply lookup_ge_None in He. fold rows. rewrite take_ge by lia. unfold page.
    destruct (Z.ltb_spec 100 (Z.of_nat (length rows))); [lia|]. apply wp_bind.
    eapply wp_mono; [by apply Hgo|]. intros r w2 [_ ->]. apply wp_ret. split; [|lia]. intros _ _. eexists. split; [done|].
    rewrite take_in_all. by rewrite take_ge by lia.
Qed.
End Window.

(** C30: what a replay can deliver. When the ids of the ledger ascend, the store answers,
    the context lives and every type after an event is asked for, a window of at most 100
    events is queued whole; of a window of 101 the last event is missing; and a larger one
    never opens, however long one waits. *)
Theorem Subscribe_window E patience fuel l from (w : World) :
  (forall n, e_fault E n = None) -> (forall n, e_done E n = false) ->
  w_tx w = TxNone -> reachable (w_db w) -> ids_ascend l (w_db w) -> from <> EmptyString ->
  wp E (Subscribe fuel patience l [] from) w (fun r _ =>
    ((length (window l from (w_db w)) <= 101)%nat -> (2 <= fuel)%nat ->
       exists s, r = Some (Ok s) /\ sb_ch s = take 100 (window l from (w_db w))) /\
    ((102 <= length (window l from (w_db w)))%nat -> r = None)).
Proof.
  intros Hh Hl Ht Hi%reachable_inv Ha Hf. unfold Subscribe. rewrite (proj2 (String.eqb_neq _ _) Hf). apply wp_bind.
  eapply wp_mono; [by apply replay_window|]. intros r w' [Hopen Hblock]. apply wp_ret. split.
  - intros Hn Hfuel. destruct (Hopen Hn Hfuel) as (st & -> & Hch). by exists (from_replay st).
  - intros Hn. by rewrite (Hblock Hn).
Qed.

(** C28: a subscriber gets no event twice. When the ids of the ledger's log ascend, and
    those of the notifications that follow, then whatever else happens (requests between
    the steps, failing reads, a slow client, a notification of a replayed event), no event
    id is sent, or waits to be sent, twice. *)
Theorem subscription_no_duplicates `{Deps} E fuel patience ctx req (w : World) :
  reachable (w_db w) -> w_tx w = TxNone -> ids_ascend (pbs.Subscribe_LedgerId req) (w_db w) ->
  wp E (rpc_Subscribe fuel patience ctx req) w (fun r _ => forall m, r = Some (Reply m) ->
    forall steps m', follows req steps m m' -> ascending (notified steps) -> NoDup (delivered_ids m')).
Proof.
  intros Hr%reachable_inv Ht Ha. unfold rpc_Subscribe. apply authorize_idle; [done|].
  intros [u|c e] w1 (Ht1 & Hd1 & _); [|by apply wp_ret]. rewrite <- Hd1 in Hr, Ha.
  apply wp_bind. eapply wp_mono; [by apply Subscribe_once|]. intros r w2 Hs. apply wp_ret.
  intros m Hm steps m' Hf Hasc. destruct r as [[s|e]|]; [|done..]. injection Hm as <-.
  eapply follows_once; [exact Hf|by apply Hs|exact Hasc|]. by apply Forall_forall; intros x _ y.
Qed.

(** what a live notification does. When its text decodes, its type is asked for, the
    store answers, the row is there and the context lives: an event that was replayed is
    skipped, and forgotten from the dedup set; any other is queued behind the others when
    the channel has a place, and counted as dropped when it has none. Nothing is sent by
    the step itself. *)
Theorem Message_effect `{Deps} E req payload n e m (w : World) :
  unmarshal_notification payload = Ok n -> sb_open (sm_sub m) = true ->
  shouldInclude (en_Type n) (event_types req) = true ->
  e_fault E (w_tick w) = None -> e_done E (S (w_tick w)) = false ->
  List.find (fun r => String.eqb (en_LedgerID n) (ev_LedgerID r) && String.eqb (en_EventID n) (ev_EventID r))
    (log_events (w_db w)) = Some e ->
  wp E (advance req (Message payload) m) w (fun m' _ =>
    let s := sm_sub m in let s' := sm_sub m' in
    sm_sent m' = sm_sent m /\ sm_done m' = sm_done m /\ sb_open s' = true /\
    match sb_replayedIDs s with
    | Some ids =>
        if decide (en_EventID n ∈ ids)
        then sb_replayedIDs s' = Some (ids ∖ {[en_EventID n]}) /\ sb_ch s' = sb_ch s /\ sb_dropped s' = sb_dropped s
        else sb_replayedIDs s' = (if string_lt (sb_highWaterMark s) (en_EventID n) then None else Some ids) /\
             queued_or_dropped e s s'
    | None => sb_replayedIDs s' = None /\ queued_or_dropped e s s'
    end).
Proof.
  intros Hu Ho Hi Hf Hd He. cbn [advance]. rewrite Ho. apply wp_bind. unfold on_message. rewrite Hu.
  assert (Hh : forall s, wp E (handleNotification n (event_types req) s) w (fun s' _ =>
            sb_open s' = sb_open s /\ sb_replayedIDs s' = sb_replayedIDs s /\ queued_or_dropped e s s')).
  { intros s. unfold handleNotification. rewrite Hi. apply wp_bind. unfold GetLogEvent, on_err, query_row.
    apply wp_bind, wp_mbind, wp_trigger. cbn [Prog.step]. unfold sql_pool, sql_select_log_event. rewrite Hf, He.
    do 2 apply wp_ret. apply wp_bind, wp_trigger. cbn. rewrite Hd. unfold queued_or_dropped. cbn.
    destruct (Z.of_nat (length (sb_ch s)) <? subscriptionBufferSize); by apply wp_ret. }
  unfold dedup. destruct (sb_replayedIDs (sm_sub m)) as [ids|] eqn:Er.
  - case_bool_decide as Hin; [|destruct (string_lt (sb_highWaterMark (sm_sub m)) (en_EventID n)) eqn:Em].
    + apply wp_ret, wp_ret. by rewrite decide_True.
    + eapply wp_mono; [apply Hh|]. intros s' w1 (H1 & H2 & H3). apply wp_ret. cbn. by rewrite decide_False, H1, H2.
    + eapply wp_mono; [apply Hh|]. intros s' w1 (H1 & H2 & H3). apply wp_ret. cbn. by rewrite decide_False, H1, H2.
  - eapply wp_mono; [apply Hh|]. intros s' w1 (H1 & H2 & H3). apply wp_ret. cbn. by rewrite H1, H2.
Qed.

(** ** A stream *)

(** Ids that ascend as text, and two databases: before and after a third post. *)
Definition ascending_env : Env := {|
  e_now := e_now sample_env; e_ulid := fun n => "ulid" +:+ pad 4 (Z.of_nat n); e_rand := e_rand sample_env;
  e_fault := e_fault sample_env; e_evicted := e_evicted sample_env; e_done := e_done sample_env; e_order := e_order sample_env |}.
Definition posts (n : nat) : list request :=
  Create {| cl_ID := "main"; cl_BucketID := ""; cl_Metadata := None |} ::
  take n [Intent "main" (post_intent "k1" [pay "_world" "alice" 100]); Intent "main" (post_intent "k2" [pay "alice" "bob" 30]);
          Intent "main" (post_intent "k3" [pay "alice" "shop" 20])].
Definition world_after (n : nat) : World := snd (run ascending_env (serve_all utc (posts n)) empty_world).

Lemma world_reachable n : reachable (w_db (world_after n)) /\ w_tx (world_after n) = TxNone.
Proof. apply served_reachable. Qed.

(** The ids of the three posts, and a parser for their notifications. *)
Definition post_ids : list string := event_ids (ledger_log "main" (w_db (world_after 3))).
Definition post_id (i : nat) : string := nth i post_ids EmptyString.
Definition post_notice (i : nat) : json :=
  json_of_notification {| en_LedgerID := "main"; en_EventID := post_id i; en_Type := EventTypeTransactionPosted |}.
#[local] Instance notice_deps : Deps :=
  {| has_subs := true; regexp_Compile := fun _ => None;
     json_parse := fun s => List.find (fun j => String.eqb s (marshal j)) (map post_notice (seq 0 3)) |}.

Definition reader_ctx : Context :=
  {| ctx_metadata := None; ctx_peer := None; ctx_principal := Some "ann"; ctx_identity := Some (NewIdentity "ann" ["main"] false) |}.
Definition reader_request : pbs.SubscribeRequest :=
  {| pbs.Subscribe_LedgerId := "main"; pbs.Subscribe_Types := []; pbs.Subscribe_FromEventId := post_id 0;
     pbs.Subscribe_IncludeHistorical := true |}.
(** The second post is replayed and notified; the third is notified. *)
Definition reader_steps : list (Env * World * sub_step) :=
  map (fun s => (ascending_env, world_after 3, s))
    [Message (marshal (post_notice 1)); Message (marshal (post_notice 2)); Forward true; Forward true; Closed; Forward true].
Definition opened : option stream :=
  match fst (run ascending_env (rpc_Subscribe 1001 0 reader_ctx reader_request) (world_after 2)) with
  | Some (Reply m) => Some m
  | _ => None
  end.
Definition read_stream : option stream := option_map (play reader_request reader_steps) opened.

Lemma ascending_b l :
  (fix go l := match l with a :: (b :: _) as t => string_lt a b && go t | _ => true end) l = true -> ascending l.
Proof.
  intros Hl. apply Sorted_StronglySorted; [intros x y z; apply string_lt_trans|].
  induction l as [|a [|b l] IH]; [constructor|by repeat constructor|].
  apply andb_true_iff in Hl as [Hab Hl]. constructor; [by apply IH|by constructor].
Qed.

(** A log of 104 imported events, [e000] to [e103]. *)
Definition entry_id (n : nat) : string := "e" +:+ pad 3 (Z.of_nat n).
Definition entry (n : nat) : LogEventRecord :=
  {| ev_EventID := entry_id n; ev_LedgerID := "main"; ev_LedgerSeq := Z.of_nat n + 1; ev_SystemTime := 0; ev_ValidTime := 0;
     ev_Type := EventTypeTransactionPosted; ev_Payload := Some "{}"; ev_IdempotencyKey := ""; ev_IdempotencyHash := None;
     ev_BatchID := ""; ev_SchemaVersion := 0 |}.
Definition entries (from count : nat) : list LogEventRecord := map entry (seq from count).
Definition busy_db : DB := set_log_events (entries 0 104) empty_db.
Definition busy : World := with_db busy_db empty_world.

Lemma entry_well_typed n : well_typed (entry n).
Proof. split; cbn; unfold known_type, EventTypeTransactionPosted, EventTypeApprovalRecorded; (done || lia). Qed.
Lemma entries_reachable n : (n <= 104)%nat -> reachable (set_log_events (entries 0 n) empty_db).
Proof.
  assert (Hnext : forallb (fun n => (Z.of_nat n + 1 =? next_seq "main" (set_log_events (entries 0 n) empty_db)) &&
      negb (existsb (log_conflict (entry n)) (entries 0 n))) (seq 0 104) = true) by (vm_compute; reflexivity).
  rewrite forallb_forall in Hnext. induction n as [|n IH]; intros Hn; [apply rtc_refl|].
  eapply rtc_r; [apply IH; lia|]. unfold entries. rewrite seq_S, map_app.
  apply (step_import false (entry n) (set_log_events (entries 0 n) empty_db)).
  destruct (andb_prop _ _ (Hnext n ltac:(apply in_seq; lia))) as [Hs%Z.eqb_eq Hc%negb_true_iff].
  split; [exact Hs|]. split; [exact Hc|apply entry_well_typed].
Qed.

(** After [e002] 101 events are left, after [e001] 102. *)
Lemma Subscribe_window_witness :
  w_tx busy = TxNone /\ reachable (w_db busy) /\ ids_ascend "main" (w_db busy) /\
  (exists s, fst (run ascending_env (Subscribe 2 0 "main" [] "e002") busy) = Some (Ok s) /\
             event_ids (sb_ch s) = map entry_id (seq 3 100)) /\
  fst (run ascending_env (Subscribe 1001 1001 "main" [] "e001") busy) = None.
Proof.
  assert (Hf : forall n, e_fault ascending_env n = None) by (intros n; reflexivity).
  assert (Hd : forall n, e_done ascending_env n = false) by (intros n; reflexivity).
  assert (Hr : reachable (w_db busy)) by (apply (entries_reachable 104); lia).
  assert (Ha : ids_ascend "main" (w_db busy)) by (apply ascending_b; vm_compute; reflexivity).
  split; [reflexivity|]. split; [exact Hr|]. split; [exact Ha|]. split.
  - destruct (wp_run _ _ _ _ (Subscribe_window ascending_env 0 2 "main" "e002" busy Hf Hd eq_refl Hr Ha ltac:(discriminate)) _ _ (surjective_pairing _)) as [Hopen _].
    destruct Hopen as (s & Hr' & Hch); [apply Nat.leb_le; vm_compute; reflexivity|lia|]. exists s. split; [exact Hr'|].
    rewrite Hch. vm_compute. reflexivity.
  - destruct (wp_run _ _ _ _ (Subscribe_window ascending_env 1001 1001 "main" "e001" busy Hf Hd eq_refl Hr Ha ltac:(discriminate)) _ _ (surjective_pairing _)) as [_ Hblock].
    apply Hblock. apply Nat.leb_le; vm_compute; reflexivity.
Defined.

(** A client whose context ends at the 500th look. *)
Definition ending_env : Env := {|
  e_now := e_now ascending_env; e_ulid := e_ulid ascending_env; e_rand := e_rand ascending_env;
  e_fault := e_fault ascending_env; e_evicted := e_evicted ascending_env; e_done := fun n => (500 <=? n)%nat; e_order := e_order ascending_env |}.

Lemma Subscribe_terminates_witness :
  w_tx (world_after 2) = TxNone /\ (forall n, (500 <= n)%nat -> e_done ending_env n = true) /\
  match fst (run ending_env (rpc_Subscribe 1001 501 reader_ctx reader_request) (world_after 2)) with
  | Some (Reply m) => event_ids (sb_ch (sm_sub m)) = [post_id 1]
  | _ => False
  end /\
  wp ending_env (rpc_Subscribe 1001 501 reader_ctx reader_request) (world_after 2) (fun r _ => exists a, r = Some a /\
    forall m, a = Reply m -> (length (sb_ch (sm_sub m)) <= 100)%nat /\ sm_sent m = [] /\
      Forall (fun e => shouldInclude (ev_Type e) (event_types reader_request) = true) (sb_ch (sm_sub m))).
Proof.
  assert (Hd : forall n, (500 <= n)%nat -> e_done ending_env n = true) by (intros n Hn; apply Nat.leb_le, Hn).
  split; [vm_compute; reflexivity|]. split; [exact Hd|]. split; [vm_compute; reflexivity|].
  apply (Subscribe_terminates ending_env 500 1001 reader_ctx reader_request (world_after 2)); [vm_compute; reflexivity|exact Hd|lia].
Defined.

Lemma subscription_no_duplicates_witness :
  reachable (w_db (world_after 2)) /\ w_tx (world_after 2) = TxNone /\ ids_ascend "main" (w_db (world_after 2)) /\
  ascending (notified (map snd reader_steps)) /\ notified (map snd reader_steps) = [post_id 1; post_id 2] /\
  option_map (fun m => (delivered_ids m, match sm_done m with Some (Reply _) => true | _ => false end)) read_stream = Some ([post_id 1; post_id 2], true) /\
  wp ascending_env (rpc_Subscribe 1001 0 reader_ctx reader_request) (world_after 2) (fun r _ => forall m, r = Some (Reply m) ->
    forall steps m', follows reader_request steps m m' -> ascending (notified steps) -> NoDup (delivered_ids m')).
Proof.
  destruct (world_reachable 2) as [Hr Ht].
  assert (Ha : ids_ascend "main" (w_db (world_after 2))) by (apply ascending_b; vm_compute; reflexivity).
  split; [exact Hr|]. split; [exact Ht|]. split; [exact Ha|].
  split; [apply ascending_b; vm_compute; reflexivity|]. split; [vm_compute; reflexivity|]. split; [vm_compute; reflexivity|].
  apply (subscription_no_duplicates ascending_env 1001 0 reader_ctx reader_request (world_after 2) Hr Ht Ha).
Defined.

Definition third_event : option LogEventRecord :=
  List.find (fun r => String.eqb "main" (ev_LedgerID r) && String.eqb (post_id 2) (ev_EventID r)) (log_events (w_db (world_after 3))).
Definition open_stream : stream :=
  {| sm_sub := {| sb_replayedIDs := Some {[post_id 1]}; sb_highWaterMark := post_id 1; sb_dropped := 0; sb_ch := []; sb_open := true |};
     sm_sent := []; sm_done := None |}.

Lemma Message_effect_witness :
  option_map ev_LedgerSeq third_event = Some 3 /\
  (forall e, third_event = Some e ->
   wp ascending_env (advance reader_request (Message (marshal (post_notice 2))) open_stream) (world_after 3) (fun m' _ =>
     sm_sent m' = [] /\ sb_replayedIDs (sm_sub m') = None /\ queued_or_dropped e (sm_sub open_stream) (sm_sub m'))).
Proof.
  split; [vm_compute; reflexivity|]. intros e He.
  assert (Hopen : sb_replayedIDs (sm_sub open_stream) = Some {[post_id 1]}) by reflexivity.
  assert (Hnew : post_id 2 ∉ ({[post_id 1]} : gset string)).
  { rewrite elem_of_singleton. apply String.eqb_neq. vm_compute. reflexivity. }
  assert (Hmark : (if string_lt (post_id 1) (post_id 2) then None else Some ({[post_id 1]} : gset string)) = None)
    by (vm_compute; reflexivity).
  eapply wp_mono.
  - apply (Message_effect ascending_env reader_request (marshal (post_notice 2))
             {| en_LedgerID := "main"; en_EventID := post_id 2; en_Type := EventTypeTransactionPosted |} e open_stream (world_after 3));
      [vm_compute; reflexivity|reflexivity|reflexivity|reflexivity|reflexivity|exact He].
  - intros m' w' (Hs & _ & _ & Hd). split; [exact Hs|]. rewrite Hopen, decide_False in Hd by exact Hnew.
    destruct Hd as [Hr Hq]. split; [|exact Hq]. rewrite Hr. exact Hmark.
Defined.
