(* ===== verification/Client.v ===== *)
(** * A transaction of the SDK, from the client to the tables

    The client of Sdk.v talks to the server of Rpc.v: [server_client] is what the
    generated client does over a connection whose server answers. *)
From S2P Require Import Prelude GoStd Config Regex Accounts Assets Policy Sha256 Json Storage Db Prog.
From S2P Require Import Logic Postgres BatchManager Redis Chart Planner Cores Operations IntentJson Approval.
From S2P Require Import Proto Auth RateLimit Grpc Queries Transfer Sdk Rpc.
From S2P Require Import Bodies StoreRules Effects ApprovalSteps Ledger Requests Intents Batches Moves TransferSteps RpcSteps Isolation Service Samples.

Section Client.
Context `{Deps, Jwt} (tz : Z -> Z) (cfg : Config).

(** A call: the reply is of the message type of the method. *)
Definition call_server {A} (pick : answer -> option A) (r : rpc) (md : outgoing) : prog (reply A) :=
  let! a := serve_configured tz cfg r (arriving md) in
  Ret match pick a with Some x => Reply x | None => Status Internal (EMsg "unexpected message") end.

#[local] Instance server_client : LedgerServiceClient := {|
  client_Submit md i := call_server (fun a => match a with ASubmit x => Some x | _ => None end) (SubmitRpc (Some i)) md;
  client_CreateLedger md req := call_server (fun a => match a with ALedger x => Some x | _ => None end) (CreateLedgerRpc req) md;
  client_GetLedger md id := call_server (fun a => match a with ALedger x => Some x | _ => None end) (GetLedgerRpc id) md;
  client_ListLedgers md size token :=
    call_server (fun a => match a with ALedgers x => Some x | _ => None end) (ListLedgersRpc size token) md;
  client_SealLedger md id := call_server (fun a => match a with ALedger x => Some x | _ => None end) (SealLedgerRpc id) md;
  client_GetTransaction md l id :=
    call_server (fun a => match a with ATransaction x => Some x | _ => None end) (GetTransactionRpc l id) md;
  client_GetAccount md l addr := call_server (fun a => match a with AAccount x => Some x | _ => None end) (GetAccountRpc l addr) md;
  client_GetBalance md req := call_server (fun a => match a with ABalance x => Some x | _ => None end) (GetBalanceRpc req) md;
  client_GetHold md l id := call_server (fun a => match a with AHold x => Some x | _ => None end) (GetHoldRpc l id) md;
  client_ListHolds md req account :=
    call_server (fun a => match a with AHolds x => Some x | _ => None end) (ListHoldsRpc req account) md;
  client_GetRelationships md l id depth :=
    call_server (fun a => match a with ARelationships x => Some x | _ => None end) (GetRelationshipsRpc l id depth) md
|}.

Implicit Types w : World.

(** What an accepted post did: a hit that changed nothing, or one post. *)
Definition accepted (E : Env) (b : sdk.TransactionBuilder) w (resp : pb.SubmitResponse) w' : Prop :=
  exists ps a, parse_postings "posting: invalid amount" (sdk.tb_postings b) = Reply ps /\
    pb.SubmitResponse_EventId resp = sr_EventID a /\ pb.SubmitResponse_IdempotentHit resp = sr_IdempotentHit a /\
    (if sr_IdempotentHit a then untouched w w'
     else applied (posted_by (sdk.tb_ledgerID b) ps (sdk.tb_reference b) (metadata_if_present (sdk.tb_metadata b))
                     (sdk.tb_ik b) None) w a w').

Lemma submitted_after E S w w1 r w' : idle w w1 -> submitted E S w1 r w' -> submitted E S w r w'.
Proof.
  intros Hi. assert (Hu : forall w2, untouched w1 w2 -> untouched w w2).
  { intros w2 Hu. eapply untouched_trans; [by apply idle_untouched|exact Hu]. }
  assert (Ha : forall a w2, applied S w1 a w2 -> applied S w a w2).
  { intros a w2 (Ht & d0 & Hd & HS). split; [done|]. exists d0. split; [|done]. destruct Hi as (_ & <- & _). exact Hd. }
  intros [(a & -> & Hh & Hw)|Hw]; [left; exists a; auto|]. right. unfold attempted in *. destruct r; naive_solver.
Qed.

Lemma handlePost_spec E b w i :
  sdk.built b = Ok i -> sdk.tb_dryRun b = false -> w_tx w = TxNone ->
  wp E (handlePost i {| pb.Post_Postings := sdk.tb_postings b |}) w (fun r w' => forall resp, r = Reply resp -> accepted E b w resp w').
Proof.
  intros Hb Hdry Ht. unfold sdk.built in Hb. destruct (sdk.tb_postings b) as [|p l] eqn:El; [done|]. rewrite <- El in *.
  destruct (sdk.validate_postings (sdk.tb_postings b)) as [[]|]; [|done]. injection Hb as <-. unfold handlePost. cbv zeta.
  apply wp_reply_bind, wp_ret. destruct (parse_postings _ (pb.Post_Postings _)) as [ps|c e] eqn:Ep; [|done].
  apply wp_reply_bind, wp_call_or. cbn [pb.Intent_LedgerId pb.Intent_Reference pb.Intent_Metadata pb.Intent_IdempotencyKey
    pb.Intent_ValidTime pb.Intent_DryRun]. rewrite Hdry. eapply wp_mono; [by apply SubmitPost_posted|].
  intros [a|e] w' Hs; [|destruct (mapPlannerError_status (A := SubmitResult) e) as (c & m & ->); done].
  apply wp_ret. intros resp [= <-]. exists ps, a. split_and!; [done..|].
  destruct Hs as [(a' & [= <-] & Hh & Hu)|Hs]; [by rewrite Hh|].
  pose proof Hs as (_ & d0 & _ & ledger & _ & _ & t0 & ikh & now & ev & txID & _ & _ & _ & _ & Ha). rewrite Ha in *. exact Hs.
Qed.

Lemma rpc_Submit_post E b ctx w i :
  sdk.built b = Ok i -> sdk.tb_dryRun b = false -> w_tx w = TxNone ->
  wp E (rpc_Submit ctx (Some i)) w (fun r w' => forall resp, r = Reply resp -> accepted E b w resp w').
Proof.
  intros Hb Hdry Ht. assert (Hop : pb.Intent_Operation i = Some (pb.Intent_Post {| pb.Post_Postings := sdk.tb_postings b |})).
  { unfold sdk.built in Hb. destruct (sdk.tb_postings b); [done|]. destruct (sdk.validate_postings _); [|done]. by injection Hb as <-. }
  unfold rpc_Submit. destruct (String.eqb _ EmptyString); [by apply wp_ret|].
  apply wp_reply_bind. eapply wp_mono; [apply reads_idle; [apply reads_extractPrincipal|done]|]. intros [p|c e] w1 H1; [|done].
  destruct (classifyIntent i) as [opType touched].
  apply wp_reply_bind. eapply wp_mono; [apply reads_idle; [apply reads_authorizeLedger|apply H1]|]. intros [u|c e] w2 H2; [|done].
  apply wp_reads_bind; [apply reads_EvaluatePolicy|apply H2|]. intros [u'|e] w3 H3.
  - rewrite Hop. eapply wp_mono; [apply handlePost_spec; [done..|apply H3]|]. intros r w' Hr resp ->.
    destruct (Hr _ eq_refl) as (ps & a & Hp & He & Hh & Hd). exists ps, a. split_and!; [done..|].
    assert (Hi : idle w w3) by eauto using idle_trans. destruct (sr_IdempotentHit a).
    + eapply untouched_trans; [by apply idle_untouched|exact Hd].
    + destruct Hd as (Ht' & d0 & Hd0 & HS). split; [done|]. exists d0. split; [|done]. destruct Hi as (_ & <- & _). exact Hd0.
  - apply wp_bind, wp_any. intros [] w4. apply wp_ret. by destruct (mapPlannerError_status (A := pb.SubmitResponse) e) as (c & m & ->).
Qed.

Lemma verified_token tok :
  tok <> EmptyString -> trim_space tok = tok -> forall token,
  verified cfg (arriving (sdk.intercepted {| sdk.bearerToken := tok |} ∅)) token ->
  exists now, jwt_Parse now (auth_Audience (cfg_Auth cfg)) (auth_Issuer (cfg_Auth cfg)) tok = Some token.
Proof.
  intros Hne Htr token (raw & now & Hb & Hp). exists now.
  pose proof (bearer_roundtrip tok (arriving ∅) Hne Htr) as Hr. cbn in Hr, Hb. unfold arriving in Hb. rewrite Hr in Hb.
  by injection Hb as <-.
Qed.

(** C17: posting with the SDK. What the client refuses is not sent. What it sends moves the
    database along the steps of the ledger, whatever fails; and when the server accepts
    it, the token of the client verified and names the ledger, the amounts were read, and
    the post was done exactly once, as it was built: the event, the transaction and the
    two rows of each posting, and nothing else; or its key was a hit, and nothing changed. *)
Theorem client_post E tok b w :
  reachable (w_db w) -> w_tx w = TxNone -> tok <> EmptyString -> trim_space tok = tok -> sdk.tb_dryRun b = false ->
  wp E (sdk.Submit {| sdk.bearerToken := tok |} ∅ b) w (fun r w' =>
    moves false w w' /\
    match r with
    | Err _ => w' = w
    | Ok (Status _ _) => True
    | Ok (Reply resp) =>
        (exists now token, jwt_Parse now (auth_Audience (cfg_Auth cfg)) (auth_Issuer (cfg_Auth cfg)) tok = Some token /\
           names_ledger token (sdk.tb_ledgerID b)) /\
        accepted E b w resp w'
    end).
Proof.
  intros Hr Ht Hne Htr Hdry. unfold sdk.Submit, sdk.submitted. destruct (sdk.built b) as [i|e] eqn:Eb.
  2:{ apply wp_ret. split; [|done]. by apply untouched_moves, idle_untouched. }
  assert (Hl : rpc_ledger (SubmitRpc (Some i)) = Some (sdk.tb_ledgerID b)).
  { unfold sdk.built in Eb. destruct (sdk.tb_postings b); [done|]. destruct (sdk.validate_postings _); [|done]. by injection Eb as <-. }
  set (ctx := arriving (sdk.intercepted {| sdk.bearerToken := tok |} ∅)).
  apply wp_bind. cbn [sdk.applySubmitOptions fold_left client_Submit server_client]. unfold call_server.
  apply wp_reply_bind. eapply wp_mono; [apply wp_and; [refine (sl_configured tz false true (fun A => @moving A E false) cfg _ ctx _ _ w Hr Ht); done|]|].
  - apply (wp_served tz cfg E (SubmitRpc (Some i)) ctx w (fun a w' => forall resp, a = Reply (ASubmit resp) ->
      (exists token, verified cfg ctx token /\ names_ledger token (sdk.tb_ledgerID b)) /\ accepted E b w resp w')); [done|done|].
    intros token id w1 Hv _ Hn Hi. destruct (CanAccessLedger id (sdk.tb_ledgerID b)) eqn:Ea.
    + cbn [handle]. apply wp_reply_bind. eapply wp_mono; [apply rpc_Submit_post; [done..|apply Hi]|].
      intros [resp|c e] w2 Hd; [|done]. apply wp_ret. intros resp' [= <-].
      split; [exists token; split; [done|by apply Hn]|].
      destruct (Hd _ eq_refl) as (ps & a & Hp & He & Hh & Hact). exists ps, a. split_and!; [done..|].
      destruct (sr_IdempotentHit a); [eapply untouched_trans; [by apply idle_untouched|exact Hact]|].
      destruct Hact as (Ht' & d0 & Hd0 & HS). split; [done|]. exists d0. split; [|done]. destruct Hi as (_ & <- & _). exact Hd0.
    + destruct (refuses_handle tz (list_to_set (auth_AdminPrincipals (cfg_Auth cfg))) (sdk.tb_ledgerID b) (SubmitRpc (Some i))
                  (contextWithIdentity id (contextWithPrincipal (id_Principal id) ctx)) id eq_refl Ea Hl) as (c & e & ->).
      by apply wp_ret.
  - intros [a|c e] w' [Hm Hacc]; [|by apply wp_ret].
    apply wp_ret. destruct a; try (by apply wp_ret). apply wp_ret. split; [exact Hm|].
    destruct (Hacc _ eq_refl) as [(token & Hv & Hn) Hd]. split; [|exact Hd].
    destruct (verified_token tok Hne Htr token Hv) as (now & Hp). by exists now, token.
Qed.
End Client.

(** ** A run *)

Definition ann_client : sdk.Client := {| sdk.bearerToken := "ann.jwt" |}.
Definition ann_post (dst amount : string) : sdk.TransactionBuilder :=
  sdk.WithMetadata "note" "lunch" (sdk.WithIdempotencyKey "k9" (sdk.Post "alice" dst amount "USD/2" (sdk.NewTransaction "main"))).
Definition ann_posts (b : sdk.TransactionBuilder) : string * list Z :=
  let '(r, w') := run sample_env (@sdk.Submit (server_client utc sample_config) ann_client ∅ b) sample_world in
  (match r with Ok (Reply _) => "posted" | Ok (Status _ _) => "refused" | Err _ => "not sent" end,
   map (fun a => available "main" a "USD/2" (w_db w')) ["alice"; "bob"; "shop"]).

Lemma client_post_witness :
  reachable (w_db sample_world) /\ w_tx sample_world = TxNone /\ trim_space "ann.jwt" = "ann.jwt" /\
  ann_posts (ann_post "bob" "30") = ("posted", [50; 30; 5]) /\ ann_posts (ann_post "bob" "81") = ("refused", [80; 0; 5]) /\
  ann_posts (ann_post "bob" "-1") = ("not sent", [80; 0; 5]) /\
  wp sample_env (@sdk.Submit (server_client utc sample_config) ann_client ∅ (ann_post "bob" "30")) sample_world (fun r w' =>
    moves false sample_world w' /\
    match r with
    | Err _ => w' = sample_world
    | Ok (Status _ _) => True
    | Ok (Reply resp) =>
        (exists now token, jwt_Parse now "" "" "ann.jwt" = Some token /\ names_ledger token "main") /\
        accepted sample_env (ann_post "bob" "30") sample_world resp w'
    end).
Proof.
  destruct sample_reachable as [Hr Ht].
  split; [exact Hr|]. split; [vm_compute; reflexivity|]. split; [reflexivity|].
  split; [vm_compute; reflexivity|]. split; [vm_compute; reflexivity|]. split; [vm_compute; reflexivity|].
  apply (client_post utc sample_config sample_env "ann.jwt" (ann_post "bob" "30") sample_world Hr);
    [vm_compute; reflexivity|discriminate|reflexivity|reflexivity].
Defined.
