(* ===== verification/Guarantees.v ===== *)
(** * What the service guarantees

    The theorems about whole requests, each with a run of the sample service that meets
    its hypotheses. *)
From S2P Require Import Prelude GoStd Regex Accounts Assets Policy Sha256 Json Storage Db Prog.
From S2P Require Import Logic Postgres BatchManager Redis Chart Planner Cores Operations Auth Bodies StoreRules.
From S2P Require Import Effects Ledger Solvency Requests Intents Idempotency Batches Expiry Moves Service.
From S2P Require Import Samples.

(** ** Any sequence of requests *)

Section Sequences.
Context `{Deps, Jwt} (tz : Z -> Z) (E : Env).
Implicit Types w : World.

Lemma serve_all_inv rs w :
  reachable (w_db w) -> w_tx w = TxNone -> wp E (serve_all tz rs) w (fun _ w' => ledger_inv (w_db w')).
Proof.
  intros Hr Ht. eapply wp_mono; [by apply (serve_all_moves tz E false)|]. intros x w' [_ Hs].
  apply reachable_inv. unfold reachable in *. by etransitivity.
Qed.

(** C1: double entry. After any sequence of requests to the service, whatever statements
    fail and whatever replies are lost, the trial balance of every ledger in every asset
    is zero: the input deltas of all accounts sum up to the output deltas. *)
Theorem books_balance rs w :
  reachable (w_db w) -> w_tx w = TxNone ->
  wp E (serve_all tz rs) w (fun _ w' => forall l asset, trial l asset (volumes_delta (w_db w')) = 0).
Proof. intros Hr Ht. eapply wp_mono; [by apply serve_all_inv|]. intros x w' Hi. apply (i_trial _ Hi). Qed.


(** C5: the log of every ledger is numbered 1, 2, 3, ... without a gap or a repetition,
    and no two events of the service share an id. *)
Theorem log_contiguous rs w :
  reachable (w_db w) -> w_tx w = TxNone ->
  wp E (serve_all tz rs) w (fun _ w' =>
    (forall l, map ev_LedgerSeq (ledger_log l (w_db w')) = seqZ 1 (Z.of_nat (length (ledger_log l (w_db w'))))) /\
    NoDup (map ev_EventID (log_events (w_db w')))).
Proof. intros Hr Ht. eapply wp_mono; [by apply serve_all_inv|]. intros x w' Hi. split; apply Hi. Qed.

(** An idempotency key of a ledger is recorded at most once, and its record names an
    event of the log that carries the same ledger, key and request hash. *)
Theorem keys_unique rs w :
  reachable (w_db w) -> w_tx w = TxNone ->
  wp E (serve_all tz rs) w (fun _ w' =>
    NoDup (map ik_key (idempotency_keys (w_db w'))) /\
    forall r, r ∈ idempotency_keys (w_db w') -> exists ev, ev ∈ log_events (w_db w') /\ recorded_by r ev).
Proof. intros Hr Ht. eapply wp_mono; [by apply serve_all_inv|]. intros x w' Hi. split; apply Hi. Qed.

(** C27: after any sequence of requests served one after the other, under any failures, a
    hold is authorized for a positive amount, and never captured beyond it; its id is unique
    in its ledger. *)
Theorem holds_bounded rs w :
  reachable (w_db w) -> w_tx w = TxNone ->
  wp E (serve_all tz rs) w (fun _ w' =>
    Forall (fun h => 0 < ho_AuthorizedAmount h /\ 0 <= ho_CapturedAmount h <= ho_AuthorizedAmount h) (holds (w_db w')) /\
    NoDup (map hold_key (holds (w_db w')))).
Proof. intros Hr Ht. eapply wp_mono; [by apply serve_all_inv|]. intros x w' Hi. split; apply Hi. Qed.

(** C26: no transaction is reverted twice by requests that are served one after the other.
    Two overlapping reverts can both succeed (Interleaved.v). *)
Theorem reverted_once rs w :
  reachable (w_db w) -> w_tx w = TxNone ->
  wp E (serve_all tz rs) w (fun _ w' => NoDup (reverted (w_db w'))).
Proof. intros Hr Ht. eapply wp_mono; [by apply serve_all_inv|]. intros x w' Hi. apply Hi. Qed.
End Sequences.

Lemma empty_reachable : reachable (w_db empty_world).
Proof. constructor. Qed.

Lemma books_balance_witness :
  reachable (w_db empty_world) /\ w_tx empty_world = TxNone /\
  wp sample_env (serve_all utc sample_requests) empty_world
    (fun _ w' => forall l asset, trial l asset (volumes_delta (w_db w')) = 0) /\
  length (volumes_delta (w_db sample_world)) = 8%nat.
Proof.
  split; [exact empty_reachable|]. split; [reflexivity|].
  split; [apply (books_balance utc sample_env sample_requests empty_world); [exact empty_reachable|reflexivity]|].
  vm_compute. reflexivity.
Defined.


Lemma log_contiguous_witness :
  reachable (w_db empty_world) /\ w_tx empty_world = TxNone /\
  wp sample_env (serve_all utc sample_requests) empty_world (fun _ w' =>
    (forall l, map ev_LedgerSeq (ledger_log l (w_db w')) = seqZ 1 (Z.of_nat (length (ledger_log l (w_db w'))))) /\
    NoDup (map ev_EventID (log_events (w_db w')))) /\
  map ev_LedgerSeq (ledger_log "main" (w_db sample_world)) = [1; 2; 3; 4; 5].
Proof.
  split; [exact empty_reachable|]. split; [reflexivity|].
  split; [apply (log_contiguous utc sample_env sample_requests empty_world); [exact empty_reachable|reflexivity]|].
  vm_compute. reflexivity.
Defined.

Lemma keys_unique_witness :
  reachable (w_db empty_world) /\ w_tx empty_world = TxNone /\
  wp sample_env (serve_all utc sample_requests) empty_world (fun _ w' =>
    NoDup (map ik_key (idempotency_keys (w_db w'))) /\
    forall r, r ∈ idempotency_keys (w_db w') -> exists ev, ev ∈ log_events (w_db w') /\ recorded_by r ev) /\
  map ik_key (idempotency_keys (w_db sample_world)) = 
    [("main", "k1"); ("main", "k2"); ("main", "k3"); ("main", "k4"); ("main", "k5")].
Proof.
  split; [exact empty_reachable|]. split; [reflexivity|].
  split; [apply (keys_unique utc sample_env sample_requests empty_world); [exact empty_reachable|reflexivity]|].
  vm_compute. reflexivity.
Defined.

Lemma holds_bounded_witness :
  reachable (w_db empty_world) /\ w_tx empty_world = TxNone /\
  wp sample_env (serve_all utc sample_requests) empty_world (fun _ w' =>
    Forall (fun h => 0 < ho_AuthorizedAmount h /\ 0 <= ho_CapturedAmount h <= ho_AuthorizedAmount h) (holds (w_db w')) /\
    NoDup (map hold_key (holds (w_db w')))) /\
  map (fun h => (ho_CapturedAmount h, ho_AuthorizedAmount h)) (holds (w_db sample_world)) = [(5, 20)].
Proof.
  split; [exact empty_reachable|]. split; [reflexivity|].
  split; [apply (holds_bounded utc sample_env sample_requests empty_world); [exact empty_reachable|reflexivity]|].
  vm_compute. reflexivity.
Defined.

Lemma reverted_once_witness :
  reachable (w_db empty_world) /\ w_tx empty_world = TxNone /\
  wp sample_env (serve_all utc sample_requests) empty_world (fun _ w' => NoDup (reverted (w_db w'))) /\
  reverted (w_db sample_world) = [("main", "ulid40")].
Proof.
  split; [exact empty_reachable|]. split; [reflexivity|].
  split; [apply (reverted_once utc sample_env sample_requests empty_world); [exact empty_reachable|reflexivity]|].
  vm_compute. reflexivity.
Defined.

(** ** One request *)

Section Requests.
Context `{Deps} (E : Env).
Implicit Types w : World.

(** C3: atomicity of [executeIntent], the dispatch to the Submit* functions of one intent that
    an approval and a best-effort batch make (whole batches, schemas, approvals and dry runs
    are not intents of it). An intent either commits exactly one operation on a ledger that is not
    sealed and answers with the id of its event; or is a hit on its idempotency key, and
    changes nothing; or fails, and changes nothing, unless the reply of the commit was
    lost, when its one operation was applied. "Nothing" is the committed database (the
    batches aside) and the messages to the subscribers. No transaction is left open. *)
Theorem executeIntent_atomic l intent w :
  w_tx w = TxNone ->
  wp E (executeIntent l intent) w (fun r w' =>
    let done := applied (request_done (safe_intent intent) l (bi_IdempotencyKey intent)) w in
    match r with
    | Ok a => if sr_IdempotentHit a then untouched w w' else done a w'
    | Err e => untouched w w' \/ (e = commit_lost /\ loses E /\ exists a, done a w')
    end).
Proof.
  intros Ht. eapply wp_mono; [by apply submission_submitted, Ht; apply executeIntent_submission|].
  intros r w' [(a & -> & Hh & Hu)|Ha]; [by rewrite Hh|]. destruct r as [a|e]; [|done].
  pose proof Ha as (Ht' & d0 & Hs & ikh & _ & Hi).
  rewrite (it_hit _ _ _ _ _ _ _ Hi). exact Ha.
Qed.

(** C31: a ledger that is sealed, or does not exist, rejects every intent: the request
    fails, the committed database does not change and no message is published. *)
Theorem closed_ledger_rejects l intent w :
  w_tx w = TxNone ->
  (forall ledger, find_ledger l (w_db w) = Some ledger -> lr_State ledger = ledgerStateSealed) ->
  wp E (executeIntent l intent) w (fun r w' => untouched w w' /\ exists e, r = Err e).
Proof. intros Ht Hc. by eapply submission_closed; [apply executeIntent_submission|..]. Qed.

(** C22: the effect of a post. When it succeeds (and its key is not a hit), the postings
    are valid, every source that is not an issuer had its net output available, and the
    database gains exactly the event, the transaction with its fresh id, and the two
    delta rows of each posting. *)
Theorem SubmitPost_effect l ps ref meta key vt w :
  w_tx w = TxNone ->
  wp E (SubmitPost l ps ref meta key vt false) w (submitted E (on_open l (fun ledger d r d' =>
    exists t0 ikh now, post_done t0 ledger ps ref meta key ikh (default now vt) now d r d')) w).
Proof. apply SubmitPost_posted. Qed.

(** The effect of a conversion: the legs of the source, the destination and the
    slippage in the two assets, after the source was found to have what it pays in all. *)
Theorem SubmitConvert_effect l params key w :
  w_tx w = TxNone ->
  wp E (SubmitConvert l params key) w (submitted E (on_open l (fun ledger d r d' =>
    exists t0 ikh now, convert_done t0 ledger params key ikh (default now (cv_ValidTime params)) now d r d')) w).
Proof.
  intros Ht. unfold SubmitConvert. destruct (validateConvertParams params) as [[]|e]; [|by apply failed_submitted].
  on_open doConvertInTx_spec.
Qed.

(** the effect of an authorization: one new hold of a positive amount that the source
    had available, no delta row. *)
Theorem SubmitAuthorize_effect l src hint asset amt exp key w :
  w_tx w = TxNone ->
  wp E (SubmitAuthorize l src hint asset amt exp key) w (submitted E (on_open l (fun ledger d r d' =>
    exists t0 ikh now, authorize_done t0 ledger src hint asset amt exp key ikh now d r d')) w).
Proof.
  intros Ht. unfold SubmitAuthorize. destruct amt as [a|]; [|by apply failed_submitted].
  destruct (a <=? 0); [by apply failed_submitted|]. on_open doAuthorizeInTx_spec.
Qed.

(** C24: the effect of a capture: of a live hold only, by at most what is left of it; the
    amount moves from the hold's source to the destination (the hold's hint by default). *)
Theorem SubmitCapture_effect l id amt dest key w :
  w_tx w = TxNone ->
  wp E (SubmitCapture l id amt dest key) w (submitted E (on_open l (fun _ d r d' =>
    exists t0 ikh now, capture_done t0 l id amt dest key ikh now d r d')) w).
Proof.
  intros Ht. unfold SubmitCapture. destruct amt as [a|]; [|by apply failed_submitted].
  destruct (a <=? 0); [by apply failed_submitted|]. on_open doCaptureInTx_spec.
Qed.

(** The effect of a void: a live hold, and nothing else, becomes void. *)
Theorem SubmitVoid_effect l id key w :
  w_tx w = TxNone ->
  wp E (SubmitVoid l id key) w (submitted E (on_open l (fun _ d r d' =>
    exists t0 ikh, void_done t0 l id key ikh d r d')) w).
Proof. intros Ht. unfold SubmitVoid. on_open doVoidInTx_spec. Qed.

(** C23: the effect of a revert: the postings of the transaction swapped, as a transaction
    of its own related to the original, which had not been reverted; unless forced, every
    account that gives back is an issuer or has the amount available. *)
Theorem SubmitRevert_effect l id force eff reason key w :
  w_tx w = TxNone ->
  wp E (SubmitRevert l id force eff reason key) w (submitted E (on_open l (fun _ d r d' =>
    exists t0 ikh now, revert_done t0 l id force eff reason key ikh now d r d')) w).
Proof. intros Ht. unfold SubmitRevert. on_open doRevertInTx_spec. Qed.

Lemma executeIntent_moves `{Jwt} (tz : Z -> Z) l i w a w1 :
  reachable (w_db w) -> w_tx w = TxNone -> run E (executeIntent l i) w = (a, w1) -> reachable (w_db w1) /\ w_tx w1 = TxNone.
Proof.
  intros Hr Ht H1. pose proof (serve_all_moves tz E false [Intent l i] w Hr Ht) as Hm. cbn [serve_all serve] in Hm.
  unfold ignore, wp in Hm. rewrite !run_bind, H1 in Hm. destruct Hm as [Ht1 Hs]; [done|].
  split; [by eapply reachable_steps|done].
Qed.

(** C4: a key is used once. After an intent under a non-empty key succeeded (its cache
    entry absent before) and any requests were served, a second intent under the key, in
    any environment and whatever it asks for, changes nothing, and when it succeeds it is
    a hit that answers with the event of the first. When it is the same intent, the first
    was executed, the ledger is open and nothing fails, it does succeed. The cache entry of
    the key may be lost in between, but is not written by someone else (as it is for the
    colliding keys of redis.go:55). *)
Theorem key_used_once `{Jwt} (tz : Z -> Z) Eb E2 rs l i1 i2 w a w1 w2 r w3 :
  reachable (w_db w) -> w_tx w = TxNone ->
  bi_IdempotencyKey i1 <> "" -> bi_IdempotencyKey i2 = bi_IdempotencyKey i1 ->
  w_redis w !! idempotencyKey l (bi_IdempotencyKey i1) = None ->
  run E (executeIntent l i1) w = (Ok a, w1) ->
  run Eb (serve_all tz rs) w1 = (tt, w2) -> entry_kept l (bi_IdempotencyKey i1) w1 w2 ->
  run E2 (executeIntent l i2) w2 = (r, w3) ->
  untouched w2 w3 /\ (forall b, r = Ok b -> sr_IdempotentHit b = true /\ sr_EventID b = sr_EventID a) /\
  (i2 = i1 -> sr_IdempotentHit a = false -> (forall n, e_fault E2 n = None) ->
   (exists ledger, find_ledger l (w_db w2) = Some ledger /\ lr_State ledger <> ledgerStateSealed) ->
   r = Ok (hit_result (sr_EventID a))).
Proof.
  intros Hr Ht Hne Hk Hu H1 Hb He H2. pose proof (executeIntent_submission l i1) as Hs1.
  pose proof (executeIntent_submission l i2) as Hs2. rewrite Hk in Hs2.
  destruct (executeIntent_moves tz l i1 w _ _ Hr Ht H1) as [Hr1 Ht1].
  destruct (wp_run _ _ _ _ (serve_all_moves tz Eb false rs w1 Hr1 Ht1 ltac:(done)) _ _ Hb) as [Ht2 Hst].
  destruct (submissions_once E E2 _ _ false l _ _ _ w a w1 w2 r w3 Hs1 Hs2 Hne Ht Hu H1 Ht2 Hst He H2) as (Hn & Hhit & Hsame).
  split_and!; [done..|]. intros -> Hnh. by apply Hsame.
Qed.

(** a dry run answers without a trace: no statement of it stays in the committed
    database (the batches aside) and no message is published. *)
Theorem dry_run_untouched l ps ref meta key vt w :
  w_tx w = TxNone -> wp E (SubmitPost l ps ref meta key vt true) w (fun _ w' => untouched w w').
Proof. apply DryRun_untouched. Qed.
End Requests.

(** ** Batches and background jobs *)

Section Jobs.
Context `{Deps} (E : Env).
Implicit Types w : World.


(** BEST_EFFORT. There is one result per intent, the counts of the answer add up to
    their number, and unless the reply of a commit was lost no more operations were
    committed than intents succeeded. *)
Theorem batch_best_effort_counts l intents w :
  w_tx w = TxNone ->
  wp E (SubmitBatch l intents "BEST_EFFORT") w
    (best_effort E (forallb safe_intent intents) l (length intents) w).
Proof. intros Ht. by apply best_effort_spec. Qed.

(** C32: the expiry sweep ends in every environment: one pass more than there are live
    holds is enough, since every pass that is followed by another has released one; and
    what it did to the ledgers is a sequence of expiries. *)
Theorem ExpireHolds_terminates fuel w :
  w_tx w = TxNone -> reachable (w_db w) -> (live (w_db w) < fuel)%nat ->
  wp E (ExpireHolds fuel) w (fun r w' => (exists x, r = Some x) /\ steps true (w_db w) (w_db w')).
Proof.
  intros Ht Hr Hf. eapply wp_mono.
  { apply wp_and; [apply (ExpireHolds_ends E fuel w Ht (reachable_inv _ Hr) Hf)|by apply (ExpireHolds_steps E true)]. }
  intros r w' [Hn [_ Hs]]. split; [|done]. destruct r; [by eexists|done].
Qed.

(** an expiry releases its hold or does nothing: it appends the event and marks the
    hold if it was still live, and it succeeds without effect only when the hold was
    voided or expired already. *)
Theorem expireSingleHold_effect h w :
  w_tx w = TxNone -> wp E (expireSingleHold h) w (expiry h w).
Proof. apply expireSingleHold_spec. Qed.
End Jobs.

(** ** Runs of the sample service *)

Definition sample_convert : ConvertParams :=
  {| cv_Source := "alice"; cv_Destination := "_world"; cv_SourceAmount := Some 10; cv_SourceAsset := "USD/2";
     cv_DestAmount := Some 9; cv_DestAsset := "EUR/2"; cv_Rate := "0.9"; cv_RateSource := "desk";
     cv_SlippageAmount := None; cv_SlippageAccount := ""; cv_ValidTime := None |}.

Lemma sample_idle : w_tx sample_world = TxNone.
Proof. vm_compute. reflexivity. Qed.

Lemma executeIntent_atomic_witness :
  w_tx sample_world = TxNone /\
  wp sample_env (executeIntent "main" (post_intent "k9" [pay "alice" "bob" 10])) sample_world (fun r w' =>
    let done := applied (request_done true "main" "k9") sample_world in
    match r with
    | Ok a => if sr_IdempotentHit a then untouched sample_world w' else done a w'
    | Err e => untouched sample_world w' \/ (e = commit_lost /\ loses sample_env /\ exists a, done a w')
    end) /\
  is_ok (fst (run sample_env (executeIntent "main" (post_intent "k9" [pay "alice" "bob" 10])) sample_world)) = true.
Proof.
  split; [exact sample_idle|].
  split; [apply (executeIntent_atomic sample_env "main" (post_intent "k9" [pay "alice" "bob" 10]) sample_world sample_idle)|].
  vm_compute. reflexivity.
Defined.

(** No ledger "other" exists in the sample database. *)
Lemma closed_ledger_rejects_witness :
  w_tx sample_world = TxNone /\
  (forall ledger, find_ledger "other" (w_db sample_world) = Some ledger -> lr_State ledger = ledgerStateSealed) /\
  wp sample_env (executeIntent "other" (post_intent "" [pay "_world" "bob" 1])) sample_world
    (fun r w' => untouched sample_world w' /\ exists e, r = Err e).
Proof.
  assert (Hc : forall ledger, find_ledger "other" (w_db sample_world) = Some ledger -> lr_State ledger = ledgerStateSealed).
  { intros ledger Hl. exfalso. assert (Hn : find_ledger "other" (w_db sample_world) = None) by (vm_compute; reflexivity).
    rewrite Hn in Hl. discriminate Hl. }
  split; [exact sample_idle|]. split; [exact Hc|].
  apply (closed_ledger_rejects sample_env "other" (post_intent "" [pay "_world" "bob" 1]) sample_world sample_idle Hc).
Defined.

Lemma SubmitPost_effect_witness :
  w_tx sample_world = TxNone /\
  wp sample_env (SubmitPost "main" [pay "alice" "bob" 10] "" None "" None false) sample_world
    (submitted sample_env (on_open "main" (fun ledger d r d' =>
      exists t0 ikh now, post_done t0 ledger [pay "alice" "bob" 10] "" None "" ikh now now d r d')) sample_world) /\
  is_ok (fst (run sample_env (SubmitPost "main" [pay "alice" "bob" 10] "" None "" None false) sample_world)) = true.
Proof.
  split; [exact sample_idle|].
  split; [apply (SubmitPost_effect sample_env "main" [pay "alice" "bob" 10] "" None "" None sample_world sample_idle)|].
  vm_compute. reflexivity.
Defined.

Lemma SubmitConvert_effect_witness :
  w_tx sample_world = TxNone /\
  wp sample_env (SubmitConvert "main" sample_convert "") sample_world
    (submitted sample_env (on_open "main" (fun ledger d r d' =>
      exists t0 ikh now, convert_done t0 ledger sample_convert "" ikh now now d r d')) sample_world) /\
  is_ok (fst (run sample_env (SubmitConvert "main" sample_convert "") sample_world)) = true.
Proof.
  split; [exact sample_idle|].
  split; [apply (SubmitConvert_effect sample_env "main" sample_convert "" sample_world sample_idle)|].
  vm_compute. reflexivity.
Defined.

Lemma SubmitAuthorize_effect_witness :
  w_tx sample_world = TxNone /\
  wp sample_env (SubmitAuthorize "main" "alice" "shop" "USD/2" (Some 10) 0 "") sample_world
    (submitted sample_env (on_open "main" (fun ledger d r d' =>
      exists t0 ikh now, authorize_done t0 ledger "alice" "shop" "USD/2" (Some 10) 0 "" ikh now d r d')) sample_world) /\
  is_ok (fst (run sample_env (SubmitAuthorize "main" "alice" "shop" "USD/2" (Some 10) 0 "") sample_world)) = true.
Proof.
  split; [exact sample_idle|].
  split; [apply (SubmitAuthorize_effect sample_env "main" "alice" "shop" "USD/2" (Some 10) 0 "" sample_world sample_idle)|].
  vm_compute. reflexivity.
Defined.

Lemma SubmitCapture_effect_witness :
  w_tx sample_world = TxNone /\
  wp sample_env (SubmitCapture "main" "ulid70" (Some 10) "" "") sample_world
    (submitted sample_env (on_open "main" (fun _ d r d' =>
      exists t0 ikh now, capture_done t0 "main" "ulid70" (Some 10) "" "" ikh now d r d')) sample_world) /\
  is_ok (fst (run sample_env (SubmitCapture "main" "ulid70" (Some 10) "" "") sample_world)) = true.
Proof.
  split; [exact sample_idle|].
  split; [apply (SubmitCapture_effect sample_env "main" "ulid70" (Some 10) "" "" sample_world sample_idle)|].
  vm_compute. reflexivity.
Defined.

Lemma SubmitVoid_effect_witness :
  w_tx sample_world = TxNone /\
  wp sample_env (SubmitVoid "main" "ulid70" "") sample_world
    (submitted sample_env (on_open "main" (fun _ d r d' =>
      exists t0 ikh, void_done t0 "main" "ulid70" "" ikh d r d')) sample_world) /\
  is_ok (fst (run sample_env (SubmitVoid "main" "ulid70" "") sample_world)) = true.
Proof.
  split; [exact sample_idle|].
  split; [apply (SubmitVoid_effect sample_env "main" "ulid70" "" sample_world sample_idle)|].
  vm_compute. reflexivity.
Defined.

Lemma SubmitRevert_effect_witness :
  w_tx sample_world = TxNone /\
  wp sample_env (SubmitRevert "main" "ulid8" true false "typo" "") sample_world
    (submitted sample_env (on_open "main" (fun _ d r d' =>
      exists t0 ikh now, revert_done t0 "main" "ulid8" true false "typo" "" ikh now d r d')) sample_world) /\
  is_ok (fst (run sample_env (SubmitRevert "main" "ulid8" true false "typo" "") sample_world)) = true.
Proof.
  split; [exact sample_idle|].
  split; [apply (SubmitRevert_effect sample_env "main" "ulid8" true false "typo" "" sample_world sample_idle)|].
  vm_compute. reflexivity.
Defined.

Lemma dry_run_untouched_witness :
  w_tx sample_world = TxNone /\
  wp sample_env (SubmitPost "main" [pay "alice" "bob" 10] "" None "" None true) sample_world
    (fun _ w' => untouched sample_world w').
Proof.
  split; [exact sample_idle|].
  apply (dry_run_untouched sample_env "main" [pay "alice" "bob" 10] "" None "" None sample_world sample_idle).
Defined.

Definition first_run := run sample_env (executeIntent "main" (post_intent "k9" [pay "alice" "bob" 10])) sample_world.
Definition first_result : SubmitResult := match fst first_run with Ok a => a | Err _ => event_result "" end.
Definition between : list request := [Intent "main" (post_intent "k10" [pay "alice" "bob" 1])].
Definition between_run := run sample_env (serve_all utc between) (snd first_run).
Definition second_run := run sample_env (executeIntent "main" (authorize_intent "k9" "bob" "" 1)) (snd between_run).
Definition repeat_run := run sample_env (executeIntent "main" (post_intent "k9" [pay "alice" "bob" 10])) (snd between_run).

(** After another post, the same key for another request fails, for the same request it
    is a hit. *)
Lemma key_used_once_witness :
  (length (log_events (w_db (snd first_run))) < length (log_events (w_db (snd between_run))))%nat /\
  (untouched (snd between_run) (snd second_run) /\ fst second_run = Err (ESent ErrInvalidIdempotencyInput)) /\
  (untouched (snd between_run) (snd repeat_run) /\ fst repeat_run = Ok (hit_result (sr_EventID first_result))).
Proof.
  assert (H1 : run sample_env (executeIntent "main" (post_intent "k9" [pay "alice" "bob" 10])) sample_world =
    (Ok first_result, snd first_run)) by (vm_compute; reflexivity).
  assert (Hb : run sample_env (serve_all utc between) (snd first_run) =
    (tt, snd between_run)) by (vm_compute; reflexivity).
  assert (He : entry_kept "main" "k9" (snd first_run) (snd between_run)).
  { intros fields Hf. rewrite <- Hf. vm_compute. reflexivity. }
  assert (Hf : forall n, e_fault sample_env n = None) by (intros n; reflexivity).
  split; [apply Nat.ltb_lt; vm_compute; reflexivity|]. split.
  - split; [|vm_compute; reflexivity].
    apply (key_used_once sample_env utc sample_env sample_env between "main" (post_intent "k9" [pay "alice" "bob" 10])
      (authorize_intent "k9" "bob" "" 1) sample_world first_result (snd first_run) (snd between_run) (fst second_run) (snd second_run));
      [exact (proj1 sample_reachable)|exact sample_idle|discriminate|reflexivity|vm_compute; reflexivity|exact H1|exact Hb|exact He|vm_compute; reflexivity].
  - destruct (key_used_once sample_env utc sample_env sample_env between "main" (post_intent "k9" [pay "alice" "bob" 10])
      (post_intent "k9" [pay "alice" "bob" 10]) sample_world first_result (snd first_run) (snd between_run) (fst repeat_run) (snd repeat_run)
      (proj1 sample_reachable) sample_idle ltac:(discriminate) eq_refl ltac:(vm_compute; reflexivity) H1 Hb He ltac:(vm_compute; reflexivity)) as (Hn & _ & Hhit).
    split; [exact Hn|]. apply Hhit; [reflexivity|vm_compute; reflexivity|exact Hf|].
    eexists. split; [vm_compute; reflexivity|]. vm_compute. discriminate.
Defined.

Definition sample_batch : list BatchIntent :=
  [post_intent "" [pay "_world" "carol" 5]; post_intent "" [pay "carol" "bob" 9]].


Lemma batch_best_effort_counts_witness :
  w_tx sample_world = TxNone /\
  wp sample_env (SubmitBatch "main" sample_batch "BEST_EFFORT") sample_world
    (best_effort sample_env true "main" 2 sample_world) /\
  option_map br_Successes (fst (fst (run sample_env (SubmitBatch "main" sample_batch "BEST_EFFORT") sample_world))) = Some 1.
Proof.
  split; [exact sample_idle|].
  split; [apply (batch_best_effort_counts sample_env "main" sample_batch sample_world sample_idle)|].
  vm_compute. reflexivity.
Defined.

(** A reachable database with a live hold that is due. *)
Definition due_world : World := after (take 4 sample_requests).
Lemma due_idle : w_tx due_world = TxNone.
Proof. vm_compute. reflexivity. Qed.
Lemma due_reachable : reachable (w_db due_world).
Proof. apply served_reachable. Qed.

Lemma ExpireHolds_terminates_witness :
  w_tx due_world = TxNone /\ reachable (w_db due_world) /\ (live (w_db due_world) < 2)%nat /\
  wp sample_env (ExpireHolds 2) due_world
    (fun r w' => (exists x, r = Some x) /\ steps true (w_db due_world) (w_db w')) /\
  live (w_db (snd (run sample_env (ExpireHolds 2) due_world))) = 0%nat.
Proof.
  split; [exact due_idle|]. split; [exact due_reachable|].
  assert (Hf : (live (w_db due_world) < 2)%nat) by (apply Nat.ltb_lt; vm_compute; reflexivity).
  split; [exact Hf|]. split; [apply (ExpireHolds_terminates sample_env 2 due_world due_idle due_reachable Hf)|].
  vm_compute. reflexivity.
Defined.

Definition due_hold : option HoldRecord := head (holds (w_db due_world)).

Lemma expireSingleHold_effect_witness :
  match due_hold with
  | Some h => wp sample_env (expireSingleHold h) due_world (expiry h due_world) /\
              fst (run sample_env (expireSingleHold h) due_world) = Ok tt
  | None => False
  end.
Proof.
  destruct due_hold as [h|] eqn:Eh.
  - split; [exact (expireSingleHold_effect sample_env h due_world due_idle)|].
    vm_compute in Eh. injection Eh as <-. vm_compute. reflexivity.
  - vm_compute in Eh. discriminate Eh.
Defined.

(** ** A chart *)

Definition sample_chart : ChartOfAccounts :=
  [("users", mkNode [("$id", mkNode [] "" None true None)] "" None false None)].

Lemma sample_chart_unambiguous : unambiguous sample_chart.
Proof.
  intros nodes Hw seg x y Hx Hy _ _. unfold sample_chart in *.
  inversion Hw as [|? ? ? ? H1 H2]; subst.
  { apply list_elem_of_singleton in Hx as ->, Hy as ->. reflexivity. }
  apply list_elem_of_singleton in H1 as [= -> ->]. simpl in H2.
  inversion H2 as [|? ? ? ? H3 H4]; subst.
  { apply list_elem_of_singleton in Hx as ->, Hy as ->. reflexivity. }
  apply list_elem_of_singleton in H3 as [= -> ->]. simpl in H4.
  inversion H4 as [|? ? ? ? H5 H6]; subst; [by apply not_elem_of_nil in Hx|by apply not_elem_of_nil in H5].
Qed.

Lemma ValidateAccount_spec_witness :
  unambiguous sample_chart /\
  (fst (run sample_env (ValidateAccount sample_chart "users:42") empty_world) = Ok tt <->
   sample_chart = [] \/ accepts sample_chart (split_on ":" "users:42")) /\
  fst (run sample_env (ValidateAccount sample_chart "users:42") empty_world) = Ok tt.
Proof.
  split; [exact sample_chart_unambiguous|].
  split; [apply (ValidateAccount_spec sample_env sample_chart "users:42" empty_world sample_chart_unambiguous)|].
  vm_compute. reflexivity.
Defined.
