(* ===== verification/Governance.v ===== *)
(** * Dual control

    The theorems about intents that wait for approval: what one approval does, and the
    invariant of the approvals of everything the service can reach. *)
From S2P Require Import Prelude GoStd Regex Accounts Assets Policy Sha256 Json Storage Db Prog.
From S2P Require Import Logic Postgres BatchManager Redis Chart Planner Cores Operations IntentJson Approval Auth Bodies StoreRules.
From S2P Require Import Effects ApprovalSteps Ledger Solvency Requests Intents Batches Expiry Approvals Service.
From S2P Require Import Samples.

Section Governance.
Context `{Deps, Jwt} (tz : Z -> Z) (E : Env).
Implicit Types w : World.

(** C8: dual control. After any sequence of requests served one after the other, under any
    failures: an approval has a key of its own; it was signed by approvers it names only, by
    each at most once, and never by its submitter; and whatever was executed, is being
    executed, or failed when it was, had been signed by all of them (an approver with an
    empty name counts as signed, see [complete]). And whoever approves next, in any
    environment, changes nothing but the approvals and the batches, unless the row was
    pending, he is named, is not its submitter and had not signed, and all the others had;
    such an approval leaves the row in another state than "pending", so it is the only one.
    Submitting an approval, and the sweep, execute nothing. *)
Theorem dual_control rs w :
  reachable (w_db w) -> w_tx w = TxNone ->
  wp E (serve_all tz rs) w (fun _ w' =>
    approvals_inv (pending_approvals (w_db w')) /\
    (forall E2 l id principal signature, wp E2 (Approve l id principal signature) w' (fun _ w2 =>
       only_approvals (w_db w') (w_db w2) \/ executes_complete l id principal (w_db w') (w_db w2))) /\
    (forall E2 l payload approvers submitter expires, wp E2 (SubmitForApproval l payload approvers submitter expires) w' (fun _ w2 =>
       only_approvals (w_db w') (w_db w2))) /\
    (forall E2 threshold, wp E2 (ExpireStaleApprovals threshold) w' (fun _ w2 => only_approvals (w_db w') (w_db w2)))).
Proof.
  intros Hr Ht. eapply wp_mono; [by apply (serve_all_moves tz E false)|]. intros x w' [Ht' Hs].
  assert (Hi : approvals_inv (pending_approvals (w_db w'))) by (apply reachable_approvals; by eapply reachable_steps).
  split_and!; [exact Hi|intros; by apply Approve_executes|intros; apply writes_approvals_only..];
    [apply writes_SubmitForApproval|apply writes_ExpireStaleApprovals].
Qed.

End Governance.

(** ** Runs of the sample service *)

(** An intent of carl's that ann and ben must sign. *)
Definition sample_approval : list request :=
  sample_requests ++ [ForApproval "main" (Some sample_payload) (Some ["ann"; "ben"]) "carl" 0].
Definition parked : World := after sample_approval.
Definition parked_id : string := match pending_approvals (w_db parked) with a :: _ => pa_IntentID a | [] => "" end.

(** carl may not sign, ann does, once, and ben's signature executes. *)
Definition sample_signatures : list request :=
  [ApproveOne "main" parked_id "carl" "x"; ApproveOne "main" parked_id "ann" "a"; ApproveOne "main" parked_id "ann" "b";
   ApproveOne "main" parked_id "ben" "c"; ExpireApprovals 0].

Definition approval_states (w : World) : list (string * list string) :=
  map (fun a => (pa_State a, signed_by a)) (pending_approvals (w_db w)).

Lemma parked_reachable : reachable (w_db parked).
Proof. apply served_reachable. Qed.
Lemma parked_idle : w_tx parked = TxNone.
Proof. vm_compute. reflexivity. Qed.

Lemma only_approvals_log d d' : only_approvals d d' -> length (log_events d') = length (log_events d).
Proof. by intros (b & t & ->). Qed.

(** ann's signature is one of two and moves no money, ben's is the last. *)
Definition first_signature : list request := [ApproveOne "main" parked_id "carl" "x"; ApproveOne "main" parked_id "ann" "a"].
Definition half_signed : World := snd (run sample_env (serve_all utc first_signature) parked).
Definition ben_signs : World := snd (run sample_env (Approve "main" parked_id "ben" "c") half_signed).

Lemma dual_control_witness :
  reachable (w_db parked) /\ w_tx parked = TxNone /\
  approvals_inv (pending_approvals (w_db half_signed)) /\ approval_states half_signed = [("pending", ["ann"])] /\
  (forall p, p <> "ben" -> wp sample_env (Approve "main" parked_id p "x") half_signed (fun _ w2 =>
     only_approvals (w_db half_signed) (w_db w2) \/ executes_complete "main" parked_id p (w_db half_signed) (w_db w2))) /\
  executes_complete "main" parked_id "ben" (w_db half_signed) (w_db ben_signs) /\
  approval_states ben_signs = [("executed", ["ann"; "ben"])] /\
  map (available "main" "carol" "USD/2") [w_db half_signed; w_db ben_signs] = [0; 25].
Proof.
  assert (H1 : run sample_env (serve_all utc first_signature) parked = (tt, half_signed)) by (vm_compute; reflexivity).
  assert (H2 : run sample_env (Approve "main" parked_id "ben" "c") half_signed =
    (fst (run sample_env (Approve "main" parked_id "ben" "c") half_signed), ben_signs)) by (vm_compute; reflexivity).
  assert (Hlog : length (log_events (w_db ben_signs)) <> length (log_events (w_db half_signed))) by (vm_compute; discriminate).
  destruct (wp_run _ _ _ _ (dual_control utc sample_env first_signature parked parked_reachable parked_idle) _ _ H1) as (Hi & Happrove & _).
  split; [exact parked_reachable|]. split; [exact parked_idle|]. split; [exact Hi|]. split; [vm_compute; reflexivity|].
  split; [intros p _; apply Happrove|]. split; [|split; vm_compute; reflexivity].
  destruct (wp_run _ _ _ _ (Happrove sample_env "main" parked_id "ben" "c") _ _ H2) as [Ho|Hc]; [|exact Hc].
  destruct (Hlog (only_approvals_log _ _ Ho)).
Defined.

