(* ===== verification/Attestation.v ===== *)
(** * A closed batch verifies

    What [closeBatch] wrote is what [VerifyBatch] recomputes, as long as the events of the
    batch are the same and are read in a process of the same time zone. *)
From S2P Require Import Prelude GoStd Sha256 Merkle Json Storage Db Prog Logic Postgres.
From S2P Require Import BatchManager Requests Planner Operations Moves Service Samples.

(** The events of a batch, in the order they are hashed. *)
Definition batch_events (b : string) (d : DB) : list LogEventRecord :=
  order_by ev_LedgerSeq (List.filter (fun r => String.eqb b (ev_BatchID r)) (log_events d)).

(** The row of a batch carries the root and the number of its events. *)
Definition sealed_by (tz : Z -> Z) (b : string) (d : DB) : Prop :=
  forall row, List.find (fun x => String.eqb b (ba_BatchID x)) (log_batches d) = Some row ->
    ba_MerkleRoot row = ComputeRoot sha256 (map (leaf tz) (batch_events b d)) /\
    ba_EventCount row = Z.of_nat (length (batch_events b d)).

Lemma find_closed now root n b t row :
  List.find (fun x => String.eqb b (ba_BatchID x)) (map (fun x => if String.eqb b (ba_BatchID x) then close_row now root n x else x) t)
    = Some row -> ba_MerkleRoot row = root /\ ba_EventCount row = n.
Proof.
  induction t as [|x t IH]; simpl; [done|].
  destruct (String.eqb b (ba_BatchID x)) eqn:E; simpl; rewrite E; [by intros [= <-]|done].
Qed.

(** A select on the pool: the state is the same, and a reply is what was selected. *)
Lemma wp_select {A} E (f : Z -> DB -> A) (w : World) :
  w_tx w = TxNone -> wp E (exec Pool (fun now d => inr (f now d, d))) w (fun r w' => idle w w' /\
    forall a, r = Ok a -> exists now, a = f now (w_db w)).
Proof.
  intros Ht. apply wp_and; [apply reads_idle; [split; [apply read_stmt_select|done]|done]|].
  eapply wp_mono; [by apply wp_exec_pool|]. intros r w' [[_ Hr]|(_ & now & a & Hs & Hr)] x ->; [done|].
  destruct Hr as [[= ->]|]; [|done]. injection Hs as <- _. by exists now.
Qed.

Lemma ListBatchEvents_spec E b (w : World) :
  w_tx w = TxNone -> wp E (ListBatchEvents Pool b) w (fun r w' => idle w w' /\
    forall es, r = Ok es -> es = batch_events b (w_db w)).
Proof.
  intros Ht. apply wp_wrap. eapply wp_mono; [by apply (wp_select E (fun _ d => _))|].
  intros r w' [Hi Hr]. split; [done|]. destruct r as [es|e]; simpl; [|done]. intros x [= <-].
  by destruct (Hr es eq_refl) as [now ->].
Qed.

Lemma closeBatch_spec tz E l b (w : World) :
  w_tx w = TxNone -> wp E (closeBatch tz l b) w (fun r w' => untouched w w' /\
    (r = Ok tt -> batch_events b (w_db w) <> [] -> sealed_by tz b (w_db w'))).
Proof.
  intros Ht. apply wp_and; [apply run_closed; [apply tx_ok_closeBatch|done]|].
  unfold closeBatch. apply wp_mbind, wp_wrap. eapply wp_mono; [by apply ListBatchEvents_spec|].
  intros [es|e] w1 [(Ht1 & Hd1 & _) He]; [|done]. simpl. rewrite (He es eq_refl). clear es He.
  destruct (batch_events b (w_db w)) as [|e0 es0] eqn:Ev; [done|]. rewrite <- Ev.
  apply wp_wrap, wp_wrap. eapply wp_mono; [by apply wp_exec_pool|].
  intros r w2 [[_ Hr]|(_ & now & [] & Hs & Hr)] Hok _; [by destruct r|].
  unfold sql_close_batch in Hs. injection Hs as Hd2. rewrite Hd1 in Hd2.
  intros row Hrow. rewrite <- Hd2 in *. simpl in *. change (batch_events b _) with (batch_events b (w_db w)).
  by apply find_closed in Hrow.
Qed.

Lemma VerifyBatch_spec tz E b (w : World) :
  w_tx w = TxNone -> sealed_by tz b (w_db w) ->
  wp E (VerifyBatch tz b) w (fun r _ => forall valid root count, r = Ok (valid, root, count) ->
    valid = true /\ root = ComputeRoot sha256 (map (leaf tz) (batch_events b (w_db w))) /\
    count = Z.of_nat (length (batch_events b (w_db w)))).
Proof.
  intros Ht Hs. unfold VerifyBatch. apply wp_mbind. unfold GetBatch, on_err, query_row.
  apply wp_bind, wp_mbind. eapply wp_mono; [by apply (wp_select E (fun _ d => _))|].
  intros [[row|]|e] w1 [(Ht1 & Hd1 & _) Hr]; try (by unfold wp; simpl).
  destruct (Hr _ eq_refl) as [now Hrow]. destruct (Hs row (eq_sym Hrow)) as [Hroot _]. clear Hr.
  apply wp_ret, wp_ret. cbn [rmap_err]. destruct (ba_MerkleRoot row) as [root|] eqn:Em; [|by apply wp_ret; intros].
  apply wp_mbind. eapply wp_mono; [by apply ListBatchEvents_spec|]. intros [es|e] w2 [_ He]; [|done].
  rewrite (He es eq_refl), Hd1. apply wp_ret. intros valid root' count [= <- <- <-].
  split_and!; [|done|done]. unfold Verify. rewrite <- Hroot. apply String.eqb_refl.
Qed.

(** C34: attestation. After a batch with events was closed, and while its events stay the
    same, a verification in the same time zone that gets its answers from the database
    finds the recorded root valid, and counts the events of the batch. *)
Theorem closed_batch_verifies tz E1 E2 l b (w : World) w1 valid root count w2 :
  w_tx w = TxNone -> batch_events b (w_db w) <> [] ->
  run E1 (closeBatch tz l b) w = (Ok tt, w1) ->
  run E2 (VerifyBatch tz b) w1 = (Ok (valid, root, count), w2) ->
  valid = true /\ root = ComputeRoot sha256 (map (leaf tz) (batch_events b (w_db w))) /\
  count = Z.of_nat (length (batch_events b (w_db w))).
Proof.
  intros Ht Hne H1 H2.
  destruct (wp_run _ _ _ _ (closeBatch_spec tz E1 l b w Ht) _ _ H1) as [(Ht1 & Hd1 & _) Hs].
  specialize (Hs eq_refl Hne). assert (Hev : batch_events b (w_db w1) = batch_events b (w_db w)) by (by rewrite Hd1).
  rewrite <- Hev. exact (wp_run _ _ _ _ (VerifyBatch_spec tz E2 b w1 Ht1 Hs) _ _ H2 valid root count eq_refl).
Qed.

Definition sample_batchID : string := match log_events (w_db sample_world) with e :: _ => ev_BatchID e | [] => "" end.
Definition close_run := run sample_env (closeBatch utc "main" sample_batchID) sample_world.
Definition verify_run := run sample_env (VerifyBatch utc sample_batchID) (snd close_run).

Lemma closed_batch_verifies_witness :
  (true = true /\ snd (fst (match fst verify_run with Ok x => x | Err _ => (false, None, 0) end)) =
     ComputeRoot sha256 (map (leaf utc) (batch_events sample_batchID (w_db sample_world))) /\
   1 = Z.of_nat (length (batch_events sample_batchID (w_db sample_world)))) /\
  length (batch_events sample_batchID (w_db sample_world)) = 1%nat.
Proof.
  split; [|vm_compute; reflexivity].
  apply (closed_batch_verifies utc sample_env sample_env "main" sample_batchID sample_world (snd close_run) true
    (snd (fst (match fst verify_run with Ok x => x | Err _ => (false, None, 0) end))) 1 (snd verify_run)).
  - vm_compute. reflexivity.
  - vm_compute. discriminate.
  - vm_compute. reflexivity.
  - vm_compute. reflexivity.
Defined.
