(* ===== verification/Defects.v ===== *)
(** * Where the code does not do what it means to

    Theorems and runs of the sample service that show it. *)
From S2P Require Import Prelude GoStd Regex Accounts Assets Policy Sha256 Json Storage Db Prog.
From S2P Require Import Logic Postgres BatchManager Redis Chart Planner Cores Operations Bodies StoreRules.
From S2P Require Import Effects Ledger Solvency Requests Intents Batches Expiry Service Samples.

(** ** A post that touches a bucket twice *)

Lemma fresh_rows_distinct l e ds t :
  fresh_rows ds t -> Forall (fun r => vd_LedgerID r = l /\ vd_Shard r = 0 /\ vd_EventID r = e) ds ->
  NoDup (map bucket_of ds) /\
  forall r, r ∈ ds -> existsb (delta_conflict r) t = false.
Proof.
  intros Hf Ha. revert t Hf. induction Ha as [|r ds (Hl & Hs & He) Ha IH]; intros t.
  - intros _. split; [constructor|]. by intros r ?%not_elem_of_nil.
  - intros [Hc Hf]. destruct (IH _ Hf) as [Hn Hx]. simpl. split.
    + constructor; [|done]. intros Hin. apply list_elem_of_In, in_map_iff in Hin as (x & Hb & Hx').
      apply list_elem_of_In in Hx'. rewrite Forall_forall in Ha. destruct (Ha x Hx') as (Hlx & Hsx & Hex).
      specialize (Hx x Hx'). rewrite existsb_app in Hx. apply orb_false_iff in Hx as [_ Hx].
      unfold delta_conflict, bucket_of in *. simpl in Hx. injection Hb as H1 H2.
      by rewrite Hlx, Hl, Hsx, Hs, Hex, He, H1, H2, !String.eqb_refl, Z.eqb_refl in Hx.
    + intros x Hx'. apply elem_of_cons in Hx' as [->|Hx']; [done|]. specialize (Hx x Hx').
      rewrite existsb_app in Hx. by apply orb_false_iff in Hx as [Hx _].
Qed.

Section Posts.
Context `{Deps} (E : Env).

(** C40: a post (not a dry run) that touches the same account and asset twice (from an
    account to itself, or A to B and B to C) is a hit on its key, or fails, with nothing
    done: the primary key of volumes_delta has no posting index, and the second row of the
    bucket is refused by the plain INSERT of store_volumes.go. The test of double entry
    (test/conformance/t001_double_entry_test.go) and the usage of the SDK's builder
    (pkg/sdk/transaction.go) submit such posts and expect success. *)
Theorem repeated_bucket_fails l ps ref meta key vt (w : World) :
  w_tx w = TxNone -> ~ NoDup (buckets_of ps) ->
  wp E (SubmitPost l ps ref meta key vt false) w (fun r w' =>
    untouched w w' /\ forall a, r = Ok a -> sr_IdempotentHit a = true).
Proof.
  intros Ht Hn. unfold SubmitPost. destruct (validatePostings ps) as [[]|e] eqn:Hv; [|by apply wp_ret].
  cbv zeta. apply wp_mbind, wp_ret. eapply wp_mono; [apply (guarded_submitted E (fun _ _ _ => False)); [done|]|].
  - intros ledger now Hid Hs. split; [auto with tx_ok|]. intros t0 d Hl.
    eapply txwp_mono; [apply doPostInTx_spec|]. apply on_ok_mono. intros r d' (ev & txID & He & _).
    apply Hn. rewrite <- (posting_rows_buckets (lr_ID ledger) (ev_EventID ev) (default now vt) now ps) by
      (by apply validatePostings_ok).
    eapply fresh_rows_distinct; [apply (ef_deltas_fresh _ _ _ _ _ _ _ _ _ _ _ _ He)|]. apply posting_rows_shape.
  - intros r w' [(a & -> & Hh & Hu)|Ha]; [split; [done|]; by intros b [= <-]|].
    destruct r as [a|e]; [by destruct Ha as (_ & d0 & _ & [])|].
    destruct Ha as [Hu|(_ & _ & a & _ & d0 & _ & [])]. by split.
Qed.
End Posts.

Lemma repeated_bucket_fails_witness :
  w_tx sample_world = TxNone /\ ~ NoDup (buckets_of [pay "alice" "bob" 5; pay "bob" "shop" 5]) /\
  wp sample_env (SubmitPost "main" [pay "alice" "bob" 5; pay "bob" "shop" 5] "" None "" None false) sample_world
    (fun r w' => untouched sample_world w' /\ forall a, r = Ok a -> sr_IdempotentHit a = true) /\
  is_ok (fst (run sample_env (SubmitPost "main" [pay "alice" "bob" 5; pay "bob" "shop" 5] "" None "" None false) sample_world)) = false.
Proof.
  assert (Ht : w_tx sample_world = TxNone) by (vm_compute; reflexivity).
  assert (Hn : ~ NoDup (buckets_of [pay "alice" "bob" 5; pay "bob" "shop" 5])).
  { intros Hn. apply (proj2 (bool_decide_spec _)) in Hn. vm_compute in Hn. exact Hn. }
  split; [exact Ht|]. split; [exact Hn|].
  split; [apply (repeated_bucket_fails sample_env "main" [pay "alice" "bob" 5; pay "bob" "shop" 5] "" None "" None
                   sample_world Ht Hn)|].
  vm_compute. reflexivity.
Defined.

(** ** Pagination *)

(** The rows a listing of ledgers asks for. *)
Definition ledger_rows (token : string) (n : Z) (d : DB) : list LedgerRecord :=
  limit n (order_by_text lr_ID (List.filter (fun x => after_token token (lr_ID x)) (ledgers d))).

Lemma ledger_rows_sub token n d : ledger_rows token n d ⊆ ledgers d.
Proof.
  intros x Hx. unfold ledger_rows, limit, order_by_text in Hx. apply (subseteq_take _ _ x) in Hx.
  rewrite merge_sort_Permutation in Hx. apply list_elem_of_In, List.filter_In in Hx as [Hx _]. by apply list_elem_of_In.
Qed.

Lemma ledger_rows_distinct n d : NoDup (map lr_ID (ledgers d)) -> NoDup (map lr_ID (ledger_rows "" n d)).
Proof.
  intros Hn. unfold ledger_rows, limit, order_by_text. set (l := merge_sort _ _).
  assert (Hl : NoDup (map lr_ID l)).
  2:{ rewrite <- (take_drop (Z.to_nat n) l), map_app in Hl. by apply NoDup_app in Hl as [Hl _]. }
  unfold l. rewrite merge_sort_Permutation. replace (List.filter _ (ledgers d)) with (ledgers d); [done|]. clear l.
  induction (ledgers d) as [|x ls IH]; [done|]. change (x :: ls = x :: List.filter (fun x => after_token "" (lr_ID x)) ls). apply NoDup_cons in Hn as [_ Hn]. f_equal. by apply IH.
Qed.

Lemma ledger_rows_after token n d x : token <> "" -> x ∈ ledger_rows token n d -> lr_ID x <> token.
Proof.
  intros Ht Hx. unfold ledger_rows, limit, order_by_text in Hx. apply (subseteq_take _ _ x) in Hx.
  rewrite merge_sort_Permutation in Hx. apply list_elem_of_In, List.filter_In in Hx as [_ Hx].
  unfold after_token in Hx. rewrite (proj2 (String.eqb_neq _ _) Ht) in Hx. intros Heq. rewrite Heq in Hx.
  by rewrite string_lt_irrefl in Hx.
Qed.

Lemma ListLedgers_page `{Deps} E params (w : World) :
  w_tx w = TxNone -> wp E (ListLedgers Pool params) w (fun r w' => w_tx w' = TxNone /\ w_db w' = w_db w /\
    forall x, r = Ok x -> x = page lr_ID (page_size (lp_PageSize params))
                              (ledger_rows (lp_PageToken params) (page_size (lp_PageSize params) + 1) (w_db w))).
Proof.
  intros Ht. unfold ListLedgers. apply wp_mbind, wp_wrap, wp_trigger. simpl. unfold sql_pool, sql_list_ledgers.
  destruct (e_fault E (w_tick w)) as [[]|]; simpl; rewrite ?Ht; try by split_and!.
  apply wp_ret. simpl. split_and!; try done. by intros x [= <-].
Qed.

(** The listing of ledgers loses one record at every page boundary: the token of the
    next page is the first record that was not returned, and the next page starts after
    it. Whatever the sizes of the two pages, the record with the token's id is a ledger of
    the database that neither of them holds. *)
Theorem page_boundary_lost `{Deps} (E1 E2 : Env) (w : World) size1 size2 p1 token w1 p2 token2 w2 :
  w_tx w = TxNone -> NoDup (map lr_ID (ledgers (w_db w))) ->
  run E1 (ListLedgers Pool {| lp_PageSize := size1; lp_PageToken := "" |}) w = (Ok (p1, token), w1) -> token <> "" ->
  run E2 (ListLedgers Pool {| lp_PageSize := size2; lp_PageToken := token |}) w1 = (Ok (p2, token2), w2) ->
  In token (map lr_ID (ledgers (w_db w))) /\ ~ In token (map lr_ID p1) /\ ~ In token (map lr_ID p2).
Proof.
  intros Ht Hn H1 Htok H2.
  destruct (wp_run _ _ _ _ (ListLedgers_page E1 _ w Ht) _ _ H1) as (Ht1 & Hd1 & Hp1). specialize (Hp1 _ eq_refl).
  destruct (wp_run _ _ _ _ (ListLedgers_page E2 _ w1 Ht1) _ _ H2) as (_ & _ & Hp2). specialize (Hp2 _ eq_refl).
  simpl in *. rewrite Hd1 in Hp2. set (k := page_size size1) in *. set (rows := ledger_rows "" (k + 1) (w_db w)) in *.
  unfold page in Hp1. destruct (k <? Z.of_nat (length rows)); [|by injection Hp1 as _ ->].
  injection Hp1 as -> Htk. destruct (rows !! Z.to_nat k) as [r|] eqn:Er; [|done].
  split_and!.
  - rewrite Htk. apply in_map, list_elem_of_In, (ledger_rows_sub "" (k + 1)). by eapply list_elem_of_lookup_2.
  - rewrite Htk. pose proof (ledger_rows_distinct (k + 1) (w_db w) Hn) as Hnd. fold rows in Hnd.
    rewrite <- (take_drop_middle rows _ r Er), map_app in Hnd. apply NoDup_app in Hnd as (_ & Hnd & _).
    intros Hin. apply (Hnd (lr_ID r)); [by apply list_elem_of_In|]. simpl. apply elem_of_cons. by left.
  - intros (x & Hx & Hin)%in_map_iff. revert Hx. apply (ledger_rows_after token (page_size size2 + 1) (w_db w)); [done|].
    unfold page in Hp2. destruct (_ <? _); injection Hp2 as -> _; [|by apply list_elem_of_In].
    apply list_elem_of_In in Hin. by apply (subseteq_take _ _ x) in Hin.
Qed.

Definition three_ledgers : list request :=
  [Create {| cl_ID := "a"; cl_BucketID := ""; cl_Metadata := None |};
   Create {| cl_ID := "b"; cl_BucketID := ""; cl_Metadata := None |};
   Create {| cl_ID := "c"; cl_BucketID := ""; cl_Metadata := None |}].
Definition page1 := run sample_env (ListLedgers Pool {| lp_PageSize := 1; lp_PageToken := "" |}) (after three_ledgers).
Definition page2 := run sample_env (ListLedgers Pool {| lp_PageSize := 1; lp_PageToken := "b" |}) (snd page1).
Definition rows_of {A} (x : result (A * string) * World) (d : A) : A :=
  match fst x with Ok (l, _) => l | Err _ => d end.

Lemma page_boundary_lost_witness :
  (In "b" (map lr_ID (ledgers (w_db (after three_ledgers)))) /\
   ~ In "b" (map lr_ID (rows_of page1 [])) /\ ~ In "b" (map lr_ID (rows_of page2 []))) /\
  map lr_ID (rows_of page1 []) = ["a"] /\ map lr_ID (rows_of page2 []) = ["c"].
Proof.
  split; [|split; vm_compute; reflexivity].
  apply (page_boundary_lost sample_env sample_env (after three_ledgers) 1 1 (rows_of page1 []) "b" (snd page1)
           (rows_of page2 []) "" (snd page2)).
  - vm_compute. reflexivity.
  - apply (bool_decide_unpack _). vm_compute. exact I.
  - vm_compute. reflexivity.
  - discriminate.
  - vm_compute. reflexivity.
Defined.

(** ** Runs of the sample service *)

Definition metadata_intent (ty : string) (target : Z) (id key : string) (m : gomap) : BatchIntent :=
  {| bi_Type := ty; bi_Postings := []; bi_Reference := ""; bi_Metadata := m; bi_IdempotencyKey := "";
     bi_Source := ""; bi_DestinationHint := ""; bi_Asset := ""; bi_Amount := None; bi_ExpiresAt := 0; bi_HoldID := "";
     bi_Destination := ""; bi_OriginalTxID := id; bi_Force := false; bi_AtEffectiveDate := false; bi_Reason := "";
     bi_ConvertParams := None; bi_TargetType := target; bi_TargetID := id; bi_MetadataKey := key |}.

Definition outcome (i : BatchIntent) (w : World) : result SubmitResult * World := run sample_env (executeIntent "main" i) w.
Definition vip : gomap := Some {["tier" := JStr "vip"]}.

(** The metadata of an account. *)
Definition account_metadata (a : string) (w : World) : option json :=
  option_map ac_Metadata (find_account "main" a (w_db w)).

(** Deleting a key of an account's metadata succeeds and leaves the key where it was: the
    upsert merges the remaining metadata into the stored one. *)
Example account_key_not_deleted :
  let w1 := snd (outcome (metadata_intent "set_metadata" 0 "alice" "" vip) sample_world) in
  let r := outcome (metadata_intent "delete_metadata" 0 "alice" "tier" None) w1 in
  is_ok (fst r) = true /\ account_metadata "alice" (snd r) = account_metadata "alice" w1 /\
  account_metadata "alice" w1 = Some (JObj [("tier", JStr "vip")]).
Proof. vm_compute. split_and!; reflexivity. Qed.

(** A transaction posted without metadata is stored with a JSON null; the first amendment
    appends to it, which makes an array, and the transaction cannot be read any more. *)
Example amended_unreadable :
  let r := outcome (metadata_intent "amend" 1 "ulid8" "" vip) sample_world in
  is_ok (fst (run sample_env (GetTransaction Pool "main" "ulid8") sample_world)) = true /\
  is_ok (fst r) = true /\
  is_ok (fst (run sample_env (GetTransaction Pool "main" "ulid8") (snd r))) = false.
Proof. vm_compute. split_and!; reflexivity. Qed.

(** A key used by a post of an ALL_OR_NOTHING batch is not recorded, but the log carries
    it: a later request under the key can neither be answered from the record nor succeed. *)
Example batch_key_stuck :
  let w1 := snd (run sample_env (SubmitBatch "main" [post_intent "kb" [pay "_world" "bob" 5]] "ALL_OR_NOTHING") sample_world) in
  length (log_events (w_db w1)) = 6%nat /\ find_ik "main" "kb" (w_db w1) = None /\
  fst (outcome (post_intent "kb" [pay "_world" "bob" 5]) w1) = Err (ESent ErrIdempotencyKeyConflict).
Proof. vm_compute. split_and!; reflexivity. Qed.
