(* ===== verification/Interleaved.v ===== *)
(** * Requests that interleave keep the journal

    Any requests of Service.v but imports, each on a connection of its own, at READ
    COMMITTED, under any schedule: what Raced.v says of the steps holds of the committed
    database at every moment; and serving them one at a time is one of the schedules. What
    does not hold follows: runs whose outcome no sequence of the same requests has, two
    posts that spend the same funds, two reverts of one transaction, and an approval that
    is executed and recorded as expired. Each is played along a schedule. *)
From S2P Require Import Prelude GoStd Config Regex Accounts Assets Policy Sha256 Json Storage Db Prog.
From S2P Require Import Logic Postgres BatchManager Redis Chart Planner Cores Operations IntentJson Approval Bodies Interleaving Schedule StoreRules.
From S2P Require Import Proto Auth RateLimit Grpc Queries Transfer Rpc.
From S2P Require Import Effects ApprovalSteps Ledger Raced Solvency Requests Intents Batches Expiry Checkpoint Approvals ServiceLogic.
From S2P Require Import Moves Concurrent TransferSteps RpcSteps Worker Service Samples.

(** What is reachable one request after the other is a database to start from. *)
Lemma reachable_raced d : reachable d -> raced_inv d.
Proof.
  intros Hr. split; [apply reachable_inv, Hr|]. destruct (reachable_approvals d Hr) as [Hk Ho]. split; [done|].
  eapply Forall_impl; [exact Ho|]. intros a [H1 H2 H3]. split; [done..|]. intros Hs. apply H3. set_solver.
Qed.

Section Interleaved.
Context `{Deps, Jwt} (tz : Z -> Z).

(** One process per list of requests, which it serves in order. *)
Definition processes (rss : list (list request)) : list (proc unit) := map (fun rs => fresh (serve_all tz rs)) rss.
Definition no_imports (rss : list (list request)) : Prop := Forall (fun rs => existsb imports_in rs = false) rss.

Lemma processes_ok d rss : no_imports rss -> sys_ok raced (d, processes rss).
Proof.
  intros Hn. unfold processes. rewrite <- (map_map (serve_all tz) fresh). apply fresh_ok, Forall_forall.
  intros m (rs & -> & Hrs)%list_elem_of_fmap. unfold no_imports in Hn. rewrite Forall_forall in Hn.
  eapply conforms_mono; [apply (sl_serve_all tz (P := @obeys)); [done|intros _; by apply Hn]|]. done.
Qed.

Lemma processes_keep d d' ps rss :
  raced_inv d -> no_imports rss -> rtc sys_step (d, processes rss) (d', ps) -> raced_inv d'.
Proof.
  intros Hi Hn Hs. destruct (run_interleaved raced raced_batches _ _ (processes_ok d rss Hn) Hs) as [_ Hr].
  by eapply raced_keeps, raced_rtc.
Qed.

(** *** One request at a time *)

(** [turns] names the process that serves its next request: the requests in the order they
    are served, and those that are left. *)
Fixpoint taken (turns : list nat) (rss : list (list request)) : list request * list (list request) :=
  match turns with
  | [] => ([], rss)
  | i :: ts =>
      match rss !! i with
      | Some (r :: rs) => let '(q, rss') := taken ts (<[i := rs]> rss) in (r :: q, rss')
      | _ => taken ts rss
      end
  end.

Lemma processes_serve rss : processes rss = map fresh (map (serve_all tz) rss).
Proof. unfold processes. by rewrite map_map. Qed.
Lemma served_insert i rs rss : map (serve_all tz) (<[i := rs]> rss) = <[i := serve_all tz rs]> (map (serve_all tz) rss).
Proof. apply (list_fmap_insert (serve_all tz)). Qed.

Lemma taken_alone E turns rss (w : World) :
  no_imports rss -> w_tx w = TxNone ->
  wp E (serve_all tz (fst (taken turns rss))) w (fun _ w' =>
    w_tx w' = TxNone /\ rtc sys_step (w_db w, processes rss) (w_db w', processes (snd (taken turns rss)))).
Proof.
  revert rss w. induction turns as [|i ts IH]; intros rss w Hn Hw; [by split|]. cbn [taken].
  destruct (rss !! i) as [[|r rs]|] eqn:Hi; [by apply IH| |by apply IH].
  assert (Hr : existsb imports_in (r :: rs) = false) by (by eapply (Forall_lookup_1 _ _ _ _ Hn)).
  destruct (orb_false_elim _ _ Hr) as [Hr1 Hrs].
  assert (Hn' : no_imports (<[i := rs]> rss)) by (by apply Forall_insert).
  specialize (IH (<[i := rs]> rss)). destruct (taken ts (<[i := rs]> rss)) as [q rss']. cbn [fst snd] in *. cbn [serve_all].
  apply wp_bind. eapply wp_mono.
  - apply (turn_alone raced E (serve tz r) (fun _ => serve_all tz rs) w i (map (serve_all tz) rss)); [by rewrite list_lookup_fmap, Hi| |exact Hw].
    by apply (sl_serve tz (P := @obeys)).
  - intros _ w1 [Hw1 Hs]. eapply wp_mono; [by apply IH|]. intros _ w2 [Hw2 Hs2]. split; [done|]. etransitivity; [|exact Hs2].
    rewrite processes_serve, (processes_serve (<[i := rs]> rss)), served_insert. exact Hs.
Qed.
End Interleaved.

(** Serving requests (but imports) one at a time, in any order that keeps the order of each process,
    with any failures, is one of the interleavings: what holds however requests interleave
    holds of [run]. *)
Theorem serial_interleaves `{Deps, Jwt} tz E turns rss (w : World) :
  no_imports rss -> w_tx w = TxNone ->
  let '(rs, rss') := taken turns rss in
  wp E (serve_all tz rs) w (fun _ w' =>
    w_tx w' = TxNone /\ rtc sys_step (w_db w, processes tz rss) (w_db w', processes tz rss')).
Proof. intros Hn Hw. pose proof (taken_alone tz E turns rss w Hn Hw) as Hs. by destruct (taken turns rss). Qed.

(** C6: Whatever requests other than imports interleave, under any schedule and any failures,
    the books balance, each log is numbered without gaps, an idempotency key is recorded at most once, by the
    event it names, and no hold is captured beyond its amount. An import appends to the log
    without the lock of the ledger, and is left out ([no_imports]). *)
Theorem interleaved_journal `{Deps, Jwt} tz d d' ps rss :
  raced_inv d -> no_imports rss -> rtc sys_step (d, processes tz rss) (d', ps) ->
  (forall l a, trial l a (volumes_delta d') = 0) /\
  (forall l, map ev_LedgerSeq (ledger_log l d') = seqZ 1 (Z.of_nat (length (ledger_log l d')))) /\
  NoDup (map ev_EventID (log_events d')) /\
  NoDup (map ik_key (idempotency_keys d')) /\
  (forall r, r ∈ idempotency_keys d' -> exists ev, ev ∈ log_events d' /\ recorded_by r ev) /\
  Forall hold_ok (holds d').
Proof.
  intros Hi Hn Hs. destruct (processes_keep tz d d' ps rss Hi Hn Hs) as [[H1 H2 H3 H4 H5 H6 H7 H8 H9] _]. by split_and!.
Qed.

(** C7: Whatever requests other than imports interleave, an approval carries the signatures
    of approvers it names only, each once, and never its submitter's; and when it is
    executing or executed, that of every approver it names with a name that is not empty
    (an empty one counts as signed, see [complete]). *)
Theorem interleaved_dual_control `{Deps, Jwt} tz d d' ps rss a :
  raced_inv d -> no_imports rss -> rtc sys_step (d, processes tz rss) (d', ps) -> a ∈ pending_approvals d' ->
  NoDup (signed_by a) /\ (forall p, p ∈ signed_by a -> p ∈ named a /\ p <> pa_SubmittedBy a) /\
  (pa_State a ∈ ["executing"; "executed"] -> complete a).
Proof.
  intros Hi Hn Hs Ha. destruct (processes_keep tz d d' ps rss Hi Hn Hs) as [_ [_ Hd]].
  rewrite Forall_forall in Hd. by destruct (Hd a Ha).
Qed.

(** ** What interleaving breaks *)

(** Process [i] makes [n] moves. *)
Definition goes (i n : nat) : list (nat * bool) := repeat (i, false) n.
Definition looks (i n : nat) : list (nat * bool) := repeat (i, true) n.

Definition did_something (r : option (result SubmitResult)) : bool :=
  match r with Some (Ok a) => negb (sr_IdempotentHit a) | _ => false end.

(** *** Two posts of 50 from alice, who has 80 *)

Definition spend (key : string) : M SubmitResult := executeIntent "main" (post_intent key [pay "alice" "carol" 50]).

Lemma double_spend_plays :
  plays sample_env (looks 0 8 ++ looks 1 8 ++ goes 1 26 ++ goes 0 26) (w_db sample_world) sample_world [spend "r1"; spend "r2"]
    (fun d rs => map did_something rs = [true; true] /\ available "main" "alice" "USD/2" d = -20).
Proof. vm_compute. repeat split. Qed.

(** *** Two reverts of the post of 100 to alice *)

Definition posted_world : World :=
  after [Create {| cl_ID := "main"; cl_BucketID := ""; cl_Metadata := None |}; Intent "main" (post_intent "k1" [pay "_world" "alice" 100])].
Definition take_back (key : string) : M SubmitResult := executeIntent "main" (revert_intent key "ulid8").

Lemma double_revert_plays :
  plays sample_env (looks 0 11 ++ looks 1 11 ++ goes 1 26 ++ goes 0 26) (w_db posted_world) posted_world [take_back "r1"; take_back "r2"]
    (fun d rs => map did_something rs = [true; true] /\ reverted d = [("main", "ulid8"); ("main", "ulid8")] /\
       available "main" "alice" "USD/2" d = -100).
Proof. vm_compute. repeat split. Qed.

(** *** An approval, signed within its deadline while the sweep expires it *)

Definition waiting_world : World :=
  after [Create {| cl_ID := "main"; cl_BucketID := ""; cl_Metadata := None |};
         ForApproval "main" (Some sample_payload) (Some ["bob"]) "alice" (6 * Second)].
Definition sign_and_sweep : list (prog unit) := [ignore (Approve "main" "ulid3" "bob" "sig"); ignore (ExpireStaleApprovals (5 * Minute))].

Lemma expired_execution_plays :
  plays sample_env (goes 0 7 ++ looks 1 1 ++ goes 0 1 ++ goes 1 1 ++ goes 0 60 ++ goes 1 5) (w_db waiting_world) waiting_world sign_and_sweep
    (fun d rs => rs = [Some tt; Some tt] /\ map pa_State (pending_approvals d) = ["expired"] /\
       existsb (fun ev => String.eqb (ev_IdempotencyKey ev) (approvalExecutionKey "ulid3")) (log_events d) = true /\
       posted "main" "carol" "USD/2" (volumes_delta d) = 25).
Proof. vm_compute. repeat split. Qed.

(** *** The runs *)

(** Two concurrent posts of 50 from an account that has 80 both succeed, and leave it at
    -20: the balance check reads before the ledger is locked. *)
Theorem double_spend : exists d' ps,
  rtc sys_step (w_db sample_world, map fresh [spend "r1"; spend "r2"]) (d', ps) /\
  map did_something (map result_of ps) = [true; true] /\
  available "main" "alice" "USD/2" (w_db sample_world) = 80 /\ available "main" "alice" "USD/2" d' = -20.
Proof.
  destruct (plays_run _ _ _ _ _ _ double_spend_plays) as (d' & ps & Hs & Hr & Ha). exists d', ps.
  split_and!; [exact Hs|exact Hr|by vm_compute|exact Ha].
Qed.

(** Two concurrent reverts of one transaction both succeed: the relationships they check
    are read before the ledger is locked, and nothing makes the revert of a transaction unique. *)
Theorem double_revert : exists d' ps,
  rtc sys_step (w_db posted_world, map fresh [take_back "r1"; take_back "r2"]) (d', ps) /\
  map did_something (map result_of ps) = [true; true] /\
  reverted d' = [("main", "ulid8"); ("main", "ulid8")] /\ available "main" "alice" "USD/2" d' = -100.
Proof.
  destruct (plays_run _ _ _ _ _ _ double_revert_plays) as (d' & ps & Hs & Hr). exists d', ps. split; [exact Hs|exact Hr].
Qed.

(** An approval signed within its deadline, while the sweep that listed it as overdue has
    yet to update it, is executed and then recorded as expired: the update of the sweep is not
    conditional on the state. *)
Theorem expired_execution : exists d' ps,
  rtc sys_step (w_db waiting_world, map fresh sign_and_sweep) (d', ps) /\
  map result_of ps = [Some tt; Some tt] /\ map pa_State (pending_approvals d') = ["expired"] /\
  existsb (fun ev => String.eqb (ev_IdempotencyKey ev) (approvalExecutionKey "ulid3")) (log_events d') = true /\
  posted "main" "carol" "USD/2" (volumes_delta d') = 25.
Proof.
  destruct (plays_run _ _ _ _ _ _ expired_execution_plays) as (d' & ps & Hs & Hr). exists d', ps. split; [exact Hs|exact Hr].
Qed.

(** ** Runs that keep the journal *)

(** Two processes that overdraw an account keep the books. *)
Definition spenders : list (list request) :=
  [[Intent "main" (post_intent "r1" [pay "alice" "carol" 50])]; [Intent "main" (post_intent "r2" [pay "alice" "carol" 50])]].
Lemma spenders_play :
  plays sample_env (looks 0 8 ++ looks 1 8 ++ goes 1 26 ++ goes 0 26) (w_db sample_world) sample_world (map (serve_all utc) spenders)
    (fun d rs => rs = [Some tt; Some tt] /\ available "main" "alice" "USD/2" d = -20).
Proof. vm_compute. repeat split. Qed.
Lemma interleaved_journal_witness : exists d' ps,
  rtc sys_step (w_db sample_world, processes utc spenders) (d', ps) /\ available "main" "alice" "USD/2" d' = -20 /\
  trial "main" "USD/2" (volumes_delta d') = 0.
Proof.
  destruct (plays_run _ _ _ _ _ _ spenders_play) as (d' & ps & Hs & _ & Ha). rewrite map_map in Hs. exists d', ps.
  split; [exact Hs|]. split; [exact Ha|].
  apply (interleaved_journal utc (w_db sample_world) d' ps spenders); [apply reachable_raced, sample_reachable|by repeat constructor|exact Hs].
Defined.

Definition signers : list (list request) :=
  [[ApproveOne "main" "ulid3" "bob" "sig"]; [ExpireApprovals (5 * Minute)]].
Lemma signers_play :
  plays sample_env (goes 0 60 ++ goes 1 5) (w_db waiting_world) waiting_world (map (serve_all utc) signers)
    (fun d rs => rs = [Some tt; Some tt] /\ map pa_State (pending_approvals d) = ["executed"]).
Proof. vm_compute. repeat split. Qed.
Lemma interleaved_dual_control_witness : exists d' ps a,
  rtc sys_step (w_db waiting_world, processes utc signers) (d', ps) /\ a ∈ pending_approvals d' /\ pa_State a = "executed" /\ complete a.
Proof.
  destruct (plays_run _ _ _ _ _ _ signers_play) as (d' & ps & Hs & _ & Ha). rewrite map_map in Hs.
  destruct (pending_approvals d') as [|a t] eqn:Ep; [done|]. injection Ha as Ha _. exists d', ps, a.
  assert (Hin : a ∈ pending_approvals d') by (rewrite Ep; by left). split; [exact Hs|]. split; [exact Hin|]. split; [exact Ha|].
  apply (interleaved_dual_control utc (w_db waiting_world) d' ps signers a);
    [apply reachable_raced, served_reachable|by repeat constructor|exact Hs|exact Hin|]. rewrite Ha. set_solver.
Defined.

(** The spenders in turn: only the first post is covered. *)
Lemma serial_interleaves_witness : exists d',
  rtc sys_step (w_db sample_world, processes utc spenders) (d', processes utc [[]; []]) /\ available "main" "alice" "USD/2" d' = 30.
Proof.
  pose proof (serial_interleaves utc sample_env [0; 1]%nat spenders sample_world ltac:(by repeat constructor) eq_refl) as Hs.
  destruct (taken [0; 1]%nat spenders) as [rs rss] eqn:Et. vm_compute in Et. injection Et as <- <-.
  unfold wp in Hs. destruct (run _ _ _) as [u w'] eqn:Er. exists (w_db w'). split; [apply Hs|].
  replace w' with (snd (u, w')) by done. rewrite <- Er. vm_compute. reflexivity.
Defined.
